(* ===== verification/_CoqProject ===== *)
-Q . S2P
Prelude.v
SkipMap.v
Deque.v
TimedMap.v
Extern.v
Schedule.v
Job.v
Options.v
Names.v
Catcher.v
Events.v
Shared.v
Metrics.v
InMemoryStore.v
StoreProps.v
StoreScored.v
StoreRecords.v
StoreInsert.v
UnitTests.v
Collector.v
Tracker.v
Sampling.v
Queue.v
Promotion.v
QueueInv.v
QueueProps.v
Lifecycle.v
Suite.v
Access.v
IntervalTimer.v
IntervalTests.v
Timers.v
Worker.v
Callbacks.v
WorkerSuite.v
Examples.v
WorkerProps.v
WorkerDrain.v
RedisServer.v
RedisCodec.v
RedisVersion.v
RedisStore.v
RedisFacts.v
RedisSample.v
RedisProps.v
RedisRecords.v
RedisInsert.v
RedisRace.v
RedisEvents.v
RocksDb.v
RocksStore.v
RocksSample.v
Backend.v
BackendMemory.v
BackendRedis.v
BackendRocks.v
StoresAgree.v
Locks.v
RocksInsert.v
