(* ===== verification/Prelude.v ===== *)
(** * A verification of KioMQ, a task queue for Rust

    KioMQ keeps jobs in a store, lets queues move them between collections
    (waiting, prioritized, delayed, active, completed, failed, paused, stalled),
    hands them to workers under locks, and drives everything that takes time
    with one global timer collector.  This library models the program with its
    in-memory, its Redis and its RocksDB store, operation by operation, and proves
    what the operations do, what their sequences preserve, how concurrent uses
    interleave, and that the three stores agree.

    ** How the parts interact, and where they are

    Foundations:

    - [Prelude] (this file): 64-bit integers with their casts and wrapping
      operations, the outcome monad (value, error or panic, with the state
      threaded through all three), loops, [preserves] and [returns] with the
      tactics that walk through a computation, shared lemmas.
    - [SkipMap]: the interface of the ordered concurrent map the program takes
      from a package, as operations and laws, with two implementations (keyed by
      integers and by strings) that satisfy them.  All components are proved
      against the interface; witnesses run on the implementations.
    - [Deque] ([src/utils/concurrent_structures.rs]): the double-ended queue on
      a skip list; sequentially it refines a list, and its pushes and pops,
      split into their atomic accesses, lose and duplicate nothing.
    - [TimedMap] ([src/timers/concurrent_timed_map.rs]): the map whose entries
      may have a deadline.  Clock readings are arguments.
    - [Extern]: packages outside the repository (cron schedules, the range of dates
      and time conversions, histograms) as a class, and the error types of
      [src/error/mod.rs].
    - [Catcher] ([src/error/backtrace_utils.rs]): catching the panics of a future,
      with the panic hook of the process and the static cell as shared state, and
      the interleavings of concurrent calls.
    - [Schedule] ([src/job/backoff.rs], [delay.rs], [repeat.rs]): when a job
      runs, is retried or repeated.
    - [Job] ([src/job/mod.rs]), [Options] ([src/queue/options.rs]), [Events]
      ([src/events]), [Metrics] ([src/worker/worker_opts.rs],
      [src/metrics]): records, options, collection tags, counters, events.
    - [Shared] (event helpers of [src/utils/mod.rs]): the cells a queue shares
      with its store, whatever store it is ([SysOf]): metrics, pause signal,
      notifications, emitted events, the count of clock readings; and what an
      event does to them.

    The in-memory store and the queue on it:

    - [InMemoryStore] ([src/stores/inmemory_store.rs]): the store as a record,
      one definition per operation of the [Store] trait.
    - [StoreProps], [StoreScored], [StoreRecords], [StoreInsert]: the store's
      theorems; order of the waiting list, pausing, windows of delayed jobs,
      scored sets, paging, counters, permanence of records over every run of
      store steps, placement of inserted jobs, batches that are refused,
      identifiers under concurrency.
    - [Collector] ([src/metrics/process_metrics.rs], timer requests of
      [src/timers/delay_queue_timer.rs]): the task that owns all timers, as a
      step relation.
    - [Tracker] ([src/metrics/process_tree_tracker.rs]): CPU and memory of the
      process and its children, on Linux and elsewhere, from the readings of the
      system; floating-point numbers and the system package are classes.
    - [Sampling] (the stream of samples of [src/metrics/process_metrics.rs], the
      histogram wrapper of [src/metrics/worker_metrics.rs]): what the samples of
      a process contain, and histograms as bytes.
    - [Queue] ([src/queue/mod.rs]): the queue's own state and its methods.
      [QueueInv] collects the methods in a step relation and proves what every
      sequence of them keeps; [QueueProps] proves what each method does on every
      branch; [Access] has the methods that pass a call on to the store.
    - [Promotion] ([promote_jobs] of [src/utils/mod.rs], [promote_delayed_jobs] of
      [src/queue/mod.rs]): a pass over the delayed jobs of a window.
    - [Lifecycle]: an abstract queue on plain lists, with jobs in the order of
      arrival and prioritized ones behind them by the lower half of their priority, and the proof that sequences of
      adding, taking, finishing and cleaning up answer as it does.
    - [IntervalTimer] ([src/timers/mod.rs]): the stand-alone repeating timer, its
      callers and its loops interleaved with the passing of time; [IntervalTests],
      its tests, whose sleeps are arbitrary stretches of that relation.
    - [Timers] ([src/timers/delay_queue_timer.rs]): the task that promotes delayed
      jobs and answers timers.
    - [Worker] ([src/worker/mod.rs], [process_job], [get_next_job] and
      [main_loop] of [src/utils/mod.rs]): life cycle, the main loop as a program
      counter with one definition per stretch between suspension points, the
      processing of one job, and the relation that interleaves loops, job tasks,
      callers, timers and other users of the queue.  [WorkerProps] proves what a
      job task leaves in the map of jobs in progress and in the counters;
      [WorkerDrain] that a cancelled worker stops.
    - [Callbacks] ([src/utils/processor_types.rs], [returned] of [process_job],
      the constructors of [src/worker/mod.rs]): the user's functions, blocking or
      asynchronous, and what a worker learns of a run of them.
    - [UnitTests], [Suite] ([src/macros/queue_test_suit.rs]), [WorkerSuite]
      ([src/macros/worker_test_helper.rs]): the tests of the program, as programs
      over the modelled operations.
    - [Examples] ([examples/basic.rs], [examples/video_transcoding.rs]): the first
      example as such a program, and the second one with its processor, which turns
      the events of a run of ffmpeg into progress reports and a result.

    The Redis store:

    - [Names] ([CollectionSuffix::to_collection_name] and the texts of
      [src/queue/options.rs], [src/job/mod.rs]): numbers and collection names as
      text, and that different collections have different keys.
    - [RedisServer]: the server as a class, which executes commands on data that
      only it has; [RedisLaws] states the documented behaviour of the commands
      the program sends, [respond], including deadlines, wrong types and
      overflow.  A server that follows the laws is given for the witnesses.
    - [RedisCodec] ([src/job/mod.rs], [src/events/redis_events.rs],
      [serialize_into_pairs]): jobs as hashes, events as messages and stream
      entries; the JSON package is a class with laws.
    - [RedisVersion]: the version report, and that a printed version is parsed.
    - [RedisStore] ([src/stores/redis_store.rs], [prepare_for_insert],
      [query_all_batched], [get_queue_metrics] and the listener of
      [src/utils/mod.rs]): one definition per operation, as the commands it sends
      and what it makes of the replies.
    - [RedisFacts], [RedisSample]: how commands and pipelines behave under the
      laws; instances for the witnesses.
    - [RedisProps], [RedisRecords], [RedisInsert], [RedisRace], [RedisEvents]: what
      the operations do without a server, what pausing moves, how records are read
      back, what adding jobs leaves behind, also when two callers do it at once,
      and which events listeners get.

    The RocksDB store:

    - [RocksDb]: the database as a class, families of keys and values, with
      [RocksLaws] for the documented behaviour of the calls; the JSON package as
      far as this store uses it; big-endian numbers and keys.
    - [RocksStore] ([src/stores/rocksdb_store.rs]): one definition per operation,
      reading and writing whole collections; [RocksSample] has the instances for
      the witnesses.
    - [RocksInsert]: what a batch of jobs leaves in the database, and what is left
      when one of them is refused.

    The stores together:

    - [Backend]: a specification of the [Store] trait's operations on lists and
      scored collections, as steps on plain lists, and the class of stores that
      implement it; [BackendMemory], [BackendRedis] and [BackendRocks] are its
      instances; [StoresAgree] draws the conclusion.
    - [Locks]: what becomes of a lock when its time is over, in each of the three.

    ** Conventions

    A [u64], [i64] or [usize] is a [Z]; arithmetic is that of a release build,
    so it wraps.  A [Uuid] is its number.  A map keyed by a type the program
    orders is a skip map.  A panic is an outcome of its own.  A date is a [Z] in
    nanoseconds; the sum of a date and a duration panics outside the range of dates
    ([dt_add]), and [dated] says that it does not.  Instants have no such range.  Every reading of
    a clock takes the next value of an arbitrary clock ([Clock]), so theorems
    hold for all of them.  A [compare_exchange] or [fetch_add] is one update;
    where the program splits an update into two accesses and a theorem depends
    on it, the model has two steps ([Deque], [StoreInsert], [Worker],
    [IntervalTimer]).

    Some definitions take fuel.  [drain] in [InMemoryStore] gets one more than
    the length of the list being emptied, and [StoreProps] proves that the list
    is then empty; [chunks] in [RedisStore] gets the number of commands, and
    every chunk takes at least one.  [timer_task] and [listener] recurse on the
    list of their inputs.  In the tests, [turns] of [WorkerSuite] gives a worker
    a number of turns, and a wait that has not ended by then fails the test, so
    that a test that passes has ended, and so do the main programs of [Examples]
    (the first is evaluated with twelve jobs instead of a thousand); [settle] of [IntervalTests] gives a loop
    twenty stretches, more than it has before it waits, and every sleep that a
    theorem speaks of comes with the proof that the loop did wait.

    ** What the theorems show

    The queue refines an abstract one: every job runs once, in the order of
    arrival or by priority, of which the lower 32 bits count.
    Data structures refine their specifications (lists, partial maps); the tag
    encoding is injective and decodes; back-off delays are those of the
    formulas, with their overflow.  The store's operations are characterized
    exactly, its records never expire, its counters mean what they say, and a
    batch that is refused keeps what was added before.  Taking
    a job yields the oldest waiting or least-score job, marked active under the
    caller's token; finishing, retrying, cleaning up and wiping do what the code
    intends, with their errors.  Along every run the pause flag of a queue is
    frozen and nothing is ever recovered from the stalled set.  A worker
    respects its concurrency under all interleavings and stops once it is
    cancelled; timers are answered without failure, and re-armed unless another timer
    of the same duration is pending.  The Redis and
    the RocksDB store answer as the in-memory one wherever they are meant to agree;
    the Redis store reads back the records it writes, and what each of its operations
    returns without a server is stated; a batch refused by the RocksDB store queues nothing.  Jobs and events
    are read back as they were written, up to what the encodings drop.  The verdict
    on a processor is determined for both kinds of them.  The tests of the program
    pass, some under every clock and schedule, others only when two timers that are
    due at once are served in one order.  Some theorems state
    behaviour that differs from the documentation, among them the timers of equal
    duration that are dropped, the promotion that keeps one job of a window, the
    wake-up that can be lost, the worker that cannot be closed while it sleeps,
    the Redis counter that doubles until it overflows, the locks that can be
    extended after their time in Redis and never in RocksDB, the identifiers that two
    callers of a Redis queue can share, the panic hook that is lost when the later of two overlapping calls ends last, the
    delays and retries that panic outside the range of dates,
    and the metrics whose deadline is never renewed.

    ** What is not modelled

    Tracing, the registration of listeners in the emitter package (emitted events
    are recorded), the construction of channels and connection pools, the opening
    of databases, the benchmarks, the files and downloads of the second example, and
    two tests of the worker suite, which depend on the global timers and on the
    runtime's task monitor.  The abstract queue of [Lifecycle] has no delayed jobs:
    the code loses some of them, as a theorem of [Timers] shows.
    The queue and the worker are modelled on the in-memory store; that they may run
    on the others is what [StoresAgree] is for. *)

From stdpp Require Export base list gmap strings numbers sorting.
From Stdlib Require Export ZArith Lia.

#[export] Set Default Goal Selector "!".
#[export] Set Warnings "-clear-no-such-hyp".

Open Scope Z_scope.

(** ** Machine integers

    Integers are kept at their Rust width: a [u64] or an [i64] is a [Z], and
    the casts and the wrapping operations are written out. *)

Definition two64 : Z := 2 ^ 64.
Definition two63 : Z := 2 ^ 63.
Definition u64_ok (x : Z) : Prop := 0 <= x < two64.
Definition i64_ok (x : Z) : Prop := - two63 <= x < two63.

(** [x as u64] / [i64::cast_unsigned]. *)
Definition cast_unsigned (x : Z) : Z := x mod two64.

(** [u64::cast_signed]: the two's complement reading of a 64-bit pattern. *)
Definition cast_signed (x : Z) : Z :=
  let y := x mod two64 in if y <? two63 then y else y - two64.

Definition wrapping_add_u64 (x y : Z) : Z := (x + y) mod two64.
Definition wrapping_sub_u64 (x y : Z) : Z := (x - y) mod two64.
Definition wrapping_mul_u64 (x y : Z) : Z := (x * y) mod two64.
Definition wrapping_add_i64 (x y : Z) : Z := cast_signed (x + y).
Definition wrapping_sub_i64 (x y : Z) : Z := cast_signed (x - y).
Definition wrapping_mul_i64 (x y : Z) : Z := cast_signed (x * y).

(** ** Ranges

    [VecDeque::range(start..=end)]; [None] is its panic out of bounds. *)
Definition inclusive_range {A} (start end_ : nat) (l : list A) : option (list A) :=
  if ((start <=? end_ + 1) && (end_ + 1 <=? length l))%nat
  then Some (take (end_ + 1 - start) (drop start l)) else None.

(** ** Results

    A call of the program returns a value, returns an error or panics; what it
    changed before that stays changed, so the state is threaded through every
    outcome. *)

Inductive outcome (E A : Type) : Type :=
| Ok (a : A)
| Err (e : E)
| Panic.

Arguments Ok {E A} a.
Arguments Err {E A} e.
Arguments Panic {E A}.

Definition M (E S A : Type) : Type := S -> outcome E A * S.

Definition m_ret {E S A} (a : A) : M E S A := fun s => (Ok a, s).

Definition m_bind {E S A B} (c : M E S A) (f : A -> M E S B) : M E S B :=
  fun s =>
    match c s with
    | (Ok a, s') => f a s'
    | (Err e, s') => (Err e, s')
    | (Panic, s') => (Panic, s')
    end.

Definition throw {E S A} (e : E) : M E S A := fun s => (Err e, s).
Definition panic {E S A} : M E S A := fun s => (Panic, s).
Definition gets {E S A} (f : S -> A) : M E S A := fun s => (Ok (f s), s).
Definition modify {E S} (f : S -> S) : M E S unit := fun s => (Ok tt, f s).

(** A state update that also yields a value. *)
Definition state {E S A} (f : S -> A * S) : M E S A :=
  fun s => let '(a, s') := f s in (Ok a, s').

(** [Option::expect]. *)
Definition expect {E S A} (o : option A) : M E S A :=
  match o with Some a => m_ret a | None => panic end.

(** [Option::ok_or]. *)
Definition ok_or {E S A} (o : option A) (e : E) : M E S A :=
  match o with Some a => m_ret a | None => throw e end.

(** A result that is dropped by the caller. *)
Definition ignore_result {E S A} (c : M E S A) : M E S unit :=
  fun s =>
    match c s with
    | (Panic, s') => (Panic, s')
    | (_, s') => (Ok tt, s')
    end.

(** [Result::ok]: an error becomes [None], what was changed stays changed. *)
Definition attempt {E S A} (c : M E S A) : M E S (option A) :=
  fun s =>
    match c s with
    | (Ok a, s') => (Ok (Some a), s')
    | (Err _, s') => (Ok None, s')
    | (Panic, s') => (Panic, s')
    end.

Declare Scope kio_scope.
Delimit Scope kio_scope with kio.
Notation "'let*' x := c 'in' k" := (m_bind c (fun x => k))
  (at level 10, x binder, c at level 200, k at level 200,
   format "'[v' 'let*'  x  :=  c  'in' '/' k ']'") : kio_scope.
Notation "c ;;; k" := (m_bind c (fun _ => k))
  (at level 100, right associativity) : kio_scope.
Open Scope kio_scope.

(** [for x in l { body x }], left to right, stopping at the first error. *)
Fixpoint for_each {E S A} (l : list A) (body : A -> M E S unit) : M E S unit :=
  match l with
  | [] => m_ret tt
  | x :: l' => body x ;;; for_each l' body
  end.

(** The same loop, collecting the values of the bodies. *)
Fixpoint for_collect {E S A B} (l : list A) (body : A -> M E S B) : M E S (list B) :=
  match l with
  | [] => m_ret []
  | x :: l' => let* y := body x in let* ys := for_collect l' body in m_ret (y :: ys)
  end.

(** The same loop with a mutable accumulator. *)
Fixpoint for_fold {E S A B} (l : list A) (acc : B) (body : B -> A -> M E S B) : M E S B :=
  match l with
  | [] => m_ret acc
  | x :: l' => let* acc := body acc x in for_fold l' acc body
  end.

(** [Option::unwrap_or]. *)
Definition unwrap_or {A} (d : A) (o : option A) : A :=
  match o with Some a => a | None => d end.

(** [str::to_lowercase] on ASCII text. *)
Definition ascii_lower (c : Ascii.ascii) : Ascii.ascii :=
  let n := Ascii.N_of_ascii c in
  if (65 <=? n)%N && (n <=? 90)%N then Ascii.ascii_of_N (n + 32) else c.

Fixpoint to_lowercase (s : string) : string :=
  match s with
  | EmptyString => EmptyString
  | String c s' => String (ascii_lower c) (to_lowercase s')
  end.

(** [str::starts_with] and [str::contains]. *)
Fixpoint starts_with (p s : string) : bool :=
  match p, s with
  | EmptyString, _ => true
  | String a p', String b s' => bool_decide (a = b) && starts_with p' s'
  | _, _ => false
  end.

Fixpoint contains (p s : string) : bool :=
  starts_with p s || match s with EmptyString => false | String _ s' => contains p s' end.

(** ** Hint databases and tactics of the development *)

Create HintDb kio discriminated.
Create Rewrite HintDb kio.

(** Splits every [if], [match] and [decide] of the goal or of a hypothesis
    and closes what becomes contradictory. *)
Ltac cases :=
  repeat (match goal with
          | |- context [decide ?P] => destruct (decide P)
          | |- context [match ?x with _ => _ end] => destruct x eqn:?
          | H : context [decide ?P] |- _ => destruct (decide P)
          | H : context [match ?x with _ => _ end] |- _ => destruct x eqn:?
          end; simplify_eq/=; try done).

(** Turns boolean comparisons of [Z] into propositions. *)
Ltac zify_bool :=
  repeat match goal with
         | H : (_ <? _) = true |- _ => apply Z.ltb_lt in H
         | H : (_ <? _) = false |- _ => apply Z.ltb_ge in H
         | H : (_ <=? _) = true |- _ => apply Z.leb_le in H
         | H : (_ <=? _) = false |- _ => apply Z.leb_gt in H
         | H : (_ =? _) = true |- _ => apply Z.eqb_eq in H
         | H : (_ =? _) = false |- _ => apply Z.eqb_neq in H
         | H : (_ && _) = true |- _ => apply andb_true_iff in H as [? ?]
         | H : negb _ = true |- _ => apply negb_true_iff in H
         | H : negb _ = false |- _ => apply negb_false_iff in H
         end.

(** Names the second component of every call bound by a pattern. *)
Ltac name_snd :=
  repeat match goal with
         | E : _ = (_, ?b) |- _ => is_var b; apply (f_equal snd) in E; cbn [snd] in E; subst b
         end.

(** Runs a computation of the monad one bind at a time. *)
Ltac mrun := cbv [m_bind m_ret throw panic gets modify state expect ok_or attempt]; cbn.

Lemma run_bind {E S A B} (c : M E S A) (f : A -> M E S B) s a s' :
  c s = (Ok a, s') -> m_bind c f s = f a s'.
Proof. unfold m_bind. by intros ->. Qed.

Lemma run_ret_bind {E S A B} (a : A) (f : A -> M E S B) s : m_bind (m_ret a) f s = f a s.
Proof. done. Qed.

Lemma for_fold_app {E S A B} (l1 l2 : list A) (acc : B) (body : B -> A -> M E S B) s :
  for_fold (l1 ++ l2)%list acc body s = m_bind (for_fold l1 acc body) (fun acc => for_fold l2 acc body) s.
Proof.
  revert acc s. induction l1 as [|x l1 IH]; intros acc s; [done|]. cbn [app for_fold].
  unfold m_bind in *. destruct (body acc x s) as [[b|e|] s1]; [apply IH|done|done].
Qed.

Lemma run_bind_err {E S A B} (c : M E S A) (f : A -> M E S B) s e s' :
  c s = (Err e, s') -> m_bind c f s = (Err e, s').
Proof. unfold m_bind. by intros ->. Qed.

Lemma for_collect_app {E S A B} (l l' : list A) (body : A -> M E S B) s ys s1 zs s2 :
  for_collect l body s = (Ok ys, s1) -> for_collect l' body s1 = (Ok zs, s2) ->
  for_collect (l ++ l') body s = (Ok (ys ++ zs), s2).
Proof.
  revert s ys. induction l as [|y l IH]; intros s ys Hl Hl'; cbn in *.
  - by injection Hl as <- ->.
  - unfold m_bind in *. destruct (body y s) as [[z|e'|] t]; try done.
    destruct (for_collect l body t) as [[ws|e'|] t'] eqn:Ht; try done.
    injection Hl as <- ->. by rewrite (IH t ws).
Qed.

(** A loop that collects stops at the first body that fails. *)
Lemma for_collect_err {E S A B} (l : list A) (x : A) (l' : list A) (body : A -> M E S B) s ys s1 e s2 :
  for_collect l body s = (Ok ys, s1) -> body x s1 = (Err e, s2) ->
  for_collect (l ++ x :: l') body s = (Err e, s2).
Proof.
  revert s ys. induction l as [|y l IH]; intros s ys Hl Hx; cbn in *.
  - injection Hl as _ ->. by apply run_bind_err.
  - unfold m_bind in *. destruct (body y s) as [[z|e'|] t]; try done.
    destruct (for_collect l body t) as [[zs|e'|] t'] eqn:Ht; try done.
    injection Hl as _ ->. by rewrite (IH t zs).
Qed.

(** ** Generic lemmas *)

Section Lists.
Context {A : Type}.
Implicit Types l : list A.

Lemma filter_all (P : A -> Prop) `{forall x, Decision (P x)} l :
  (forall x, x ∈ l -> P x) -> filter P l = l.
Proof.
  induction l as [|x l IH]; intros HP; [done|].
  rewrite filter_cons_True by (apply HP; by left).
  f_equal. apply IH. intros y Hy. apply HP. by right.
Qed.

Lemma filter_none (P : A -> Prop) `{forall x, Decision (P x)} l :
  (forall x, x ∈ l -> ~ P x) -> filter P l = [].
Proof.
  induction l as [|x l IH]; intros HP; [done|].
  rewrite filter_cons_False by (apply HP; by left).
  apply IH. intros y Hy. apply HP. by right.
Qed.

Lemma last_snoc_inv l x : last l = Some x -> exists l', l = l' ++ [x].
Proof. by intros [l' ->]%last_Some; exists l'. Qed.
End Lists.

Lemma NoDup_keys_inj {K V : Type} (l : list (K * V)) k v v' :
  NoDup l.*1 -> (k, v) ∈ l -> (k, v') ∈ l -> v = v'.
Proof.
  induction l as [|[k1 v1] l IH]; cbn; [set_solver|].
  intros [Hk Hn]%NoDup_cons H1 H2. 
  assert (Hno : forall x, (k1, x) ∉ l).
  { intros x Hx. apply Hk, list_elem_of_fmap. by exists (k1, x). }
  apply elem_of_cons in H1 as [H1|H1], H2 as [H2|H2]; simplify_eq; try done; [set_solver..|].
  by apply IH.
Qed.

Lemma fmap_filter_snd {K V : Type} (F : V -> Prop) `{forall x, Decision (F x)}
    (l : list (K * V)) : (filter (fun p => F p.2) l).*2 = filter F l.*2.
Proof.
  induction l as [|[k v] l IH]; [done|].
  rewrite fmap_cons, !filter_cons. cbn [snd]. case_decide; [|done]. cbn. by rewrite IH.
Qed.

(** Dropping, by key, the entries a test selects keeps exactly the entries it
    does not select, when no key is repeated. *)
Lemma filter_drop_selected {K V : Type} `{EqDecision K} (F : K * V -> Prop)
    `{forall x, Decision (F x)} (l : list (K * V)) :
  NoDup l.*1 -> filter (fun p => p.1 ∉ (filter F l).*1) l = filter (fun p => ~ F p) l.
Proof.
  intros Hn.
  assert (Hin : forall p, p ∈ l -> (p.1 ∉ (filter F l).*1 <-> ~ F p)).
  { intros [k v] Hp. cbn. rewrite list_elem_of_fmap. split.
    - intros Hno Hf. destruct Hno. exists (k, v). by rewrite list_elem_of_filter.
    - intros Hf ([k' v'] & -> & [Hf' Hp']%list_elem_of_filter). cbn in *.
      by rewrite (NoDup_keys_inj l k' v v') in Hf. }
  generalize (filter F l).*1, Hin. clear Hin Hn. intros ks.
  induction l as [|p l IH]; intros Hin; [done|].
  rewrite !filter_cons, IH by set_solver.
  specialize (Hin p). repeat case_decide; set_solver.
Qed.

(** ** What a computation may do to the state

    [preserves I c]: whatever the outcome of [c], error and panic included, the
    final state is related by [I] to the initial one. *)

Definition preserves {E S A} (I : relation S) (c : M E S A) : Prop := forall s, I s (c s).2.

Section Preserves.
Context {E S : Type} (I : relation S) `{!PreOrder I}.

Lemma preserves_ret {A} (a : A) : preserves (E := E) I (m_ret a).
Proof. by intros s. Qed.

Lemma preserves_throw {A} (e : E) : preserves (A := A) I (throw e).
Proof. by intros s. Qed.

Lemma preserves_panic {A} : preserves (E := E) (A := A) I panic.
Proof. by intros s. Qed.

Lemma preserves_gets {A} (f : S -> A) : preserves (E := E) I (gets f).
Proof. by intros s. Qed.

Lemma preserves_expect {A} (o : option A) : preserves (E := E) I (expect o).
Proof. by destruct o; intros s. Qed.

Lemma preserves_ok_or {A} (o : option A) (e : E) : preserves I (ok_or o e).
Proof. by destruct o; intros s. Qed.

Lemma preserves_modify (f : S -> S) : (forall s, I s (f s)) -> preserves (E := E) I (modify f).
Proof. intros H s. apply H. Qed.

Lemma preserves_state {A} (f : S -> A * S) :
  (forall s, I s (f s).2) -> preserves (E := E) I (state f).
Proof. intros H s. unfold state. specialize (H s). by destruct (f s). Qed.

Lemma preserves_bind {A B} (c : M E S A) (f : A -> M E S B) :
  preserves I c -> (forall a, preserves I (f a)) -> preserves I (m_bind c f).
Proof.
  intros Hc Hf s. unfold m_bind. specialize (Hc s). destruct (c s) as [[a|e|] s']; [|done..].
  etrans; [done|apply Hf].
Qed.

Lemma preserves_ignore {A} (c : M E S A) : preserves I c -> preserves I (ignore_result c).
Proof. intros H s. unfold ignore_result. specialize (H s). by destruct (c s) as [[] ?]. Qed.

Lemma preserves_attempt {A} (c : M E S A) : preserves I c -> preserves I (attempt c).
Proof. intros H s. unfold attempt. specialize (H s). by destruct (c s) as [[]]. Qed.

Lemma preserves_for_each {A} (l : list A) (body : A -> M E S unit) :
  (forall x, preserves I (body x)) -> preserves I (for_each l body).
Proof.
  intros H. induction l; cbn; [apply preserves_ret|apply preserves_bind; auto].
Qed.

Lemma preserves_for_collect {A B} (l : list A) (body : A -> M E S B) :
  (forall x, preserves I (body x)) -> preserves I (for_collect l body).
Proof.
  intros H. induction l; cbn; [apply preserves_ret|].
  apply preserves_bind; [auto|]. intros y. apply preserves_bind; [auto|].
  intros ys. apply preserves_ret.
Qed.

Lemma preserves_for_fold {A B} (l : list A) (acc : B) (body : B -> A -> M E S B) :
  (forall acc x, preserves I (body acc x)) -> preserves I (for_fold l acc body).
Proof.
  intros H. revert acc. induction l; intros acc; cbn; [apply preserves_ret|].
  apply preserves_bind; auto.
Qed.
End Preserves.

(** Walks through a computation: binds, branches and loops are split, the
    primitive leaves are closed, the others are left to the hints. *)
Ltac preserve_step :=
  match goal with
  | |- preserves _ (m_ret _) => apply preserves_ret; typeclasses eauto
  | |- preserves _ (throw _) => apply preserves_throw; typeclasses eauto
  | |- preserves _ panic => apply preserves_panic; typeclasses eauto
  | |- preserves _ (gets _) => apply preserves_gets; typeclasses eauto
  | |- preserves _ (expect _) => apply preserves_expect; typeclasses eauto
  | |- preserves _ (ok_or _ _) => apply preserves_ok_or; typeclasses eauto
  | |- preserves _ (m_bind _ _) => apply preserves_bind; [typeclasses eauto|..]
  | |- preserves _ (attempt _) => apply preserves_attempt
  | |- preserves _ (ignore_result _) => apply preserves_ignore
  | |- preserves _ (for_each _ _) => apply preserves_for_each; [typeclasses eauto|]
  | |- preserves _ (for_collect _ _) => apply preserves_for_collect; [typeclasses eauto|]
  | |- preserves _ (for_fold _ _ _) => apply preserves_for_fold; [typeclasses eauto|]
  | |- preserves _ (if ?b then _ else _) => destruct b
  | |- preserves _ (match ?x with _ => _ end) => destruct x
  | |- forall _, _ => intros
  end.
Ltac preserve := repeat first [progress cbn zeta | preserve_step | solve [eauto with kio]].

(** ** Computations that neither fail nor panic *)

Definition returns {E S A} (c : M E S A) : Prop := forall s, exists a s', c s = (Ok a, s').

Section Returns.
Context {E S : Type}.

Lemma returns_ret {A} (a : A) : returns (E := E) (S := S) (m_ret a).
Proof. intros s. by eexists _, _. Qed.

Lemma returns_gets {A} (f : S -> A) : returns (E := E) (gets f).
Proof. intros s. by eexists _, _. Qed.

Lemma returns_modify (f : S -> S) : returns (E := E) (modify f).
Proof. intros s. by eexists _, _. Qed.

Lemma returns_state {A} (f : S -> A * S) : returns (E := E) (state f).
Proof. intros s. unfold state. destruct (f s). by eexists _, _. Qed.

Lemma returns_bind {A B} (c : M E S A) (f : A -> M E S B) :
  returns c -> (forall a, returns (f a)) -> returns (m_bind c f).
Proof. intros Hc Hf s. destruct (Hc s) as (a & s' & H). rewrite (run_bind _ _ _ _ _ H). apply Hf. Qed.

Lemma returns_for_each {A} (l : list A) (body : A -> M E S unit) :
  (forall x, returns (body x)) -> returns (for_each l body).
Proof. intros H. induction l; cbn; [apply returns_ret|by apply returns_bind]. Qed.

Lemma returns_for_fold {A B} (l : list A) (acc : B) (body : B -> A -> M E S B) :
  (forall acc x, returns (body acc x)) -> returns (for_fold l acc body).
Proof.
  intros H. revert acc. induction l; intros acc; cbn; [apply returns_ret|].
  by apply returns_bind.
Qed.
End Returns.

(** Walks through a computation as [preserve] does. *)
Ltac return_step :=
  match goal with
  | |- returns (m_ret _) => apply returns_ret
  | |- returns (gets _) => apply returns_gets
  | |- returns (modify _) => apply returns_modify
  | |- returns (state _) => apply returns_state
  | |- returns (m_bind _ _) => apply returns_bind
  | |- returns (for_each _ _) => apply returns_for_each
  | |- returns (for_fold _ _ _) => apply returns_for_fold
  | |- returns (if ?b then _ else _) => destruct b
  | |- returns (match ?x with _ => _ end) => destruct x
  | |- forall _, _ => intros
  end.
Ltac return_all := repeat first [progress cbn zeta | return_step | solve [eauto with kio]].

(** ** Reading fields one after the other *)

(** The fields of an object can be read in any order when each of two names can be
    read before the other. *)
Lemma foldl_bind_perm {K V A} (read : K * V -> A -> option A) (ok : K -> Prop) l l' :
  (forall k k' b b' a, ok k -> ok k' -> k <> k' ->
     read (k, b) a ≫= read (k', b') = read (k', b') a ≫= read (k, b)) ->
  l ≡ₚ l' -> forall oa, NoDup l.*1 -> Forall (fun p => ok p.1) l ->
  foldl (fun oa p => oa ≫= read p) oa l = foldl (fun oa p => oa ≫= read p) oa l'.
Proof.
  intros Hcomm. induction 1 as [|p l l' Hp IH|p q l|l1 l2 l3 H1 IH1 H2 IH2]; intros oa Hnd Hf; [done| | |].
  - inversion Hnd; inversion Hf; subst. by apply IH.
  - cbn. f_equal. rewrite !Forall_cons in Hf. destruct Hf as (Hq & Hp & _).
    rewrite !fmap_cons, !NoDup_cons, elem_of_cons in Hnd.
    destruct oa as [a|], p as [k b], q as [k' b']; [|done]. cbn in *.
    apply Hcomm; [done|done|]. intros ->. apply (proj1 Hnd). by left.
  - rewrite IH1 by done. apply IH2; [by rewrite <- H1|by rewrite <- H1].
Qed.

(** ** Lemmas on the casts *)

Lemma cast_unsigned_small x : u64_ok x -> cast_unsigned x = x.
Proof. unfold u64_ok, cast_unsigned. apply Z.mod_small. Qed.

Lemma cast_unsigned_range x : u64_ok (cast_unsigned x).
Proof. unfold u64_ok, cast_unsigned, two64. apply Z.mod_pos_bound. lia. Qed.

Lemma cast_signed_small x : 0 <= x < two63 -> cast_signed x = x.
Proof.
  unfold cast_signed, two64, two63. intros Hx. rewrite Z.mod_small by lia.
  destruct (Z.ltb_spec x (2 ^ 63)); lia.
Qed.

Lemma cast_signed_range x : i64_ok (cast_signed x).
Proof.
  unfold i64_ok, cast_signed, two64, two63.
  pose proof (Z.mod_pos_bound x (2 ^ 64)).
  destruct (Z.ltb_spec (x mod 2 ^ 64) (2 ^ 63)); lia.
Qed.

Lemma cast_signed_i64 x : i64_ok x -> cast_signed x = x.
Proof.
  unfold i64_ok, cast_signed, two64, two63. intros Hx.
  destruct (Z.lt_ge_cases x 0).
  - replace (x mod 2 ^ 64) with (x + 2 ^ 64)
      by (symmetry; rewrite <- (Z.mod_small (x + 2 ^ 64) (2 ^ 64)) by lia;
          rewrite <- Z.add_mod_idemp_r, Z.mod_same, Z.add_0_r by lia; done).
    destruct (Z.ltb_spec (x + 2 ^ 64) (2 ^ 63)); lia.
  - rewrite Z.mod_small by lia. destruct (Z.ltb_spec x (2 ^ 63)); lia.
Qed.

Lemma cast_signed_unsigned x : i64_ok x -> cast_signed (cast_unsigned x) = x.
Proof.
  intros Hx. rewrite <- (cast_signed_i64 x) at 2 by done.
  unfold cast_signed, cast_unsigned, two64. by rewrite Z.mod_mod by lia.
Qed.

Lemma cast_unsigned_signed x : u64_ok x -> cast_unsigned (cast_signed x) = x.
Proof.
  unfold u64_ok, cast_unsigned, cast_signed, two64, two63. intros Hx.
  rewrite (Z.mod_small x) by lia. destruct (Z.ltb_spec x (2 ^ 63)).
  - by rewrite Z.mod_small by lia.
  - rewrite <- (Z.mod_add _ 1) by lia. rewrite Z.mod_small; lia.
Qed.

#[export] Hint Resolve cast_unsigned_range cast_signed_range : kio.
