(* ===== verification/SkipMap.v ===== *)
(** * Ordered concurrent maps

    The program keeps its collections in [crossbeam_skiplist::SkipMap] and
    [SkipSet], a third-party package.  This file states the interface the
    program uses as a class of operations, [SkipMap], with the documented
    behaviour as a class of laws, [SkipMapLaws].  The components are written
    against the operations and their theorems are proved from the laws.  The
    module [Reference] gives a concrete instance over finite maps, which is
    what witnesses evaluate. *)

From S2P Require Import Prelude.
From Stdlib Require OrdersEx.

(** ** Key orders *)

Class KeyOrder (K : Type) := {
  key_eq_dec :: EqDecision K;
  key_lt : K -> K -> Prop;
  key_lt_dec :: RelDecision key_lt;
  key_lt_strict :: StrictOrder key_lt;
  key_total : forall x y : K, key_lt x y \/ x = y \/ key_lt y x;
}.

#[global] Instance Z_key_order : KeyOrder Z := {|
  key_eq_dec := Z.eq_dec;
  key_lt := Z.lt;
  key_lt_dec := Z.lt_dec;
  key_lt_strict := Z.lt_strorder;
  key_total := Z.lt_trichotomy;
|}.

#[global] Instance string_lt_dec : RelDecision OrdersEx.String_as_OT.lt.
Proof. intros x y. unfold OrdersEx.String_as_OT.lt. solve_decision. Defined.

Lemma string_lt_total (x y : string) :
  OrdersEx.String_as_OT.lt x y \/ x = y \/ OrdersEx.String_as_OT.lt y x.
Proof. destruct (OrdersEx.String_as_OT.compare_spec x y); auto. Qed.

(** Byte-wise lexicographic order, the [Ord] of [CompactString]. *)
#[global] Instance string_key_order : KeyOrder string := {|
  key_eq_dec := String.eq_dec;
  key_lt := OrdersEx.String_as_OT.lt;
  key_lt_dec := string_lt_dec;
  key_lt_strict := OrdersEx.String_as_OT.lt_strorder;
  key_total := string_lt_total;
|}.

(** ** [std::ops::Bound] *)

Inductive Bound (K : Type) : Type :=
| Included (k : K)
| Excluded (k : K)
| Unbounded.
Arguments Included {K} k.
Arguments Excluded {K} k.
Arguments Unbounded {K}.

Section Bounds.
Context {K : Type} `{KO : KeyOrder K}.

Definition above (lo : Bound K) (k : K) : bool :=
  match lo with
  | Included a => bool_decide (~ key_lt k a)
  | Excluded a => bool_decide (key_lt a k)
  | Unbounded => true
  end.

Definition below (hi : Bound K) (k : K) : bool :=
  match hi with
  | Included b => bool_decide (~ key_lt b k)
  | Excluded b => bool_decide (key_lt k b)
  | Unbounded => true
  end.

Definition in_range (lo hi : Bound K) (k : K) : bool := above lo k && below hi k.
End Bounds.

(** ** Operations of the package that the program calls *)

Class SkipMap (K : Type) (SM : Type -> Type) := {
  sm_new : forall {V}, SM V;
  sm_get : forall {V}, SM V -> K -> option V;
  sm_contains_key : forall {V}, SM V -> K -> bool;
  sm_insert : forall {V}, K -> V -> SM V -> SM V;
  sm_remove : forall {V}, K -> SM V -> SM V;
  sm_clear : forall {V}, SM V -> SM V;
  sm_iter : forall {V}, SM V -> list (K * V);
  sm_range : forall {V}, Bound K -> Bound K -> SM V -> list (K * V);
  sm_front : forall {V}, SM V -> option (K * V);
  sm_back : forall {V}, SM V -> option (K * V);
  sm_pop_front : forall {V}, SM V -> option (K * V) * SM V;
  sm_pop_back : forall {V}, SM V -> option (K * V) * SM V;
  sm_len : forall {V}, SM V -> Z;
  sm_is_empty : forall {V}, SM V -> bool;
}.

(** ** Documented behaviour

    Everything is stated through [sm_iter], the iteration in key order. *)

Class SkipMapLaws (K : Type) `{KO : KeyOrder K} (SM : Type -> Type)
    `{OPS : !SkipMap K SM} : Prop := {
  iter_new : forall V, sm_iter (sm_new (V := V)) = [];
  iter_sorted : forall V (m : SM V), StronglySorted key_lt (sm_iter m).*1;
  get_iter : forall V (m : SM V) k v, sm_get m k = Some v <-> (k, v) ∈ sm_iter m;
  contains_key_get : forall V (m : SM V) k,
    sm_contains_key m k = bool_decide (is_Some (sm_get m k));
  get_insert : forall V (m : SM V) k v k',
    sm_get (sm_insert k v m) k' = if decide (k = k') then Some v else sm_get m k';
  get_remove : forall V (m : SM V) k k',
    sm_get (sm_remove k m) k' = if decide (k = k') then None else sm_get m k';
  iter_clear : forall V (m : SM V), sm_iter (sm_clear m) = [];
  range_iter : forall V (m : SM V) lo hi,
    sm_range lo hi m = filter (fun p => in_range lo hi p.1) (sm_iter m);
  front_iter : forall V (m : SM V), sm_front m = head (sm_iter m);
  back_iter : forall V (m : SM V), sm_back m = last (sm_iter m);
  pop_front_spec : forall V (m : SM V),
    sm_pop_front m = (sm_front m, match sm_front m with
                                  | Some (k, _) => sm_remove k m
                                  | None => m end);
  pop_back_spec : forall V (m : SM V),
    sm_pop_back m = (sm_back m, match sm_back m with
                                | Some (k, _) => sm_remove k m
                                | None => m end);
  len_iter : forall V (m : SM V), sm_len m = Z.of_nat (length (sm_iter m));
  is_empty_iter : forall V (m : SM V), sm_is_empty m = bool_decide (sm_iter m = []);
}.

(** ** Ordered association lists

    The reference reading of a map: what insertion and removal do to the
    iteration. *)

Section AList.
Context {K : Type} `{KO : KeyOrder K} {V : Type}.
Implicit Types l : list (K * V).

Fixpoint alist_insert (k : K) (v : V) l : list (K * V) :=
  match l with
  | [] => [(k, v)]
  | (k', v') :: l' =>
      if decide (key_lt k k') then (k, v) :: l
      else if decide (k = k') then (k, v) :: l'
      else (k', v') :: alist_insert k v l'
  end.

Definition alist_remove (k : K) l : list (K * V) := filter (fun p => p.1 <> k) l.

Definition alist_sorted l : Prop := StronglySorted key_lt l.*1.

Lemma key_lt_irrefl (k : K) : ~ key_lt k k.
Proof. apply irreflexivity, StrictOrder_Irreflexive. Qed.

Lemma key_lt_ne (k k' : K) : key_lt k k' -> k <> k'.
Proof. intros H ->. by eapply key_lt_irrefl. Qed.

Lemma alist_sorted_cons k v l :
  alist_sorted ((k, v) :: l) <->
  alist_sorted l /\ forall k' v', (k', v') ∈ l -> key_lt k k'.
Proof.
  unfold alist_sorted; cbn. split.
  - intros [Hs Hf]%StronglySorted_inv. split; [done|].
    intros k' v' Hin. rewrite Forall_forall in Hf. apply Hf.
    apply list_elem_of_fmap. by exists (k', v').
  - intros [Hs Hf]. constructor; [done|]. apply Forall_forall.
    intros k' ([k'' v''] & -> & Hin)%list_elem_of_fmap. by eapply Hf.
Qed.

Lemma alist_insert_elem k v l k' v' :
  alist_sorted l ->
  (k', v') ∈ alist_insert k v l <-> (k' = k /\ v' = v) \/ (k' <> k /\ (k', v') ∈ l).
Proof.
  induction l as [|[k1 v1] l IH]; intros Hs; cbn.
  { rewrite list_elem_of_singleton. set_solver. }
  apply alist_sorted_cons in Hs as [Hs Hlt].
  repeat case_decide; subst; rewrite ?elem_of_cons, ?IH by done; simplify_eq.
  - split; [|set_solver].
    intros [Heq|[Heq|Hin]]; simplify_eq; [by left|right|right].
    + split; [by apply not_eq_sym, key_lt_ne|by left].
    + split; [|by right]. apply not_eq_sym, key_lt_ne.
      etrans; [done|by eapply Hlt].
  - split.
    + intros [Heq|Hin]; simplify_eq; [by left|right].
      split; [|by right]. apply not_eq_sym, key_lt_ne. by eapply Hlt.
    + intros [[-> ->]|[Hne [Heq|Hin]]]; simplify_eq; [by left|by right].
  - split.
    + intros [Heq|[[-> ->]|[Hne Hin]]]; simplify_eq; [right|by left|right]; auto.
    + intros [[-> ->]|[Hne [Heq|Hin]]]; simplify_eq; auto.
Qed.

Lemma alist_insert_sorted k v l : alist_sorted l -> alist_sorted (alist_insert k v l).
Proof.
  induction l as [|[k1 v1] l IH]; intros Hs; cbn.
  { apply alist_sorted_cons. split; [constructor|]. set_solver. }
  apply alist_sorted_cons in Hs as [Hs Hlt].
  repeat case_decide; subst; apply alist_sorted_cons; split.
  - by apply alist_sorted_cons.
  - intros k' v' [Heq|Hin]%elem_of_cons; simplify_eq; [done|].
    etrans; [done|by eapply Hlt].
  - done.
  - done.
  - by apply IH.
  - intros k' v' [[-> ->]|[_ Hin]]%alist_insert_elem; [|by eapply Hlt|done].
    by destruct (key_total k k1) as [?|[?|?]].
Qed.

Lemma alist_remove_elem k l k' v' :
  (k', v') ∈ alist_remove k l <-> k' <> k /\ (k', v') ∈ l.
Proof. unfold alist_remove. by rewrite list_elem_of_filter. Qed.

Lemma alist_remove_sorted k l : alist_sorted l -> alist_sorted (alist_remove k l).
Proof.
  induction l as [|[k1 v1] l IH]; intros Hs; [done|].
  apply alist_sorted_cons in Hs as [Hs Hlt].
  unfold alist_remove; rewrite filter_cons; case_decide; [|by apply IH].
  apply alist_sorted_cons. split; [by apply IH|].
  intros k' v' [_ Hin]%alist_remove_elem. by eapply Hlt.
Qed.

(** Two ordered lists with the same elements are the same list. *)
Lemma alist_sorted_unique l1 l2 :
  alist_sorted l1 -> alist_sorted l2 ->
  (forall k v, (k, v) ∈ l1 <-> (k, v) ∈ l2) -> l1 = l2.
Proof.
  revert l2. induction l1 as [|[k1 v1] l1 IH]; intros [|[k2 v2] l2] H1 H2 Heq.
  - done.
  - exfalso. destruct (Heq k2 v2) as [_ H]. set_solver.
  - exfalso. destruct (Heq k1 v1) as [H _]. set_solver.
  - apply alist_sorted_cons in H1 as [H1 Hlt1].
    apply alist_sorted_cons in H2 as [H2 Hlt2].
    assert ((k1, v1) = (k2, v2)) as Hhd.
    { pose proof (proj1 (Heq k1 v1) (list_elem_of_here _ _)) as [?|Ha]%elem_of_cons; [done|].
      pose proof (proj2 (Heq k2 v2) (list_elem_of_here _ _)) as [?|Hb]%elem_of_cons; [done|].
      exfalso. eapply key_lt_irrefl. etrans; [by eapply Hlt1|by eapply Hlt2]. }
    simplify_eq. f_equal. apply IH; [done|done|].
    intros k v. specialize (Heq k v). rewrite !elem_of_cons in Heq.
    split; intros Hin.
    + destruct (proj1 Heq (or_intror Hin)) as [?|?]; [simplify_eq|done].
      by destruct (key_lt_irrefl k2); eapply Hlt1.
    + destruct (proj2 Heq (or_intror Hin)) as [?|?]; [simplify_eq|done].
      by destruct (key_lt_irrefl k2); eapply Hlt2.
Qed.

Lemma alist_remove_head k v l :
  alist_sorted ((k, v) :: l) -> alist_remove k ((k, v) :: l) = l.
Proof.
  intros [Hs Hlt]%alist_sorted_cons. unfold alist_remove.
  rewrite filter_cons_False by (cbn; tauto).
  apply filter_all. intros [k' v'] Hin; cbn.
  apply not_eq_sym, key_lt_ne. by eapply Hlt.
Qed.

Lemma alist_sorted_snoc k v l :
  alist_sorted (l ++ [(k, v)]) <->
  alist_sorted l /\ forall k' v', (k', v') ∈ l -> key_lt k' k.
Proof.
  induction l as [|[k1 v1] l IH]; cbn [app].
  { rewrite alist_sorted_cons. set_solver. }
  rewrite !alist_sorted_cons, IH. split.
  - intros [[Hs Hl] Hh]. split_and!; [done|set_solver|].
    intros k' v' [?|?]%elem_of_cons; [simplify_eq; apply (Hh k v); set_solver|set_solver].
  - intros [[Hs Hh] Hl]. split_and!; [done|set_solver|].
    intros k' v' [?|?]%elem_of_app; [set_solver|].
    assert (k' = k) as -> by set_solver. apply (Hl k1 v1). set_solver.
Qed.

Lemma alist_remove_last k v l :
  alist_sorted (l ++ [(k, v)]) -> alist_remove k (l ++ [(k, v)]) = l.
Proof.
  intros [Hs Hlt]%alist_sorted_snoc. unfold alist_remove.
  rewrite filter_app. rewrite (filter_cons_False _ (k, v)) by (cbn; tauto).
  rewrite filter_nil, app_nil_r. apply filter_all.
  intros [k' v'] Hin; cbn. apply key_lt_ne. by eapply Hlt.
Qed.

Lemma alist_insert_front k v l :
  (forall k' v', (k', v') ∈ l -> key_lt k k') -> alist_insert k v l = (k, v) :: l.
Proof.
  destruct l as [|[k1 v1] l]; intros H; cbn; [done|].
  rewrite decide_True; [done|]. eapply H. by left.
Qed.

Lemma alist_insert_back k v l :
  (forall k' v', (k', v') ∈ l -> key_lt k' k) -> alist_insert k v l = l ++ [(k, v)].
Proof.
  induction l as [|[k1 v1] l IH]; intros H; cbn; [done|].
  assert (key_lt k1 k) as Hlt by (eapply H; by left).
  rewrite !decide_False.
  - f_equal. apply IH. intros k' v' ?. eapply H. by right.
  - by apply not_eq_sym, key_lt_ne.
  - intros ?. eapply key_lt_irrefl. by etrans.
Qed.
End AList.

(** ** Consequences of the laws *)

Section Laws.
Context {K : Type} `{KO : KeyOrder K} {SM : Type -> Type}
  `{OPS : !SkipMap K SM} `{LAWS : !SkipMapLaws K SM} {V : Type}.
Implicit Types m : SM V.

Lemma sm_sorted m : alist_sorted (sm_iter m).
Proof. apply iter_sorted. Qed.

(** Insertion and removal, read on the iteration. *)
Lemma iter_insert k v m : sm_iter (sm_insert k v m) = alist_insert k v (sm_iter m).
Proof.
  apply alist_sorted_unique.
  - apply sm_sorted.
  - apply alist_insert_sorted, sm_sorted.
  - intros k' v'. rewrite alist_insert_elem by apply sm_sorted.
    rewrite <- !get_iter, get_insert. case_decide; naive_solver.
Qed.

Lemma iter_remove k m : sm_iter (sm_remove k m) = alist_remove k (sm_iter m).
Proof.
  apply alist_sorted_unique.
  - apply sm_sorted.
  - apply alist_remove_sorted, sm_sorted.
  - intros k' v'. rewrite alist_remove_elem.
    rewrite <- !get_iter, get_remove. case_decide; naive_solver.
Qed.

Lemma get_new k : sm_get (sm_new (V := V)) k = None.
Proof.
  destruct (sm_get sm_new k) as [v|] eqn:E; [|done].
  apply get_iter in E. rewrite iter_new in E. set_solver.
Qed.

Lemma get_clear m k : sm_get (sm_clear m) k = None.
Proof.
  destruct (sm_get (sm_clear m) k) as [v|] eqn:E; [|done].
  apply get_iter in E. rewrite iter_clear in E. set_solver.
Qed.

Lemma get_insert_eq m k v : sm_get (sm_insert k v m) k = Some v.
Proof. rewrite get_insert. by case_decide. Qed.

Lemma get_insert_ne m k v k' : k <> k' -> sm_get (sm_insert k v m) k' = sm_get m k'.
Proof. intros. rewrite get_insert. by case_decide. Qed.

Lemma get_remove_eq m k : sm_get (sm_remove k m) k = None.
Proof. rewrite get_remove. by case_decide. Qed.

Lemma get_remove_ne m k k' : k <> k' -> sm_get (sm_remove k m) k' = sm_get m k'.
Proof. intros. rewrite get_remove. by case_decide. Qed.

(** The iteration visits each key once. *)
Lemma iter_NoDup_keys m : NoDup (sm_iter m).*1.
Proof.
  pose proof (iter_sorted V m) as Hs. induction Hs as [|k l Hs IH Hf]; constructor.
  - rewrite Forall_forall in Hf. intros Hin. by eapply key_lt_irrefl, Hf.
  - done.
Qed.

Lemma get_None m k : sm_get m k = None <-> k ∉ (sm_iter m).*1.
Proof.
  rewrite list_elem_of_fmap. split.
  - intros Hn ([k' v] & -> & Hin). apply get_iter in Hin. cbn in Hn. congruence.
  - intros Hn. destruct (sm_get m k) as [v|] eqn:E; [|done].
    destruct Hn. exists (k, v). by apply get_iter in E.
Qed.

(** Inserting under a fresh key adds exactly one entry. *)
Lemma iter_insert_fresh k v m :
  sm_get m k = None -> sm_iter (sm_insert k v m) ≡ₚ (k, v) :: sm_iter m.
Proof.
  rewrite get_None, iter_insert. intros Hk. pose proof (sm_sorted m) as Hs.
  induction (sm_iter m) as [|[k1 v1] l IH]; cbn in *; [done|].
  apply alist_sorted_cons in Hs as [Hs _].
  repeat case_decide; [done|set_solver|].
  rewrite IH by (set_solver || done). apply perm_swap.
Qed.

Lemma iter_remove_present k v m :
  sm_get m k = Some v -> sm_iter m ≡ₚ (k, v) :: sm_iter (sm_remove k m).
Proof.
  intros Hk. pose proof (iter_insert_fresh k v (sm_remove k m) (get_remove_eq _ _)) as Hp.
  replace (sm_iter m) with (sm_iter (sm_insert k v (sm_remove k m))); [done|].
  apply alist_sorted_unique; [apply sm_sorted..|].
  intros k' v'. rewrite <- !get_iter, get_insert, get_remove.
  case_decide; naive_solver.
Qed.

Lemma iter_remove_absent k m :
  sm_get m k = None -> sm_iter (sm_remove k m) = sm_iter m.
Proof.
  rewrite get_None, iter_remove. intros Hk. apply filter_all.
  intros [k' v'] Hin <-. destruct Hk. apply list_elem_of_fmap. by exists (k', v').
Qed.

Lemma pop_front_nil m : sm_iter m = [] -> sm_pop_front m = (None, m).
Proof. intros E. by rewrite pop_front_spec, front_iter, E. Qed.

Lemma pop_front_cons m k v l :
  sm_iter m = (k, v) :: l ->
  exists m', sm_pop_front m = (Some (k, v), m') /\ sm_iter m' = l.
Proof.
  intros E. rewrite pop_front_spec, front_iter, E. exists (sm_remove k m). split; [done|].
  rewrite iter_remove, E. apply alist_remove_head. rewrite <- E. apply sm_sorted.
Qed.

Lemma pop_back_nil m : sm_iter m = [] -> sm_pop_back m = (None, m).
Proof. intros E. by rewrite pop_back_spec, back_iter, E. Qed.

Lemma pop_back_snoc m k v l :
  sm_iter m = l ++ [(k, v)] ->
  exists m', sm_pop_back m = (Some (k, v), m') /\ sm_iter m' = l.
Proof.
  intros E. rewrite pop_back_spec, back_iter, E, last_snoc. exists (sm_remove k m). split; [done|].
  rewrite iter_remove, E. apply alist_remove_last. rewrite <- E. apply sm_sorted.
Qed.
End Laws.

#[export] Hint Rewrite @iter_new @iter_clear @iter_insert @iter_remove @front_iter
  @back_iter @range_iter @len_iter @is_empty_iter using (exact _) : kio.
#[export] Hint Resolve sm_sorted iter_NoDup_keys : kio.

(** ** A concrete instance

    Finite maps, iterated by sorting their bindings by key. *)

Module Reference.
Section Ref.
Context {K : Type} `{KO : KeyOrder K} `{!Countable K}.

Definition binding_le {V} (p q : K * V) : Prop := ~ key_lt q.1 p.1.

#[export] Instance binding_le_dec {V} : RelDecision (@binding_le V).
Proof. unfold binding_le. intros p q. apply _. Defined.

#[export] Instance binding_le_total {V} : Total (@binding_le V).
Proof.
  intros [k v] [k' v']; unfold binding_le; cbn.
  destruct (key_total k k') as [?|[->|?]].
  - left. intros ?. eapply key_lt_irrefl. by etrans.
  - left. apply key_lt_irrefl.
  - right. intros ?. eapply key_lt_irrefl. by etrans.
Qed.

Definition entries {V} (m : gmap K V) : list (K * V) :=
  merge_sort binding_le (map_to_list m).

Definition ref_remove {V} (k : K) (m : gmap K V) : gmap K V := delete k m.

#[export] Instance ref_ops : SkipMap K (gmap K) := {|
  sm_new V := ∅;
  sm_get V m k := m !! k;
  sm_contains_key V m k := bool_decide (is_Some (m !! k));
  sm_insert V k v m := <[k := v]> m;
  sm_remove V k m := delete k m;
  sm_clear V m := ∅;
  sm_iter V m := entries m;
  sm_range V lo hi m := filter (fun p => in_range lo hi p.1) (entries m);
  sm_front V m := head (entries m);
  sm_back V m := last (entries m);
  sm_pop_front V m := (head (entries m),
     match head (entries m) with Some (k, _) => delete k m | None => m end);
  sm_pop_back V m := (last (entries m),
     match last (entries m) with Some (k, _) => delete k m | None => m end);
  sm_len V m := Z.of_nat (length (entries m));
  sm_is_empty V m := bool_decide (entries m = []);
|}.

Lemma entries_elem {V} (m : gmap K V) k v : (k, v) ∈ entries m <-> m !! k = Some v.
Proof. unfold entries. by rewrite merge_sort_Permutation, elem_of_map_to_list. Qed.

Lemma entries_keys {V} (m : gmap K V) : NoDup (entries m).*1.
Proof. unfold entries. rewrite merge_sort_Permutation. apply NoDup_fst_map_to_list. Qed.

#[export] Instance ref_laws : SkipMapLaws K (gmap K).
Proof.
  split; try done; intros V.
  - intros m. cbn. pose proof (entries_keys m) as Hn.
    assert (StronglySorted binding_le (entries m)) as Hs.
    { apply Sorted_StronglySorted; [|apply Sorted_merge_sort, _].
      intros [x ?] [y ?] [z ?]; unfold binding_le; cbn. intros H1 H2 H3.
      destruct (key_total x y) as [?|[->|?]]; [|done|done].
      apply H2. by etrans. }
    induction Hs as [|[k v] l Hs IH Hf]; cbn in *; constructor.
    + apply IH. by apply NoDup_cons in Hn as [_ Hn].
    + apply NoDup_cons in Hn as [Hn _]. rewrite Forall_forall in Hf.
      apply Forall_forall. intros k' ([k1 v1] & -> & Hin)%list_elem_of_fmap.
      specialize (Hf _ Hin). unfold binding_le in Hf; cbn in *.
      destruct (key_total k k1) as [?|[->|?]]; [done| |done].
      destruct Hn. apply list_elem_of_fmap. by exists (k1, v1).
  - intros m k v. cbn. by rewrite entries_elem.
  - intros m k v k'. cbn. apply lookup_insert.
  - intros m k k'. cbn. apply lookup_delete.
Qed.
End Ref.
End Reference.

(** The instance at integer keys. *)
Definition ZMap (V : Type) : Type := gmap Z V.
#[global] Instance ZMap_ops : SkipMap Z ZMap := Reference.ref_ops (K := Z).
#[global] Instance ZMap_laws : SkipMapLaws Z ZMap := Reference.ref_laws (K := Z).

(** The instance at string keys. *)
Definition StrMap (V : Type) : Type := gmap string V.
#[global] Instance StrMap_ops : SkipMap string StrMap := Reference.ref_ops (K := string).
#[global] Instance StrMap_laws : SkipMapLaws string StrMap := Reference.ref_laws (K := string).
