(* ===== verification/Deque.v ===== *)
(** * The concurrent deque ([src/utils/concurrent_structures.rs])

    The waiting, active and paused lists of the in-memory store.  A deque is
    an ordered map from [i64] indices to values with two index counters.
    The first part gives the operations and shows that they implement a
    double-ended list; the second part splits the operations into their atomic
    accesses and shows what survives when threads interleave them. *)

From S2P Require Import Prelude SkipMap.

Section Deque.
Context {SM : Type -> Type} `{OPS : !SkipMap Z SM}.

Record ConcurrentDeque (T : Type) : Type := mkDeque {
  data : SM T;
  head_idx : Z;
  tail_idx : Z;
}.
Arguments mkDeque {T} _ _ _.
Arguments data {T} _.
Arguments head_idx {T} _.
Arguments tail_idx {T} _.

Definition deque_new {T} : ConcurrentDeque T := mkDeque sm_new 0 1.

Definition push_front {T} (value : T) (d : ConcurrentDeque T) : ConcurrentDeque T :=
  let idx := head_idx d in
  mkDeque (sm_insert idx value (data d)) (wrapping_sub_i64 (head_idx d) 1) (tail_idx d).

Definition push_back {T} (value : T) (d : ConcurrentDeque T) : ConcurrentDeque T :=
  let idx := tail_idx d in
  mkDeque (sm_insert idx value (data d)) (head_idx d) (wrapping_add_i64 (tail_idx d) 1).

Definition deque_clear {T} (d : ConcurrentDeque T) : ConcurrentDeque T :=
  mkDeque (sm_clear (data d)) 0 1.

Definition pop_front {T} (d : ConcurrentDeque T) : option T * ConcurrentDeque T :=
  match sm_front (data d) with
  | None => (None, d)
  | Some (key, _) =>
      match sm_get (data d) key with
      | Some value => (Some value, mkDeque (sm_remove key (data d)) (head_idx d) (tail_idx d))
      | None => (None, d)
      end
  end.

Definition pop_back {T} (d : ConcurrentDeque T) : option T * ConcurrentDeque T :=
  match sm_back (data d) with
  | None => (None, d)
  | Some (key, _) =>
      match sm_get (data d) key with
      | Some value => (Some value, mkDeque (sm_remove key (data d)) (head_idx d) (tail_idx d))
      | None => (None, d)
      end
  end.

Definition deque_iter {T} (d : ConcurrentDeque T) : list (Z * T) := sm_iter (data d).

Definition deque_len {T} (d : ConcurrentDeque T) : Z := Z.of_nat (length (deque_iter d)).

Definition deque_is_empty {T} (d : ConcurrentDeque T) : bool := sm_is_empty (data d).

Definition contains_value {T} `{EqDecision T} (value : T) (d : ConcurrentDeque T) : bool :=
  existsb (fun entry => bool_decide (entry.2 = value)) (sm_iter (data d)).

Definition deque_range {T} (lo hi : Bound Z) (d : ConcurrentDeque T) : list (Z * T) :=
  sm_range lo hi (data d).

(** Entries removed one at a time through their handle, as the callers'
    [iter().filter(..).for_each(|entry| entry.remove())] does. *)
Definition deque_remove_value {T} `{EqDecision T} (value : T) (d : ConcurrentDeque T) :
    ConcurrentDeque T :=
  mkDeque
    (foldl (fun m entry => sm_remove entry.1 m) (data d)
       (filter (fun entry => entry.2 = value) (sm_iter (data d))))
    (head_idx d) (tail_idx d).

(** ** The deque as a list *)

Definition deque_list {T} (d : ConcurrentDeque T) : list T := (sm_iter (data d)).*2.

(** Every stored index lies strictly between the counters, and the counters
    have not reached the ends of [i64]. *)
Definition deque_wf {T} (d : ConcurrentDeque T) : Prop :=
  i64_ok (head_idx d) /\ i64_ok (tail_idx d) /\ head_idx d < tail_idx d /\
  forall k v, (k, v) ∈ sm_iter (data d) -> head_idx d < k < tail_idx d.

(** Room for one more push at each end. *)
Definition deque_room {T} (d : ConcurrentDeque T) : Prop :=
  - two63 < head_idx d /\ tail_idx d < two63 - 1.

Section Lemmas.
Context `{LAWS : !SkipMapLaws Z SM} {T : Type}.
Implicit Types d : ConcurrentDeque T.

Lemma deque_new_wf : deque_wf (deque_new (T := T)).
Proof.
  unfold deque_wf, i64_ok, two63; cbn. split_and!; try lia.
  intros k v. rewrite iter_new. set_solver.
Qed.

Lemma deque_new_list : deque_list (deque_new (T := T)) = [].
Proof. unfold deque_list; cbn. by rewrite iter_new. Qed.

Lemma push_front_list v d :
  deque_wf d -> deque_list (push_front v d) = v :: deque_list d.
Proof.
  intros (_ & _ & _ & Hk). unfold deque_list, push_front; cbn.
  rewrite iter_insert, alist_insert_front; [done|]. intros k' v' ?%Hk. cbn. lia.
Qed.

Lemma push_back_list v d :
  deque_wf d -> deque_list (push_back v d) = deque_list d ++ [v].
Proof.
  intros (_ & _ & _ & Hk). unfold deque_list, push_back; cbn.
  rewrite iter_insert, alist_insert_back, fmap_app; [done|].
  intros k' v' ?%Hk. cbn. lia.
Qed.

Lemma wrapping_sub_i64_room x : - two63 < x -> i64_ok x -> wrapping_sub_i64 x 1 = x - 1.
Proof. intros. apply cast_signed_i64. unfold i64_ok in *. lia. Qed.

Lemma wrapping_add_i64_room x : x < two63 - 1 -> i64_ok x -> wrapping_add_i64 x 1 = x + 1.
Proof. intros. apply cast_signed_i64. unfold i64_ok in *. lia. Qed.

Lemma push_front_wf v d : deque_wf d -> deque_room d -> deque_wf (push_front v d).
Proof.
  intros (Hh & Ht & Hlt & Hk) [Hr _]. unfold push_front, deque_wf; cbn.
  rewrite wrapping_sub_i64_room by done. split_and!; [unfold i64_ok in *; lia..|].
  intros k v'. rewrite iter_insert, alist_insert_elem by apply sm_sorted.
  intros [[-> ->]|[_ ?%Hk]]; lia.
Qed.

Lemma push_back_wf v d : deque_wf d -> deque_room d -> deque_wf (push_back v d).
Proof.
  intros (Hh & Ht & Hlt & Hk) [_ Hr]. unfold push_back, deque_wf; cbn.
  rewrite wrapping_add_i64_room by done. split_and!; [unfold i64_ok in *; lia..|].
  intros k v'. rewrite iter_insert, alist_insert_elem by apply sm_sorted.
  intros [[-> ->]|[_ ?%Hk]]; lia.
Qed.

Lemma deque_clear_wf d : deque_wf (deque_clear d).
Proof.
  unfold deque_wf, i64_ok, two63; cbn. split_and!; try lia.
  intros k v. rewrite iter_clear. set_solver.
Qed.

Lemma deque_clear_list d : deque_list (deque_clear d) = [].
Proof. unfold deque_list; cbn. by rewrite iter_clear. Qed.

Lemma pop_front_list d :
  (pop_front d).1 = head (deque_list d) /\
  deque_list (pop_front d).2 = tail (deque_list d).
Proof.
  unfold pop_front, deque_list. rewrite front_iter.
  destruct (sm_iter (data d)) as [|[k v] l] eqn:E; cbn; [by rewrite E|].
  assert (sm_get (data d) k = Some v) as ->
    by (apply get_iter; rewrite E; by left).
  cbn. rewrite iter_remove, E, alist_remove_head; [done|].
  rewrite <- E. apply sm_sorted.
Qed.

Lemma pop_back_list d :
  (pop_back d).1 = last (deque_list d) /\
  deque_list (pop_back d).2 = removelast (deque_list d).
Proof.
  unfold pop_back, deque_list. rewrite back_iter.
  destruct (last (sm_iter (data d))) as [[k v]|] eqn:E.
  - apply last_snoc_inv in E as [l E].
    assert (sm_get (data d) k = Some v) as ->
      by (apply get_iter; rewrite E; set_solver).
    cbn. rewrite iter_remove, E, alist_remove_last, fmap_app; cbn.
    + by rewrite last_snoc, removelast_last.
    + rewrite <- E. apply sm_sorted.
  - apply last_None in E. cbn. by rewrite E.
Qed.

(** Removals only shrink the index set. *)
Lemma deque_wf_sub d (m : SM T) :
  deque_wf d -> (forall e, e ∈ sm_iter m -> e ∈ sm_iter (data d)) ->
  deque_wf (mkDeque m (head_idx d) (tail_idx d)).
Proof. intros (? & ? & ? & Hk) Hsub. split_and!; cbn; eauto. Qed.

Lemma pop_front_wf d : deque_wf d -> deque_wf (pop_front d).2.
Proof.
  intros Hwf. unfold pop_front. cases; try done.
  apply deque_wf_sub; [done|]. intros e. rewrite iter_remove.
  destruct e. rewrite alist_remove_elem. tauto.
Qed.

Lemma pop_back_wf d : deque_wf d -> deque_wf (pop_back d).2.
Proof.
  intros Hwf. unfold pop_back. cases; try done.
  apply deque_wf_sub; [done|]. intros e. rewrite iter_remove.
  destruct e. rewrite alist_remove_elem. tauto.
Qed.

Lemma deque_len_list d : deque_len d = Z.of_nat (length (deque_list d)).
Proof. unfold deque_len, deque_iter, deque_list. by rewrite length_fmap. Qed.

Lemma deque_is_empty_list d : deque_is_empty d = bool_decide (deque_list d = []).
Proof.
  unfold deque_is_empty, deque_list. rewrite is_empty_iter.
  apply bool_decide_ext. by destruct (sm_iter (data d)).
Qed.

Lemma contains_value_list `{EqDecision T} v d :
  contains_value v d = bool_decide (v ∈ deque_list d).
Proof.
  unfold contains_value, deque_list. apply eq_true_iff_eq.
  rewrite existsb_exists, bool_decide_eq_true, list_elem_of_fmap.
  split.
  - intros ([k v'] & Hin & Heq%bool_decide_eq_true). cbn in Heq. subst.
    exists (k, v). by rewrite list_elem_of_In.
  - intros ([k v'] & -> & Hin). exists (k, v').
    rewrite <- list_elem_of_In. by rewrite bool_decide_eq_true.
Qed.

(** Removing a batch of keys keeps exactly the entries outside the batch. *)
Lemma iter_remove_batch (es : list (Z * T)) (m : SM T) :
  sm_iter (foldl (fun m entry => sm_remove entry.1 m) m es) =
  filter (fun p => p.1 ∉ es.*1) (sm_iter m).
Proof.
  revert m. induction es as [|[k v] es IH]; intros m; cbn.
  { symmetry. apply filter_all. set_solver. }
  rewrite IH, iter_remove. unfold alist_remove. rewrite list_filter_filter.
  apply list_filter_iff. intros [k' v']; cbn. set_solver.
Qed.

Lemma deque_remove_value_list `{EqDecision T} v d :
  deque_list (deque_remove_value v d) = filter (fun x => x <> v) (deque_list d).
Proof.
  unfold deque_list, deque_remove_value; cbn. rewrite iter_remove_batch.
  rewrite filter_drop_selected by apply iter_NoDup_keys.
  exact (fmap_filter_snd (fun x => x <> v) _).
Qed.

Lemma deque_remove_value_wf `{EqDecision T} v d :
  deque_wf d -> deque_wf (deque_remove_value v d).
Proof.
  intros Hwf. apply deque_wf_sub; [done|]. intros e.
  rewrite iter_remove_batch, list_elem_of_filter. tauto.
Qed.
End Lemmas.

(** ** Refinement: any run of the deque is a run of a double-ended list *)

Inductive deque_op (T : Type) : Type :=
| PushFront (v : T)
| PushBack (v : T)
| PopFront
| PopBack
| Clear
| RemoveValue (v : T).
Arguments PushFront {T} v.
Arguments PushBack {T} v.
Arguments PopFront {T}.
Arguments PopBack {T}.
Arguments Clear {T}.
Arguments RemoveValue {T} v.

Section Refinement.
Context {T : Type} `{!EqDecision T}.

Definition deque_exec (op : deque_op T) (d : ConcurrentDeque T) :
    option T * ConcurrentDeque T :=
  match op with
  | PushFront v => (None, push_front v d)
  | PushBack v => (None, push_back v d)
  | PopFront => pop_front d
  | PopBack => pop_back d
  | Clear => (None, deque_clear d)
  | RemoveValue v => (None, deque_remove_value v d)
  end.

Definition list_exec (op : deque_op T) (l : list T) : option T * list T :=
  match op with
  | PushFront v => (None, v :: l)
  | PushBack v => (None, l ++ [v])
  | PopFront => (head l, tail l)
  | PopBack => (last l, removelast l)
  | Clear => (None, [])
  | RemoveValue v => (None, filter (fun x => x <> v) l)
  end.

Fixpoint run_ops {S O : Type} (exec : O -> S -> option T * S) (ops : list O) (s : S) :
    list (option T) * S :=
  match ops with
  | [] => ([], s)
  | op :: ops' =>
      let '(r, s1) := exec op s in
      let '(rs, s2) := run_ops exec ops' s1 in (r :: rs, s2)
  end.

(** The counters after at most [n] operations. *)
Definition deque_within (n : Z) (d : ConcurrentDeque T) : Prop :=
  - n <= head_idx d /\ tail_idx d <= 1 + n.

Section RefinementLemmas.
Context `{LAWS : !SkipMapLaws Z SM}.

Lemma within_room n d : 0 <= n < two63 - 2 -> deque_within n d -> deque_room d.
Proof. unfold deque_within, deque_room. lia. Qed.

Lemma deque_exec_refines op n d :
  0 <= n < two63 - 2 -> deque_wf d -> deque_within n d ->
  (deque_exec op d).1 = (list_exec op (deque_list d)).1 /\
  deque_list (deque_exec op d).2 = (list_exec op (deque_list d)).2 /\
  deque_wf (deque_exec op d).2 /\ deque_within (n + 1) (deque_exec op d).2.
Proof.
  intros Hn Hwf Hin. pose proof (within_room _ _ Hn Hin) as Hroom.
  pose proof Hwf as (Hh & Ht & _).
  destruct op; cbn; split_and!; auto using push_front_list, push_back_list,
    push_front_wf, push_back_wf, deque_clear_wf, deque_clear_list, pop_front_wf,
    pop_back_wf, deque_remove_value_wf, deque_remove_value_list;
    try apply pop_front_list; try apply pop_back_list;
    unfold deque_within, deque_room, push_front, push_back, pop_front, pop_back in *; cbn.
  all: rewrite ?wrapping_sub_i64_room, ?wrapping_add_i64_room by tauto.
  all: try solve [cases; lia].
  all: destruct Hroom; lia.
Qed.

Lemma run_ops_refines ops n d :
  0 <= n -> n + Z.of_nat (length ops) < two63 - 2 -> deque_wf d -> deque_within n d ->
  (run_ops deque_exec ops d).1 = (run_ops list_exec ops (deque_list d)).1 /\
  deque_list (run_ops deque_exec ops d).2 = (run_ops list_exec ops (deque_list d)).2.
Proof.
  revert n d. induction ops as [|op ops IH]; intros n d Hn Hlen Hwf Hin; [done|].
  cbn in Hlen |- *.
  destruct (deque_exec_refines op n d) as (Ho & Hl & Hwf' & Hin'); [lia|done..|].
  destruct (deque_exec op d) as [r d1], (list_exec op (deque_list d)) as [r' l1].
  cbn in *. subst. destruct (IH (n + 1) d1) as [H1 H2]; [lia|lia|done|done|].
  destruct (run_ops deque_exec ops d1), (run_ops list_exec ops (deque_list d1)).
  by cbn in *; subst.
Qed.

(** C4: for every sequence of pushes, pops, clears and value removals shorter
    than 2^63 - 2, started on an empty deque, the [i64]-indexed skip-map deque
    answers exactly what a double-ended list answers and ends up holding
    exactly that list, in order. *)
Theorem deque_refines_list (ops : list (deque_op T)) :
  Z.of_nat (length ops) < two63 - 2 ->
  (run_ops deque_exec ops deque_new).1 = (run_ops list_exec ops []).1 /\
  deque_list (run_ops deque_exec ops deque_new).2 = (run_ops list_exec ops []).2.
Proof.
  intros Hlen. rewrite <- deque_new_list.
  apply (run_ops_refines ops 0); [lia|lia|apply deque_new_wf|done].
Qed.
End RefinementLemmas.
End Refinement.

(** ** Interleaved executions

    A push is an atomic [fetch_sub]/[fetch_add] on a counter followed by an
    insertion; a pop is a look at one end followed by a removal by key.
    Threads interleave at that grain. *)

Section Interleaving.
Context {T : Type}.

Inductive local : Type :=
| Idle
| Reserved (idx : Z) (v : T)
| Peeked (key : Z).

Record config : Type := mkConfig {
  shared : ConcurrentDeque T;
  threads : list local;
  pushed : list T;
  popped : list T;
}.

Inductive deque_step : config -> config -> Prop :=
| step_reserve_front i v c :
    threads c !! i = Some Idle ->
    deque_step c (mkConfig
      (mkDeque (data (shared c)) (wrapping_sub_i64 (head_idx (shared c)) 1) (tail_idx (shared c)))
      (<[i := Reserved (head_idx (shared c)) v]> (threads c)) (v :: pushed c) (popped c))
| step_reserve_back i v c :
    threads c !! i = Some Idle ->
    deque_step c (mkConfig
      (mkDeque (data (shared c)) (head_idx (shared c)) (wrapping_add_i64 (tail_idx (shared c)) 1))
      (<[i := Reserved (tail_idx (shared c)) v]> (threads c)) (v :: pushed c) (popped c))
| step_insert i idx v c :
    threads c !! i = Some (Reserved idx v) ->
    deque_step c (mkConfig
      (mkDeque (sm_insert idx v (data (shared c))) (head_idx (shared c)) (tail_idx (shared c)))
      (<[i := Idle]> (threads c)) (pushed c) (popped c))
| step_peek_front i k v c :
    threads c !! i = Some Idle -> sm_front (data (shared c)) = Some (k, v) ->
    deque_step c (mkConfig (shared c) (<[i := Peeked k]> (threads c)) (pushed c) (popped c))
| step_peek_back i k v c :
    threads c !! i = Some Idle -> sm_back (data (shared c)) = Some (k, v) ->
    deque_step c (mkConfig (shared c) (<[i := Peeked k]> (threads c)) (pushed c) (popped c))
| step_remove i k v c :
    threads c !! i = Some (Peeked k) -> sm_get (data (shared c)) k = Some v ->
    deque_step c (mkConfig
      (mkDeque (sm_remove k (data (shared c))) (head_idx (shared c)) (tail_idx (shared c)))
      (<[i := Idle]> (threads c)) (pushed c) (v :: popped c))
| step_lost_race i k c :
    threads c !! i = Some (Peeked k) -> sm_get (data (shared c)) k = None ->
    deque_step c (mkConfig (shared c) (<[i := Idle]> (threads c)) (pushed c) (popped c)).

Definition start (n : nat) : config := mkConfig deque_new (replicate n Idle) [] [].

Definition flying (t : local) : option (Z * T) :=
  match t with Reserved idx v => Some (idx, v) | _ => None end.

Definition in_flight (c : config) : list (Z * T) := omap flying (threads c).

(** The entries the deque owes its users: stored ones and reserved ones. *)
Definition live (c : config) : list (Z * T) := sm_iter (data (shared c)) ++ in_flight c.

(** Stored and reserved indices are distinct and lie between the counters, and
    every value pushed so far is either popped or still owed. *)
Definition config_inv (c : config) : Prop :=
  let n := Z.of_nat (length (pushed c)) in
  - n <= head_idx (shared c) <= 0 /\ 1 <= tail_idx (shared c) <= 1 + n /\
  NoDup (live c).*1 /\
  (forall k v, (k, v) ∈ live c -> head_idx (shared c) < k < tail_idx (shared c)) /\
  pushed c ≡ₚ popped c ++ (live c).*2.

Section InterleavingLemmas.
Context `{LAWS : !SkipMapLaws Z SM}.
Implicit Types c : config.

Lemma omap_flying_update (ts : list local) i x y :
  ts !! i = Some x ->
  exists rest, omap flying ts ≡ₚ option_list (flying x) ++ rest /\
               omap flying (<[i := y]> ts) ≡ₚ option_list (flying y) ++ rest.
Proof.
  intros Hi. pose proof (lookup_lt_Some _ _ _ Hi) as Hlt.
  exists (omap flying (take i ts) ++ omap flying (drop (S i) ts)).
  rewrite insert_take_drop by done.
  rewrite <- (take_drop_middle ts i x Hi) at 1.
  rewrite !omap_app. cbn.
  destruct (flying x), (flying y); cbn; split; solve_Permutation || done.
Qed.

Lemma live_idle_reserve c i k v d' :
  threads c !! i = Some Idle -> data d' = data (shared c) ->
  live (mkConfig d' (<[i := Reserved k v]> (threads c)) (v :: pushed c) (popped c))
  ≡ₚ (k, v) :: live c.
Proof.
  intros Hi Hd. destruct (omap_flying_update _ i Idle (Reserved k v) Hi) as (r & H1 & H2).
  unfold live, in_flight; cbn in *. rewrite Hd, H1, H2. solve_Permutation.
Qed.

Lemma live_same_shared c i x y :
  threads c !! i = Some x -> flying x = None -> flying y = None ->
  live (mkConfig (shared c) (<[i := y]> (threads c)) (pushed c) (popped c)) ≡ₚ live c.
Proof.
  intros Hi Hx Hy. destruct (omap_flying_update _ i x y Hi) as (r & H1 & H2).
  unfold live, in_flight; cbn. rewrite Hx in H1. rewrite Hy in H2. cbn in *.
  by rewrite H1, H2.
Qed.

Lemma config_inv_perm c c' :
  shared c = shared c' -> pushed c = pushed c' -> popped c = popped c' ->
  live c' ≡ₚ live c -> config_inv c -> config_inv c'.
Proof.
  intros Hs Hp Hq Hl (H1 & H2 & H3 & H4 & H5). unfold config_inv.
  rewrite <- Hs, <- Hp, <- Hq. split_and!; [lia|lia|lia|lia| | |]; rewrite ?Hl; try done.
  intros k v. rewrite Hl. apply H4.
Qed.
Lemma start_inv n : config_inv (start n).
Proof.
  assert (live (start n) = []) as Hl.
  { unfold live, in_flight; cbn. rewrite iter_new. cbn.
    by induction n. }
  unfold config_inv. rewrite Hl. cbn. split_and!; try lia; [constructor|set_solver|done].
Qed.

(** Reserving an index next to the counters keeps the invariant. *)
Lemma config_inv_reserve c i v k h' t' :
  Z.of_nat (length (pushed c)) + 1 < two63 ->
  threads c !! i = Some Idle ->
  (k = head_idx (shared c) /\ h' = k - 1 /\ t' = tail_idx (shared c)) \/
  (k = tail_idx (shared c) /\ t' = k + 1 /\ h' = head_idx (shared c)) ->
  config_inv c ->
  config_inv (mkConfig (mkDeque (data (shared c)) h' t')
                (<[i := Reserved k v]> (threads c)) (v :: pushed c) (popped c)).
Proof.
  intros Hb Hi Hk (H1 & H2 & H3 & H4 & H5).
  pose proof (live_idle_reserve c i k v (mkDeque (data (shared c)) h' t') Hi eq_refl) as Hl.
  unfold config_inv. rewrite Hl. cbn [shared pushed popped head_idx tail_idx length fmap list_fmap].
  split_and!; try lia.
  - cbn. apply NoDup_cons. split; [|done].
    intros ([k' v'] & -> & Hin)%list_elem_of_fmap. apply H4 in Hin. cbn in *. lia.
  - intros k' v'. rewrite Hl. intros [?|Hin]%elem_of_cons; [simplify_eq; lia|].
    apply H4 in Hin. lia.
  - cbn. rewrite H5. solve_Permutation.
Qed.

Lemma config_inv_insert c i k v :
  threads c !! i = Some (Reserved k v) -> config_inv c ->
  config_inv (mkConfig
    (mkDeque (sm_insert k v (data (shared c))) (head_idx (shared c)) (tail_idx (shared c)))
    (<[i := Idle]> (threads c)) (pushed c) (popped c)).
Proof.
  intros Hi (H1 & H2 & H3 & H4 & H5).
  destruct (omap_flying_update _ i _ Idle Hi) as (r & Hr1 & Hr2).
  assert (sm_get (data (shared c)) k = None) as Hfresh.
  { apply get_None. intros Hin. unfold live, in_flight in H3.
    rewrite Hr1, fmap_app in H3. apply NoDup_app in H3 as (_ & H3 & _).
    apply (H3 k); set_solver. }
  assert (live (mkConfig
    (mkDeque (sm_insert k v (data (shared c))) (head_idx (shared c)) (tail_idx (shared c)))
    (<[i := Idle]> (threads c)) (pushed c) (popped c)) ≡ₚ live c) as Hl.
  { unfold live, in_flight; cbn in *. rewrite iter_insert_fresh, Hr1, Hr2 by done.
    solve_Permutation. }
  unfold config_inv. rewrite Hl. split_and!; try done; try (cbn; lia).
  intros k' v'. rewrite Hl. apply H4.
Qed.

Lemma config_inv_remove c i k v :
  threads c !! i = Some (Peeked k) -> sm_get (data (shared c)) k = Some v ->
  config_inv c ->
  config_inv (mkConfig
    (mkDeque (sm_remove k (data (shared c))) (head_idx (shared c)) (tail_idx (shared c)))
    (<[i := Idle]> (threads c)) (pushed c) (v :: popped c)).
Proof.
  intros Hi Hk (H1 & H2 & H3 & H4 & H5).
  destruct (omap_flying_update _ i _ Idle Hi) as (r & Hr1 & Hr2).
  set (c' := mkConfig _ _ _ _).
  assert (live c ≡ₚ (k, v) :: live c') as Hl.
  { unfold live, in_flight, c'; cbn in *.
    rewrite (iter_remove_present k v) by done. by rewrite Hr1, Hr2. }
  unfold config_inv. rewrite Hl in H3, H5. cbn in H3, H5.
  apply NoDup_cons in H3 as [_ H3]. split_and!; try done; try (cbn; lia).
  - intros k' v' Hin. apply (H4 k' v'). rewrite Hl. by right.
  - cbn. rewrite H5. solve_Permutation.
Qed.

Lemma deque_step_grows c c' :
  deque_step c c' -> (length (pushed c) <= length (pushed c'))%nat.
Proof. destruct 1; cbn; lia. Qed.

Lemma deque_step_inv c c' :
  deque_step c c' -> Z.of_nat (length (pushed c')) < two63 - 1 -> config_inv c -> config_inv c'.
Proof.
  destruct 1; cbn [pushed length]; intros Hb Hinv.
  - pose proof Hinv as (? & ? & _).
    rewrite wrapping_sub_i64_room by (unfold i64_ok, two63 in *; lia).
    apply config_inv_reserve; [lia|done|by left|done].
  - pose proof Hinv as (? & ? & _).
    rewrite wrapping_add_i64_room by (unfold i64_ok, two63 in *; lia).
    apply config_inv_reserve; [lia|done|by right|done].
  - by apply config_inv_insert.
  - eapply config_inv_perm, Hinv; try done. by eapply live_same_shared.
  - eapply config_inv_perm, Hinv; try done. by eapply live_same_shared.
  - by apply config_inv_remove.
  - eapply config_inv_perm, Hinv; try done. by eapply live_same_shared.
Qed.

Lemma reachable_inv n c :
  rtc deque_step (start n) c -> Z.of_nat (length (pushed c)) < two63 - 1 -> config_inv c.
Proof.
  revert c. apply (rtc_ind_r (fun c =>
    Z.of_nat (length (pushed c)) < two63 - 1 -> config_inv c)).
  - intros _. apply start_inv.
  - intros c1 c2 _ Hs IH Hb. eapply deque_step_inv; [done|done|]. apply IH.
    apply deque_step_grows in Hs. lia.
Qed.

(** C5: however threads interleave the index reservations, insertions, looks
    and removals of pushes and pops (fewer than 2^63 - 1 pushes), no pushed value
    is lost and none is handed out twice: the values pushed are, as a
    multiset, those popped together with those stored or being stored. *)
Theorem deque_no_loss_no_duplication (n : nat) (c : config) :
  rtc deque_step (start n) c -> Z.of_nat (length (pushed c)) < two63 - 1 ->
  pushed c ≡ₚ popped c ++ deque_list (shared c) ++ (in_flight c).*2.
Proof.
  intros Hr Hb. destruct (reachable_inv n c Hr Hb) as (_ & _ & _ & _ & Hp).
  unfold live in Hp. by rewrite fmap_app in Hp.
Qed.
End InterleavingLemmas.
End Interleaving.
End Deque.

Arguments ConcurrentDeque : clear implicits.
Arguments mkDeque {SM T} _ _ _.
Arguments data {SM T} _.
Arguments head_idx {SM T} _.
Arguments tail_idx {SM T} _.
Arguments PushFront {T} v.
Arguments PushBack {T} v.
Arguments PopFront {T}.
Arguments PopBack {T}.
Arguments Clear {T}.
Arguments RemoveValue {T} v.
Arguments local : clear implicits.
Arguments config {SM} T.

(** ** Witnesses *)

Lemma deque_refines_list_witness :
  let ops := [PushFront 1; PushFront 2; PushBack 7; PopBack; RemoveValue 2; PopBack; PopFront] in
  Z.of_nat (length ops) < two63 - 2 /\
  (run_ops (deque_exec (SM := ZMap)) ops deque_new).1
    = [None; None; None; Some 7; None; Some 1; None] /\
  (run_ops (deque_exec (SM := ZMap)) ops deque_new).1 = (run_ops list_exec ops []).1.
Proof.
  split_and!; [vm_compute; reflexivity|vm_compute; reflexivity|].
  apply (deque_refines_list (SM := ZMap)
    [PushFront 1; PushFront 2; PushBack 7; PopBack; RemoveValue 2; PopBack; PopFront]).
  vm_compute. reflexivity.
Defined.

(** Two threads: the second looks at the value the first has stored and
    removes it while the first is reserving the next index. *)
Ltac race_trace :=
  eapply rtc_l; [apply (step_reserve_front 0 5); reflexivity|];
  eapply rtc_l; [eapply (step_insert 0); reflexivity|];
  eapply rtc_l; [eapply (step_peek_front 1); reflexivity|];
  eapply rtc_l; [eapply (step_reserve_back 0 6); reflexivity|];
  eapply rtc_l; [eapply (step_remove 1); reflexivity|];
  apply rtc_refl.

Lemma deque_no_loss_no_duplication_witness :
  exists c : config (SM := ZMap) Z,
    rtc deque_step (start 2) c /\ pushed c = [6; 5] /\ popped c = [5] /\
    pushed c ≡ₚ popped c ++ deque_list (shared c) ++ (in_flight c).*2.
Proof.
  eexists. split; [race_trace|]. split_and!; [reflexivity|reflexivity|].
  apply (deque_no_loss_no_duplication 2); [race_trace|]. vm_compute. reflexivity.
Defined.
