(* ===== verification/TimedMap.v ===== *)
(** * Maps with expiring entries ([src/timers/concurrent_timed_map.rs])

    [TimedMap] holds the job records, the job locks and the stored metrics of
    the in-memory store, and the worker registry of the metrics collector.
    [Instant]s and [Duration]s are integers in nanoseconds without a largest one:
    the panic of a sum beyond the range of [Instant] is not modelled.  An operation that
    calls [Instant::now] takes the reading as an argument; one that reads the
    clock once per visited entry takes the reading made at each key. *)

From S2P Require Import Prelude SkipMap.

(** [Duration::from_millis] and [Duration::from_secs]. *)
Definition from_millis (ms : Z) : Z := ms * 1000000.
Definition from_secs (s : Z) : Z := s * 1000000000.

Section TimedMap.
Context {SM : Type -> Type} `{OPS : !SkipMap Z SM}.

Inductive ExpiryValue (V : Type) : Type :=
| Constant (value : V)
| Expirable (value : V) (expires_at : Z).
Arguments Constant {V} value.
Arguments Expirable {V} value expires_at.

Definition is_expired {V} (now : Z) (e : ExpiryValue V) : bool :=
  match e with
  | Constant _ => false
  | Expirable _ expires_at => expires_at <=? now
  end.

Definition is_expirable {V} (e : ExpiryValue V) : bool :=
  match e with Constant _ => false | Expirable _ _ => true end.

(** [ExpiryValue::get]: the handle on the value, whatever the variant. *)
Definition ev_value {V} (e : ExpiryValue V) : V :=
  match e with Constant inner => inner | Expirable value _ => value end.

(** What writing through that handle does: the value changes, the deadline
    stays. *)
Definition ev_write {V} (f : V -> V) (e : ExpiryValue V) : ExpiryValue V :=
  match e with
  | Constant inner => Constant (f inner)
  | Expirable value expires_at => Expirable (f value) expires_at
  end.

Record TimedMap (V : Type) : Type := mkTimed {
  inner : SM (ExpiryValue V);
  disable_expiration : bool;
}.
Arguments mkTimed {V} _ _.
Arguments inner {V} _.
Arguments disable_expiration {V} _.

Section Operations.
Context {V : Type}.
Implicit Types m : TimedMap V.

Definition timed_new : TimedMap V := mkTimed sm_new false.

Definition toggle_expiration m : TimedMap V :=
  let previous_state := disable_expiration m in mkTimed (inner m) (negb previous_state).

Definition insert_constant (key : Z) (val : V) m : TimedMap V :=
  mkTimed (sm_insert key (Constant val) (inner m)) (disable_expiration m).

Definition insert_expirable (now : Z) (key : Z) (val : V) (timeout : Z) m : TimedMap V :=
  if disable_expiration m then insert_constant key val m
  else
    let expires_at := now + timeout in
    mkTimed (sm_insert key (Expirable val expires_at) (inner m)) (disable_expiration m).

Definition timed_remove (key : Z) m : TimedMap V :=
  mkTimed (sm_remove key (inner m)) (disable_expiration m).

Definition timed_get (now : Z) (key : Z) m : option V * TimedMap V :=
  match sm_get (inner m) key with
  | None => (None, m)
  | Some found =>
      if is_expired now found then (None, timed_remove key m)
      else (Some (ev_value found), m)
  end.

(** A caller that takes the handle returned by [get] and writes through its
    lock.  The value in the map changes in place. *)
Definition timed_write (now : Z) (key : Z) (f : V -> V) m : TimedMap V :=
  match sm_get (inner m) key with
  | None => m
  | Some found =>
      if is_expired now found then timed_remove key m
      else mkTimed (sm_insert key (ev_write f found) (inner m)) (disable_expiration m)
  end.

Definition remove_keys (ks : list Z) m : TimedMap V :=
  mkTimed (foldl (fun im k => sm_remove k im) (inner m) ks) (disable_expiration m).

Definition timed_iter (now : Z -> Z) m : list (Z * ExpiryValue V) * TimedMap V :=
  (filter (fun e => is_expired (now e.1) e.2 = false) (sm_iter (inner m)),
   remove_keys (filter (fun e => is_expired (now e.1) e.2 = true) (sm_iter (inner m))).*1 m).

Definition timed_is_empty m : bool := sm_is_empty (inner m).

Definition timed_contains_key (now : Z) (key : Z) m : bool * TimedMap V :=
  let exists_ := sm_contains_key (inner m) key in
  if exists_ then
    let '(r, m') := timed_get now key m in (bool_decide (is_Some r), m')
  else (false, m).

Definition len_expired m : Z :=
  Z.of_nat (length (filter (fun e => is_expirable e.2 = true) (sm_iter (inner m)))).

Definition update_expiration_status (now : Z) (key : Z) (duration : Z) m :
    option Z * TimedMap V :=
  match sm_get (inner m) key with
  | None => (None, m)
  | Some existing =>
      let next_instant := now + duration in
      match existing with
      | Constant _ => (None, m)
      | Expirable value _ =>
          (Some next_instant,
           mkTimed (sm_insert key (Expirable value next_instant) (inner m))
             (disable_expiration m))
      end
  end.

Definition expires_entries m : bool := negb (disable_expiration m).

Definition timed_clear m : TimedMap V := mkTimed (sm_clear (inner m)) (disable_expiration m).

Definition purge_expired (now : Z -> Z) m : TimedMap V :=
  if negb (expires_entries m) then m
  else remove_keys (filter (fun e => is_expired (now e.1) e.2 = true) (sm_iter (inner m))).*1 m.
End Operations.

(** ** Lemmas *)

Section Lemmas.
Context `{LAWS : !SkipMapLaws Z SM} {V : Type}.
Implicit Types m : TimedMap V.

Definition entry m (key : Z) : option (ExpiryValue V) := sm_get (inner m) key.

(** What a reader at instant [now] sees under [key]. *)
Definition visible (now : Z) m (key : Z) : option V :=
  e ← entry m key; if is_expired now e then None else Some (ev_value e).

Lemma timed_get_visible now key m : (timed_get now key m).1 = visible now m key.
Proof.
  unfold timed_get, visible, entry. destruct (sm_get _ _) as [e|]; cbn; [|done].
  by destruct (is_expired now e).
Qed.

Lemma timed_get_entry now key m key' :
  entry (timed_get now key m).2 key' =
  if decide (key = key') then
    (e ← entry m key; if is_expired now e then None else Some e)
  else entry m key'.
Proof.
  unfold timed_get, entry. destruct (sm_get (inner m) key) as [e|] eqn:E; cbn.
  - destruct (is_expired now e); unfold timed_remove; cbn;
      rewrite ?get_remove; repeat case_decide; subst; done.
  - case_decide; by subst.
Qed.

Lemma timed_contains_key_visible now key m :
  (timed_contains_key now key m).1 = bool_decide (is_Some (visible now m key)).
Proof.
  unfold timed_contains_key. rewrite contains_key_get, <- timed_get_visible.
  case_bool_decide as H; [by destruct (timed_get now key m)|].
  symmetry. apply bool_decide_eq_false. unfold timed_get.
  destruct (sm_get (inner m) key); [by destruct H|]. cbn. by intros [? ?].
Qed.

Lemma timed_contains_key_state now key m :
  (timed_contains_key now key m).2 = (timed_get now key m).2.
Proof.
  unfold timed_contains_key. rewrite contains_key_get.
  case_bool_decide as H; [by destruct (timed_get now key m)|].
  unfold timed_get. destruct (sm_get (inner m) key); [by destruct H|done].
Qed.

Lemma entry_insert_constant key val m key' :
  entry (insert_constant key val m) key' =
  if decide (key = key') then Some (Constant val) else entry m key'.
Proof. unfold entry, insert_constant; cbn. by rewrite get_insert. Qed.

Lemma entry_insert_expirable now key val timeout m key' :
  entry (insert_expirable now key val timeout m) key' =
  if decide (key = key') then
    Some (if disable_expiration m then Constant val else Expirable val (now + timeout))
  else entry m key'.
Proof.
  unfold insert_expirable. destruct (disable_expiration m) eqn:E.
  - apply entry_insert_constant.
  - unfold entry; cbn. by rewrite get_insert.
Qed.

Lemma entry_remove key m key' :
  entry (timed_remove key m) key' = if decide (key = key') then None else entry m key'.
Proof. unfold entry, timed_remove; cbn. by rewrite get_remove. Qed.

Lemma entry_write now key f m key' :
  entry (timed_write now key f m) key' =
  if decide (key = key') then
    (e ← entry m key; if is_expired now e then None else Some (ev_write f e))
  else entry m key'.
Proof.
  unfold timed_write, entry. destruct (sm_get (inner m) key) as [e|] eqn:E; cbn.
  - destruct (is_expired now e); unfold timed_remove; cbn;
      rewrite ?get_remove, ?get_insert; by repeat case_decide.
  - case_decide; by subst.
Qed.

Lemma entry_clear m key : entry (timed_clear m) key = None.
Proof. apply get_clear. Qed.

Lemma get_remove_keys (ks : list Z) (im : SM (ExpiryValue V)) key :
  sm_get (foldl (fun im k => sm_remove k im) im ks) key =
  if decide (key ∈ ks) then None else sm_get im key.
Proof.
  revert im. induction ks as [|k ks IH]; intros im; cbn.
  { by rewrite decide_False by set_solver. }
  rewrite IH, get_remove. repeat case_decide; set_solver.
Qed.

(** Dropping the keys of the expired entries drops exactly those entries. *)
Lemma entry_drop_expired (now : Z -> Z) m key :
  entry (remove_keys (filter (fun e => is_expired (now e.1) e.2 = true)
                        (sm_iter (inner m))).*1 m) key =
  (e ← entry m key; if is_expired (now key) e then None else Some e).
Proof.
  unfold entry, remove_keys; cbn. rewrite get_remove_keys.
  case_decide as Hin.
  - apply list_elem_of_fmap in Hin as ([k e] & -> & [Hx He]%list_elem_of_filter).
    apply get_iter in He. cbn in *. rewrite He; cbn. by rewrite Hx.
  - destruct (sm_get (inner m) key) as [e|] eqn:E; cbn; [|done].
    destruct (is_expired (now key) e) eqn:Hx; [|done].
    destruct Hin. apply list_elem_of_fmap. exists (key, e).
    rewrite list_elem_of_filter, <- get_iter. done.
Qed.

(** [get] and [contains_key] never report an expired entry, report every live
    one, evict at most the entry they look at, and leave what every later
    reader of every key sees unchanged. *)
Lemma visible_monotone now now' e :
  now <= now' -> is_expired (V := V) now e = true -> is_expired now' e = true.
Proof. destruct e; cbn; [done|]. rewrite !Z.leb_le. lia. Qed.

Lemma timed_get_invisible now now' key m key' :
  now <= now' -> visible now' (timed_get now key m).2 key' = visible now' m key'.
Proof.
  intros Hle. unfold visible. rewrite timed_get_entry. case_decide; [subst|done].
  destruct (entry m key') as [e|]; cbn; [|done].
  destruct (is_expired now e) eqn:E; cbn; [|done].
  by rewrite (visible_monotone now now' e Hle E).
Qed.

Lemma insert_expirable_lease_eq now key val timeout m t :
  disable_expiration m = false ->
  visible t (insert_expirable now key val timeout m) key =
    (if t <? now + timeout then Some val else None).
Proof.
  intros Hd. unfold visible. rewrite entry_insert_expirable, decide_True, Hd by done. cbn.
  destruct (Z.leb_spec (now + timeout) t), (Z.ltb_spec t (now + timeout)); lia || done.
Qed.

(** Looking a key up at instant [now] returns the stored value exactly
    when the entry is present and its deadline is in the future, [contains_key]
    agrees with it, and the eviction it performs is invisible: a reader of any
    key at the same or a later instant sees what it would have seen without
    the lookup. *)
Theorem timed_get_exact (now now' key key' : Z) m :
  now <= now' ->
  (timed_get now key m).1 = visible now m key /\
  (timed_contains_key now key m).1 = bool_decide (is_Some (visible now m key)) /\
  visible now' (timed_get now key m).2 key' = visible now' m key' /\
  visible now' (timed_contains_key now key m).2 key' = visible now' m key'.
Proof.
  intros Hle. rewrite timed_get_visible, timed_contains_key_visible.
  rewrite timed_contains_key_state, timed_get_invisible by done. done.
Qed.

(** A value stored with a time to live under enabled expiration is
    visible at every instant before [now + timeout], is not visible from that
    instant on, and storing it does not change what is seen under other keys. *)
Theorem insert_expirable_lease (now timeout key : Z) (val : V) m (t : Z) :
  disable_expiration m = false ->
  visible t (insert_expirable now key val timeout m) key =
    (if t <? now + timeout then Some val else None) /\
  forall key', key' <> key ->
    visible t (insert_expirable now key val timeout m) key' = visible t m key'.
Proof.
  intros Hd. split; [by apply insert_expirable_lease_eq|].
  intros key' Hne. unfold visible. by rewrite entry_insert_expirable, decide_False by done.
Qed.

(** A purge with expiration enabled removes exactly the entries whose
    deadline has passed at the moment they are inspected and keeps all others
    with their deadlines; with expiration disabled it changes nothing. *)
Theorem purge_expired_exact (now : Z -> Z) m (key : Z) :
  entry (purge_expired now m) key =
  if disable_expiration m then entry m key
  else (e ← entry m key; if is_expired (now key) e then None else Some e).
Proof.
  unfold purge_expired, expires_entries.
  destruct (disable_expiration m) eqn:E; cbn; [done|]. apply entry_drop_expired.
Qed.

(** The deadline of an entry stored without one cannot be set: on a
    constant entry [update_expiration_status] returns [None] and the map is
    unchanged, so the entry stays visible at every instant. *)
Theorem update_expiration_constant (now key duration : Z) (val : V) m :
  entry m key = Some (Constant val) ->
  update_expiration_status now key duration m = (None, m) /\
  forall t, visible t (update_expiration_status now key duration m).2 key = Some val.
Proof.
  intros He. unfold update_expiration_status. unfold entry in He. rewrite He.
  split; [done|]. intros t. cbn. unfold visible, entry. by rewrite He.
Qed.

(** Switching expiration off does not keep timed entries readable: an
    entry whose deadline has passed is still refused by [get] and evicted,
    although expiration is disabled. *)
Theorem disabled_expiration_still_evicts (now key t : Z) (val : V) m :
  disable_expiration m = true -> entry m key = Some (Expirable val t) -> t <= now ->
  (timed_get now key m).1 = None /\ entry (timed_get now key m).2 key = None.
Proof.
  intros _ He Ht. split.
  - rewrite timed_get_visible. unfold visible. rewrite He. cbn.
    by rewrite (proj2 (Z.leb_le _ _) Ht).
  - rewrite timed_get_entry, decide_True, He by done. cbn.
    by rewrite (proj2 (Z.leb_le _ _) Ht).
Qed.
End Lemmas.
End TimedMap.

Arguments TimedMap : clear implicits.
Arguments ExpiryValue : clear implicits.
Arguments Constant {V} value.
Arguments Expirable {V} value expires_at.
Arguments mkTimed {SM V} _ _.
Arguments inner {SM V} _.
Arguments disable_expiration {SM V} _.

#[export] Hint Rewrite @entry_insert_constant @entry_insert_expirable @entry_remove
  @entry_write @entry_clear using (exact _) : kio.

(** ** Witnesses *)

Definition lease_map : TimedMap ZMap Z :=
  insert_expirable 100 7 42 50 (insert_constant 8 5 timed_new).

Lemma timed_get_exact_witness :
  (timed_get 160 7 lease_map).1 = None /\
  (timed_get 149 7 lease_map).1 = Some 42 /\
  visible 170 (timed_get 160 7 lease_map).2 8 = Some 5.
Proof.
  split_and!; [reflexivity|reflexivity|].
  destruct (timed_get_exact 160 170 7 8 lease_map) as (_ & _ & -> & _); [lia|reflexivity].
Defined.

Lemma insert_expirable_lease_witness :
  visible 149 lease_map 7 = Some 42 /\ visible 150 lease_map 7 = None.
Proof.
  split.
  - apply (insert_expirable_lease 100 50 7 42 (insert_constant 8 5 timed_new : TimedMap ZMap Z) 149).
    reflexivity.
  - apply (insert_expirable_lease 100 50 7 42 (insert_constant 8 5 timed_new : TimedMap ZMap Z) 150).
    reflexivity.
Defined.

Lemma update_expiration_constant_witness :
  update_expiration_status 10 8 3 lease_map = (None, lease_map).
Proof. apply (update_expiration_constant 10 8 3 5 lease_map). reflexivity. Defined.

Lemma disabled_expiration_still_evicts_witness :
  (timed_get 150 7 (toggle_expiration lease_map)).1 = None /\
  entry (timed_get 150 7 (toggle_expiration lease_map)).2 7 = None.
Proof.
  apply (disabled_expiration_still_evicts 150 7 150 42); [reflexivity|reflexivity|lia].
Defined.

Lemma purge_expired_exact_witness :
  entry (purge_expired (fun _ => 150) lease_map) 7 = None /\
  entry (purge_expired (fun _ => 150) lease_map) 8 = Some (Constant 5) /\
  entry (purge_expired (fun _ => 150) (toggle_expiration lease_map)) 7 = Some (Expirable 42 150).
Proof. split_and!; rewrite purge_expired_exact; reflexivity. Defined.
