(* ===== verification/Extern.v ===== *)
(** * Third-party code and errors

    [Extern] collects the types and functions of packages outside the
    repository that the program calls: [chrono]'s checked timestamp
    conversion and range of dates, [croner]'s schedules, and the opaque payloads of the metrics
    packages.  The components take it as a parameter.  The second part is
    [src/error/mod.rs]. *)

From S2P Require Import Prelude.

(** ** Date and time

    A [DateTime<Utc>] is the number of nanoseconds since the epoch; a
    [TimeDelta] is a number of nanoseconds. *)

Definition Dt : Type := Z.
Definition timestamp_millis (dt : Dt) : Z := dt / 1000000.
Definition timestamp_micros (dt : Dt) : Z := dt / 1000.
Definition milliseconds (ms : Z) : Z := ms * 1000000.
Definition num_milliseconds (delta : Z) : Z := Z.quot delta 1000000.

(** [TimeDelta::to_std().unwrap_or_default()]: a negative span becomes zero. *)
Definition to_std_or_default (delta : Z) : Z := Z.max 0 delta.

(** ** The packages *)

Class Extern := {
  (** [croner::Cron], its parser and [find_next_occurrence(dt, false)];
      [None] stands for the [CronError]. *)
  Cron : Type;
  parse_cron : string -> option Cron;
  find_next_occurrence : Cron -> Dt -> option Dt;
  (** [DateTime::from_timestamp_micros], [None] out of chrono's range. *)
  from_timestamp_micros : Z -> option Dt;
  (** [DateTime::<Utc>::MIN_UTC] and [MAX_UTC]. *)
  dt_min : Dt;
  dt_max : Dt;
  (** Payloads that the program only moves around. *)
  Histogram : Type;
  HeapStats : Type;
  F32 : Type;
}.

(** [DateTime + TimeDelta]; [None] is the panic of a sum that is out of range. *)
Definition dt_add {EXT : Extern} (dt : Dt) (delta : Z) : option Dt :=
  let sum := dt + delta in
  if (dt_min <=? sum) && (sum <=? dt_max) then Some sum else None.

(** A delay of [ms] milliseconds after [dt] has a date. *)
Definition dated {EXT : Extern} (dt : Dt) (ms : Z) : Prop :=
  dt_min <= dt + milliseconds ms <= dt_max.

#[global] Instance dated_dec {EXT : Extern} dt ms : Decision (dated dt ms).
Proof. apply and_dec; apply Z_le_dec. Defined.

Lemma dt_add_dated {EXT : Extern} dt ms :
  dt_add dt (milliseconds ms) = if decide (dated dt ms) then Some (dt + milliseconds ms) else None.
Proof.
  unfold dt_add, dated. case_decide; [by rewrite (proj2 (Z.leb_le _ _)), (proj2 (Z.leb_le _ _)) by lia|].
  destruct (Z.leb_spec dt_min (dt + milliseconds ms)), (Z.leb_spec (dt + milliseconds ms) dt_max); done || lia.
Qed.

(** ** Errors *)

Inductive WorkerError : Type :=
| WorkerAlreadyRunningWithId (id : Z)
| WorkerAlreadyClosed (id : Z)
| FailedToCheckStalledJobs.

Inductive QueueError : Type :=
| UnKnownEventMode
| FailedToObliterate
| CantObliterateWhileJobsActive
| CantOperateWhenPaused
| DelayBelowAllowedLimit (limit_ms current_ms : Z).

Inductive JobError : Type :=
| JobNotFound
| JobLockNotExist
| JobNotInState
| JobPendingDependencies
| ParentJobNotExist
| JobLockMismatch
| MissedDelayDeadline.

(** [JobError]'s [#[error(..)]] messages. *)
Definition job_error_message (e : JobError) : string :=
  match e with
  | JobNotFound => "The job does not exist"
  | JobLockNotExist => "The job lock does not exist"
  | JobNotInState => "The job is not in the expected state"
  | JobPendingDependencies => "The job has pending dependencies"
  | ParentJobNotExist => "The parent job does not exist"
  | JobLockMismatch => "The job lock does not match"
  | MissedDelayDeadline => "Job has missed delay deadline"
  end.

(** The wrapped errors of other packages are kept as their message. *)
Inductive KioError : Type :=
| RedisError (e : string)
| RedisParsingError (e : string)
| DealPoolError (e : string)
| DealPoolConfig (e : string)
| JsonError (e : string)
| SerdeDeserializeError (e : string)
| IoError (e : string)
| FmtError
| ParseIntError (e : string)
| GeneralError (e : string)
| SystemTimeError (e : string)
| KQueueError (e : QueueError)
| ConversionError (from to : string)
| EmitterError (e : string)
| JoinError (e : string)
| KWorkerError (e : WorkerError)
| KJobError (e : JobError)
| CronerError (e : string)
| InMemoryError (e : string).

Abbreviation KM S A := (M KioError S A).

(** A concrete instance for witnesses: a schedule fires every [n] nanoseconds,
    every timestamp is in range, and dates are chrono's. *)
Definition sample_extern : Extern := {|
  Cron := positive;
  parse_cron s := match s with "* * * * *"%string => Some 60000000000%positive | _ => None end;
  find_next_occurrence period dt := Some ((dt / Z.pos period + 1) * Z.pos period);
  from_timestamp_micros us := Some (us * 1000);
  dt_min := -8334601228800 * 1000000000;
  dt_max := 8210266876799999999999;
  Histogram := unit;
  HeapStats := unit;
  F32 := unit;
|}.
