(* ===== verification/Schedule.v ===== *)
(** * Back-off, delay and repeat policies
    ([src/job/backoff.rs], [src/job/delay.rs], [src/job/repeat.rs])

    The registry of back-off strategies and the three ways the program
    computes when a job runs next.  Functions that read the clock take the
    reading as their first argument. *)

From S2P Require Import Prelude SkipMap Extern.

(** ** Back-off options *)

Record BackOffOptions : Type := mkBackOffOptions {
  type_ : option string;
  bo_delay : option Z;
}.

Inductive BackOffJobOptions : Type :=
| Number (n : Z)
| BackOffOpts (opts : BackOffOptions).

(** [StoredFn]: attempt count to delay in milliseconds. *)
Definition StoredFn : Type := Z -> Z.
Definition BackoffFn : Type := Z -> StoredFn.

(** [u32::try_from(x).unwrap_or(u32::MAX)]. *)
Definition u32_max : Z := 2 ^ 32 - 1.
Definition u32_or_max (x : Z) : Z :=
  if (0 <=? x) && (x <=? u32_max) then x else u32_max.

(** [2_i64.pow(n)] with wrapping arithmetic: from 64 on no bit is left. *)
Definition pow2_i64 (n : Z) : Z := if n <? 64 then cast_signed (2 ^ n) else 0.

Definition exponential : BackoffFn := fun delay atempts =>
  wrapping_mul_i64 (pow2_i64 (u32_or_max atempts)) delay.

Definition fixed : BackoffFn := fun delay _attempts => delay.

Section BackOff.
Context {SS : Type -> Type} `{OPS : !SkipMap string SS}.

Record BackOff : Type := mkBackOff { builtin_strategies : SS BackoffFn }.

Definition register (name : string) (strategy : BackoffFn) (b : BackOff) : BackOff :=
  mkBackOff (sm_insert name strategy (builtin_strategies b)).

Definition backoff_new : BackOff :=
  register "fixed" fixed (register "exponential" exponential (mkBackOff sm_new)).

Definition normalize (backoff : option BackOffJobOptions) : option BackOffOptions :=
  match backoff with
  | None => None
  | Some (Number num) =>
      if num =? 0 then None else Some (mkBackOffOptions (Some "fixed"%string) (Some num))
  | Some (BackOffOpts opts) => Some opts
  end.

Definition has_strategy (key : string) (b : BackOff) : bool :=
  sm_contains_key (builtin_strategies b) key.

Definition lookup_strategy (b : BackOff) (backoff : BackOffOptions)
    (custom_strategy : option StoredFn) : option StoredFn :=
  let builtin :=
    match type_ backoff with
    | Some t =>
        match sm_get (builtin_strategies b) t, bo_delay backoff with
        | Some strategy, Some delay => Some (strategy delay)
        | _, _ => None
        end
    | None => None
    end in
  match builtin with
  | Some strategy => Some strategy
  | None => custom_strategy
  end.

Definition calculate (b : BackOff) (backoff_opts : option BackOffOptions) (attempts : Z)
    (custom_strategy : option StoredFn) : option Z :=
  match backoff_opts with
  | Some opts =>
      match lookup_strategy b opts custom_strategy with
      | Some strategy => Some (strategy attempts)
      | None => None
      end
  | None => None
  end.

(** [Queue::register_backoff_strategy]: an existing name is not replaced. *)
Definition register_backoff_strategy (name : string) (strategy : BackoffFn) (b : BackOff) :
    BackOff :=
  if negb (has_strategy name b) then register name strategy b else b.

(** [Queue::calculate_next_delay_ms]. *)
Definition calculate_next_delay_ms (b : BackOff) (backoff_job_opts : BackOffJobOptions)
    (attempts : Z) : option Z :=
  match normalize (Some backoff_job_opts) with
  | Some backoff_opts => calculate b (Some backoff_opts) attempts None
  | None => None
  end.

(** ** Delays *)

Context {EXT : Extern}.

Inductive JobDelay : Type :=
| TimeMilis (ms : Z)
| FromCron (cron : Cron).

Definition JobDelay_default : JobDelay := TimeMilis 0.

(** The outer [None] is the panic of a date out of range. *)
Definition next_occurrance_timestamp_ms (ts : Dt) (delay : JobDelay) : option (option Z) :=
  match delay with
  | TimeMilis ms =>
      if ms <=? 0 then Some None
      else
        next ← dt_add ts (milliseconds ms);
        Some (Some (timestamp_millis next))
  | FromCron cron => Some (timestamp_millis <$> find_next_occurrence cron ts)
  end.

(** [None] is the panic of [expect("failed")]. *)
Definition as_diff_ms (delay : JobDelay) (dt : Dt) : option Z :=
  match delay with
  | TimeMilis ms => Some ms
  | FromCron cron =>
      match find_next_occurrence cron dt with
      | Some next_dt => Some (num_milliseconds (next_dt - dt))
      | None => None
      end
  end.

(** [From<Cron>], [From<i64>] and [TryFrom<&str>]. *)
Definition delay_of_cron (value : Cron) : JobDelay := FromCron value.
Definition delay_of_ms (value : Z) : JobDelay := TimeMilis value.
Definition JobDelay_try_from (value : string) : option JobDelay :=
  FromCron <$> parse_cron value.

(** ** Repeat policies *)

Inductive Repeat : Type :=
| WithCron (cron : Cron)
| WithBackOff (opts : BackOffJobOptions)
| Every (delay_ms : Z) (max_attempts : option Z)
| Immediately (max_attempts : Z).

Definition from_cron_str (pattern : string) : option Repeat := WithCron <$> parse_cron pattern.
Definition from_back_off (opts : BackOffJobOptions) : Repeat := WithBackOff opts.
Definition repeat_every_for_times (every_ms : Z) (max_attempts : option Z) : Repeat :=
  Every every_ms max_attempts.

(** [From<BackOffJobOptions>], [From<(i64, Option<u64>)>] and [TryFrom<&str>]. *)
Definition repeat_of_back_off (value : BackOffJobOptions) : Repeat := from_back_off value.
Definition repeat_of_pair (value : Z * option Z) : Repeat := Every value.1 value.2.
Definition Repeat_try_from (value : string) : option Repeat := from_cron_str value.

(** The outer [None] is the panic of a date out of range. *)
Definition next_occurrence (now : Dt) (repeat : Repeat) (backoff : BackOff) (attempts : Z) :
    option (option Z) :=
  match repeat with
  | WithCron cron => Some (timestamp_millis <$> find_next_occurrence cron now)
  | WithBackOff opts =>
      match normalize (Some opts) with
      | None => Some None
      | Some opts =>
          match lookup_strategy backoff opts None with
          | None => Some None
          | Some delay_fn =>
              let next_delay_ms := delay_fn (cast_signed attempts) in
              next_dt ← dt_add now (milliseconds next_delay_ms);
              Some (Some (timestamp_millis next_dt))
          end
      end
  | Every delay_ms max_attempts =>
      let exhausted := match max_attempts with
                       | Some max_ts => max_ts <=? attempts
                       | None => false
                       end in
      if exhausted then Some None
      else
        next_dt ← dt_add now (milliseconds delay_ms);
        Some (Some (timestamp_millis next_dt))
  | Immediately max_attempts => Some (if max_attempts <=? attempts then None else Some 0)
  end.

(** ** Lemmas *)

Lemma next_occurrance_dated ts ms :
  (0 < ms -> dated ts ms) ->
  next_occurrance_timestamp_ms ts (TimeMilis ms) =
  Some (if ms <=? 0 then None else Some (timestamp_millis (ts + milliseconds ms))).
Proof.
  intros Hd. cbn. destruct (Z.leb_spec ms 0); [done|]. by rewrite dt_add_dated, decide_True by auto.
Qed.


Lemma pow2_i64_spec n : 0 <= n -> pow2_i64 n = cast_signed (2 ^ n).
Proof.
  intros Hn. unfold pow2_i64. destruct (Z.ltb_spec n 64); [done|].
  unfold cast_signed, two64. replace n with (64 + (n - 64)) by lia.
  rewrite Z.pow_add_r by lia. rewrite Z.mul_comm, Z.mod_mul by lia. done.
Qed.

Lemma u32_or_max_small x : 0 <= x <= u32_max -> u32_or_max x = x.
Proof.
  intros [H1 H2]. unfold u32_or_max.
  by rewrite (proj2 (Z.leb_le _ _) H1), (proj2 (Z.leb_le _ _) H2).
Qed.

Lemma u32_or_max_large x : x < 0 \/ 64 <= x -> 64 <= u32_or_max x.
Proof.
  unfold u32_or_max, u32_max. intros H.
  destruct (Z.leb_spec 0 x), (Z.leb_spec x (2 ^ 32 - 1)); cbn; lia.
Qed.

Lemma exponential_in_range delay attempts :
  0 <= attempts <= 62 -> 0 <= delay -> 2 ^ attempts * delay < two63 ->
  exponential delay attempts = 2 ^ attempts * delay.
Proof.
  intros Ha Hd Hb. unfold exponential, wrapping_mul_i64.
  assert (2 ^ attempts <= 2 ^ 62) by (apply Z.pow_le_mono_r; lia).
  assert (0 < 2 ^ attempts) by (apply Z.pow_pos_nonneg; lia).
  rewrite u32_or_max_small by (unfold u32_max; lia).
  rewrite pow2_i64_spec by lia.
  rewrite (cast_signed_small (2 ^ attempts)) by (unfold two63; lia).
  apply cast_signed_small. nia.
Qed.

Lemma exponential_wrapped delay attempts :
  attempts < 0 \/ 64 <= attempts -> exponential delay attempts = 0.
Proof.
  intros H%u32_or_max_large. unfold exponential, pow2_i64.
  destruct (Z.ltb_spec (u32_or_max attempts) 64); [lia|done].
Qed.

Section Registry.
Context `{LAWS : !SkipMapLaws string SS}.

Lemma get_register name strategy b name' :
  sm_get (builtin_strategies (register name strategy b)) name' =
  if decide (name = name') then Some strategy else sm_get (builtin_strategies b) name'.
Proof. cbn. by rewrite get_insert. Qed.

Lemma get_backoff_new name :
  sm_get (builtin_strategies backoff_new) name =
  if decide (name = "fixed"%string) then Some fixed
  else if decide (name = "exponential"%string) then Some exponential else None.
Proof.
  unfold backoff_new. rewrite !get_register. cbn. rewrite get_new.
  repeat case_decide; congruence.
Qed.

(** The built-in back-off policies of a fresh registry give the documented
    delays: a number [n <> 0] always waits [n] ms and [0] means no back-off;
    the exponential policy waits exactly [2^attempt * delay] ms while that
    fits an [i64]; a policy whose name is not registered gives no delay. *)
Theorem builtin_delays (delay attempts : Z) (name : string) :
  0 <= attempts <= 62 -> 0 <= delay -> 2 ^ attempts * delay < two63 ->
  calculate_next_delay_ms backoff_new (Number delay) attempts =
    (if delay =? 0 then None else Some delay) /\
  calculate_next_delay_ms backoff_new
    (BackOffOpts (mkBackOffOptions (Some "exponential"%string) (Some delay))) attempts =
    Some (2 ^ attempts * delay) /\
  (name <> "fixed"%string -> name <> "exponential"%string ->
   calculate_next_delay_ms backoff_new
     (BackOffOpts (mkBackOffOptions (Some name) (Some delay))) attempts = None).
Proof.
  intros Ha Hd Hb. unfold calculate_next_delay_ms, calculate, lookup_strategy. cbn.
  split_and!.
  - destruct (delay =? 0); [done|]. cbn. by rewrite get_backoff_new.
  - rewrite get_backoff_new. f_equal. by apply exponential_in_range.
  - intros Hf He. rewrite get_backoff_new. by repeat case_decide.
Qed.

(** The exponential delay does not saturate: for an attempt number of 64
    or more, or a negative one, the wrapped product is 0, so the retry is due
    at once. *)
Theorem exponential_overflow (delay attempts : Z) :
  attempts < 0 \/ 64 <= attempts ->
  calculate_next_delay_ms backoff_new
    (BackOffOpts (mkBackOffOptions (Some "exponential"%string) (Some delay))) attempts = Some 0.
Proof.
  intros H. unfold calculate_next_delay_ms, calculate, lookup_strategy. cbn.
  rewrite get_backoff_new. f_equal. by apply exponential_wrapped.
Qed.

(** Registering a strategy on a queue never replaces an existing one and
    makes a new name available, and leaves every other name alone. *)
Theorem register_backoff_strategy_keeps (name name' : string) (strategy : BackoffFn) b :
  sm_get (builtin_strategies (register_backoff_strategy name strategy b)) name' =
  match sm_get (builtin_strategies b) name' with
  | Some f => Some f
  | None => if decide (name = name') then Some strategy else None
  end.
Proof.
  unfold register_backoff_strategy, has_strategy. rewrite contains_key_get.
  case_bool_decide as Hs; cbn.
  - destruct (sm_get (builtin_strategies b) name') eqn:E; [done|].
    case_decide; [subst|done]. rewrite E in Hs. by destruct Hs.
  - rewrite get_insert. case_decide; [subst|].
    + destruct (sm_get (builtin_strategies b) name'); [by destruct Hs|].
      by rewrite decide_True.
    + destruct (sm_get (builtin_strategies b) name'); [done|]. by rewrite decide_False.
Qed.
End Registry.

(** A repeat policy with a limit stops exactly at the limit: [Every] and
    [Immediately] yield a next run while fewer than [max] attempts were made
    and [None] from then on; an unlimited [Every] never stops; the next run of
    [Every] is the clock reading plus the delay, rounded down to a millisecond,
    as long as that is a date. *)
Theorem repeat_limit (now : Dt) (b : BackOff) (attempts delay_ms max : Z) :
  dated now delay_ms ->
  next_occurrence now (Every delay_ms (Some max)) b attempts =
    Some (if attempts <? max then Some ((now + delay_ms * 1000000) / 1000000) else None) /\
  next_occurrence now (Immediately max) b attempts =
    Some (if attempts <? max then Some 0 else None) /\
  next_occurrence now (Every delay_ms None) b attempts =
    Some (Some (now / 1000000 + delay_ms)).
Proof.
  intros Hd. cbn. rewrite dt_add_dated, decide_True by done. cbn. unfold timestamp_millis, milliseconds.
  destruct (Z.leb_spec max attempts), (Z.ltb_spec attempts max); try lia;
    split_and!; try done; by rewrite Z.div_add.
Qed.
End BackOff.

Arguments BackOff : clear implicits.

(** ** Witnesses *)

Lemma builtin_delays_witness :
  calculate_next_delay_ms (SS := StrMap) backoff_new
    (BackOffOpts (mkBackOffOptions (Some "exponential"%string) (Some 100))) 5 = Some 3200 /\
  calculate_next_delay_ms (SS := StrMap) backoff_new (Number 100) 5 = Some 100.
Proof.
  destruct (builtin_delays (SS := StrMap) 100 5 "x"%string) as (H1 & H2 & _);
    [lia|lia|vm_compute; reflexivity|].
  split; [exact H2|exact H1].
Defined.

Lemma exponential_overflow_witness :
  calculate_next_delay_ms (SS := StrMap) backoff_new
    (BackOffOpts (mkBackOffOptions (Some "exponential"%string) (Some 100))) 64 = Some 0.
Proof. apply (exponential_overflow (SS := StrMap) 100 64). right. lia. Defined.
