(* ===== verification/Job.v ===== *)
(** * Jobs ([src/job/mod.rs])

    The lifecycle states, options and records of jobs, their constructor and
    the derived timing metrics. *)

From S2P Require Import Prelude SkipMap Extern Schedule.

(** ** Lifecycle states *)

Module JobState.
Inductive t : Type :=
| Wait
| Prioritized
| Stalled
| Active
| Paused
| Resumed
| Completed
| Failed
| Delayed
| Progress
| Obliterated
| Processing.

#[export] Instance eq_dec : EqDecision t.
Proof. solve_decision. Defined.

Definition default : t := Wait.
End JobState.
#[export] Existing Instance JobState.eq_dec.

(** ** Small records *)

(** [JobMetrics]; the durations are in nanoseconds. *)
Record JobMetrics : Type := mkJobMetrics {
  jm_ran_for : Z;
  jm_delayed_for : Z;
  jm_attempt : Z;
  jm_delay : Z;
  jm_id : Z;
}.

Definition JobMetrics_default : JobMetrics := mkJobMetrics 0 0 0 0 0.

Record KeepJobs : Type := mkKeepJobs {
  age : option Z;
  count : option Z;
}.

Inductive RemoveOnCompletionOrFailure : Type :=
| RBool (b : bool)
| RInt (n : Z)
| ROpts (k : KeepJobs).

Record Trace : Type := mkTrace {
  tr_run : Z;
  tr_reason : string;
  tr_frames : list string;
}.

Record FailedDetails : Type := mkFailedDetails {
  fd_run : Z;
  fd_reason : string;
}.

Definition FailedDetails_default : FailedDetails := mkFailedDetails 0 "".

(** [JobToken(worker id, fresh id, active job count)]; a [Uuid] is its 128-bit
    number. *)
Record JobToken : Type := mkToken {
  tok_worker : Z;
  tok_id : Z;
  tok_prefix : Z;
}.

#[export] Instance JobToken_eq_dec : EqDecision JobToken.
Proof. solve_decision. Defined.

(** ** Options and records *)

Section Job.
Context {EXT : Extern} {D R P : Type}.

Record JobOptions : Type := mkJobOptions {
  jo_priority : Z;
  jo_delay : JobDelay;
  jo_id : option Z;
  jo_attempts : Z;
  jo_remove_on_complete : option RemoveOnCompletionOrFailure;
  jo_remove_on_fail : option RemoveOnCompletionOrFailure;
  jo_backoff : option BackOffJobOptions;
  jo_repeat : option Repeat;
}.

Definition JobOptions_default : JobOptions :=
  mkJobOptions 0 JobDelay_default None 0 None None None None.

Record Job : Type := mkJob {
  j_id : option Z;
  j_ts : Dt;
  j_name : string;
  j_state : JobState.t;
  j_progress : option P;
  j_attempts_made : Z;
  j_opts : JobOptions;
  j_delay : Z;
  j_data : option D;
  j_returned_value : option R;
  j_stack_trace : list Trace;
  j_failed_reason : option FailedDetails;
  j_processed_on : option Dt;
  j_finished_on : option Dt;
  j_queue_name : option string;
  j_token : option JobToken;
  j_stalled_counter : Z;
  j_logs : list string;
  j_priority : Z;
}.

(** Field updates. *)
Definition set_j_id (x : option Z) (r : Job) : Job :=
  mkJob
    x (j_ts r) (j_name r) (j_state r) (j_progress r) (j_attempts_made r) (j_opts r)
    (j_delay r) (j_data r) (j_returned_value r) (j_stack_trace r) (j_failed_reason
    r) (j_processed_on r) (j_finished_on r) (j_queue_name r) (j_token r)
    (j_stalled_counter r) (j_logs r) (j_priority r).

Definition set_j_state (x : JobState.t) (r : Job) : Job :=
  mkJob
    (j_id r) (j_ts r) (j_name r) x (j_progress r) (j_attempts_made r) (j_opts r)
    (j_delay r) (j_data r) (j_returned_value r) (j_stack_trace r) (j_failed_reason
    r) (j_processed_on r) (j_finished_on r) (j_queue_name r) (j_token r)
    (j_stalled_counter r) (j_logs r) (j_priority r).

Definition set_j_progress (x : option P) (r : Job) : Job :=
  mkJob
    (j_id r) (j_ts r) (j_name r) (j_state r) x (j_attempts_made r) (j_opts r)
    (j_delay r) (j_data r) (j_returned_value r) (j_stack_trace r) (j_failed_reason
    r) (j_processed_on r) (j_finished_on r) (j_queue_name r) (j_token r)
    (j_stalled_counter r) (j_logs r) (j_priority r).

Definition set_j_attempts_made (x : Z) (r : Job) : Job :=
  mkJob
    (j_id r) (j_ts r) (j_name r) (j_state r) (j_progress r) x (j_opts r) (j_delay r)
    (j_data r) (j_returned_value r) (j_stack_trace r) (j_failed_reason r)
    (j_processed_on r) (j_finished_on r) (j_queue_name r) (j_token r)
    (j_stalled_counter r) (j_logs r) (j_priority r).

Definition set_j_opts (x : JobOptions) (r : Job) : Job :=
  mkJob
    (j_id r) (j_ts r) (j_name r) (j_state r) (j_progress r) (j_attempts_made r) x
    (j_delay r) (j_data r) (j_returned_value r) (j_stack_trace r) (j_failed_reason
    r) (j_processed_on r) (j_finished_on r) (j_queue_name r) (j_token r)
    (j_stalled_counter r) (j_logs r) (j_priority r).

Definition set_j_delay (x : Z) (r : Job) : Job :=
  mkJob
    (j_id r) (j_ts r) (j_name r) (j_state r) (j_progress r) (j_attempts_made r)
    (j_opts r) x (j_data r) (j_returned_value r) (j_stack_trace r) (j_failed_reason
    r) (j_processed_on r) (j_finished_on r) (j_queue_name r) (j_token r)
    (j_stalled_counter r) (j_logs r) (j_priority r).

Definition set_j_returned_value (x : option R) (r : Job) : Job :=
  mkJob
    (j_id r) (j_ts r) (j_name r) (j_state r) (j_progress r) (j_attempts_made r)
    (j_opts r) (j_delay r) (j_data r) x (j_stack_trace r) (j_failed_reason r)
    (j_processed_on r) (j_finished_on r) (j_queue_name r) (j_token r)
    (j_stalled_counter r) (j_logs r) (j_priority r).

Definition set_j_stack_trace (x : list Trace) (r : Job) : Job :=
  mkJob
    (j_id r) (j_ts r) (j_name r) (j_state r) (j_progress r) (j_attempts_made r)
    (j_opts r) (j_delay r) (j_data r) (j_returned_value r) x (j_failed_reason r)
    (j_processed_on r) (j_finished_on r) (j_queue_name r) (j_token r)
    (j_stalled_counter r) (j_logs r) (j_priority r).

Definition set_j_failed_reason (x : option FailedDetails) (r : Job) : Job :=
  mkJob
    (j_id r) (j_ts r) (j_name r) (j_state r) (j_progress r) (j_attempts_made r)
    (j_opts r) (j_delay r) (j_data r) (j_returned_value r) (j_stack_trace r) x
    (j_processed_on r) (j_finished_on r) (j_queue_name r) (j_token r)
    (j_stalled_counter r) (j_logs r) (j_priority r).

Definition set_j_processed_on (x : option Dt) (r : Job) : Job :=
  mkJob
    (j_id r) (j_ts r) (j_name r) (j_state r) (j_progress r) (j_attempts_made r)
    (j_opts r) (j_delay r) (j_data r) (j_returned_value r) (j_stack_trace r)
    (j_failed_reason r) x (j_finished_on r) (j_queue_name r) (j_token r)
    (j_stalled_counter r) (j_logs r) (j_priority r).

Definition set_j_finished_on (x : option Dt) (r : Job) : Job :=
  mkJob
    (j_id r) (j_ts r) (j_name r) (j_state r) (j_progress r) (j_attempts_made r)
    (j_opts r) (j_delay r) (j_data r) (j_returned_value r) (j_stack_trace r)
    (j_failed_reason r) (j_processed_on r) x (j_queue_name r) (j_token r)
    (j_stalled_counter r) (j_logs r) (j_priority r).

Definition set_j_token (x : option JobToken) (r : Job) : Job :=
  mkJob
    (j_id r) (j_ts r) (j_name r) (j_state r) (j_progress r) (j_attempts_made r)
    (j_opts r) (j_delay r) (j_data r) (j_returned_value r) (j_stack_trace r)
    (j_failed_reason r) (j_processed_on r) (j_finished_on r) (j_queue_name r) x
    (j_stalled_counter r) (j_logs r) (j_priority r).

Definition set_j_stalled_counter (x : Z) (r : Job) : Job :=
  mkJob
    (j_id r) (j_ts r) (j_name r) (j_state r) (j_progress r) (j_attempts_made r)
    (j_opts r) (j_delay r) (j_data r) (j_returned_value r) (j_stack_trace r)
    (j_failed_reason r) (j_processed_on r) (j_finished_on r) (j_queue_name r)
    (j_token r) x (j_logs r) (j_priority r).

Definition set_j_priority (x : Z) (r : Job) : Job :=
  mkJob
    (j_id r) (j_ts r) (j_name r) (j_state r) (j_progress r) (j_attempts_made r)
    (j_opts r) (j_delay r) (j_data r) (j_returned_value r) (j_stack_trace r)
    (j_failed_reason r) (j_processed_on r) (j_finished_on r) (j_queue_name r)
    (j_token r) (j_stalled_counter r) (j_logs r) x.

Definition set_j_ts (x : Dt) (r : Job) : Job :=
  mkJob
    (j_id r) x (j_name r) (j_state r) (j_progress r) (j_attempts_made r) (j_opts r)
    (j_delay r) (j_data r) (j_returned_value r) (j_stack_trace r) (j_failed_reason
    r) (j_processed_on r) (j_finished_on r) (j_queue_name r) (j_token r)
    (j_stalled_counter r) (j_logs r) (j_priority r).

Definition set_j_name (x : string) (r : Job) : Job :=
  mkJob
    (j_id r) (j_ts r) x (j_state r) (j_progress r) (j_attempts_made r) (j_opts r)
    (j_delay r) (j_data r) (j_returned_value r) (j_stack_trace r) (j_failed_reason
    r) (j_processed_on r) (j_finished_on r) (j_queue_name r) (j_token r)
    (j_stalled_counter r) (j_logs r) (j_priority r).

Definition set_j_data (x : option D) (r : Job) : Job :=
  mkJob
    (j_id r) (j_ts r) (j_name r) (j_state r) (j_progress r) (j_attempts_made r)
    (j_opts r) (j_delay r) x (j_returned_value r) (j_stack_trace r) (j_failed_reason
    r) (j_processed_on r) (j_finished_on r) (j_queue_name r) (j_token r)
    (j_stalled_counter r) (j_logs r) (j_priority r).

Definition set_j_queue_name (x : option string) (r : Job) : Job :=
  mkJob
    (j_id r) (j_ts r) (j_name r) (j_state r) (j_progress r) (j_attempts_made r)
    (j_opts r) (j_delay r) (j_data r) (j_returned_value r) (j_stack_trace r)
    (j_failed_reason r) (j_processed_on r) (j_finished_on r) x (j_token r)
    (j_stalled_counter r) (j_logs r) (j_priority r).

Definition set_j_logs (x : list string) (r : Job) : Job :=
  mkJob
    (j_id r) (j_ts r) (j_name r) (j_state r) (j_progress r) (j_attempts_made r)
    (j_opts r) (j_delay r) (j_data r) (j_returned_value r) (j_stack_trace r)
    (j_failed_reason r) (j_processed_on r) (j_finished_on r) (j_queue_name r)
    (j_token r) (j_stalled_counter r) x (j_priority r).

Definition job_new (now : Dt) (name : string) (data : option D) (id : option Z)
    (queue_name : option string) : Job :=
  mkJob id now name JobState.default None 0 JobOptions_default 0 data None [] None
    None None queue_name None 0 [] 0.

(** [Option<Dt>::unwrap_or_default]: the epoch. *)
Definition dt_or_epoch (o : option Dt) : Dt := unwrap_or 0 o.

(** The only way out of [get_metrics] other than [Some] is the panic of the
    cron schedule, here [None]. *)
Definition get_metrics (job : Job) : option JobMetrics :=
  match as_diff_ms (jo_delay (j_opts job)) (j_ts job) with
  | None => None
  | Some diff =>
      let delay := cast_unsigned diff in
      let processed_on := dt_or_epoch (j_processed_on job) in
      let id := unwrap_or 0 (j_id job) in
      let finished_on := dt_or_epoch (j_finished_on job) in
      let attempt := j_attempts_made job in
      let ran_for := to_std_or_default (finished_on - processed_on) in
      let delayed_for := to_std_or_default (processed_on - j_ts job) in
      Some (mkJobMetrics ran_for delayed_for attempt delay id)
  end.

(** [None] is the panic of the cron schedule. *)
Definition add_opts (opts : JobOptions) (job : Job) : option Job :=
  let job := set_j_priority (jo_priority opts) job in
  match as_diff_ms (jo_delay opts) (j_ts job) with
  | None => None
  | Some diff => Some (set_j_opts opts (set_j_delay (cast_unsigned diff) job))
  end.
End Job.

Arguments Job {EXT} D R P.
