(* ===== verification/Options.v ===== *)
(** * Queue options, collections and metrics ([src/queue/options.rs])

    The collection identifiers with their 64-bit tags, the queue options and
    their merge into job options, the priority score, and the counters of a
    queue. *)

From S2P Require Import Prelude SkipMap Extern Schedule Job.

(** ** Collection identifiers *)

Module CollectionSuffix.
Inductive t : Type :=
| Active
| Completed
| Delayed
| Stalled
| Prioritized
| PriorityCounter
| Id
| Meta
| Events
| Wait
| Paused
| Failed
| Marker
| Job (id : Z)
| Prefix
| Lock (id : Z)
| StalledCheck
| WorkerMetrics
| ProcessMetrics.

#[export] Instance eq_dec : EqDecision t.
Proof. solve_decision. Defined.

Definition discriminant (c : t) : Z :=
  match c with
  | Active => 1
  | Completed => 2
  | Delayed => 3
  | Stalled => 4
  | Prioritized => 5
  | PriorityCounter => 6
  | Id => 7
  | Meta => 8
  | Events => 9
  | Wait => 10
  | Paused => 11
  | Failed => 12
  | Marker => 13
  | Job _ => 14
  | Prefix => 15
  | Lock _ => 16
  | StalledCheck => 17
  | WorkerMetrics => 18
  | ProcessMetrics => 19
  end.

Definition payload_mask : Z := 0x00FFFFFFFFFFFFFF.

Definition tag (c : t) : Z :=
  let top := Z.shiftl (discriminant c) 56 in
  match c with
  | Job id | Lock id => Z.lor top (Z.land id payload_mask)
  | _ => top
  end.

Definition from_tag (tag : Z) : option t :=
  let disc := Z.land (Z.shiftr tag 56) 0xFF in
  let payload := Z.land tag payload_mask in
  if disc =? 1 then Some Active else
  if disc =? 2 then Some Completed else
  if disc =? 3 then Some Delayed else
  if disc =? 4 then Some Stalled else
  if disc =? 5 then Some Prioritized else
  if disc =? 6 then Some PriorityCounter else
  if disc =? 7 then Some Id else
  if disc =? 8 then Some Meta else
  if disc =? 9 then Some Events else
  if disc =? 10 then Some Wait else
  if disc =? 11 then Some Paused else
  if disc =? 12 then Some Failed else
  if disc =? 13 then Some Marker else
  if disc =? 14 then Some (Job payload) else
  if disc =? 15 then Some Prefix else
  if disc =? 16 then Some (Lock payload) else
  if disc =? 17 then Some StalledCheck else
  None.

(** [impl From<JobState> for CollectionSuffix]. *)
Definition from_state (val : JobState.t) : t :=
  match val with
  | JobState.Wait => Wait
  | JobState.Stalled | JobState.Paused => Paused
  | JobState.Active | JobState.Resumed => Active
  | JobState.Completed => Completed
  | JobState.Failed => Failed
  | JobState.Delayed => Delayed
  | JobState.Progress => Prefix
  | JobState.Prioritized => Prioritized
  | JobState.Processing => Meta
  | JobState.Obliterated => Events
  end.

(** The payload fits the 56 bits a tag leaves for it. *)
Definition payload_ok (c : t) : Prop :=
  match c with Job id | Lock id => 0 <= id < 2 ^ 56 | _ => True end.

(** ** Tags *)

Lemma land_mask id : 0 <= id < 2 ^ 56 -> Z.land id payload_mask = id.
Proof.
  intros H. change payload_mask with (Z.ones 56).
  rewrite Z.land_ones by lia. by apply Z.mod_small.
Qed.

(** A tag is its discriminant and its payload, side by side. *)
Lemma tag_value d p : 0 <= p < 2 ^ 56 -> Z.lor (Z.shiftl d 56) p = d * 2 ^ 56 + p.
Proof.
  intros Hp. rewrite Z.shiftl_mul_pow2 by lia.
  assert (Z.land (d * 2 ^ 56) p = 0) as Hl.
  { apply Z.bits_inj'; intros n Hn. rewrite Z.land_spec, Z.bits_0.
    destruct (Z.lt_ge_cases n 56).
    - by rewrite Z.mul_pow2_bits_low.
    - rewrite <- (Z.mod_small p (2 ^ 56)), Z.mod_pow2_bits_high by lia.
      by rewrite andb_false_r. }
  by rewrite <- Z.lxor_lor, <- Z.add_nocarry_lxor.
Qed.

Definition payload (c : t) : Z := match c with Job id | Lock id => id | _ => 0 end.

Lemma tag_eq c : payload_ok c -> tag c = discriminant c * 2 ^ 56 + payload c.
Proof.
  intros Hp. unfold tag.
  destruct c; cbn [payload discriminant payload_ok] in *;
    rewrite ?land_mask by done; rewrite ?tag_value by done; reflexivity.
Qed.

Lemma payload_range c : payload_ok c -> 0 <= payload c < 2 ^ 56.
Proof. destruct c; cbn; lia. Qed.

Lemma discriminant_range c : 1 <= discriminant c <= 19.
Proof. destruct c; cbn; lia. Qed.

Lemma tag_range c : payload_ok c -> 0 <= tag c < 2 ^ 64.
Proof.
  intros Hp. rewrite tag_eq by done.
  pose proof (payload_range c Hp). pose proof (discriminant_range c). lia.
Qed.

Lemma from_tag_eq d p :
  1 <= d <= 19 -> 0 <= p < 2 ^ 56 ->
  Z.land (Z.shiftr (d * 2 ^ 56 + p) 56) 0xFF = d /\ Z.land (d * 2 ^ 56 + p) payload_mask = p.
Proof.
  intros Hd Hp. rewrite Z.shiftr_div_pow2 by lia.
  rewrite Z.div_add_l by lia. rewrite (Z.div_small p) by lia. split.
  - change 0xFF with (Z.ones 8). rewrite Z.land_ones by lia. rewrite Z.mod_small; lia.
  - change payload_mask with (Z.ones 56). rewrite Z.land_ones by lia.
    rewrite Z.add_comm, Z.mod_add by lia. by apply Z.mod_small.
Qed.

Lemma tag_injective_ok c1 c2 :
  payload_ok c1 -> payload_ok c2 -> tag c1 = tag c2 -> c1 = c2.
Proof.
  intros H1 H2. rewrite !tag_eq by done. intros Heq.
  pose proof (payload_range c1 H1). pose proof (payload_range c2 H2).
  assert (discriminant c1 = discriminant c2 /\ payload c1 = payload c2) as [Hd Hp] by lia.
  clear Heq. destruct c1, c2; cbn in Hd, Hp; try discriminate Hd; congruence.
Qed.

(** C40: with payloads below 2^56, two collection identifiers with the same
    64-bit tag are the same identifier, so records and locks keyed by tag
    never collide. *)
Theorem tag_injective (c1 c2 : t) :
  payload_ok c1 -> payload_ok c2 -> (tag c1 = tag c2 <-> c1 = c2).
Proof. intros H1 H2. split; [by apply tag_injective_ok|by intros ->]. Qed.

(** Decoding a tag gives the identifier back for every identifier with a
    payload below 2^56, except the two metrics collections, which [tag]
    encodes but [from_tag] does not decode. *)
Theorem from_tag_tag (c : t) :
  payload_ok c ->
  from_tag (tag c) =
  match c with WorkerMetrics | ProcessMetrics => None | _ => Some c end.
Proof.
  intros Hp. rewrite tag_eq by done. unfold from_tag.
  destruct (from_tag_eq (discriminant c) (payload c)) as [-> ->];
    [apply discriminant_range|by apply payload_range|].
  by destruct c.
Qed.
End CollectionSuffix.
#[export] Existing Instance CollectionSuffix.eq_dec.

(** ** Event modes *)

Inductive QueueEventMode : Type :=
| PubSub
| Stream.

#[export] Instance QueueEventMode_eq_dec : EqDecision QueueEventMode.
Proof. solve_decision. Defined.

Definition QueueEventMode_default : QueueEventMode := Stream.

Definition QueueEventMode_try_from (value : Z) : QueueError + QueueEventMode :=
  if value =? 1 then inr PubSub
  else if value =? 0 then inr Stream
  else inl UnKnownEventMode.

(** ** Metrics of a queue *)

Record QueueMetrics : Type := mkQueueMetrics {
  qm_last_id : Z;
  qm_processing : Z;
  qm_prioritized : Z;
  qm_active : Z;
  qm_stalled : Z;
  qm_delayed : Z;
  qm_completed : Z;
  qm_failed : Z;
  qm_paused : Z;
  qm_waiting : Z;
  qm_is_paused : bool;
  qm_event_mode : QueueEventMode;
}.

Definition set_qm_is_paused (x : bool) (r : QueueMetrics) : QueueMetrics :=
  mkQueueMetrics
    (qm_last_id r) (qm_processing r) (qm_prioritized r) (qm_active r) (qm_stalled r)
    (qm_delayed r) (qm_completed r) (qm_failed r) (qm_paused r) (qm_waiting r) x
    (qm_event_mode r).

Definition QueueMetrics_new (last_id processing active stalled completed delayed prioritized
    paused failed waiting : Z) (is_paused : bool) (event_mode : QueueEventMode) : QueueMetrics :=
  mkQueueMetrics last_id processing prioritized active stalled delayed completed failed
    paused waiting is_paused event_mode.

Definition QueueMetrics_default : QueueMetrics :=
  mkQueueMetrics 0 0 0 0 0 0 0 0 0 0 false QueueEventMode_default.

(** [QueueMetrics::update]: every cell is swapped except [is_paused], which the
    function does not mention. *)
Definition metrics_update (other self : QueueMetrics) : QueueMetrics :=
  mkQueueMetrics (qm_last_id other) (qm_processing other) (qm_prioritized other)
    (qm_active other) (qm_stalled other) (qm_delayed other) (qm_completed other)
    (qm_failed other) (qm_paused other) (qm_waiting other)
    (qm_is_paused self) (qm_event_mode other).

Definition has_delayed (m : QueueMetrics) : bool := 0 <? qm_delayed m.

Definition queue_has_work (m : QueueMetrics) : bool :=
  (0 <? qm_waiting m) || (0 <? qm_delayed m) || (0 <? qm_stalled m) || (0 <? qm_prioritized m).

Definition queue_is_paused (m : QueueMetrics) : bool := qm_is_paused m.

Definition workers_idle (m : QueueMetrics) : bool := qm_processing m =? 0.

Definition has_active_jobs (m : QueueMetrics) : bool := 0 <? qm_active m.

Definition metrics_is_idle (m : QueueMetrics) : bool :=
  negb (queue_has_work m) && negb (has_active_jobs m) && workers_idle m.

Definition all_jobs_completed (m : QueueMetrics) : bool :=
  let last_id := qm_last_id m in
  (0 <? last_id) && (qm_completed m =? last_id) && (qm_active m =? 0) && metrics_is_idle m.

Definition metrics_clear (m : QueueMetrics) : QueueMetrics :=
  metrics_update QueueMetrics_default m.

(** ** Results and field updates *)

Inductive ProcessedResult (R : Type) : Type :=
| PFailed (details : FailedDetails)
| PSuccess (value : R) (metrics : JobMetrics).
Arguments PFailed {R} details.
Arguments PSuccess {R} value metrics.

Inductive JobField (R : Type) : Type :=
| FToken (token : JobToken)
| FPayload (result : ProcessedResult R)
| FProcessedOn (ts : Z)
| FFinishedOn (ts : Z)
| FState (state : JobState.t)
| FBackTrace (trace : Trace).
Arguments FToken {R} token.
Arguments FPayload {R} result.
Arguments FProcessedOn {R} ts.
Arguments FFinishedOn {R} ts.
Arguments FState {R} state.
Arguments FBackTrace {R} trace.

Definition field_name {R} (f : JobField R) : string :=
  match f with
  | FToken _ => "token"
  | FPayload (PSuccess _ _) => "returnedValue"
  | FPayload (PFailed _) => "failedReason"
  | FProcessedOn _ => "processedOn"
  | FFinishedOn _ => "finishedOn"
  | FState _ => "state"
  | FBackTrace _ => "stackTrace"
  end.

(** [calculate_next_priority_score] ([src/utils/mod.rs]), a [u64]. *)
Definition calculate_next_priority_score (priority prio_counter : Z) : Z :=
  wrapping_add_u64 (Z.shiftl priority 32 mod two64) (Z.land prio_counter 0xffffffffffff).

(** ** Queue options *)

Section Opts.
Context {EXT : Extern}.

Inductive RetryOptions : Type :=
| RetryFailed (opts : BackOffJobOptions)
| WithRepeat (repeat : Repeat).

Definition retry_of_back_off (value : BackOffJobOptions) : RetryOptions := RetryFailed value.
Definition retry_of_repeat (value : Repeat) : RetryOptions := WithRepeat value.

Record QueueOpts : Type := mkQueueOpts {
  qo_remove_on_fail : option RemoveOnCompletionOrFailure;
  qo_remove_on_complete : option RemoveOnCompletionOrFailure;
  qo_attempts : Z;
  qo_default_backoff : option BackOffJobOptions;
  qo_event_mode : option QueueEventMode;
  qo_repeat : option Repeat;
}.

Definition QueueOpts_default : QueueOpts :=
  mkQueueOpts None None 1 None (Some QueueEventMode_default) None.

(** [self.is_none()] then overwrite: keep the job's own setting. *)
Definition or_inherit {A} (own inherited : option A) : option A :=
  match own with None => inherited | Some a => Some a end.

(** [update_job_opts] ([src/utils/mod.rs]). *)
Definition update_job_opts (queue_opts : QueueOpts) (opts : JobOptions) : JobOptions :=
  mkJobOptions (jo_priority opts) (jo_delay opts) (jo_id opts)
    (if jo_attempts opts <? qo_attempts queue_opts
     then qo_attempts queue_opts else jo_attempts opts)
    (or_inherit (jo_remove_on_complete opts) (qo_remove_on_complete queue_opts))
    (or_inherit (jo_remove_on_fail opts) (qo_remove_on_fail queue_opts))
    (or_inherit (jo_backoff opts) (qo_default_backoff queue_opts))
    (or_inherit (jo_repeat opts) (qo_repeat queue_opts)).
End Opts.

(** ** Lemmas *)

(** The shift drops the upper half of a priority. *)
Lemma priority_score_rank p c :
  0 <= c < 2 ^ 32 -> calculate_next_priority_score p c = p mod 2 ^ 32 * 2 ^ 32 + c.
Proof.
  intros Hc. unfold calculate_next_priority_score, wrapping_add_u64, two64.
  change 0xffffffffffff with (Z.ones 48).
  rewrite Z.land_ones, Z.shiftl_mul_pow2 by lia. rewrite (Z.mod_small c) by lia.
  change (2 ^ 64) with (2 ^ 32 * 2 ^ 32). rewrite Z.mul_mod_distr_r by lia.
  pose proof (Z.mod_pos_bound p (2 ^ 32) ltac:(lia)). apply Z.mod_small. lia.
Qed.

Lemma priority_score_value p c :
  0 <= p < 2 ^ 32 -> 0 <= c < 2 ^ 32 ->
  calculate_next_priority_score p c = p * 2 ^ 32 + c.
Proof. intros Hp Hc. by rewrite priority_score_rank, Z.mod_small by lia. Qed.

(** For priorities and insertion counters below 2^32 the score orders
    prioritized jobs first by priority value, lower first, and then by
    insertion order, and two different (priority, counter) pairs never share a
    score. *)
Theorem priority_score_order (p1 c1 p2 c2 : Z) :
  0 <= p1 < 2 ^ 32 -> 0 <= c1 < 2 ^ 32 -> 0 <= p2 < 2 ^ 32 -> 0 <= c2 < 2 ^ 32 ->
  (calculate_next_priority_score p1 c1 < calculate_next_priority_score p2 c2 <->
   p1 < p2 \/ (p1 = p2 /\ c1 < c2)) /\
  (calculate_next_priority_score p1 c1 = calculate_next_priority_score p2 c2 <->
   p1 = p2 /\ c1 = c2) /\
  u64_ok (calculate_next_priority_score p1 c1).
Proof.
  intros. rewrite !priority_score_value by done. unfold u64_ok, two64. split_and!; lia.
Qed.

(** Merging queue options into job options keeps every setting the job
    has, fills in only the missing ones, never lowers the number of attempts
    below either side, and doing it twice changes nothing more. *)
Theorem update_job_opts_merge `{EXT : Extern} (q : QueueOpts) (o : JobOptions) :
  let r := update_job_opts q o in
  update_job_opts q r = r /\
  jo_attempts r = Z.max (jo_attempts o) (qo_attempts q) /\
  (forall b, jo_backoff o = Some b -> jo_backoff r = Some b) /\
  (forall b, jo_repeat o = Some b -> jo_repeat r = Some b) /\
  (jo_backoff o = None -> jo_backoff r = qo_default_backoff q) /\
  (jo_remove_on_complete o = None -> jo_remove_on_complete r = qo_remove_on_complete q) /\
  (jo_remove_on_fail o = None -> jo_remove_on_fail r = qo_remove_on_fail q).
Proof.
  destruct o as [prio delay id att rc rf bo rp], q as [qf qc qa qb qe qr]; cbn.
  split_and!; try (by intros ? ->); try (by intros ->).
  - unfold update_job_opts; cbn.
    f_equal; [|by destruct rc, qc|by destruct rf, qf|by destruct bo, qb|by destruct rp, qr].
    destruct (Z.ltb_spec att qa); [by rewrite Z.ltb_irrefl|].
    by rewrite (proj2 (Z.ltb_ge _ _)).
  - destruct (Z.ltb_spec att qa); lia.
Qed.

(** ** Witnesses *)

Lemma tag_injective_witness :
  CollectionSuffix.tag (CollectionSuffix.Job 5) = CollectionSuffix.tag (CollectionSuffix.Lock 5)
  <-> CollectionSuffix.Job 5 = CollectionSuffix.Lock 5.
Proof. apply CollectionSuffix.tag_injective; cbn; lia. Defined.

Lemma from_tag_tag_witness :
  CollectionSuffix.from_tag (CollectionSuffix.tag (CollectionSuffix.Lock 77))
    = Some (CollectionSuffix.Lock 77).
Proof. apply (CollectionSuffix.from_tag_tag (CollectionSuffix.Lock 77)). cbn. lia. Defined.

Lemma priority_score_order_witness :
  calculate_next_priority_score 1 9 < calculate_next_priority_score 2 3.
Proof. apply priority_score_order; lia. Defined.

Lemma update_job_opts_merge_witness :
  let _ := sample_extern in
  update_job_opts QueueOpts_default (update_job_opts QueueOpts_default JobOptions_default)
    = update_job_opts QueueOpts_default JobOptions_default.
Proof. apply (update_job_opts_merge (EXT := sample_extern)). Defined.
