(* ===== verification/Names.v ===== *)
(** * Names and decimal text ([src/queue/options.rs], [src/job/mod.rs])

    The textual keys of the collections, which the Redis backend uses, the
    names of states and fields, and decimal numbers as [u64] prints and parses
    them. *)

From S2P Require Import Prelude SkipMap TimedMap Extern Schedule Job Options.
From stdpp Require Import pretty.
From Stdlib Require Import Ascii.

Open Scope string_scope.
Open Scope Z_scope.

(** ** Decimal numbers *)

(** [u64::to_string]. *)
Definition show (n : Z) : string := pretty n.

Definition digit_value (c : Ascii.ascii) : option Z :=
  let n := Z.of_N (Ascii.N_of_ascii c) in
  if (48 <=? n) && (n <=? 57) then Some (n - 48) else None.

(** The value of the leading digits, and what follows them. *)
Fixpoint span (acc : Z) (s : string) : Z * string :=
  match s with
  | EmptyString => (acc, s)
  | String c s' =>
      match digit_value c with
      | Some d => span (acc * 10 + d) s'
      | None => (acc, s)
      end
  end.

(** [uN::from_str]: at least one digit, an optional plus sign, no overflow. *)
Definition parse_uint (bound : Z) (s : string) : option Z :=
  let digits := match s with String "+"%char s' => s' | _ => s end in
  match digits with
  | EmptyString => None
  | _ =>
      match span 0 digits with
      | (v, EmptyString) => if v <? bound then Some v else None
      | _ => None
      end
  end.

(** [i64::from_str]. *)
Definition parse_i64 (s : string) : option Z :=
  match s with
  | String "-"%char s' =>
      match s' with
      | String "+"%char _ => None
      | _ => Z.opp <$> parse_uint (two63 + 1) s'
      end
  | _ => parse_uint two63 s
  end.

Definition parse_u64 : string -> option Z := parse_uint two64.
Definition parse_u32 : string -> option Z := parse_uint (2 ^ 32).

(** ** Names *)

(** [CollectionSuffix]'s [Display]. *)
Definition display (c : CollectionSuffix.t) : string :=
  match c with
  | CollectionSuffix.Active => "Active"
  | CollectionSuffix.Completed => "Completed"
  | CollectionSuffix.Delayed => "Delayed"
  | CollectionSuffix.Stalled => "Stalled"
  | CollectionSuffix.Prioritized => "Prioritized"
  | CollectionSuffix.PriorityCounter => "PriorityCounter"
  | CollectionSuffix.Id => "Id"
  | CollectionSuffix.Meta => "Meta"
  | CollectionSuffix.Events => "Events"
  | CollectionSuffix.Wait => "Wait"
  | CollectionSuffix.Paused => "Paused"
  | CollectionSuffix.Failed => "Failed"
  | CollectionSuffix.Marker => "Marker"
  | CollectionSuffix.Job id => show id
  | CollectionSuffix.Prefix => ""
  | CollectionSuffix.Lock id => show id ++ ":lock"
  | CollectionSuffix.StalledCheck => "stalled_check"
  | CollectionSuffix.WorkerMetrics => "worker_metrics"
  | CollectionSuffix.ProcessMetrics => "process_metrics"
  end.

Definition to_collection_name (c : CollectionSuffix.t) (prefix name : string) : string :=
  to_lowercase (prefix ++ ":" ++ name ++ ":" ++ display c).

(** [JobState]'s [Display]. *)
Definition display_state (st : JobState.t) : string :=
  match st with
  | JobState.Wait => "Wait"
  | JobState.Prioritized => "Prioritized"
  | JobState.Stalled => "Stalled"
  | JobState.Active => "Active"
  | JobState.Paused => "Paused"
  | JobState.Resumed => "Resumed"
  | JobState.Completed => "Completed"
  | JobState.Failed => "Failed"
  | JobState.Delayed => "Delayed"
  | JobState.Progress => "Progress"
  | JobState.Obliterated => "Obliterated"
  | JobState.Processing => "Processing"
  end.

(** [JobState]'s and [CollectionSuffix]'s [ToRedisArgs]. *)
Definition state_arg (st : JobState.t) : string := to_lowercase (display_state st).
Definition suffix_arg (c : CollectionSuffix.t) : string := to_lowercase (display c).

(** ** Decimal text is read back *)

Lemma span_go (x : N) :
  exists k, 0 <= k /\ forall acc s,
    span acc (pretty_N_go x s) = span (acc * 10 ^ k + Z.of_N x) s.
Proof.
  induction (N.lt_wf_0 x) as [x _ IH].
  assert (x = 0 \/ 0 < x)%N as [->|Hx] by lia.
  { exists 0. split; [lia|]. intros. rewrite pretty_N_go_0. f_equal; lia. }
  destruct (IH (x / 10)%N) as (k & Hk & E); [by apply N.div_lt|].
  exists (k + 1). split; [lia|]. intros acc s. rewrite pretty_N_go_step, E by done. cbn.
  assert (digit_value (pretty_N_char (x mod 10)) = Some (Z.of_N (x mod 10))) as ->.
  { pose proof (N.mod_lt x 10 ltac:(done)) as Hm. revert Hm. generalize (x mod 10)%N.
    intros [|p] Hm; [done|]. do 4 (destruct p as [p|p|]; try done; try lia). }
  f_equal. rewrite Z.pow_add_r, N2Z.inj_div, N2Z.inj_mod by lia.
  pose proof (Z.div_mod (Z.of_N x) 10). lia.
Qed.

Lemma go_app (x : N) : forall s t, pretty_N_go x s ++ t = pretty_N_go x (s ++ t).
Proof.
  induction (N.lt_wf_0 x) as [x _ IH]; intros s t.
  assert (x = 0 \/ 0 < x)%N as [->|Hx] by lia; [by rewrite !pretty_N_go_0|].
  rewrite !(pretty_N_go_step x) by done. by rewrite IH by (by apply N.div_lt).
Qed.

(** Text that starts with something else than a digit. *)
Definition no_digit (t : string) : Prop :=
  match t with EmptyString => True | String c _ => digit_value c = None end.

Lemma span_stop acc t : no_digit t -> span acc t = (acc, t).
Proof. destruct t; cbn; [done|]. by intros ->. Qed.

Lemma span_show n t : 0 <= n -> no_digit t -> span 0 (show n ++ t) = (n, t).
Proof.
  intros Hn Ht. unfold show, pretty, pretty_Z. destruct n as [|p|p]; [|..|lia].
  - change (span 0 t = (0, t)). by apply span_stop.
  - unfold pretty, pretty_positive, pretty, pretty_N. rewrite decide_False by done.
    destruct (span_go (N.pos p)) as (k & _ & E). rewrite go_app, E. by apply span_stop.
Qed.

Lemma string_app_nil_r (s : string) : s ++ "" = s.
Proof. induction s as [|c s IH]; [done|]. change (String c (s ++ "") = String c s). by rewrite IH. Qed.

Lemma string_app_assoc (s t u : string) : (s ++ t) ++ u = s ++ t ++ u.
Proof.
  induction s as [|c s IH]; [done|]. change (String c ((s ++ t) ++ u) = String c (s ++ t ++ u)).
  by rewrite IH.
Qed.

Lemma show_cons n : 0 <= n -> exists c s d, show n = String c s /\ digit_value c = Some d.
Proof.
  intros Hn. pose proof (span_show n "" Hn I) as E. rewrite string_app_nil_r in E.
  destruct (show n) as [|c s] eqn:Es.
  - cbn in E. injection E as <-. done.
  - cbn in E. destruct (digit_value c) eqn:Ed; [by eexists _, _, _|done].
Qed.

Lemma parse_show bound n : 0 <= n < bound -> parse_uint bound (show n) = Some n.
Proof.
  intros Hn. pose proof (span_show n "" (proj1 Hn) I) as E. rewrite string_app_nil_r in E.
  destruct (show_cons n) as (c & s & d & Es & Ed); [lia|].
  unfold parse_uint. rewrite Es in *.
  assert (c <> "+"%char) as Hc by (by intros ->).
  assert (match String c s with String "+"%char s' => s' | _ => String c s end = String c s) as ->.
  { destruct c as [[] [] [] [] [] [] [] []]; done. }
  rewrite E. destruct (Z.ltb_spec n bound); [done|lia].
Qed.

Lemma parse_i64_show n : 0 <= n < two63 -> parse_i64 (show n) = Some n.
Proof.
  intros Hn. pose proof (parse_show two63 n Hn) as E.
  destruct (show_cons n (proj1 Hn)) as (c & s & d & Es & Ed). unfold parse_i64. rewrite Es in *.
  by destruct c as [[] [] [] [] [] [] [] []].
Qed.

Lemma show_inj n n' : show n = show n' -> n = n'.
Proof. apply (inj pretty). Qed.

(** ** Names determine collections *)

Lemma to_lowercase_app s t : to_lowercase (s ++ t) = to_lowercase s ++ to_lowercase t.
Proof.
  induction s as [|c s IH]; [done|].
  change (String (ascii_lower c) (to_lowercase (s ++ t)) =
          String (ascii_lower c) (to_lowercase s ++ to_lowercase t)). by rewrite IH.
Qed.

Lemma lower_digit c d : digit_value c = Some d -> ascii_lower c = c.
Proof. destruct c as [[] [] [] [] [] [] [] []]; done. Qed.

Lemma lower_digits acc s v : span acc s = (v, "") -> to_lowercase s = s.
Proof.
  revert acc. induction s as [|c s IH]; intros acc H; [done|]. cbn in H.
  destruct (digit_value c) eqn:E; [|done]. cbn [to_lowercase].
  by rewrite (IH _ H), (lower_digit c z E).
Qed.

Lemma lower_show n : 0 <= n -> to_lowercase (show n) = show n.
Proof.
  intros Hn. pose proof (span_show n "" Hn I) as E. rewrite string_app_nil_r in E.
  by apply lower_digits in E.
Qed.

(** Reads a lowercased suffix back. *)
Definition read_suffix (s : string) : option CollectionSuffix.t :=
  match s with
  | "" => Some CollectionSuffix.Prefix
  | "active" => Some CollectionSuffix.Active
  | "completed" => Some CollectionSuffix.Completed
  | "delayed" => Some CollectionSuffix.Delayed
  | "stalled" => Some CollectionSuffix.Stalled
  | "prioritized" => Some CollectionSuffix.Prioritized
  | "prioritycounter" => Some CollectionSuffix.PriorityCounter
  | "id" => Some CollectionSuffix.Id
  | "meta" => Some CollectionSuffix.Meta
  | "events" => Some CollectionSuffix.Events
  | "wait" => Some CollectionSuffix.Wait
  | "paused" => Some CollectionSuffix.Paused
  | "failed" => Some CollectionSuffix.Failed
  | "marker" => Some CollectionSuffix.Marker
  | "stalled_check" => Some CollectionSuffix.StalledCheck
  | "worker_metrics" => Some CollectionSuffix.WorkerMetrics
  | "process_metrics" => Some CollectionSuffix.ProcessMetrics
  | _ =>
      match span 0 s with
      | (id, "") => Some (CollectionSuffix.Job id)
      | (id, ":lock") => Some (CollectionSuffix.Lock id)
      | _ => None
      end
  end.

(** The identifier of a job or lock is a [u64]. *)
Definition suffix_ok (c : CollectionSuffix.t) : Prop :=
  match c with CollectionSuffix.Job id | CollectionSuffix.Lock id => 0 <= id | _ => True end.

Lemma read_suffix_digits c s d :
  digit_value c = Some d ->
  read_suffix (String c s) =
  match span 0 (String c s) with
  | (id, "") => Some (CollectionSuffix.Job id)
  | (id, ":lock") => Some (CollectionSuffix.Lock id)
  | _ => None
  end.
Proof. destruct c as [[] [] [] [] [] [] [] []]; done. Qed.

Lemma read_suffix_show n t :
  0 <= n -> no_digit t ->
  read_suffix (show n ++ t) =
  match t with
  | "" => Some (CollectionSuffix.Job n)
  | ":lock" => Some (CollectionSuffix.Lock n)
  | _ => None
  end.
Proof.
  intros Hn Ht. destruct (show_cons n Hn) as (c & s & d & Es & Ed).
  pose proof (span_show n t Hn Ht) as E. rewrite Es in *.
  change (String c s ++ t) with (String c (s ++ t)) in *.
  by rewrite (read_suffix_digits c (s ++ t) d Ed), E.
Qed.

Lemma read_display c : suffix_ok c -> read_suffix (to_lowercase (display c)) = Some c.
Proof.
  destruct c; try done; cbn [suffix_ok display]; intros Hn.
  - rewrite lower_show, <- (string_app_nil_r (show id)) by done. by rewrite read_suffix_show.
  - rewrite to_lowercase_app, lower_show by done. by rewrite read_suffix_show.
Qed.

Lemma app_cancel_l (s t t' : string) : s ++ t = s ++ t' -> t = t'.
Proof. induction s as [|c s IH]; [done|]. intros [=]. by apply IH. Qed.

Lemma collection_name_inj prefix name c c' :
  suffix_ok c -> suffix_ok c' ->
  to_collection_name c prefix name = to_collection_name c' prefix name -> c = c'.
Proof.
  intros Hc Hc'. unfold to_collection_name. rewrite !to_lowercase_app.
  intros H%app_cancel_l%app_cancel_l%app_cancel_l%app_cancel_l.
  apply (f_equal read_suffix) in H. rewrite !read_display in H by done. by injection H.
Qed.
