(* ===== verification/Catcher.v ===== *)
(** * Catching panics ([src/error/backtrace_utils.rs])

    [BacktraceCatcher::catch] installs a panic hook for the whole process, runs
    the future, puts the previous hook back and looks into a static cell for what
    the hook recorded.  [catch] is the call on its own; [catch_next] splits it at
    the accesses to the process-wide cells, and [catch_step] interleaves any
    number of calls with panics elsewhere in the process. *)

From S2P Require Import Prelude SkipMap TimedMap Extern Schedule Job Options Names.

#[local] Open Scope string_scope.

(** ** Panics and what is kept of them *)

(** What a panic hands to the hook: its payload, when it is a text of one of the
    two types that are looked for, and its place. *)
Inductive PanicPayload : Type :=
| PCompactString (text : string)
| PStaticStr (text : string)
| PAny.

Record PanicLocation : Type := mkLocation { pl_file : string; pl_line : Z; pl_col : Z }.
Definition PanicLocation_default : PanicLocation := mkLocation "" 0 0.
Definition display_location (l : PanicLocation) : string :=
  pl_file l ++ " at " ++ show (pl_line l) ++ ":" ++ show (pl_col l).

Record PanicHookInfo : Type := mkHookInfo { hi_payload : PanicPayload; hi_location : option PanicLocation }.

(** The frames of an asynchronous backtrace, as text. *)
Definition Backtrace : Type := option (list string).

Record CaughtPanicInfo : Type := mkPanicInfo { cp_payload : string; cp_backtrace : Backtrace }.
Definition CaughtPanicInfo_default : CaughtPanicInfo :=
  mkPanicInfo "Panic occurred but failed to capture backtrace" None.

(** A backtrace is the list of its frames' text, an error its message. *)
Inductive Caught (R : Type) : Type :=
| Returned (result : R)
| CaughtError (error : string) (backtrace : option (list string))
| CaughtPanic (payload : string) (backtrace : option (list string))
| CaughtJoinError (error : string).
Arguments Returned {R} result.
Arguments CaughtError {R} error backtrace.
Arguments CaughtPanic {R} payload backtrace.
Arguments CaughtJoinError {R} error.

Definition newline : string := String (Ascii.ascii_of_nat 10) "".

Definition capture_panic_info (backtrace : Backtrace) (info : PanicHookInfo) : CaughtPanicInfo :=
  let payload := match hi_payload info with
                 | PCompactString text | PStaticStr text => text
                 | PAny => "Box<Any>"
                 end in
  let location := unwrap_or PanicLocation_default (hi_location info) in
  mkPanicInfo ("Panic:" ++ payload ++ " :" ++ newline ++ " " ++ display_location location) backtrace.

(** ** The process-wide cells *)

(** The default hook, one the application installed, or the catcher's. *)
Inductive Hook : Type :=
| HDefault
| HCustom (id : Z)
| HCapture.

(** [g_handled] lists which hook saw which panic, oldest first. *)
Record Globals : Type := mkGlobals {
  g_hook : Hook;
  g_panic_info : option CaughtPanicInfo;
  g_handled : list (Hook * CaughtPanicInfo);
}.

Definition take_hook (g : Globals) : Hook * Globals :=
  (g_hook g, mkGlobals HDefault (g_panic_info g) (g_handled g)).
Definition set_hook (h : Hook) (g : Globals) : Globals := mkGlobals h (g_panic_info g) (g_handled g).
Definition take_panic_info (g : Globals) : option CaughtPanicInfo * Globals :=
  (g_panic_info g, mkGlobals (g_hook g) None (g_handled g)).

(** A panic runs the hook that is installed at that moment. *)
Definition raise (info : CaughtPanicInfo) (g : Globals) : Globals :=
  mkGlobals (g_hook g)
    (match g_hook g with HCapture => Some info | _ => g_panic_info g end)
    (g_handled g ++ [(g_hook g, info)]).

(** ** One call *)

Section Catch.
Context {T : Type}.

(** How the future ends, with the backtrace that is taken then. *)
Inductive Future : Type :=
| FValue (value : T)
| FError (error : string) (backtrace : Backtrace)
| FPanic (info : PanicHookInfo) (backtrace : Backtrace).

Definition finish (f : Future) (g : Globals) : Globals :=
  match f with FPanic info backtrace => raise (capture_panic_info backtrace info) g | _ => g end.

(** The last [match]. *)
Definition report (f : Future) (g : Globals) : Caught T * Globals :=
  match f with
  | FValue value => (Returned value, g)
  | FError error backtrace => (CaughtError error backtrace, g)
  | FPanic _ _ =>
      let '(panic_info, g) := take_panic_info g in
      let info := unwrap_or CaughtPanicInfo_default panic_info in
      (CaughtPanic (cp_payload info) (cp_backtrace info), g)
  end.

Definition catch (f : Future) (g : Globals) : Caught T * Globals :=
  let '(old_hook, g) := take_hook g in
  let g := set_hook HCapture g in
  let g := finish f g in
  let g := set_hook old_hook g in
  report f g.

(** ** Many calls at once *)

Inductive CatchPc : Type :=
| CStart (f : Future)
| CTook (f : Future) (old_hook : Hook)
| CHooked (f : Future) (old_hook : Hook)
| CEnded (f : Future) (old_hook : Hook)
| CRestored (f : Future)
| CDone (result : Caught T).

Definition catch_next (pc : CatchPc) (g : Globals) : CatchPc * Globals :=
  match pc with
  | CStart f => let '(old_hook, g) := take_hook g in (CTook f old_hook, g)
  | CTook f old_hook => (CHooked f old_hook, set_hook HCapture g)
  | CHooked f old_hook => (CEnded f old_hook, finish f g)
  | CEnded f old_hook => (CRestored f, set_hook old_hook g)
  | CRestored f => let '(result, g) := report f g in (CDone result, g)
  | CDone _ => (pc, g)
  end.

Definition catch_config : Type := Globals * list CatchPc.

Inductive catch_step : relation catch_config :=
| ct_call g pcs i pc :
    pcs !! i = Some pc ->
    catch_step (g, pcs) ((catch_next pc g).2, <[i := (catch_next pc g).1]> pcs)
| ct_elsewhere g pcs info : catch_step (g, pcs) (raise info g, pcs).

(** Runs the calls in the order of a schedule. *)
Fixpoint catch_run (schedule : list nat) (c : catch_config) : catch_config :=
  match schedule with
  | [] => c
  | i :: schedule' =>
      catch_run schedule'
        (match c.2 !! i with
         | Some pc => ((catch_next pc c.1).2, <[i := (catch_next pc c.1).1]> c.2)
         | None => c
         end)
  end.

Lemma catch_run_steps schedule c : rtc catch_step c (catch_run schedule c).
Proof.
  revert c. induction schedule as [|i schedule IH]; intros [g pcs]; [done|]. cbn.
  destruct (pcs !! i) as [pc|] eqn:E; [|apply IH].
  eapply rtc_l; [by apply ct_call|]. apply IH.
Qed.

(** ** What a call reports *)

(** The verdict is that of the future; what is reported of a panic is the
    fallback text or something the catcher's hook saw. *)
Definition faithful (handled : list (Hook * CaughtPanicInfo)) (f : Future) (r : Caught T) : Prop :=
  match f with
  | FValue value => r = Returned value
  | FError error backtrace => r = CaughtError error backtrace
  | FPanic _ _ =>
      exists info, r = CaughtPanic (cp_payload info) (cp_backtrace info) /\
        (info = CaughtPanicInfo_default \/ (HCapture, info) ∈ handled)
  end.

Definition pc_future (pc : CatchPc) : option Future :=
  match pc with
  | CStart f | CTook f _ | CHooked f _ | CEnded f _ | CRestored f => Some f
  | CDone _ => None
  end.

(** A call for [f] is under way, or done with a faithful report. *)
Definition pc_ok (handled : list (Hook * CaughtPanicInfo)) (f : Future) (pc : CatchPc) : Prop :=
  match pc with CDone r => faithful handled f r | _ => pc_future pc = Some f end.

Definition recorded (g : Globals) : Prop :=
  forall info, g_panic_info g = Some info -> (HCapture, info) ∈ g_handled g.

Lemma faithful_mono h h' f r : h ⊆ h' -> faithful h f r -> faithful h' f r.
Proof. intros Hs. destruct f; cbn; [done|done|]. intros (p & -> & [?|?]); eauto. Qed.

Lemma pc_ok_mono h h' f pc : h ⊆ h' -> pc_ok h f pc -> pc_ok h' f pc.
Proof. intros Hs. destruct pc; cbn; try done. by apply faithful_mono. Qed.

Lemma raise_recorded info g : recorded g -> recorded (raise info g).
Proof.
  intros H x. cbn. destruct (g_hook g) eqn:E; cbn; intros Hx; apply elem_of_app; [left; auto|left; auto|].
  injection Hx as ->. right. by left.
Qed.

Lemma finish_recorded f g : recorded g -> recorded (finish f g).
Proof. destruct f; [done|done|]. apply raise_recorded. Qed.

Lemma finish_handled f g : g_handled g ⊆ g_handled (finish f g).
Proof. intros x Hx. destruct f; cbn; [done|done|]. apply elem_of_app. by left. Qed.

Lemma report_ok f g : recorded g -> pc_ok (g_handled g) f (CDone (report f g).1).
Proof.
  intros Hr. destruct f as [v|e b|i b]; [done|done|]. cbn.
  exists (unwrap_or CaughtPanicInfo_default (g_panic_info g)). split; [done|].
  destruct (g_panic_info g) as [info|] eqn:E; [right; by apply Hr|by left].
Qed.

Lemma catch_next_ok pc f g :
  recorded g -> pc_ok (g_handled g) f pc ->
  recorded (catch_next pc g).2 /\ g_handled g ⊆ g_handled (catch_next pc g).2 /\
  pc_ok (g_handled (catch_next pc g).2) f (catch_next pc g).1.
Proof.
  intros Hr Hp. destruct pc as [f'|f' old|f' old|f' old|f'|r]; cbn in Hp;
    [injection Hp as ->..|]; cbn [catch_next take_hook fst snd]; try (split_and!; done).
  - split; [by apply finish_recorded|]. split; [apply finish_handled|done].
  - pose proof (report_ok f g Hr) as H.
    destruct f as [v|e b|i b]; cbn in *; [done|done|]. split_and!; [by intros ? [=]|done|done].
Qed.

Lemma catch_step_ok (fs : list Future) c c' :
  catch_step c c' ->
  recorded c.1 /\ Forall2 (pc_ok (g_handled c.1)) fs c.2 ->
  recorded c'.1 /\ Forall2 (pc_ok (g_handled c'.1)) fs c'.2.
Proof.
  intros Hstep [Hr Hall]. destruct Hstep as [g pcs i pc Hi|g pcs info]; cbn [fst snd] in *.
  - destruct (Forall2_lookup_r _ _ _ _ _ Hall Hi) as (f & Hf & Hp).
    destruct (catch_next_ok pc f g Hr Hp) as (H1 & H2 & H3). split; [done|].
    apply Forall2_same_length_lookup_2.
    { rewrite length_insert. by eapply Forall2_length. }
    intros j f' pc' Hf' Hpc'. destruct (decide (i = j)) as [->|Hne].
    + rewrite list_lookup_insert_eq in Hpc' by (by eapply lookup_lt_Some). by simplify_eq.
    + rewrite list_lookup_insert_ne in Hpc' by done.
      eapply pc_ok_mono; [exact H2|]. by eapply Forall2_lookup_lr.
  - split; [by apply raise_recorded|]. eapply Forall2_impl; [exact Hall|].
    intros f pc. apply pc_ok_mono. cbn. intros x Hx. apply elem_of_app. by left.
Qed.

(** Whatever the interleaving of any number of [catch] calls and of panics
    elsewhere in the process, a call that is through reports the verdict of its
    own future: its value, its error with the backtrace, or a panic.  For a
    panic the text it reports is the fallback or that of a panic which the
    catcher's hook saw. *)
Theorem catch_verdicts (fs : list Future) (hook : Hook) (c : catch_config) (i : nat) (f : Future)
    (r : Caught T) :
  rtc catch_step (mkGlobals hook None [], map CStart fs) c ->
  fs !! i = Some f -> c.2 !! i = Some (CDone r) -> faithful (g_handled c.1) f r.
Proof.
  intros Hrun Hf Hr.
  assert (H : recorded c.1 /\ Forall2 (pc_ok (g_handled c.1)) fs c.2).
  { clear Hr. revert c Hrun. apply (rtc_ind_r (fun c => recorded c.1 /\ Forall2 (pc_ok (g_handled c.1)) fs c.2)).
    - split; [by intros p [=]|]. cbn. apply Forall2_fmap_r, Forall_Forall2_diag, Forall_forall. by intros x _.
    - intros c1 c2 _ Hs IH. by eapply catch_step_ok. }
  destruct H as [_ H]. by apply (Forall2_lookup_lr _ _ _ _ _ _ H Hf) in Hr.
Qed.

(** ** A call on its own *)

(** The verdict of a future with what is recorded of its own panic. *)
Definition own_report (f : Future) : Caught T :=
  match f with
  | FValue value => Returned value
  | FError error backtrace => CaughtError error backtrace
  | FPanic info backtrace =>
      let p := capture_panic_info backtrace info in CaughtPanic (cp_payload p) (cp_backtrace p)
  end.

(** Calls one after the other. *)
Fixpoint catch_all (fs : list Future) (g : Globals) : list (Caught T) * Globals :=
  match fs with
  | [] => ([], g)
  | f :: fs' =>
      let '(r, g) := catch f g in
      let '(rs, g) := catch_all fs' g in (r :: rs, g)
  end.

Lemma catch_alone f g : (catch f g).1 = own_report f /\ g_hook (catch f g).2 = g_hook g.
Proof. by destruct f. Qed.

(** Calls that do not overlap report their own futures, panics with their
    payload and place, and leave the hook as they found it. *)
Theorem catch_sequential (fs : list Future) (g : Globals) :
  (catch_all fs g).1 = map own_report fs /\ g_hook (catch_all fs g).2 = g_hook g.
Proof.
  revert g. induction fs as [|f fs IH]; intros g; [done|]. cbn [catch_all map].
  destruct (catch_alone f g) as [H1 H2]. destruct (catch f g) as [r g1]. cbn [fst snd] in *. subst r.
  destruct (IH g1) as [H3 H4]. destruct (catch_all fs g1) as [rs g2]. cbn [fst snd] in *.
  by rewrite H3, H4.
Qed.

(** ** Two calls that overlap *)

(** The hook that a call has taken and not yet put back. *)
Definition held (pc : CatchPc) : option Hook :=
  match pc with
  | CTook _ old_hook | CHooked _ old_hook | CEnded _ old_hook => Some old_hook
  | _ => None
  end.

Definition begun (pc : CatchPc) : Prop := match pc with CStart _ => False | _ => True end.
Definition put_back (pc : CatchPc) : Prop := begun pc /\ held pc = None.

(** A call goes from its beginning over holding a hook to having put it back. *)
Lemma next_begun pc g : begun (catch_next pc g).1.
Proof. destruct pc as [f|f h|f h|f h|[]|r]; done. Qed.

Lemma next_held pc g h : begun pc -> held (catch_next pc g).1 = Some h -> held pc = Some h.
Proof. destruct pc as [f|f h'|f h'|f h'|[]|r]; done. Qed.

Lemma hook_raise info g : g_hook (raise info g) = g_hook g.
Proof. done. Qed.

Lemma hook_next pc g :
  g_hook (catch_next pc g).2 =
  match pc with
  | CStart _ => HDefault
  | CTook _ _ => HCapture
  | CEnded _ old_hook => old_hook
  | _ => g_hook g
  end.
Proof. by destruct pc as [f|f h|[] h|f h|[]|r]. Qed.

(** A property of two calls that every step keeps. *)
Lemma pair_invariant (I : Globals -> CatchPc -> CatchPc -> Prop) :
  (forall g p q info, I g p q -> I (raise info g) p q) ->
  (forall g p q, I g p q -> I (catch_next p g).2 (catch_next p g).1 q) ->
  (forall g p q, I g p q -> I (catch_next q g).2 p (catch_next q g).1) ->
  forall g p q g' p' q', rtc catch_step (g, [p; q]) (g', [p'; q']) -> I g p q -> I g' p' q'.
Proof.
  intros He Hp Hq g p q g' p' q' Hrun Hi.
  assert (H : exists p1 q1, (g', [p'; q']).2 = [p1; q1] /\ I (g', [p'; q']).1 p1 q1); [|by destruct H as (? & ? & [= -> ->] & ?)].
  revert Hrun. generalize (g', [p'; q']). apply rtc_ind_r; [by eexists _, _|].
  intros [g1 pcs] c2 _ Hs (p1 & q1 & Heq & Hi1). cbn in Heq, Hi1. subst pcs. inversion Hs as [? ? i pc Hl|]; subst.
  - destruct i as [|[|i]]; cbn in Hl; simplify_eq; cbn; eauto.
  - cbn. eauto.
Qed.

Section Overlap.
Variables (id : Z) (f f' : Future).
Abbreviation app := (HCustom id).

(** Before the second call begins. *)
Definition before (g : Globals) (p q : CatchPc) : Prop :=
  q = CStart f' ->
  match held p with
  | Some h => h = app /\ g_hook g <> app
  | None => g_hook g = app
  end.

Lemma before_holds g p q :
  rtc catch_step (mkGlobals app None [], [CStart f; CStart f']) (g, [p; q]) -> before g p q.
Proof.
  intros H. eapply (pair_invariant before); [..|exact H|by intros _].
  - done.
  - intros g1 p1 q1 Hi Hq. specialize (Hi Hq). rewrite hook_next.
    by destruct p1 as [?|? h|? h|? h|[]|r]; cbn in *; naive_solver.
  - intros g1 p1 q1 _ Hq. pose proof (next_begun q1 g1) as Hb. by rewrite Hq in Hb.
Qed.

(** While the first call holds the application's hook, the second cannot get it. *)
Definition during (g : Globals) (p q : CatchPc) : Prop :=
  begun p /\
  forall h, held p = Some h ->
    h = app /\ (~ put_back q -> g_hook g <> app) /\ forall h', held q = Some h' -> h' <> app.

Lemma during_step_first g p q : during g p q -> during (catch_next p g).2 (catch_next p g).1 q.
Proof.
  intros [Hb H]. split; [apply next_begun|]. intros h Hh.
  destruct (H h (next_held _ _ _ Hb Hh)) as (-> & H1 & H2). split; [done|]. split; [|done].
  rewrite hook_next. by destruct p as [?|? h'|? h'|? h'|[]|r].
Qed.

Lemma during_step_second g p q : during g p q -> during (catch_next q g).2 p (catch_next q g).1.
Proof.
  intros [Hb H]. split; [done|]. intros h Hh. destruct (H h Hh) as (-> & H1 & H2). split; [done|].
  rewrite hook_next. unfold put_back in *.
  destruct q as [?|? h'|? h'|? h'|[]|r]; cbn in *; naive_solver.
Qed.

(** Who holds what when both calls are under way. *)
Lemma both_held g0 p0 g1 p1 q1 h h' :
  rtc catch_step (mkGlobals app None [], [CStart f; CStart f']) (g0, [p0; CStart f']) ->
  is_Some (held p0) -> rtc catch_step (g0, [p0; CStart f']) (g1, [p1; q1]) ->
  held p1 = Some h -> held q1 = Some h' -> h = app /\ h' <> app /\ g_hook g1 <> app.
Proof.
  intros H0 [h0 Hh0] H1 Hh Hh'. pose proof (before_holds _ _ _ H0 eq_refl) as Hb. rewrite Hh0 in Hb.
  destruct Hb as [-> Hg]. eapply (pair_invariant during) in H1 as [_ H1].
  - destruct (H1 h Hh) as (-> & H2 & H3). split; [done|]. split; [by apply H3|].
    apply H2. intros [_ ?]. congruence.
  - done.
  - intros *. apply during_step_first.
  - intros *. apply during_step_second.
  - split; [by destruct p0|]. intros ? ?. simplify_eq. done.
Qed.

(** What a call holds it keeps until it puts it back. *)
Lemma keeps_held g p q g' p' q' :
  rtc catch_step (g, [p; q]) (g', [p'; q']) -> begun p -> begun q ->
  begun p' /\ begun q' /\
  (forall h, held p' = Some h -> held p = Some h) /\ (forall h, held q' = Some h -> held q = Some h).
Proof.
  intros Hrun Hp Hq.
  eapply (pair_invariant (fun _ p1 q1 => begun p1 /\ begun q1 /\
    (forall h, held p1 = Some h -> held p = Some h) /\ (forall h, held q1 = Some h -> held q = Some h)))
    in Hrun; [exact Hrun|done|..|done].
  - intros g1 p1 q1 (H1 & H2 & H3 & H4). split_and!; [apply next_begun|done| |done].
    intros h Hh. by eapply H3, next_held.
  - intros g1 p1 q1 (H1 & H2 & H3 & H4). split_and!; [done|apply next_begun|done|].
    intros h Hh. by eapply H4, next_held.
Qed.

(** The last call puts its hook back for good. *)
Lemma last_put_back g p q g' p' q' h :
  rtc catch_step (g, [p; q]) (g', [p'; q']) -> begun p -> begun q ->
  held p = Some h /\ held q = None \/ held p = None /\ held q = Some h ->
  held p' = None -> held q' = None -> g_hook g' = h.
Proof.
  intros Hrun Hp Hq Hone.
  eapply (pair_invariant (fun g1 p1 q1 => begun p1 /\ begun q1 /\
    (held p1 = Some h /\ held q1 = None \/ held p1 = None /\ held q1 = Some h \/
     held p1 = None /\ held q1 = None /\ g_hook g1 = h))) in Hrun as (_ & _ & H); [|..|by naive_solver].
  - intros. naive_solver.
  - done.
  - intros g1 p1 q1 (H1 & H2 & H3). split_and!; [apply next_begun|done|]. rewrite hook_next.
    destruct p1 as [?|? h'|? h'|? h'|[]|r]; cbn in *; naive_solver.
  - intros g1 p1 q1 (H1 & H2 & H3). split_and!; [done|apply next_begun|]. rewrite hook_next.
    destruct q1 as [?|? h'|? h'|? h'|[]|r]; cbn in *; naive_solver.
Qed.

(** While the second future runs, the first call puts the application's hook back. *)
Lemma exposed fut g p q h g' p' :
  rtc catch_step (g, [p; q]) (g', [p'; q]) -> q = CHooked fut h ->
  held p = Some app -> held p' = None -> g_hook g' = app.
Proof.
  intros Hrun Hq Hp.
  eapply (pair_invariant (fun g1 p1 q1 => begun p1 /\ begun q1 /\ (q1 = CHooked fut h ->
    held p1 = Some app \/ held p1 = None /\ g_hook g1 = app) /\
    (forall f0, q1 <> CTook f0 h))) in Hrun; [..|by subst q; destruct p; naive_solver].
  - naive_solver.
  - done.
  - intros g1 p1 q1 (H1 & H2 & H3 & H4). split_and!; [apply next_begun|done| |done]. intros Hq1.
    rewrite hook_next. destruct p1 as [?|? h'|? h'|? h'|[]|r]; cbn in *; naive_solver.
  - intros g1 p1 q1 (H1 & H2 & H3 & H4). split_and!; [done|apply next_begun|..].
    + destruct q1 as [?|? h'|? h'|? h'|[]|r]; cbn in *; naive_solver.
    + intros f0 E. destruct q1 as [?|? h'|? h'|? h'|[]|r]; cbn in *; naive_solver.
Qed.

(** A panic of the second future that comes after that goes to the application. *)
Lemma seen_by_app g p h info backtrace g' p' q' :
  rtc catch_step (g, [p; CHooked (FPanic info backtrace) h]) (g', [p'; q']) ->
  put_back p -> g_hook g = app -> held q' = None ->
  (app, capture_panic_info backtrace info) ∈ g_handled g'.
Proof.
  intros Hrun [Hb Hp] Hg.
  eapply (pair_invariant (fun g1 p1 q1 => begun p1 /\ held p1 = None /\
    (q1 = CHooked (FPanic info backtrace) h /\ g_hook g1 = app \/
     (app, capture_panic_info backtrace info) ∈ g_handled g1))) in Hrun as (_ & _ & H); [..|by naive_solver].
  - naive_solver.
  - intros g1 p1 q1 i (H1 & H2 & H3). split_and!; [done|done|]. cbn. set_solver.
  - intros g1 p1 q1 (H1 & H2 & H3). split_and!; [apply next_begun|by destruct p1 as [?|? ?|? ?|? ?|[]|?]|].
    rewrite hook_next. destruct p1 as [?|? h'|? h'|? h'|[]|r]; cbn in *; naive_solver.
  - intros g1 p1 q1 (H1 & H2 & [[-> H3]|H3]); split_and!; [done|done|right|done|done|right].
    + cbn. rewrite H3. set_solver.
    + destruct q1 as [?|? h'|[] h'|? h'|[]|r]; cbn in *; set_solver.
Qed.

(** C29: which hook two overlapping calls leave.  The second call begins while the
    first is under way, then one of them puts its hook back, then the other.  When
    the first call ends last, the application's hook is installed again.  When the
    second ends last it is gone: the hook that stays is one that the second call
    found, the default or the catcher's, and every later call puts it back.  A panic
    of the second future that comes after the first call has ended then goes to the
    application's hook and not to the catcher's. *)
Theorem hook_lost (g0 g1 g2 g3 : Globals) (p0 p1 p2 p3 q1 q2 q3 : CatchPc) :
  rtc catch_step (mkGlobals app None [], [CStart f; CStart f']) (g0, [p0; CStart f']) ->
  is_Some (held p0) ->
  rtc catch_step (g0, [p0; CStart f']) (g1, [p1; q1]) -> is_Some (held p1) -> is_Some (held q1) ->
  rtc catch_step (g1, [p1; q1]) (g2, [p2; q2]) -> (held p2 = None <-> is_Some (held q2)) ->
  rtc catch_step (g2, [p2; q2]) (g3, [p3; q3]) -> held p3 = None -> held q3 = None ->
  (held q2 = None -> g_hook g3 = app) /\
  (held p2 = None ->
    g_hook g3 <> app /\ held q1 = Some (g_hook g3) /\
    (forall fs, g_hook (catch_all fs g3).2 = g_hook g3) /\
    forall info backtrace h, f' = FPanic info backtrace -> q1 = CHooked f' h -> q2 = q1 ->
      (app, capture_panic_info backtrace info) ∈ g_handled g3).
Proof.
  intros H0 Hp0 H1 [h Hh] [h' Hh'] H2 Hone H3 Hp3 Hq3.
  destruct (both_held _ _ _ _ _ _ _ H0 Hp0 H1 Hh Hh') as (-> & Hne & _).
  destruct (keeps_held _ _ _ _ _ _ H2) as (B1 & B2 & K1 & K2); [by destruct p1|by destruct q1|].
  split.
  - intros Hq2. eapply (last_put_back _ _ _ _ _ _ _ H3); [done|done| |done|done]. left. split; [|done].
    destruct (held p2) as [x|] eqn:E; [|rewrite Hq2 in Hone; by destruct (proj1 Hone eq_refl)].
    by rewrite <- Hh, (K1 x eq_refl).
  - intros Hp2. destruct (proj1 Hone Hp2) as [x Hx]. pose proof (K2 x Hx) as E. rewrite E in Hh'.
    injection Hh' as ->.
    assert (Hg : g_hook g3 = h') by (eapply (last_put_back _ _ _ _ _ _ _ H3); [done|done|by right|done|done]).
    rewrite Hg. split_and!; [done|done|by intros fs; rewrite (proj2 (catch_sequential fs g3))|].
    intros info backtrace y -> -> ->. eapply seen_by_app; [exact H3|done| |done].
    by eapply exposed.
Qed.
End Overlap.
End Catch.

(** ** Witnesses *)

Definition sample_panic : PanicHookInfo :=
  mkHookInfo (PStaticStr "boom") (Some (mkLocation "src/main.rs" 7 5)).
Definition sample_futures : list (Future (T := Z)) := [FPanic sample_panic None; FValue 42].

(** The first future panics while the second runs, and is reported in full. *)
Lemma catch_verdicts_witness :
  let c := catch_run [0; 0; 1; 1; 0; 0; 0]%nat (mkGlobals HDefault None [], map CStart sample_futures) in
  c.2 !! 0%nat = Some (CDone (own_report (FPanic sample_panic None))) /\
  faithful (g_handled c.1) (FPanic sample_panic None) (own_report (T := Z) (FPanic sample_panic None)).
Proof.
  split; [vm_compute; reflexivity|].
  eapply (catch_verdicts sample_futures HDefault _ 0 (FPanic sample_panic None));
    [apply catch_run_steps|reflexivity|vm_compute; reflexivity].
Defined.

(** Two calls after a schedule: the first returns 42, the second panics. *)
Definition overlapping (schedule : list nat) : catch_config :=
  catch_run schedule (mkGlobals (HCustom 1) None [], [CStart (FValue 42); CStart (FPanic sample_panic None)]).

(** The second call begins while the first future runs and ends after it: its panic
    goes to the application's hook, it reports the fallback text, and the catcher's
    hook stays. *)
Lemma hook_lost_witness :
  exists g r, overlapping [0; 0; 1; 1; 0; 0; 0; 1; 1; 1]%nat =
      (g, [CDone r; CDone (CaughtPanic (cp_payload CaughtPanicInfo_default) None)]) /\
    g_hook g <> HCustom 1 /\ Some HCapture = Some (g_hook g) /\
    g_hook (catch_all sample_futures g).2 = g_hook g /\
    (HCustom 1, capture_panic_info None sample_panic) ∈ g_handled g.
Proof.
  eexists _, _. split; [vm_compute; reflexivity|].
  match goal with |- g_hook ?g <> _ /\ _ =>
    destruct (hook_lost 1 (FValue 42) (FPanic sample_panic None)
      (overlapping [0]%nat).1 (overlapping [0; 0; 1; 1]%nat).1 (overlapping [0; 0; 1; 1; 0; 0; 0]%nat).1 g
      (CTook (FValue 42) (HCustom 1)) (CHooked (FValue 42) (HCustom 1)) (CDone (Returned 42)) (CDone (Returned 42))
      (CHooked (FPanic sample_panic None) HCapture) (CHooked (FPanic sample_panic None) HCapture)
      (CDone (CaughtPanic (cp_payload CaughtPanicInfo_default) None))) as [_ H] end.
  - apply (catch_run_steps [0]%nat (overlapping [])).
  - by eexists.
  - apply (catch_run_steps [0; 1; 1]%nat (overlapping [0]%nat)).
  - by eexists.
  - by eexists.
  - apply (catch_run_steps [0; 0; 0]%nat (overlapping [0; 0; 1; 1]%nat)).
  - split; [by eexists|done].
  - apply (catch_run_steps [1; 1; 1]%nat (overlapping [0; 0; 1; 1; 0; 0; 0]%nat)).
  - done.
  - done.
  - destruct H as (H1 & H2 & H3 & H4); [done|]. split; [exact H1|]. split; [exact H2|].
    split; [apply H3|]. by eapply H4.
Defined.
