(* ===== verification/Events.v ===== *)
(** * Events ([src/events/mod.rs], [src/events/redis_events.rs])

    The raw event a store publishes, the typed parameters listeners receive,
    and the conversion between them. *)

From S2P Require Import Prelude SkipMap Extern Schedule Job Options TimedMap.

Section Events.
Context {R P : Type}.

Record QueueStreamEvent : Type := mkEvent {
  qe_id : Dt * Z;
  qe_priority : option Z;
  qe_event : JobState.t;
  qe_delay : option Z;
  qe_prev : option JobState.t;
  qe_job_id : Z;
  qe_returned_value : option R;
  qe_failed_reason : option FailedDetails;
  qe_progress_data : option P;
  qe_name : option string;
  qe_worker_id : option Z;
  qe_metrics : option JobMetrics;
}.

Definition set_qe_priority (x : option Z) (r : QueueStreamEvent) : QueueStreamEvent :=
  mkEvent
    (qe_id r) x (qe_event r) (qe_delay r) (qe_prev r) (qe_job_id r)
    (qe_returned_value r) (qe_failed_reason r) (qe_progress_data r) (qe_name r)
    (qe_worker_id r) (qe_metrics r).

Definition set_qe_event (x : JobState.t) (r : QueueStreamEvent) : QueueStreamEvent :=
  mkEvent
    (qe_id r) (qe_priority r) x (qe_delay r) (qe_prev r) (qe_job_id r)
    (qe_returned_value r) (qe_failed_reason r) (qe_progress_data r) (qe_name r)
    (qe_worker_id r) (qe_metrics r).

Definition set_qe_delay (x : option Z) (r : QueueStreamEvent) : QueueStreamEvent :=
  mkEvent
    (qe_id r) (qe_priority r) (qe_event r) x (qe_prev r) (qe_job_id r)
    (qe_returned_value r) (qe_failed_reason r) (qe_progress_data r) (qe_name r)
    (qe_worker_id r) (qe_metrics r).

Definition set_qe_prev (x : option JobState.t) (r : QueueStreamEvent) : QueueStreamEvent :=
  mkEvent
    (qe_id r) (qe_priority r) (qe_event r) (qe_delay r) x (qe_job_id r)
    (qe_returned_value r) (qe_failed_reason r) (qe_progress_data r) (qe_name r)
    (qe_worker_id r) (qe_metrics r).

Definition set_qe_job_id (x : Z) (r : QueueStreamEvent) : QueueStreamEvent :=
  mkEvent
    (qe_id r) (qe_priority r) (qe_event r) (qe_delay r) (qe_prev r) x
    (qe_returned_value r) (qe_failed_reason r) (qe_progress_data r) (qe_name r)
    (qe_worker_id r) (qe_metrics r).

Definition set_qe_returned_value (x : option R) (r : QueueStreamEvent) : QueueStreamEvent :=
  mkEvent
    (qe_id r) (qe_priority r) (qe_event r) (qe_delay r) (qe_prev r) (qe_job_id r) x
    (qe_failed_reason r) (qe_progress_data r) (qe_name r) (qe_worker_id r)
    (qe_metrics r).

Definition set_qe_failed_reason (x : option FailedDetails) (r : QueueStreamEvent) : QueueStreamEvent :=
  mkEvent
    (qe_id r) (qe_priority r) (qe_event r) (qe_delay r) (qe_prev r) (qe_job_id r)
    (qe_returned_value r) x (qe_progress_data r) (qe_name r) (qe_worker_id r)
    (qe_metrics r).

Definition set_qe_name (x : option string) (r : QueueStreamEvent) : QueueStreamEvent :=
  mkEvent
    (qe_id r) (qe_priority r) (qe_event r) (qe_delay r) (qe_prev r) (qe_job_id r)
    (qe_returned_value r) (qe_failed_reason r) (qe_progress_data r) x (qe_worker_id
    r) (qe_metrics r).

Definition set_qe_worker_id (x : option Z) (r : QueueStreamEvent) : QueueStreamEvent :=
  mkEvent
    (qe_id r) (qe_priority r) (qe_event r) (qe_delay r) (qe_prev r) (qe_job_id r)
    (qe_returned_value r) (qe_failed_reason r) (qe_progress_data r) (qe_name r) x
    (qe_metrics r).

Definition set_qe_id (x : Dt * Z) (r : QueueStreamEvent) : QueueStreamEvent :=
  mkEvent
    x (qe_priority r) (qe_event r) (qe_delay r) (qe_prev r) (qe_job_id r)
    (qe_returned_value r) (qe_failed_reason r) (qe_progress_data r) (qe_name r)
    (qe_worker_id r) (qe_metrics r).

Definition set_qe_progress_data (x : option P) (r : QueueStreamEvent) : QueueStreamEvent :=
  mkEvent
    (qe_id r) (qe_priority r) (qe_event r) (qe_delay r) (qe_prev r) (qe_job_id r)
    (qe_returned_value r) (qe_failed_reason r) x (qe_name r)
    (qe_worker_id r) (qe_metrics r).

Definition set_qe_metrics (x : option JobMetrics) (r : QueueStreamEvent) : QueueStreamEvent :=
  mkEvent
    (qe_id r) (qe_priority r) (qe_event r) (qe_delay r) (qe_prev r) (qe_job_id r)
    (qe_returned_value r) (qe_failed_reason r) (qe_progress_data r) (qe_name r)
    (qe_worker_id r) x.

(** [QueueStreamEvent::default], with the clock reading of its identifier. *)
Definition event_default (now : Dt) : QueueStreamEvent :=
  mkEvent (now, 0) None JobState.default None None 0 None None None None None None.

(** Durations are in nanoseconds. *)
Inductive EventParameters : Type :=
| EvPrioritized (job_id : Z) (name : option string) (priority : Z)
| EvAdded (job_id : Z) (name : option string)
| EvWaitingToRun (job_id : Z) (prev_state : option JobState.t)
| EvDelayed (job_id : Z) (delay : Z)
| EvActive (job_id : Z) (prev_state : option JobState.t)
| EvCompleted (job_id : Z) (job_metrics : JobMetrics) (expected_delay : Z)
    (prev_state : option JobState.t) (result : R)
| EvVoid
| EvProgress (job_id : Z) (data : P)
| EvStalled (job_id : Z) (prev_state : JobState.t)
| EvFailed (reason : FailedDetails) (job_id : Z) (prev_state : JobState.t)
| EvProcessing (worker_id : Z) (job_id : Z) (status : JobState.t).

(** [None] is the panic of a completed event without a value or of a progress
    event without data. *)
Definition from_queue_event (event : QueueStreamEvent) : option EventParameters :=
  let job_id := qe_job_id event in
  match qe_event event with
  | JobState.Prioritized =>
      Some (EvPrioritized job_id (qe_name event) (unwrap_or 0 (qe_priority event)))
  | JobState.Wait =>
      match qe_prev event with
      | None => Some (EvAdded job_id (qe_name event))
      | Some _ => Some (EvWaitingToRun job_id (qe_prev event))
      end
  | JobState.Stalled => Some (EvStalled job_id (unwrap_or JobState.default (qe_prev event)))
  | JobState.Active => Some (EvActive job_id (qe_prev event))
  | JobState.Paused | JobState.Resumed | JobState.Obliterated => Some EvVoid
  | JobState.Completed =>
      let job_metrics := unwrap_or JobMetrics_default (qe_metrics event) in
      match qe_returned_value event with
      | Some result =>
          Some (EvCompleted job_id job_metrics (from_millis (jm_delay job_metrics))
                  (qe_prev event) result)
      | None => None
      end
  | JobState.Failed =>
      Some (EvFailed (unwrap_or FailedDetails_default (qe_failed_reason event)) job_id
              (unwrap_or JobState.default (qe_prev event)))
  | JobState.Delayed =>
      Some (EvDelayed job_id (from_millis (unwrap_or 0 (qe_delay event))))
  | JobState.Progress =>
      match qe_progress_data event with
      | Some data => Some (EvProgress job_id data)
      | None => None
      end
  | JobState.Processing =>
      Some (EvProcessing (unwrap_or 0 (qe_worker_id event)) job_id
              (unwrap_or JobState.default (qe_prev event)))
  end.

(** The job an event is about; pause, resume and obliterate events are about
    the queue. *)
Definition event_job (p : EventParameters) : option Z :=
  match p with
  | EvPrioritized id _ _ | EvAdded id _ | EvWaitingToRun id _ | EvDelayed id _
  | EvActive id _ | EvCompleted id _ _ _ _ | EvProgress id _ | EvStalled id _
  | EvFailed _ id _ | EvProcessing _ id _ => Some id
  | EvVoid => None
  end.

(** Converting a raw event panics exactly for a completed event without
    a returned value or a progress event without data; otherwise the typed
    event carries the raw event's job id, except for the three queue-level
    events, which carry none. *)
Theorem from_queue_event_total (e : QueueStreamEvent) :
  (from_queue_event e = None <->
   (qe_event e = JobState.Completed /\ qe_returned_value e = None) \/
   (qe_event e = JobState.Progress /\ qe_progress_data e = None)) /\
  (forall p, from_queue_event e = Some p ->
   event_job p =
   if decide (qe_event e = JobState.Paused \/ qe_event e = JobState.Resumed \/
              qe_event e = JobState.Obliterated)
   then None else Some (qe_job_id e)).
Proof.
  destruct e as [id pr ev dl prev jid rv fr pd nm wid mt]; cbn.
  split.
  - unfold from_queue_event; cbn. destruct ev, prev, rv, pd; naive_solver.
  - intros p. unfold from_queue_event; cbn.
    destruct ev, prev, rv, pd; cbn; intros ?; simplify_eq/=; done.
Qed.
End Events.

Arguments QueueStreamEvent : clear implicits.
Arguments EventParameters : clear implicits.
