(* ===== verification/Shared.v ===== *)
(** * The cells a store shares with its queue
    ([src/stores/mod.rs], event helpers of [src/utils/mod.rs])

    A queue hands its store handles on the counters, the pause signal and the
    notifier of its workers; the event path of a store and the methods of the
    queue read and write the same cells.  [SysOf] is a store of any kind
    together with those cells; the helpers that every store calls after an
    event are written against it. *)

From S2P Require Import Prelude SkipMap TimedMap Extern Schedule Job Options Events.

(** The clocks: the value of each reading.  [instant n k] is the reading made
    at key or position [k] during the [n]-th access. *)
Class Clock := {
  utc : nat -> Dt;
  instant : nat -> Z -> Z;
}.

Section Shared.
Context {St R P X : Type}.

(** [sy_metrics] and [sy_pause_workers] are the [Arc]s that [Queue::new] hands
    to [create_stream_listener].  [sy_notified] counts the [notify_waiters]
    calls, [sy_emitted] is what the emitter delivered, newest first, [sy_reads]
    numbers the clock readings, and [sy_ext] is the state of the components
    above the store. *)
Record SysOf : Type := mkSys {
  sy_store : St;
  sy_metrics : QueueMetrics;
  sy_pause_workers : bool;
  sy_notified : Z;
  sy_emitted : list (JobState.t * EventParameters R P);
  sy_reads : nat;
  sy_ext : X;
}.

Definition set_sy_store (x : St) (r : SysOf) : SysOf :=
  mkSys
    x (sy_metrics r) (sy_pause_workers r) (sy_notified r) (sy_emitted r) (sy_reads
    r) (sy_ext r).

Definition set_sy_metrics (x : QueueMetrics) (r : SysOf) : SysOf :=
  mkSys
    (sy_store r) x (sy_pause_workers r) (sy_notified r) (sy_emitted r) (sy_reads r)
    (sy_ext r).

Definition set_sy_pause_workers (x : bool) (r : SysOf) : SysOf :=
  mkSys
    (sy_store r) (sy_metrics r) x (sy_notified r) (sy_emitted r) (sy_reads r)
    (sy_ext r).

Definition set_sy_notified (x : Z) (r : SysOf) : SysOf :=
  mkSys
    (sy_store r) (sy_metrics r) (sy_pause_workers r) x (sy_emitted r) (sy_reads r)
    (sy_ext r).

Definition set_sy_emitted (x : list (JobState.t * EventParameters R P)) (r : SysOf) : SysOf :=
  mkSys
    (sy_store r) (sy_metrics r) (sy_pause_workers r) (sy_notified r) x (sy_reads r)
    (sy_ext r).

Definition set_sy_reads (x : nat) (r : SysOf) : SysOf :=
  mkSys
    (sy_store r) (sy_metrics r) (sy_pause_workers r) (sy_notified r) (sy_emitted r)
    x (sy_ext r).

Definition set_sy_ext (x : X) (r : SysOf) : SysOf :=
  mkSys
    (sy_store r) (sy_metrics r) (sy_pause_workers r) (sy_notified r) (sy_emitted r)
    (sy_reads r) x.

Section Helpers.
Context {CLK : Clock}.

Definition utc_now : KM SysOf Dt :=
  state (fun s => (utc (sy_reads s), set_sy_reads (S (sy_reads s)) s)).

Definition instants : KM SysOf (Z -> Z) :=
  state (fun s => (instant (sy_reads s), set_sy_reads (S (sy_reads s)) s)).

Definition on_store {A} (f : St -> A * St) : KM SysOf A :=
  state (fun s => let '(a, st) := f (sy_store s) in (a, set_sy_store st s)).

Definition upd_store (f : St -> St) : KM SysOf unit :=
  modify (fun s => set_sy_store (f (sy_store s)) s).

(** An access that reads [Instant::now] once. *)
Definition timed {A} (f : Z -> St -> A * St) : KM SysOf A :=
  let* t := instants in on_store (f (t 0)).

Definition timed_upd (f : Z -> St -> St) : KM SysOf unit :=
  let* t := instants in upd_store (f (t 0)).

(** [resume_helper] and [pause_or_resume_workers] ([src/utils/mod.rs]). *)
Definition resume_helper (current_metrics : QueueMetrics) : KM SysOf unit :=
  modify (fun s =>
    let workers_paused := sy_pause_workers s in
    if queue_has_work current_metrics && workers_paused
    then set_sy_pause_workers false (set_sy_notified (sy_notified s + 1) s)
    else s).

(** Returns what is left in the [is_initial] cell.  A [compare_exchange] sets
    the cell when it holds the expected value. *)
Definition pause_or_resume_workers (metrics : QueueMetrics) (is_initial : bool) :
    KM SysOf bool :=
  if is_initial then m_ret false
  else
    (if metrics_is_idle metrics
     then modify (fun s => if sy_pause_workers s then s else set_sy_pause_workers true s)
     else resume_helper metrics) ;;;
    m_ret is_initial.

(** [process_each_event] ([src/utils/mod.rs]), for the store whose counters
    [get_metrics] reads; a failed reading leaves the counters as they are. *)
Definition process_each_event (get_metrics : KM SysOf QueueMetrics)
    (event : QueueStreamEvent R P) : KM SysOf unit :=
  let* param := expect (from_queue_event event) in
  modify (fun s => set_sy_emitted ((qe_event event, param) :: sy_emitted s) s) ;;;
  let* updated := attempt get_metrics in
  match updated with
  | Some updated => modify (fun s => set_sy_metrics (metrics_update updated (sy_metrics s)) s)
  | None => m_ret tt
  end.
End Helpers.
End Shared.

Arguments SysOf : clear implicits.
