(* ===== verification/Metrics.v ===== *)
(** * Worker options and metrics records
    ([src/worker/worker_opts.rs], [src/metrics/worker_metrics.rs],
    [src/metrics/process_metrics.rs])

    The data that the store keeps about workers and processes.  What comes
    from the metrics packages is carried as opaque payload. *)

From S2P Require Import Prelude Extern.

Definition MIN_DELAY_MS_LIMIT : Z := 50.

Record WorkerOpts : Type := mkWorkerOpts {
  wo_stalled_interval : Z;
  wo_lock_duration : Z;
  wo_lock_renew_time : Z;
  wo_max_stalled_count : Z;
  wo_concurrency : Z;
  wo_autorun : bool;
  wo_metrics_update_interval : Z;
}.

(** [WorkerOpts::default], with the host's CPU count as the parameter. *)
Definition WorkerOpts_default (num_cpus : Z) : WorkerOpts :=
  mkWorkerOpts 30000 30000 15000 1 num_cpus false 100.

Module WorkerState.
Inductive t : Type :=
| Active
| Idle
| Closed.

#[export] Instance eq_dec : EqDecision t.
Proof. solve_decision. Defined.

Definition default : t := Idle.
End WorkerState.
#[export] Existing Instance WorkerState.eq_dec.

(** [TaskStats]; durations in nanoseconds. *)
Record TaskStats : Type := mkTaskStats {
  ts_total_poll_count : Z;
  ts_total_slow_poll_count : Z;
  ts_total_poll_duration : Z;
  ts_total_idle_duration : Z;
  ts_total_scheduled_duration : Z;
}.

Record RawRuntimeMetrics : Type := mkRuntimeMetrics {
  rt_workers_count : Z;
  rt_live_tasks_count : Z;
  rt_total_park_count : Z;
  rt_max_park_count : Z;
  rt_min_park_count : Z;
  rt_total_busy_duration : Z;
  rt_max_busy_duration : Z;
  rt_min_busy_duration : Z;
  rt_global_queue_depth : Z;
  rt_elapsed : Z;
}.

Record WorkerMeta : Type := mkWorkerMeta {
  wm_worker_id : Z;
  wm_started_at : Dt;
  wm_state : WorkerState.t;
  wm_worker_opts : WorkerOpts;
  wm_last_updated : Dt;
  wm_processing : Z;
}.

Definition WorkerMeta_new (now : Dt) (worker_id : Z) (started_at : Dt) (state : WorkerState.t)
    (worker_opts : WorkerOpts) (processing : Z) : WorkerMeta :=
  mkWorkerMeta worker_id started_at state worker_opts now processing.

Section Metrics.
Context {EXT : Extern}.

Record TaskInfo : Type := mkTaskInfo {
  ti_task_id : Z;
  ti_job_id : Z;
  ti_metrics : TaskStats;
  ti_last_updated : Dt;
  ti_poll_histogram : Histogram;
}.

Record WorkerMetrics : Type := mkWorkerMetrics {
  wk_worker_id : Z;
  wk_active_len : Z;
  wk_tasks : list TaskInfo;
  wk_last_updated : Dt;
  wk_ttl_ms : Z;
}.

Definition WorkerMetrics_new (now : Dt) (worker_id active_len : Z) (tasks : list TaskInfo)
    (ttl : Z) : WorkerMetrics :=
  mkWorkerMetrics worker_id active_len tasks now ttl.

Record ProcessMetrics : Type := mkProcessMetrics {
  pm_hostname : string;
  pm_pid : Z;
  pm_memory_stats : HeapStats;
  pm_process_cpu_usage : F32;
  pm_memory_usage : Z;
  pm_rt_metrics : RawRuntimeMetrics;
  pm_workers : list WorkerMeta;
  pm_last_updated : Dt;
}.
End Metrics.
