(* ===== verification/InMemoryStore.v ===== *)
(** * The in-memory store ([src/stores/inmemory_store.rs])

    The state of the store and one definition per operation of the [Store]
    trait.  The first part is the record and the operations that only touch
    it, as functions on the record; the second part are the operations that
    publish events, as computations on the store together with the cells it
    shares with the queue ([Sys]).

    An operation that looks at an expiring entry calls [Instant::now]; it takes
    the reading as an argument, or one reading per visited entry when it visits
    several. *)

From S2P Require Import Prelude SkipMap Deque TimedMap Extern Schedule Job Options Events Shared Metrics.

Inductive Lock : Type :=
| LToken (token : JobToken)
| StallCheck.

Section Store.
Context {SM : Type -> Type} `{OPS : !SkipMap Z SM} {EXT : Extern} {D R P : Type}.

(** The four [ArcSwapOption] cells [events], [stored_metrics], [pause_workers]
    and [notifier] hold handles on cells of the queue; here they record
    whether the handle has been registered, and the cells are part of [Sys]. *)
Record InMemoryStore : Type := mkStore {
  st_name : string;
  st_prefix : string;
  st_processing : Z;
  st_is_paused : bool;
  st_jobs : TimedMap SM (Job D R P);
  st_worker_metrics : TimedMap SM WorkerMetrics;
  st_process_metrics : TimedMap SM ProcessMetrics;
  st_locks : TimedMap SM Lock;
  st_events : bool;
  st_id_counter : Z;
  st_stored_metrics : bool;
  st_pause_workers : bool;
  st_is_inital : bool;
  st_notifier : bool;
  st_priority_counter : Z;
  st_completed : SM Z;
  st_prioritized : SM Z;
  st_delayed : SM Z;
  st_failed : SM Z;
  st_stalled : SM unit;
  st_active : ConcurrentDeque SM Z;
  st_waiting : ConcurrentDeque SM Z;
  st_paused : ConcurrentDeque SM Z;
  st_event_mode : QueueEventMode;
}.

(** Field updates. *)
Definition set_st_processing (x : Z) (r : InMemoryStore) : InMemoryStore :=
  mkStore
    (st_name r) (st_prefix r) x (st_is_paused r) (st_jobs r) (st_worker_metrics r)
    (st_process_metrics r) (st_locks r) (st_events r) (st_id_counter r)
    (st_stored_metrics r) (st_pause_workers r) (st_is_inital r) (st_notifier r)
    (st_priority_counter r) (st_completed r) (st_prioritized r) (st_delayed r)
    (st_failed r) (st_stalled r) (st_active r) (st_waiting r) (st_paused r)
    (st_event_mode r).

Definition set_st_is_paused (x : bool) (r : InMemoryStore) : InMemoryStore :=
  mkStore
    (st_name r) (st_prefix r) (st_processing r) x (st_jobs r) (st_worker_metrics r)
    (st_process_metrics r) (st_locks r) (st_events r) (st_id_counter r)
    (st_stored_metrics r) (st_pause_workers r) (st_is_inital r) (st_notifier r)
    (st_priority_counter r) (st_completed r) (st_prioritized r) (st_delayed r)
    (st_failed r) (st_stalled r) (st_active r) (st_waiting r) (st_paused r)
    (st_event_mode r).

Definition set_st_jobs (x : TimedMap SM (Job D R P)) (r : InMemoryStore) : InMemoryStore :=
  mkStore
    (st_name r) (st_prefix r) (st_processing r) (st_is_paused r) x
    (st_worker_metrics r) (st_process_metrics r) (st_locks r) (st_events r)
    (st_id_counter r) (st_stored_metrics r) (st_pause_workers r) (st_is_inital r)
    (st_notifier r) (st_priority_counter r) (st_completed r) (st_prioritized r)
    (st_delayed r) (st_failed r) (st_stalled r) (st_active r) (st_waiting r)
    (st_paused r) (st_event_mode r).

Definition set_st_worker_metrics (x : TimedMap SM WorkerMetrics) (r : InMemoryStore) : InMemoryStore :=
  mkStore
    (st_name r) (st_prefix r) (st_processing r) (st_is_paused r) (st_jobs r) x
    (st_process_metrics r) (st_locks r) (st_events r) (st_id_counter r)
    (st_stored_metrics r) (st_pause_workers r) (st_is_inital r) (st_notifier r)
    (st_priority_counter r) (st_completed r) (st_prioritized r) (st_delayed r)
    (st_failed r) (st_stalled r) (st_active r) (st_waiting r) (st_paused r)
    (st_event_mode r).

Definition set_st_process_metrics (x : TimedMap SM ProcessMetrics) (r : InMemoryStore) : InMemoryStore :=
  mkStore
    (st_name r) (st_prefix r) (st_processing r) (st_is_paused r) (st_jobs r)
    (st_worker_metrics r) x (st_locks r) (st_events r) (st_id_counter r)
    (st_stored_metrics r) (st_pause_workers r) (st_is_inital r) (st_notifier r)
    (st_priority_counter r) (st_completed r) (st_prioritized r) (st_delayed r)
    (st_failed r) (st_stalled r) (st_active r) (st_waiting r) (st_paused r)
    (st_event_mode r).

Definition set_st_locks (x : TimedMap SM Lock) (r : InMemoryStore) : InMemoryStore :=
  mkStore
    (st_name r) (st_prefix r) (st_processing r) (st_is_paused r) (st_jobs r)
    (st_worker_metrics r) (st_process_metrics r) x (st_events r) (st_id_counter r)
    (st_stored_metrics r) (st_pause_workers r) (st_is_inital r) (st_notifier r)
    (st_priority_counter r) (st_completed r) (st_prioritized r) (st_delayed r)
    (st_failed r) (st_stalled r) (st_active r) (st_waiting r) (st_paused r)
    (st_event_mode r).

Definition set_st_events (x : bool) (r : InMemoryStore) : InMemoryStore :=
  mkStore
    (st_name r) (st_prefix r) (st_processing r) (st_is_paused r) (st_jobs r)
    (st_worker_metrics r) (st_process_metrics r) (st_locks r) x (st_id_counter r)
    (st_stored_metrics r) (st_pause_workers r) (st_is_inital r) (st_notifier r)
    (st_priority_counter r) (st_completed r) (st_prioritized r) (st_delayed r)
    (st_failed r) (st_stalled r) (st_active r) (st_waiting r) (st_paused r)
    (st_event_mode r).

Definition set_st_id_counter (x : Z) (r : InMemoryStore) : InMemoryStore :=
  mkStore
    (st_name r) (st_prefix r) (st_processing r) (st_is_paused r) (st_jobs r)
    (st_worker_metrics r) (st_process_metrics r) (st_locks r) (st_events r) x
    (st_stored_metrics r) (st_pause_workers r) (st_is_inital r) (st_notifier r)
    (st_priority_counter r) (st_completed r) (st_prioritized r) (st_delayed r)
    (st_failed r) (st_stalled r) (st_active r) (st_waiting r) (st_paused r)
    (st_event_mode r).

Definition set_st_stored_metrics (x : bool) (r : InMemoryStore) : InMemoryStore :=
  mkStore
    (st_name r) (st_prefix r) (st_processing r) (st_is_paused r) (st_jobs r)
    (st_worker_metrics r) (st_process_metrics r) (st_locks r) (st_events r)
    (st_id_counter r) x (st_pause_workers r) (st_is_inital r) (st_notifier r)
    (st_priority_counter r) (st_completed r) (st_prioritized r) (st_delayed r)
    (st_failed r) (st_stalled r) (st_active r) (st_waiting r) (st_paused r)
    (st_event_mode r).

Definition set_st_pause_workers (x : bool) (r : InMemoryStore) : InMemoryStore :=
  mkStore
    (st_name r) (st_prefix r) (st_processing r) (st_is_paused r) (st_jobs r)
    (st_worker_metrics r) (st_process_metrics r) (st_locks r) (st_events r)
    (st_id_counter r) (st_stored_metrics r) x (st_is_inital r) (st_notifier r)
    (st_priority_counter r) (st_completed r) (st_prioritized r) (st_delayed r)
    (st_failed r) (st_stalled r) (st_active r) (st_waiting r) (st_paused r)
    (st_event_mode r).

Definition set_st_is_inital (x : bool) (r : InMemoryStore) : InMemoryStore :=
  mkStore
    (st_name r) (st_prefix r) (st_processing r) (st_is_paused r) (st_jobs r)
    (st_worker_metrics r) (st_process_metrics r) (st_locks r) (st_events r)
    (st_id_counter r) (st_stored_metrics r) (st_pause_workers r) x (st_notifier r)
    (st_priority_counter r) (st_completed r) (st_prioritized r) (st_delayed r)
    (st_failed r) (st_stalled r) (st_active r) (st_waiting r) (st_paused r)
    (st_event_mode r).

Definition set_st_notifier (x : bool) (r : InMemoryStore) : InMemoryStore :=
  mkStore
    (st_name r) (st_prefix r) (st_processing r) (st_is_paused r) (st_jobs r)
    (st_worker_metrics r) (st_process_metrics r) (st_locks r) (st_events r)
    (st_id_counter r) (st_stored_metrics r) (st_pause_workers r) (st_is_inital r) x
    (st_priority_counter r) (st_completed r) (st_prioritized r) (st_delayed r)
    (st_failed r) (st_stalled r) (st_active r) (st_waiting r) (st_paused r)
    (st_event_mode r).

Definition set_st_priority_counter (x : Z) (r : InMemoryStore) : InMemoryStore :=
  mkStore
    (st_name r) (st_prefix r) (st_processing r) (st_is_paused r) (st_jobs r)
    (st_worker_metrics r) (st_process_metrics r) (st_locks r) (st_events r)
    (st_id_counter r) (st_stored_metrics r) (st_pause_workers r) (st_is_inital r)
    (st_notifier r) x (st_completed r) (st_prioritized r) (st_delayed r) (st_failed
    r) (st_stalled r) (st_active r) (st_waiting r) (st_paused r) (st_event_mode r).

Definition set_st_completed (x : SM Z) (r : InMemoryStore) : InMemoryStore :=
  mkStore
    (st_name r) (st_prefix r) (st_processing r) (st_is_paused r) (st_jobs r)
    (st_worker_metrics r) (st_process_metrics r) (st_locks r) (st_events r)
    (st_id_counter r) (st_stored_metrics r) (st_pause_workers r) (st_is_inital r)
    (st_notifier r) (st_priority_counter r) x (st_prioritized r) (st_delayed r)
    (st_failed r) (st_stalled r) (st_active r) (st_waiting r) (st_paused r)
    (st_event_mode r).

Definition set_st_prioritized (x : SM Z) (r : InMemoryStore) : InMemoryStore :=
  mkStore
    (st_name r) (st_prefix r) (st_processing r) (st_is_paused r) (st_jobs r)
    (st_worker_metrics r) (st_process_metrics r) (st_locks r) (st_events r)
    (st_id_counter r) (st_stored_metrics r) (st_pause_workers r) (st_is_inital r)
    (st_notifier r) (st_priority_counter r) (st_completed r) x (st_delayed r)
    (st_failed r) (st_stalled r) (st_active r) (st_waiting r) (st_paused r)
    (st_event_mode r).

Definition set_st_delayed (x : SM Z) (r : InMemoryStore) : InMemoryStore :=
  mkStore
    (st_name r) (st_prefix r) (st_processing r) (st_is_paused r) (st_jobs r)
    (st_worker_metrics r) (st_process_metrics r) (st_locks r) (st_events r)
    (st_id_counter r) (st_stored_metrics r) (st_pause_workers r) (st_is_inital r)
    (st_notifier r) (st_priority_counter r) (st_completed r) (st_prioritized r) x
    (st_failed r) (st_stalled r) (st_active r) (st_waiting r) (st_paused r)
    (st_event_mode r).

Definition set_st_failed (x : SM Z) (r : InMemoryStore) : InMemoryStore :=
  mkStore
    (st_name r) (st_prefix r) (st_processing r) (st_is_paused r) (st_jobs r)
    (st_worker_metrics r) (st_process_metrics r) (st_locks r) (st_events r)
    (st_id_counter r) (st_stored_metrics r) (st_pause_workers r) (st_is_inital r)
    (st_notifier r) (st_priority_counter r) (st_completed r) (st_prioritized r)
    (st_delayed r) x (st_stalled r) (st_active r) (st_waiting r) (st_paused r)
    (st_event_mode r).

Definition set_st_stalled (x : SM unit) (r : InMemoryStore) : InMemoryStore :=
  mkStore
    (st_name r) (st_prefix r) (st_processing r) (st_is_paused r) (st_jobs r)
    (st_worker_metrics r) (st_process_metrics r) (st_locks r) (st_events r)
    (st_id_counter r) (st_stored_metrics r) (st_pause_workers r) (st_is_inital r)
    (st_notifier r) (st_priority_counter r) (st_completed r) (st_prioritized r)
    (st_delayed r) (st_failed r) x (st_active r) (st_waiting r) (st_paused r)
    (st_event_mode r).

Definition set_st_active (x : ConcurrentDeque SM Z) (r : InMemoryStore) : InMemoryStore :=
  mkStore
    (st_name r) (st_prefix r) (st_processing r) (st_is_paused r) (st_jobs r)
    (st_worker_metrics r) (st_process_metrics r) (st_locks r) (st_events r)
    (st_id_counter r) (st_stored_metrics r) (st_pause_workers r) (st_is_inital r)
    (st_notifier r) (st_priority_counter r) (st_completed r) (st_prioritized r)
    (st_delayed r) (st_failed r) (st_stalled r) x (st_waiting r) (st_paused r)
    (st_event_mode r).

Definition set_st_waiting (x : ConcurrentDeque SM Z) (r : InMemoryStore) : InMemoryStore :=
  mkStore
    (st_name r) (st_prefix r) (st_processing r) (st_is_paused r) (st_jobs r)
    (st_worker_metrics r) (st_process_metrics r) (st_locks r) (st_events r)
    (st_id_counter r) (st_stored_metrics r) (st_pause_workers r) (st_is_inital r)
    (st_notifier r) (st_priority_counter r) (st_completed r) (st_prioritized r)
    (st_delayed r) (st_failed r) (st_stalled r) (st_active r) x (st_paused r)
    (st_event_mode r).

Definition set_st_paused (x : ConcurrentDeque SM Z) (r : InMemoryStore) : InMemoryStore :=
  mkStore
    (st_name r) (st_prefix r) (st_processing r) (st_is_paused r) (st_jobs r)
    (st_worker_metrics r) (st_process_metrics r) (st_locks r) (st_events r)
    (st_id_counter r) (st_stored_metrics r) (st_pause_workers r) (st_is_inital r)
    (st_notifier r) (st_priority_counter r) (st_completed r) (st_prioritized r)
    (st_delayed r) (st_failed r) (st_stalled r) (st_active r) (st_waiting r) x
    (st_event_mode r).

(** [InMemoryStore::new]. *)
Definition store_new (prefix : option string) (name : string) : InMemoryStore :=
  let prefix := unwrap_or "kio"%string prefix in
  mkStore name prefix 0 false timed_new timed_new timed_new timed_new false 0 false false
    false false 0 sm_new sm_new sm_new sm_new sm_new deque_new deque_new deque_new PubSub.

(** [InMemoryStore::toggle_expiration]. *)
Definition store_toggle_expiration (st : InMemoryStore) : InMemoryStore :=
  let st := set_st_locks (toggle_expiration (st_locks st)) st in
  let st := set_st_jobs (toggle_expiration (st_jobs st)) st in
  set_st_worker_metrics (toggle_expiration (st_worker_metrics st)) st.

(** ** Metrics *)

(** Metrics are rebuilt with a fresh timestamp; [utc] gives the reading made
    for each entry. *)
Definition fetch_worker_metrics (now : Z -> Z) (utc : Z -> Dt) (st : InMemoryStore) :
    list (Z * WorkerMetrics) * InMemoryStore :=
  let '(live, tm) := timed_iter now (st_worker_metrics st) in
  (map (fun entry =>
          let value := ev_value entry.2 in
          (entry.1, WorkerMetrics_new (utc entry.1) (wk_worker_id value)
                      (wk_active_len value) (wk_tasks value) (wk_ttl_ms value))) live,
   set_st_worker_metrics tm st).

Definition store_process_metrics (now now' : Z) (metrics : ProcessMetrics) (ttl_ms : Z)
    (st : InMemoryStore) : InMemoryStore :=
  let duration := from_millis ttl_ms in
  let '(current, tm) := timed_get now (pm_pid metrics) (st_process_metrics st) in
  match current with
  | Some _ =>
      set_st_process_metrics
        (timed_write now (pm_pid metrics) (fun _ => metrics) (st_process_metrics st)) st
  | None => set_st_process_metrics (insert_expirable now' (pm_pid metrics) metrics duration tm) st
  end.

Definition fetch_process_metrics (now : Z -> Z) (st : InMemoryStore) :
    list (Z * ProcessMetrics) * InMemoryStore :=
  let '(live, tm) := timed_iter now (st_process_metrics st) in
  (map (fun entry => (entry.1, ev_value entry.2)) live, set_st_process_metrics tm st).

Definition store_worker_metrics (now now' : Z) (metrics : WorkerMetrics) (ttl_ms : Z)
    (st : InMemoryStore) : InMemoryStore :=
  let duration := from_millis ttl_ms in
  let '(current, tm) := timed_get now (wk_worker_id metrics) (st_worker_metrics st) in
  match current with
  | Some _ =>
      set_st_worker_metrics
        (timed_write now (wk_worker_id metrics) (fun _ => metrics) (st_worker_metrics st)) st
  | None =>
      set_st_worker_metrics (insert_expirable now' (wk_worker_id metrics) metrics duration tm) st
  end.

(** [len_expired() > 0] guards each purge. *)
Definition purge_if_tracked {V} (now : Z -> Z) (m : TimedMap SM V) : TimedMap SM V :=
  if 0 <? len_expired m then purge_expired now m else m.

Definition store_purge_expired (now : Z -> Z) (st : InMemoryStore) : InMemoryStore :=
  let st := set_st_jobs (purge_if_tracked now (st_jobs st)) st in
  let st := set_st_locks (purge_if_tracked now (st_locks st)) st in
  let st := set_st_worker_metrics (purge_if_tracked now (st_worker_metrics st)) st in
  set_st_process_metrics (purge_if_tracked now (st_process_metrics st)) st.

(** ** Records and locks *)

Definition job_tag (id : Z) : Z := CollectionSuffix.tag (CollectionSuffix.Job id).
Definition lock_tag (id : Z) : Z := CollectionSuffix.tag (CollectionSuffix.Lock id).

Definition get_job (now : Z) (id : Z) (st : InMemoryStore) : option (Job D R P) * InMemoryStore :=
  let '(found, tm) := timed_get now (job_tag id) (st_jobs st) in (found, set_st_jobs tm st).

(** [now i] is the reading made for the [i]-th identifier. *)
Fixpoint fetch_jobs (now : nat -> Z) (ids : list Z) (st : InMemoryStore) :
    list (Job D R P) * InMemoryStore :=
  match ids with
  | [] => ([], st)
  | id :: ids' =>
      let '(found, st1) := get_job (now 0%nat) id st in
      let '(results, st2) := fetch_jobs (fun i => now (S i)) ids' st1 in
      (match found with Some job => job :: results | None => results end, st2)
  end.

Definition get_token (now : Z) (id : Z) (st : InMemoryStore) : option JobToken * InMemoryStore :=
  let '(entry, tm) := timed_get now (lock_tag id) (st_locks st) in
  (match entry with Some (LToken token) => Some token | _ => None end, set_st_locks tm st).

Definition get_state (now : Z) (id : Z) (st : InMemoryStore) :
    option JobState.t * InMemoryStore :=
  let '(entry, tm) := timed_get now (job_tag id) (st_jobs st) in
  (j_state <$> entry, set_st_jobs tm st).

(** [update_job_progress] and [update_job_progress_sync] have the same body:
    the stored record and the caller's copy get the value. *)
Definition update_job_progress (now : Z) (job : Job D R P) (value : P) (st : InMemoryStore) :
    Job D R P * InMemoryStore :=
  match j_id job with
  | Some id =>
      (set_j_progress (Some value) job,
       set_st_jobs
         (timed_write now (job_tag id) (set_j_progress (Some value)) (st_jobs st)) st)
  | None => (job, st)
  end.

Definition set_lock (now : Z) (col : CollectionSuffix.t) (token : option JobToken)
    (lock_duration : Z) (st : InMemoryStore) : InMemoryStore :=
  let lock_key := CollectionSuffix.tag col in
  let duration := from_millis lock_duration in
  let lock := match token with Some t => LToken t | None => StallCheck end in
  set_st_locks (insert_expirable now lock_key lock duration (st_locks st)) st.

Definition expire (now : Z) (col : CollectionSuffix.t) (secs : Z) (st : InMemoryStore) :
    InMemoryStore :=
  let duration := from_secs (Z.abs secs) in
  let key := CollectionSuffix.tag col in
  match col with
  | CollectionSuffix.Lock _ | CollectionSuffix.StalledCheck =>
      set_st_locks (update_expiration_status now key duration (st_locks st)).2 st
  | CollectionSuffix.Job _ =>
      set_st_jobs (update_expiration_status now key duration (st_jobs st)).2 st
  | _ => st
  end.

Definition apply_field (field : JobField R) (job : Job D R P) : Job D R P :=
  match field with
  | FBackTrace trace => set_j_stack_trace (j_stack_trace job ++ [trace]) job
  | FState state => set_j_state state job
  | FProcessedOn ts => set_j_processed_on (from_timestamp_micros (cast_signed ts)) job
  | FFinishedOn ts => set_j_finished_on (from_timestamp_micros (cast_signed ts)) job
  | FToken token => set_j_token (Some token) job
  | FPayload (PFailed failed_details) => set_j_failed_reason (Some failed_details) job
  | FPayload (PSuccess result _) => set_j_returned_value (Some result) job
  end.

Definition set_fields (now : Z) (job_id : Z) (fields : list (JobField R)) (st : InMemoryStore) :
    InMemoryStore :=
  set_st_jobs
    (timed_write now (job_tag job_id) (fun job => foldl (fun j f => apply_field f j) job fields)
       (st_jobs st)) st.

(** ** Counters *)

Definition handle_counter (delta counter : Z) : Z :=
  if 0 <? delta then wrapping_add_u64 counter (Z.abs delta)
  else wrapping_sub_u64 counter (Z.abs delta).

(** [(x.cast_signed() + delta).max(0).cast_unsigned()]. *)
Definition bump (delta x : Z) : Z :=
  cast_unsigned (Z.max (wrapping_add_i64 (cast_signed x) delta) 0).

Definition is_attempts_field (field : string) : bool :=
  (field =? "attempts_made")%string || (field =? "attemptsMade")%string.
Definition is_stalled_field (field : string) : bool :=
  (field =? "stalled_counter")%string || (field =? "stalledCounter")%string.

Definition incr (now : Z) (key : CollectionSuffix.t) (delta : Z) (hash_key : option string)
    (st : InMemoryStore) : Z * InMemoryStore :=
  match key with
  | CollectionSuffix.Id =>
      let next := handle_counter delta (st_id_counter st) in (next, set_st_id_counter next st)
  | CollectionSuffix.PriorityCounter =>
      let next := handle_counter delta (st_priority_counter st) in
      (next, set_st_priority_counter next st)
  | CollectionSuffix.Meta =>
      let next := handle_counter delta (st_processing st) in (next, set_st_processing next st)
  | CollectionSuffix.Job _ =>
      match hash_key with
      | None => (0, st)
      | Some field =>
          let '(value, tm) := timed_get now (CollectionSuffix.tag key) (st_jobs st) in
          match value with
          | None => (0, set_st_jobs tm st)
          | Some job =>
              if is_attempts_field field then
                let new := bump delta (j_attempts_made job) in
                (new, set_st_jobs (timed_write now (CollectionSuffix.tag key)
                                     (set_j_attempts_made new) (st_jobs st)) st)
              else if is_stalled_field field then
                let new := bump delta (j_stalled_counter job) in
                (new, set_st_jobs (timed_write now (CollectionSuffix.tag key)
                                     (set_j_stalled_counter new) (st_jobs st)) st)
              else (0, set_st_jobs tm st)
          end
      end
  | _ => (0, st)
  end.

Definition get_counter (now : Z) (key : CollectionSuffix.t) (hash_key : option string)
    (st : InMemoryStore) : option Z * InMemoryStore :=
  match key with
  | CollectionSuffix.Id => (Some (st_id_counter st), st)
  | CollectionSuffix.PriorityCounter => (Some (st_priority_counter st), st)
  | CollectionSuffix.Meta => (Some (st_processing st), st)
  | CollectionSuffix.Job _ =>
      match hash_key with
      | None => (None, st)
      | Some field =>
          let '(value, tm) := timed_get now (CollectionSuffix.tag key) (st_jobs st) in
          let field := to_lowercase field in
          (match value with
           | None => None
           | Some job =>
               if (field =? "stalled_counter")%string || (field =? "stalledcounter")%string
               then Some (j_stalled_counter job)
               else if (field =? "attempts_made")%string || (field =? "attemptsmade")%string
               then Some (j_attempts_made job)
               else None
           end, set_st_jobs tm st)
      end
  | _ => (None, st)
  end.

(** ** Collections *)

Definition has_value {V} `{EqDecision V} (item : V) (m : SM V) : bool :=
  existsb (fun entry => bool_decide (entry.2 = item)) (sm_iter m).

Definition exists_in (now : Z) (col : CollectionSuffix.t) (item : Z) (st : InMemoryStore) :
    bool * InMemoryStore :=
  match col with
  | CollectionSuffix.Active => (contains_value item (st_active st), st)
  | CollectionSuffix.Wait => (contains_value item (st_waiting st), st)
  | CollectionSuffix.Paused => (contains_value item (st_paused st), st)
  | CollectionSuffix.Completed => (has_value item (st_completed st), st)
  | CollectionSuffix.Failed => (has_value item (st_failed st), st)
  | CollectionSuffix.Prioritized => (has_value item (st_prioritized st), st)
  | CollectionSuffix.Delayed => (has_value item (st_delayed st), st)
  | CollectionSuffix.Stalled => (sm_contains_key (st_stalled st) item, st)
  | CollectionSuffix.Job _ =>
      let '(r, tm) := timed_contains_key now (CollectionSuffix.tag col) (st_jobs st) in
      (r, set_st_jobs tm st)
  | CollectionSuffix.Lock _ | CollectionSuffix.StalledCheck =>
      let '(r, tm) := timed_contains_key now (CollectionSuffix.tag col) (st_locks st) in
      (r, set_st_locks tm st)
  | _ => (false, st)
  end.

Definition job_exists (now : Z) (id : Z) (st : InMemoryStore) : bool * InMemoryStore :=
  exists_in now (CollectionSuffix.Job id) id st.

Definition push (append : bool) (item : Z) (d : ConcurrentDeque SM Z) : ConcurrentDeque SM Z :=
  if append then push_front item d else push_back item d.

Definition add_scored (score : option Z) (item : Z) (m : SM Z) : SM Z :=
  match score with Some score => sm_insert (cast_unsigned score) item m | None => m end.

Definition add_item (col : CollectionSuffix.t) (item : Z) (score : option Z) (append : bool)
    (st : InMemoryStore) : InMemoryStore :=
  match col with
  | CollectionSuffix.Active => set_st_active (push append item (st_active st)) st
  | CollectionSuffix.Wait => set_st_waiting (push append item (st_waiting st)) st
  | CollectionSuffix.Paused => set_st_paused (push append item (st_paused st)) st
  | CollectionSuffix.Completed => set_st_completed (add_scored score item (st_completed st)) st
  | CollectionSuffix.Failed => set_st_failed (add_scored score item (st_failed st)) st
  | CollectionSuffix.Prioritized =>
      set_st_prioritized (add_scored score item (st_prioritized st)) st
  | CollectionSuffix.Delayed => set_st_delayed (add_scored score item (st_delayed st)) st
  | CollectionSuffix.Stalled => set_st_stalled (sm_insert item tt (st_stalled st)) st
  | _ => st
  end.

(** [contains_key(&item)] first: an entry whose score equals the identifier
    wins over the entries whose value is the identifier. *)
Definition remove_scored (item : Z) (m : SM Z) : SM Z :=
  if sm_contains_key m item then sm_remove item m
  else foldl (fun m entry => sm_remove entry.1 m) m
         (filter (fun entry => entry.2 = item) (sm_iter m)).

Definition remove_item (col : CollectionSuffix.t) (item : Z) (st : InMemoryStore) :
    InMemoryStore :=
  match col with
  | CollectionSuffix.Active => set_st_active (deque_remove_value item (st_active st)) st
  | CollectionSuffix.Wait => set_st_waiting (deque_remove_value item (st_waiting st)) st
  | CollectionSuffix.Paused => set_st_paused (deque_remove_value item (st_paused st)) st
  | CollectionSuffix.Completed => set_st_completed (remove_scored item (st_completed st)) st
  | CollectionSuffix.Failed => set_st_failed (remove_scored item (st_failed st)) st
  | CollectionSuffix.Prioritized => set_st_prioritized (remove_scored item (st_prioritized st)) st
  | CollectionSuffix.Delayed => set_st_delayed (remove_scored item (st_delayed st)) st
  | CollectionSuffix.Stalled => set_st_stalled (sm_remove item (st_stalled st)) st
  | CollectionSuffix.Job _ =>
      set_st_jobs (timed_remove (CollectionSuffix.tag col) (st_jobs st)) st
  | CollectionSuffix.Lock _ =>
      set_st_locks (timed_remove (CollectionSuffix.tag col) (st_locks st)) st
  | _ => st
  end.

Definition remove (key : CollectionSuffix.t) (st : InMemoryStore) : InMemoryStore :=
  match key with
  | CollectionSuffix.Active | CollectionSuffix.Completed =>
      set_st_active (deque_clear (st_active st)) st
  | CollectionSuffix.Delayed => set_st_delayed (sm_clear (st_delayed st)) st
  | CollectionSuffix.Stalled => set_st_stalled (sm_clear (st_stalled st)) st
  | CollectionSuffix.Prioritized => set_st_prioritized (sm_clear (st_prioritized st)) st
  | CollectionSuffix.Wait => set_st_waiting (deque_clear (st_waiting st)) st
  | CollectionSuffix.Paused => set_st_paused (deque_clear (st_paused st)) st
  | CollectionSuffix.Failed => set_st_failed (sm_clear (st_failed st)) st
  | CollectionSuffix.Job _ =>
      set_st_jobs (timed_remove (CollectionSuffix.tag key) (st_jobs st)) st
  | CollectionSuffix.Lock _ | CollectionSuffix.StalledCheck =>
      set_st_locks (timed_remove (CollectionSuffix.tag key) (st_locks st)) st
  | _ => st
  end.

Definition clear_collections (st : InMemoryStore) : InMemoryStore :=
  let st := set_st_completed (sm_clear (st_completed st)) st in
  let st := set_st_failed (sm_clear (st_failed st)) st in
  let st := set_st_delayed (sm_clear (st_delayed st)) st in
  let st := set_st_prioritized (sm_clear (st_prioritized st)) st in
  let st := set_st_stalled (sm_clear (st_stalled st)) st in
  let st := set_st_waiting (deque_clear (st_waiting st)) st in
  let st := set_st_paused (deque_clear (st_paused st)) st in
  set_st_active (deque_clear (st_active st)) st.

Definition clear_jobs (_last_id : Z) (st : InMemoryStore) : InMemoryStore :=
  set_st_jobs (timed_clear (st_jobs st)) st.

(** [while let Some(entry) = src.pop_front() { dst.push_back(entry) }]; every
    round takes an entry away from [src], so its length bounds the rounds. *)
Fixpoint drain (fuel : nat) (src dst : ConcurrentDeque SM Z) :
    ConcurrentDeque SM Z * ConcurrentDeque SM Z :=
  match fuel with
  | O => (src, dst)
  | S fuel =>
      match pop_front src with
      | (None, src') => (src', dst)
      | (Some entry, src') => drain fuel src' (push_back entry dst)
      end
  end.

Definition pause (pause_ : bool) (st : InMemoryStore) : InMemoryStore :=
  let st :=
    if pause_ then
      let '(w, p) := drain (S (length (deque_iter (st_waiting st))))
                       (st_waiting st) (st_paused st) in
      set_st_paused p (set_st_waiting w st)
    else
      let '(p, w) := drain (S (length (deque_iter (st_paused st))))
                       (st_paused st) (st_waiting st) in
      set_st_paused p (set_st_waiting w st) in
  set_st_is_paused pause_ st.

(** [map(|entry| { let val = *entry.value(); entry.remove(); val })]. *)
Definition take_entries (es : list (Z * Z)) (m : SM Z) : list Z * SM Z :=
  (es.*2, foldl (fun m entry => sm_remove entry.1 m) m es).

Definition get_delayed_at (start stop : Z) (st : InMemoryStore) :
    (list Z * list Z) * InMemoryStore :=
  let before := cast_unsigned (wrapping_sub_i64 start 1) in
  let end_ := cast_unsigned stop in
  let start := cast_unsigned start in
  let '(jobs, m1) :=
    take_entries (sm_range (Included start) (Excluded end_) (st_delayed st)) (st_delayed st) in
  let '(missed, m2) := take_entries (sm_range Unbounded (Excluded before) m1) m1 in
  ((jobs, missed), set_st_delayed m2 st).

Definition pop_sorted (min : bool) (m : SM Z) : option (Z * Z) * SM Z :=
  if min then sm_pop_front m else sm_pop_back m.

(** The result is the (identifier, score) pair, at most one. *)
Definition pop_set (col : CollectionSuffix.t) (min : bool) (st : InMemoryStore) :
    list (Z * Z) * InMemoryStore :=
  let '(pairs, st) :=
    match col with
    | CollectionSuffix.Completed =>
        let '(r, m) := pop_sorted min (st_completed st) in (r, set_st_completed m st)
    | CollectionSuffix.Delayed =>
        let '(r, m) := pop_sorted min (st_delayed st) in (r, set_st_delayed m st)
    | CollectionSuffix.Failed =>
        let '(r, m) := pop_sorted min (st_failed st) in (r, set_st_failed m st)
    | CollectionSuffix.Prioritized =>
        let '(r, m) := pop_sorted min (st_prioritized st) in (r, set_st_prioritized m st)
    | _ => (None, st)
    end in
  (match pairs with Some (score, id) => [(id, score)] | None => [] end, st).

Definition pop_back_push_front (src dst : CollectionSuffix.t) (st : InMemoryStore) :
    option Z * InMemoryStore :=
  match src, dst with
  | CollectionSuffix.Wait, CollectionSuffix.Active =>
      match pop_back (st_waiting st) with
      | (None, w) => (None, set_st_waiting w st)
      | (Some value, w) =>
          (Some value, set_st_active (push_front value (st_active st)) (set_st_waiting w st))
      end
  | _, _ => (None, st)
  end.

(** The keys at positions [start] and [end] delimit the range of a page. *)
Definition page {V} (m : SM V) (start : nat) (end_ : option nat) : list (Z * V) :=
  if sm_is_empty m then []
  else
    let end_ := match end_ with
                | Some e => e
                | None => (Z.to_nat (sm_len m) - 1)%nat
                end in
    match fst <$> (sm_iter m !! start), fst <$> (sm_iter m !! end_) with
    | Some start_element, Some last_element =>
        sm_range (Included start_element) (Included last_element) m
    | _, _ => []
    end.

Definition get_job_ids_in_state (state : JobState.t) (start end_ : option nat)
    (st : InMemoryStore) : list Z :=
  let start := unwrap_or 0%nat start in
  match state with
  | JobState.Wait => (page (data (st_waiting st)) start end_).*2
  | JobState.Prioritized => (page (st_prioritized st) start end_).*2
  | JobState.Stalled => (page (st_stalled st) start end_).*1
  | JobState.Active => (page (data (st_active st)) start end_).*2
  | JobState.Paused => (page (data (st_paused st)) start end_).*2
  | JobState.Completed => (page (st_completed st) start end_).*2
  | JobState.Failed => (page (st_failed st) start end_).*2
  | JobState.Delayed => (page (st_delayed st) start end_).*2
  | _ => []
  end.

Definition count_entries {V} (m : SM V) : Z := Z.of_nat (length (sm_iter m)).

(** [Store::get_metrics]. *)
Definition store_get_metrics (st : InMemoryStore) : QueueMetrics :=
  QueueMetrics_new (st_id_counter st) (st_processing st) (deque_len (st_active st))
    (count_entries (st_stalled st)) (count_entries (st_completed st))
    (count_entries (st_delayed st)) (count_entries (st_prioritized st))
    (deque_len (st_paused st)) (count_entries (st_failed st)) (deque_len (st_waiting st))
    (st_is_paused st) (st_event_mode st).

(** ** The store and the cells it shares with its queue *)

Section Monadic.
Context {CLK : Clock} {X : Type}.
Abbreviation Sys X := (SysOf InMemoryStore R P X).

Definition publish_event (event : QueueStreamEvent R P) : KM (Sys X) unit :=
  let* st := gets sy_store in
  if st_events st then
    if st_stored_metrics st && st_notifier st && st_pause_workers st then
      process_each_event (gets (fun s => store_get_metrics (sy_store s))) event ;;;
      let* stored := gets sy_metrics in
      let* is_inital := pause_or_resume_workers stored (st_is_inital st) in
      upd_store (set_st_is_inital is_inital)
    else m_ret tt
  else m_ret tt.

(** [create_stream_listener]: registers the four handles. *)
Definition create_stream_listener : KM (Sys X) unit :=
  upd_store (fun st =>
    set_st_stored_metrics true (set_st_pause_workers true
      (set_st_notifier true (set_st_events true st)))).

(** ** Insertion *)

(** [InMemoryStore::insert]; returns the caller's job as it left it. *)
Definition insert (job : Job D R P) (opts : JobOptions) (pc id : Z) (name : string)
    (is_paused : bool) : KM (Sys X) (Job D R P) :=
  let priority := jo_priority opts in
  let* dt := utc_now in
  let* ts := utc_now in
  let* expected_dt_ts := expect (next_occurrance_timestamp_ms ts (jo_delay opts)) in
  let* diff := expect (as_diff_ms (jo_delay opts) dt) in
  let delay := cast_unsigned diff in
  let* job := expect (add_opts opts job) in
  if (0 <? delay) && (delay <? MIN_DELAY_MS_LIMIT) then
    throw (KQueueError (DelayBelowAllowedLimit MIN_DELAY_MS_LIMIT delay))
  else
    let to_delay := 0 <? delay in
    let to_priorize := (0 <? priority) && negb to_delay in
    let waiting_or_paused := if is_paused then CollectionSuffix.Paused else CollectionSuffix.Wait in
    let event := if is_paused then JobState.Paused else JobState.Wait in
    let* placed :=
      (if to_delay then
         match expected_dt_ts with
         | Some expected_active_time =>
             upd_store (add_item CollectionSuffix.Delayed id (Some expected_active_time) false) ;;;
             m_ret (set_j_state JobState.Delayed job, JobState.Delayed)
         | None => m_ret (job, event)
         end
       else if to_priorize then
         let score := cast_signed (calculate_next_priority_score priority pc) in
         upd_store (add_item CollectionSuffix.Prioritized id (Some score) true) ;;;
         m_ret (set_j_state JobState.Prioritized job, JobState.Prioritized)
       else
         upd_store (add_item waiting_or_paused id None true) ;;;
         m_ret (job, event)) in
    let job := set_j_id (Some id) placed.1 in
    upd_store (fun st => set_st_jobs (insert_constant (job_tag id) job (st_jobs st)) st) ;;;
    let* now := utc_now in
    let ev := set_qe_name (Some name) (set_qe_event placed.2 (set_qe_job_id id (event_default now))) in
    let ev := if to_delay then set_qe_delay (Some delay) ev else ev in
    let ev := if to_priorize then set_qe_priority (Some priority) ev else ev in
    publish_event ev ;;;
    m_ret job.

(** One round of [add_bulk] and of [add_bulk_only]. *)
Definition add_one (queue_opts : QueueOpts) (is_paused : bool)
    (item : string * option JobOptions * D) : KM (Sys X) (Job D R P) :=
  let '(name, opts, d) := item in
  let opts := update_job_opts queue_opts (unwrap_or JobOptions_default opts) in
  let* pc := (if 0 <? jo_priority opts
              then timed (fun t => incr t CollectionSuffix.PriorityCounter 1 None)
              else m_ret 0) in
  let* st := gets sy_store in
  let queue_name := (st_prefix st ++ ":" ++ st_name st)%string in
  let* id := timed (fun t => incr t CollectionSuffix.Id 1 None) in
  let* now := utc_now in
  let job := job_new now name (Some d) (jo_id opts) (Some queue_name) in
  insert job opts pc id name is_paused.

Definition add_bulk (iter : list (string * option JobOptions * D)) (queue_opts : QueueOpts)
    (is_paused : bool) : KM (Sys X) (list (Job D R P)) :=
  for_collect iter (add_one queue_opts is_paused).

Definition add_bulk_only (iter : list (string * option JobOptions * D)) (queue_opts : QueueOpts)
    (is_paused : bool) : KM (Sys X) unit :=
  for_each iter (fun item => let* _ := add_one queue_opts is_paused item in m_ret tt).
End Monadic.
End Store.

Arguments InMemoryStore SM {EXT} D R P.
Abbreviation Sys SM D R P X := (SysOf (InMemoryStore SM D R P) R P X).
