(* ===== verification/StoreProps.v ===== *)
(** * Properties of the in-memory store

    The collections behave as queues, ordered sets and leases; identifiers are
    allocated in order by a single task; records never expire; and the places
    where the representation loses information are pinned down. *)

From S2P Require Import Prelude SkipMap Deque TimedMap Extern Schedule Job Options Events Shared Metrics InMemoryStore.

Abbreviation wait_list st := (deque_list (st_waiting st)).
Abbreviation active_list st := (deque_list (st_active st)).
Abbreviation paused_list st := (deque_list (st_paused st)).

Section Props.
Context {SM : Type -> Type} `{OPS : !SkipMap Z SM} `{LAWS : !SkipMapLaws Z SM}
  {EXT : Extern} {D R P : Type}.
Implicit Types st : InMemoryStore SM D R P.

(** ** Lists *)

Definition enqueue_all (ids : list Z) st : InMemoryStore SM D R P :=
  foldl (fun st id => add_item CollectionSuffix.Wait id None true st) st ids.

Fixpoint dequeue_n (n : nat) st : list (option Z) * InMemoryStore SM D R P :=
  match n with
  | O => ([], st)
  | S n =>
      let '(r, st1) := pop_back_push_front CollectionSuffix.Wait CollectionSuffix.Active st in
      let '(rs, st2) := dequeue_n n st1 in (r :: rs, st2)
  end.

(** Enough index space for [n] more pushes at the front of both lists. *)
Definition store_room (n : Z) st : Prop :=
  deque_wf (st_waiting st) /\ deque_wf (st_active st) /\
  - two63 < head_idx (st_waiting st) - n /\ - two63 < head_idx (st_active st) - n.

Lemma push_front_head (v n : Z) (d : ConcurrentDeque SM Z) :
  deque_wf d -> 0 < n -> - two63 < head_idx d - n -> head_idx (push_front v d) = head_idx d - 1.
Proof.
  intros (Hi & _) Hn Hr. cbn. apply wrapping_sub_i64_room; [lia|done].
Qed.

(** Pushing at the front only needs room at the front. *)
Lemma push_front_wf_room (v n : Z) (d : ConcurrentDeque SM Z) :
  deque_wf d -> 0 < n -> - two63 < head_idx d - n -> deque_wf (push_front v d).
Proof.
  intros Hwf Hn Hr. pose proof (push_front_head v n d Hwf Hn Hr) as Hh.
  destruct Hwf as (Hi & Ht & Hlt & Hk). unfold deque_wf. rewrite Hh.
  split_and!; [unfold i64_ok in *; lia|done|cbn; lia|].
  intros k v'. cbn. rewrite iter_insert, alist_insert_elem by apply sm_sorted.
  intros [[-> ->]|[_ ?%Hk]]; lia.
Qed.

Lemma enqueue_all_spec ids st :
  store_room (Z.of_nat (length ids)) st ->
  wait_list (enqueue_all ids st) = rev ids ++ wait_list st /\
  active_list (enqueue_all ids st) = active_list st /\
  deque_wf (st_waiting (enqueue_all ids st)) /\
  st_active (enqueue_all ids st) = st_active st.
Proof.
  revert st. induction ids as [|id ids IH]; intros st (Hw & Ha & Hr1 & Hr2); [done|].
  cbn [enqueue_all foldl length] in *.
  set (st' := add_item CollectionSuffix.Wait id None true st).
  destruct (IH st') as (H1 & H2 & H3 & H4).
  { unfold st', store_room; cbn [add_item st_waiting st_active set_st_waiting push].
    rewrite (push_front_head _ (Z.of_nat (S (length ids)))) by (done || lia).
    split_and!; [|done|lia|lia].
    eapply (push_front_wf_room _ (Z.of_nat (S (length ids)))); done || lia. }
  unfold enqueue_all in *. split_and!; [|done|done|done].
  rewrite H1. cbn [rev]. rewrite <- app_assoc. cbn [app]. f_equal. apply push_front_list, Hw.
Qed.

Lemma dequeue_one st x l :
  wait_list st = l ++ [x] ->
  exists st', pop_back_push_front CollectionSuffix.Wait CollectionSuffix.Active st = (Some x, st') /\
    wait_list st' = l /\ st_active st' = push_front x (st_active st).
Proof.
  intros Hl. unfold pop_back_push_front.
  pose proof (pop_back_list (st_waiting st)) as [H1 H2].
  rewrite Hl, last_snoc in H1. rewrite Hl, removelast_last in H2.
  destruct (pop_back (st_waiting st)) as [[y|] w]; cbn in *; simplify_eq.
  eexists; split; [done|]. by cbn.
Qed.

Lemma dequeue_n_spec ids st :
  wait_list st = rev ids -> deque_wf (st_active st) ->
  - two63 < head_idx (st_active st) - Z.of_nat (length ids) ->
  (dequeue_n (length ids) st).1 = map Some ids /\
  wait_list (dequeue_n (length ids) st).2 = [] /\
  active_list (dequeue_n (length ids) st).2 = rev ids ++ active_list st.
Proof.
  revert st. induction ids as [|id ids IH]; intros st Hw Ha Hr; [done|].
  cbn [length rev dequeue_n map] in *.
  destruct (dequeue_one st id (rev ids) Hw) as (st' & -> & Hw' & Ha').
  destruct (IH st') as (H1 & H2 & H3); [done|rewrite Ha'..|].
  - eapply (push_front_wf_room _ (Z.of_nat (S (length ids)))); done || lia.
  - rewrite (push_front_head _ (Z.of_nat (S (length ids)))) by (done || lia). lia.
  - destruct (dequeue_n (length ids) st') as [rs st2]. cbn in *. subst.
    split_and!; [done|done|]. rewrite H3, Ha', <- app_assoc. cbn [app].
    f_equal. by apply push_front_list.
Qed.

(** The waiting list is first-in first-out: jobs appended to an empty
    waiting list are handed to the active list in the order they were added,
    and the active list ends up holding them newest first. *)
Theorem waiting_is_fifo (ids : list Z) st :
  wait_list st = [] -> store_room (Z.of_nat (length ids)) st ->
  (dequeue_n (length ids) (enqueue_all ids st)).1 = map Some ids /\
  wait_list (dequeue_n (length ids) (enqueue_all ids st)).2 = [] /\
  active_list (dequeue_n (length ids) (enqueue_all ids st)).2 = rev ids ++ active_list st.
Proof.
  intros He Hr. pose proof Hr as (_ & Ha & _ & Hr2).
  destruct (enqueue_all_spec ids st Hr) as (H1 & H2 & H3 & H4).
  rewrite He, app_nil_r in H1. rewrite <- H2.
  apply dequeue_n_spec; by rewrite ?H4.
Qed.

(** ** Pausing *)

Lemma push_back_wf_room (v n : Z) (d : ConcurrentDeque SM Z) :
  deque_wf d -> 0 < n -> tail_idx d + n < two63 ->
  deque_wf (push_back v d) /\ tail_idx (push_back v d) = tail_idx d + 1.
Proof.
  intros (Hh & Ht & Hlt & Hk) Hn Hr. unfold deque_wf, push_back; cbn.
  rewrite wrapping_add_i64_room by (done || lia).
  split; [|done]. split_and!; [done|unfold i64_ok in *; lia|lia|].
  intros k v'. rewrite iter_insert, alist_insert_elem by apply sm_sorted.
  intros [[-> ->]|[_ ?%Hk]]; lia.
Qed.

Lemma pop_front_tail (d : ConcurrentDeque SM Z) : tail_idx (pop_front d).2 = tail_idx d.
Proof. unfold pop_front. by cases. Qed.

Lemma drain_spec fuel (src dst : ConcurrentDeque SM Z) :
  (length (deque_list src) < fuel)%nat -> deque_wf src -> deque_wf dst ->
  tail_idx dst + Z.of_nat fuel < two63 ->
  deque_list (drain fuel src dst).1 = [] /\
  deque_list (drain fuel src dst).2 = deque_list dst ++ deque_list src /\
  deque_wf (drain fuel src dst).1 /\ deque_wf (drain fuel src dst).2 /\
  tail_idx (drain fuel src dst).1 = tail_idx src.
Proof.
  revert src dst. induction fuel as [|fuel IH]; intros src dst Hf Hs Hd Hr; [lia|].
  cbn [drain]. pose proof (pop_front_list src) as [H1 H2].
  pose proof (pop_front_wf src Hs) as Hs'. pose proof (pop_front_tail src) as Ht.
  destruct (pop_front src) as [[x|] src']; cbn [fst snd] in *.
  - destruct (deque_list src) as [|y l] eqn:El; cbn [head tail length] in *; [done|].
    injection H1 as ->. subst l.
    destruct (push_back_wf_room y (Z.of_nat (S fuel)) dst Hd) as [Hd' Ht']; [lia|lia|].
    destruct (IH src' (push_back y dst)) as (H3 & H4 & H5 & H6 & H7); [lia|done|done|lia|].
    rewrite H3, H4, H7, push_back_list by done. split_and!; try done. by rewrite <- app_assoc.
  - destruct (deque_list src) as [|y l] eqn:El; cbn [head tail] in *; [|done].
    by rewrite H2, app_nil_r.
Qed.

Lemma deque_iter_length (d : ConcurrentDeque SM Z) :
  length (deque_iter d) = length (deque_list d).
Proof. unfold deque_iter, deque_list. by rewrite length_fmap. Qed.

Lemma pause_spec st (b : bool) :
  let src := if b then st_waiting st else st_paused st in
  let dst := if b then st_paused st else st_waiting st in
  deque_wf src -> deque_wf dst ->
  tail_idx dst + Z.of_nat (length (deque_list src)) + 1 < two63 ->
  let st' := pause b st in
  let src' := if b then st_waiting st' else st_paused st' in
  let dst' := if b then st_paused st' else st_waiting st' in
  deque_list src' = [] /\ deque_list dst' = deque_list dst ++ deque_list src /\
  deque_wf src' /\ deque_wf dst' /\ tail_idx src' = tail_idx src /\ st_is_paused st' = b.
Proof.
  intros src dst Hs Hd Hr.
  destruct (drain_spec (S (length (deque_list src))) src dst) as (H1 & H2 & H3 & H4 & H5);
    [lia|done|done|lia|].
  unfold pause. destruct b; subst src dst; rewrite deque_iter_length;
    destruct (drain _ _ _); cbn in *; done.
Qed.

(** Pausing moves every waiting job behind the jobs already paused and
    resuming moves every paused job behind the waiting ones; both keep the
    order, always finish, and pausing then resuming a store with nothing
    paused restores the waiting list exactly. *)
Theorem pause_moves_all st :
  deque_wf (st_waiting st) -> deque_wf (st_paused st) ->
  tail_idx (st_waiting st) + Z.of_nat (length (wait_list st ++ paused_list st)) + 1 < two63 ->
  tail_idx (st_paused st) + Z.of_nat (length (wait_list st ++ paused_list st)) + 1 < two63 ->
  wait_list (pause true st) = [] /\
  paused_list (pause true st) = paused_list st ++ wait_list st /\
  wait_list (pause false st) = wait_list st ++ paused_list st /\
  paused_list (pause false st) = [] /\
  (paused_list st = [] -> wait_list (pause false (pause true st)) = wait_list st) /\
  st_is_paused (pause true st) = true /\ st_is_paused (pause false st) = false.
Proof.
  intros Hw Hp Hr1 Hr2. rewrite length_app in Hr1, Hr2.
  destruct (pause_spec st true) as (H1 & H2 & H3 & H4 & H5 & H6); [done|done|lia|].
  destruct (pause_spec st false) as (G1 & G2 & G3 & G4 & G5 & G6); [done|done|lia|].
  split_and!; try done. intros Hnil.
  destruct (pause_spec (pause true st) false) as (_ & F2 & _); [done|done| |].
  - rewrite H5, H2, length_app. lia.
  - by rewrite F2, H1, H2, Hnil.
Qed.

(** ** Scored collections *)

Lemma has_value_spec (item : Z) (m : SM Z) :
  has_value item m = bool_decide (item ∈ (sm_iter m).*2).
Proof.
  change (has_value item m) with (contains_value item (mkDeque m 0 1)).
  by rewrite contains_value_list.
Qed.

Lemma take_entries_iter (es : list (Z * Z)) (m : SM Z) :
  sm_iter (take_entries es m).2 = filter (fun p => p.1 ∉ es.*1) (sm_iter m).
Proof. apply iter_remove_batch. Qed.

(** Taking out the entries selected by a test on the keys splits the map. *)
Lemma take_selected (f : Z -> bool) (m : SM Z) :
  let es := filter (fun p => f p.1) (sm_iter m) in
  sm_iter (take_entries es m).2 = filter (fun p => ~ f p.1) (sm_iter m).
Proof.
  cbn zeta. rewrite take_entries_iter. apply filter_drop_selected, iter_NoDup_keys.
Qed.

Lemma filter_twice_perm (F G : Z * Z -> Prop) `{forall x, Decision (F x)}
    `{forall x, Decision (G x)} (l : list (Z * Z)) :
  (forall x, F x -> G x -> False) ->
  l ≡ₚ filter F l ++ filter G l ++ filter (fun x => ~ F x /\ ~ G x) l.
Proof.
  intros Hd. induction l as [|x l IH]; [done|].
  rewrite !filter_cons. specialize (Hd x).
  repeat case_decide; try tauto; cbn; [by rewrite IH at 1| |].
  - rewrite IH at 1. solve_Permutation.
  - rewrite IH at 1. solve_Permutation.
Qed.

Lemma i64_small x : 0 < x < two63 -> cast_unsigned x = x /\
  cast_unsigned (wrapping_sub_i64 x 1) = x - 1.
Proof.
  unfold two63. intros Hx. split.
  - apply cast_unsigned_small. unfold u64_ok, two64. lia.
  - unfold wrapping_sub_i64. rewrite cast_signed_small by (unfold two63; lia).
    apply cast_unsigned_small. unfold u64_ok, two64. lia.
Qed.

(** What [get_delayed_at] returns and leaves, entry by entry. *)
Lemma get_delayed_at_spec (start stop : Z) st :
  0 < start < two63 -> 0 < stop < two63 ->
  let m0 := sm_iter (st_delayed st) in
  exists m, get_delayed_at start stop st =
    (((filter (fun p => start <= p.1 < stop) m0).*2, (filter (fun p => p.1 < start - 1) m0).*2),
     set_st_delayed m st) /\
    sm_iter m = filter (fun p => ~ (start <= p.1 < stop) /\ ~ p.1 < start - 1) m0.
Proof.
  intros Hs He m0. pose proof (i64_small start Hs) as [E1 E2].
  pose proof (i64_small stop He) as [E3 _].
  set (f := in_range (Included start) (Excluded stop)).
  set (g := in_range Unbounded (Excluded (start - 1))).
  assert (Hf : forall k, f k <-> start <= k < stop).
  { intros k. unfold f, in_range; cbn. rewrite andb_True, !bool_decide_spec. lia. }
  assert (Hg : forall k, g k <-> k < start - 1).
  { intros k. unfold g, in_range; cbn. rewrite bool_decide_spec. lia. }
  pose proof (take_selected f (st_delayed st)) as Ht1. cbn zeta in Ht1. fold m0 in Ht1.
  set (m1 := (take_entries (filter (fun p => f p.1) m0) (st_delayed st)).2) in *.
  pose proof (take_selected g m1) as Ht2. cbn zeta in Ht2.
  exists (take_entries (filter (fun p => g p.1) (sm_iter m1)) m1).2. split.
  - trans (((filter (fun p => f p.1) m0).*2, (filter (fun p => g p.1) (sm_iter m1)).*2),
      set_st_delayed (take_entries (filter (fun p => g p.1) (sm_iter m1)) m1).2 st).
    { unfold get_delayed_at. rewrite E1, E2, E3, range_iter. fold m0 f.
      cbn [take_entries]. fold m1. unfold m1, take_entries; cbn [snd]. by rewrite range_iter. }
    assert (filter (fun p => f p.1) m0 = filter (fun p => start <= p.1 < stop) m0) as ->
      by (apply list_filter_iff; intros; apply Hf).
    assert (filter (fun p => g p.1) (sm_iter m1) = filter (fun p => p.1 < start - 1) m0) as ->; [|done].
    rewrite Ht1, list_filter_filter. apply list_filter_iff.
    intros [k v]; cbn [fst]. rewrite Hf, Hg. lia.
  - rewrite Ht2, Ht1, list_filter_filter. apply list_filter_iff.
    intros [k v]; cbn [fst]. rewrite Hf, Hg. tauto.
Qed.

(** Fetching the delayed jobs of a window takes out, in schedule order,
    the jobs due in [start, stop) and, apart from them, those due before
    [start - 1]; everything else stays, in particular a job due exactly at
    [start - 1]; no job is lost or reported twice. *)
Theorem get_delayed_at_partition (start stop : Z) st :
  0 < start < two63 -> 0 < stop < two63 ->
  let r := get_delayed_at start stop st in
  r.1.1 = (filter (fun p => start <= p.1 < stop) (sm_iter (st_delayed st))).*2 /\
  r.1.2 = (filter (fun p => p.1 < start - 1) (sm_iter (st_delayed st))).*2 /\
  sm_iter (st_delayed r.2) =
    filter (fun p => ~ (start <= p.1 < stop) /\ ~ p.1 < start - 1) (sm_iter (st_delayed st)) /\
  (sm_iter (st_delayed st)).*2 ≡ₚ r.1.1 ++ r.1.2 ++ (sm_iter (st_delayed r.2)).*2.
Proof.
  intros Hs He r. destruct (get_delayed_at_spec start stop st Hs He) as (m & E & Hm).
  unfold r. rewrite E. cbn [fst snd st_delayed set_st_delayed]. rewrite Hm.
  split_and!; [done|done|done|]. rewrite <- !fmap_app.
  apply fmap_Permutation. apply filter_twice_perm. intros; lia.
Qed.
End Props.

(** ** Witnesses *)

#[local] Existing Instance sample_extern.

Definition sample_store : InMemoryStore ZMap Z Z Z := store_new None "demo".

Lemma empty_store_room : store_room 3 sample_store.
Proof.
  unfold store_room, deque_wf, i64_ok, two63; cbn.
  split_and!; try lia; intros k v H; by apply not_elem_of_nil in H.
Defined.

Lemma waiting_is_fifo_witness :
  (dequeue_n 3 (enqueue_all [5; 6; 7] sample_store)).1 = [Some 5; Some 6; Some 7].
Proof.
  apply (waiting_is_fifo [5; 6; 7] sample_store); [reflexivity|apply empty_store_room].
Defined.

Lemma pause_moves_all_witness :
  deque_list (st_paused (pause true sample_store)) = [] /\
  st_is_paused (pause true sample_store) = true.
Proof.
  destruct (pause_moves_all sample_store) as (_ & H1 & _ & _ & _ & H2 & _).
  - apply empty_store_room.
  - apply empty_store_room.
  - vm_compute; reflexivity.
  - vm_compute; reflexivity.
  - split; [rewrite H1; reflexivity|exact H2].
Defined.

Definition delayed_store : InMemoryStore ZMap Z Z Z :=
  foldl (fun st p => add_item CollectionSuffix.Delayed p.1 (Some p.2) false st) sample_store
    [(1, 90); (2, 99); (3, 100); (4, 149); (5, 150)].

Lemma get_delayed_at_partition_witness :
  (get_delayed_at 100 150 delayed_store).1 = ([3; 4], [1]) /\
  sm_iter (st_delayed (get_delayed_at 100 150 delayed_store).2) = [(99, 2); (150, 5)].
Proof.
  destruct (get_delayed_at_partition 100 150 delayed_store) as (H1 & H2 & H3 & _).
  - unfold two63; lia.
  - unfold two63; lia.
  - split; [|rewrite H3; vm_compute; reflexivity].
    apply injective_projections; [rewrite H1|rewrite H2]; vm_compute; reflexivity.
Defined.
