(* ===== verification/StoreScored.v ===== *)
(** * Scored collections, pages and counts of the in-memory store

    The completed, failed, delayed and prioritized collections map a score to
    an identifier.  What a pop, an insertion and a removal do to the list of
    (score, identifier) pairs, how a page is cut out of a collection, and what
    the published counters say about the collections. *)

From S2P Require Import Prelude SkipMap Deque TimedMap Extern Schedule Job Options Events Shared Metrics InMemoryStore StoreProps.

Section Scored.
Context {SM : Type -> Type} `{OPS : !SkipMap Z SM} `{LAWS : !SkipMapLaws Z SM}
  {EXT : Extern} {D R P : Type}.
Implicit Types st : InMemoryStore SM D R P.

(** The collections kept by score. *)
Definition scored (col : CollectionSuffix.t) st : option (SM Z) :=
  match col with
  | CollectionSuffix.Completed => Some (st_completed st)
  | CollectionSuffix.Failed => Some (st_failed st)
  | CollectionSuffix.Delayed => Some (st_delayed st)
  | CollectionSuffix.Prioritized => Some (st_prioritized st)
  | _ => None
  end.

(** ** Popping *)

Fixpoint pop_n (n : nat) (col : CollectionSuffix.t) st : list (list (Z * Z)) * InMemoryStore SM D R P :=
  match n with
  | O => ([], st)
  | S n =>
      let '(r, st1) := pop_set col true st in
      let '(rs, st2) := pop_n n col st1 in (r :: rs, st2)
  end.

Definition swap (p : Z * Z) : Z * Z := (p.2, p.1).

Lemma pop_set_cons col st m s id l :
  scored col st = Some m -> sm_iter m = (s, id) :: l ->
  exists st' m', pop_set col true st = ([(id, s)], st') /\ scored col st' = Some m' /\
    sm_iter m' = l.
Proof.
  intros Hc Hm. destruct (pop_front_cons m s id l Hm) as (m' & E & Hl).
  destruct col; cbn in Hc; simplify_eq; unfold pop_set, pop_sorted; rewrite E;
    eexists _, m'; done.
Qed.

Lemma pop_set_nil col st m :
  scored col st = Some m -> sm_iter m = [] -> (pop_set col true st).1 = [].
Proof.
  intros Hc Hm. pose proof (pop_front_nil m Hm) as E.
  destruct col; cbn in Hc; simplify_eq; unfold pop_set, pop_sorted; by rewrite E.
Qed.

(** A scored collection is a priority queue: popping it repeatedly hands
    out every identifier with its score exactly once, in strictly increasing
    order of score, after which the collection is empty. *)
Theorem pop_set_sorted (col : CollectionSuffix.t) st (m : SM Z) :
  scored col st = Some m ->
  let r := pop_n (length (sm_iter m)) col st in
  r.1 = map (fun p => [swap p]) (sm_iter m) /\
  StronglySorted Z.lt (sm_iter m).*1 /\
  (pop_set col true r.2).1 = [].
Proof.
  intros Hc r. subst r. enough (H : forall l, sm_iter m = l ->
    (pop_n (length l) col st).1 = map (fun p => [swap p]) l /\
    (pop_set col true (pop_n (length l) col st).2).1 = []).
  { destruct (H _ eq_refl). split_and!; [done|exact (iter_sorted Z m)|done]. }
  intros l. revert st m Hc. induction l as [|[s id] l IH]; intros st m Hc Hm.
  - split; [done|]. by eapply pop_set_nil.
  - destruct (pop_set_cons col st m s id l Hc Hm) as (st' & m' & E & Hc' & Hm').
    destruct (IH st' m' Hc' Hm') as [H1 H2]. cbn [length pop_n map]. rewrite E.
    destruct (pop_n (length l) col st') as [rs st2]. cbn in *. by rewrite H1.
Qed.

(** ** Adding *)

(** Adding an identifier under a score files it there and leaves every
    identifier filed under another score in place; an identifier that was
    filed under the very same score is dropped from the collection. *)
Theorem add_item_scored (col : CollectionSuffix.t) (id score : Z) (append : bool) st (m : SM Z) :
  scored col st = Some m -> 0 <= score < two63 ->
  exists m', scored col (add_item col id (Some score) append st) = Some m' /\
  (forall s x, (s, x) ∈ sm_iter m' <->
     (s = score /\ x = id) \/ (s <> score /\ (s, x) ∈ sm_iter m)) /\
  (forall x, x <> id -> (score, x) ∈ sm_iter m -> x ∉ (filter (fun p => p.1 <> score) (sm_iter m)).*2 ->
     x ∉ (sm_iter m').*2).
Proof.
  intros Hc Hs. exists (sm_insert score id m).
  assert (Hin : forall s x, (s, x) ∈ sm_iter (sm_insert score id m) <->
     (s = score /\ x = id) \/ (s <> score /\ (s, x) ∈ sm_iter m)).
  { intros s x. rewrite iter_insert. apply alist_insert_elem, sm_sorted. }
  split_and!; [|done|].
  - destruct col; cbn in *; simplify_eq; do 2 f_equal; unfold add_scored;
      rewrite cast_unsigned_small; done || (unfold u64_ok, two64, two63 in *; lia).
  - intros x Hx _ Hno ([s y] & -> & Hy)%list_elem_of_fmap. cbn in *.
    apply Hin in Hy as [[_ ->]|[Hne Hy]]; [done|]. apply Hno, list_elem_of_fmap.
    exists (s, y). by rewrite list_elem_of_filter.
Qed.

(** ** Removing *)

Lemma remove_scored_iter (item : Z) (m : SM Z) :
  sm_iter (remove_scored item m) =
  if decide (item ∈ (sm_iter m).*1) then filter (fun p => p.1 <> item) (sm_iter m)
  else filter (fun p => p.2 <> item) (sm_iter m).
Proof.
  unfold remove_scored. rewrite contains_key_get.
  case_decide as Hin; case_bool_decide as Hg.
  - by rewrite iter_remove.
  - destruct Hg. apply not_eq_None_Some. intros Hn%get_None. done.
  - apply not_eq_None_Some in Hg. destruct Hg. by apply get_None.
  - rewrite iter_remove_batch. apply filter_drop_selected, iter_NoDup_keys.
Qed.

(** Removing an identifier from a scored collection whose scores do not
    include it as a number deletes exactly its entries; when some entry's
    score happens to equal the identifier, that entry is deleted instead and
    the identifier's own entries stay. *)
Theorem remove_item_scored (col : CollectionSuffix.t) (id : Z) st (m : SM Z) :
  scored col st = Some m ->
  exists m', scored col (remove_item col id st) = Some m' /\
  (id ∉ (sm_iter m).*1 -> sm_iter m' = filter (fun p => p.2 <> id) (sm_iter m)) /\
  (id ∈ (sm_iter m).*1 -> sm_iter m' = filter (fun p => p.1 <> id) (sm_iter m) /\
     forall s, s <> id -> (s, id) ∈ sm_iter m -> id ∈ (sm_iter m').*2).
Proof.
  intros Hc. exists (remove_scored id m). pose proof (remove_scored_iter id m) as Hr.
  split_and!; [by destruct col; cbn in *; simplify_eq|..]; intros Hid; rewrite Hr.
  - by rewrite decide_False.
  - rewrite decide_True by done. split; [done|]. intros s Hs Hin.
    apply list_elem_of_fmap. exists (s, id). by rewrite list_elem_of_filter.
Qed.

(** ** Pages *)

Lemma sorted_lookup {V} (l : list (Z * V)) (i j : nat) p q :
  alist_sorted l -> l !! i = Some p -> l !! j = Some q -> (i < j)%nat -> p.1 < q.1.
Proof.
  intros Hs Hp Hq Hij. apply list_elem_of_split_length in Hp as (l1 & l2 & -> & ->).
  apply (StronglySorted_app_1_elem_of Z.lt (l1 ++ [p]).*1 l2.*1).
  - by rewrite <- fmap_app, <- app_assoc.
  - rewrite fmap_app. set_solver.
  - rewrite lookup_app_r in Hq by lia. apply list_elem_of_fmap. exists q. split; [done|].
    destruct (j - length l1)%nat eqn:E; [lia|]. cbn in Hq. by eapply list_elem_of_lookup_2.
Qed.

Lemma filter_slice {A} (F : A -> Prop) `{forall x, Decision (F x)} (l : list A) (s e : nat) :
  (forall i x, l !! i = Some x -> F x <-> (s <= i <= e)%nat) ->
  filter F l = drop s (take (S e) l).
Proof.
  revert s e. induction l as [|x l IH]; intros s e Hi; [by rewrite take_nil, drop_nil|].
  assert (Hnone : (e = 0)%nat -> filter F l = []).
  { intros ->. apply filter_none. intros y [i Hy]%list_elem_of_lookup.
    rewrite (Hi (S i) y Hy). lia. }
  pose proof (Hi 0%nat x eq_refl) as H0. rewrite filter_cons.
  destruct s as [|s], e as [|e]; cbn [take drop].
  - rewrite decide_True by (apply H0; lia). by rewrite Hnone.
  - rewrite decide_True by (apply H0; lia). f_equal. rewrite (IH 0%nat e), drop_0; [done|].
    intros i y Hy. rewrite (Hi (S i) y Hy). lia.
  - rewrite decide_False by (rewrite H0; lia). rewrite Hnone, take_0, drop_nil; done.
  - rewrite decide_False by (rewrite H0; lia). rewrite (IH s e); [done|].
    intros i y Hy. rewrite (Hi (S i) y Hy). lia.
Qed.

(** Cutting an ordered list between the keys at two positions keeps the
    entries between these positions. *)
Lemma range_slice {V} (l : list (Z * V)) (s e : nat) p q :
  alist_sorted l -> l !! s = Some p -> l !! e = Some q ->
  filter (fun x => in_range (Included p.1) (Included q.1) x.1) l = drop s (take (S e) l).
Proof.
  intros Hs Hp Hq. apply filter_slice.
  intros i x Hx. unfold in_range; cbn. rewrite andb_True, !bool_decide_spec. split.
  - intros [H1 H2]. split; apply Nat.nlt_ge; intros Hlt.
    + apply H1. by eapply (sorted_lookup l i s).
    + apply H2. by eapply (sorted_lookup l e i).
  - intros [H1 H2]. split; intros Hlt.
    + pose proof (sorted_lookup l s i p x Hs Hp Hx). destruct (decide (s = i)); simplify_eq; lia.
    + pose proof (sorted_lookup l i e x q Hs Hx Hq). destruct (decide (i = e)); simplify_eq; lia.
Qed.

Lemma page_slice {V} (m : SM V) (start : nat) (end_ : option nat) :
  page m start end_ =
  match end_ with
  | None => drop start (sm_iter m)
  | Some e => if decide (e < length (sm_iter m))%nat
              then drop start (take (S e) (sm_iter m)) else []
  end.
Proof.
  unfold page. rewrite is_empty_iter. case_bool_decide as He.
  { rewrite He. destruct end_; [|by rewrite drop_nil]. cbn. case_decide; [lia|done]. }
  set (l := sm_iter m) in *. rewrite len_iter, Nat2Z.id. fold l.
  set (e := match end_ with Some e => e | None => (length l - 1)%nat end).
  assert (Hl : (0 < length l)%nat) by (destruct l; cbn; [done|lia]).
  transitivity (if decide (e < length l)%nat then drop start (take (S e) l) else []).
  - destruct (lookup_lt_is_Some l e) as [_ Hlk]. case_decide as Hlt.
    + destruct (Hlk Hlt) as [q Hq]. rewrite Hq; cbn.
      destruct (l !! start) as [p|] eqn:Hp; cbn.
      * rewrite range_iter. apply range_slice; [apply sm_sorted|done|done].
      * apply lookup_ge_None in Hp. rewrite drop_ge; [done|]. rewrite length_take. lia.
    + rewrite (proj2 (lookup_ge_None l e)) by lia. by destruct (fst <$> (l !! start)).
  - subst e. destruct end_; [done|]. rewrite decide_True by lia.
    by rewrite take_ge by lia.
Qed.

(** The identifiers of a state, oldest key first. *)
Definition ids_in (state : JobState.t) st : list Z :=
  match state with
  | JobState.Wait => wait_list st
  | JobState.Active => active_list st
  | JobState.Paused => paused_list st
  | JobState.Prioritized => (sm_iter (st_prioritized st)).*2
  | JobState.Completed => (sm_iter (st_completed st)).*2
  | JobState.Failed => (sm_iter (st_failed st)).*2
  | JobState.Delayed => (sm_iter (st_delayed st)).*2
  | JobState.Stalled => (sm_iter (st_stalled st)).*1
  | _ => []
  end.

(** The identifiers of a state are reported in the order of the
    collection; without bounds all of them, with a lower bound those from that
    position on, and with an inclusive upper bound those up to that position,
    except that an upper bound past the end yields nothing at all. *)
Theorem get_job_ids_in_state_slice (state : JobState.t) (start end_ : option nat) st :
  get_job_ids_in_state state start end_ st =
  match end_ with
  | None => drop (unwrap_or 0%nat start) (ids_in state st)
  | Some e => if decide (e < length (ids_in state st))%nat
              then drop (unwrap_or 0%nat start) (take (S e) (ids_in state st)) else []
  end.
Proof.
  unfold get_job_ids_in_state, ids_in, deque_list.
  destruct state; rewrite ?page_slice, ?length_fmap; destruct end_ as [e|];
    try case_decide; rewrite ?fmap_drop, ?fmap_take, ?drop_nil; done || (cbn in *; lia).
Qed.

(** ** Counters *)

Lemma of_nat_length_pos {A} (l : list A) : (0 <? Z.of_nat (length l)) = false <-> l = [].
Proof. rewrite Z.ltb_ge. destruct l; cbn; split; done || lia. Qed.

Lemma has_work_empty st :
  queue_has_work (store_get_metrics st) = false <->
  wait_list st = [] /\ sm_iter (st_delayed st) = [] /\ sm_iter (st_stalled st) = [] /\
  sm_iter (st_prioritized st) = [].
Proof.
  unfold queue_has_work; cbn. rewrite !orb_false_iff, deque_len_list. unfold count_entries.
  rewrite !of_nat_length_pos. tauto.
Qed.

(** C38: the counters the store reports are the sizes of its collections, and
    the derived flags say what their names promise: work is available exactly
    when the waiting, delayed, stalled or prioritized collection is not empty,
    and "all jobs completed" means that at least one identifier was handed
    out, as many entries completed as identifiers were handed out, and nothing
    is waiting, delayed, stalled, prioritized, active or in progress. *)
Theorem store_metrics_meaning st :
  let m := store_get_metrics st in
  (queue_has_work m = false <->
     wait_list st = [] /\ sm_iter (st_delayed st) = [] /\ sm_iter (st_stalled st) = [] /\
     sm_iter (st_prioritized st) = []) /\
  (all_jobs_completed m = true <->
     0 < st_id_counter st /\ Z.of_nat (length (sm_iter (st_completed st))) = st_id_counter st /\
     active_list st = [] /\ st_processing st = 0 /\ queue_has_work m = false).
Proof.
  intros m. split; [apply has_work_empty|].
  unfold all_jobs_completed, metrics_is_idle, has_active_jobs, workers_idle.
    destruct (queue_has_work m); unfold m; cbn [store_get_metrics QueueMetrics_new qm_last_id
      qm_completed qm_active qm_processing]; rewrite deque_len_list; unfold count_entries;
      rewrite !andb_true_iff, ?negb_true_iff, of_nat_length_pos, !Z.eqb_eq, Z.ltb_lt; [naive_solver|].
    assert (length (active_list st) = 0%nat <-> active_list st = []) by apply length_zero_iff_nil.
    naive_solver lia.
Qed.
End Scored.

(** ** Witnesses *)

Section Witnesses.
#[local] Existing Instance sample_extern.

Lemma pop_set_sorted_witness :
  (pop_n 5 CollectionSuffix.Delayed delayed_store).1 =
    [[(1, 90)]; [(2, 99)]; [(3, 100)]; [(4, 149)]; [(5, 150)]].
Proof.
  destruct (pop_set_sorted CollectionSuffix.Delayed delayed_store (st_delayed delayed_store)
    eq_refl) as [H _].
  change 5%nat with (length (sm_iter (st_delayed delayed_store))).
  rewrite H. vm_compute; reflexivity.
Defined.

Lemma add_item_scored_witness :
  exists m, scored CollectionSuffix.Delayed
    (add_item CollectionSuffix.Delayed 9 (Some 100) false delayed_store) = Some m /\
  3 ∉ (sm_iter m).*2.
Proof.
  destruct (add_item_scored CollectionSuffix.Delayed 9 100 false delayed_store
    (st_delayed delayed_store)) as (m & Hm & _ & Hlost).
  - reflexivity.
  - unfold two63; lia.
  - exists m. split; [exact Hm|]. apply Hlost; [lia| |]; apply (bool_decide_unpack _); vm_compute; exact I.
Defined.

Lemma remove_item_scored_witness :
  exists m, scored CollectionSuffix.Delayed
    (remove_item CollectionSuffix.Delayed 3 delayed_store) = Some m /\
  sm_iter m = [(90, 1); (99, 2); (149, 4); (150, 5)].
Proof.
  destruct (remove_item_scored CollectionSuffix.Delayed 3 delayed_store
    (st_delayed delayed_store)) as (m & Hm & H & _).
  - reflexivity.
  - exists m. split; [exact Hm|]. rewrite H; [vm_compute; reflexivity|].
    apply (bool_decide_unpack _); vm_compute; exact I.
Defined.

Lemma get_job_ids_in_state_slice_witness :
  get_job_ids_in_state JobState.Delayed (Some 1%nat) (Some 3%nat) delayed_store = [2; 3; 4] /\
  get_job_ids_in_state JobState.Delayed (Some 1%nat) (Some 5%nat) delayed_store = [].
Proof. split; rewrite get_job_ids_in_state_slice; vm_compute; reflexivity. Defined.

Lemma store_metrics_meaning_witness :
  queue_has_work (store_get_metrics sample_store) = false /\
  ~ queue_has_work (store_get_metrics delayed_store) = false.
Proof.
  split.
  - destruct (store_metrics_meaning sample_store) as [[_ H] _].
    apply H. split_and!; vm_compute; reflexivity.
  - destruct (store_metrics_meaning delayed_store) as [[H _] _].
    intros E. destruct (H E) as (_ & Hd & _). vm_compute in Hd. discriminate Hd.
Defined.
End Witnesses.
