(* ===== verification/StoreRecords.v ===== *)
(** * Job records: an invariant of every run of the store

    [store_step] is the transition relation of the store: one constructor per
    operation that can change it.  The computations that combine several
    operations (insertion, publication, and later the queue, the timers and the
    workers) are shown to be sequences of such steps, so what holds along
    [store_step] holds along every run of the program. *)

From S2P Require Import Prelude SkipMap Deque TimedMap Extern Schedule Job Options Events Shared Metrics InMemoryStore.

Section Records.
Context {SM : Type -> Type} `{OPS : !SkipMap Z SM} `{LAWS : !SkipMapLaws Z SM}
  {EXT : Extern} {D R P : Type}.
Implicit Types st : InMemoryStore SM D R P.

Inductive store_step : relation (InMemoryStore SM D R P) :=
| step_toggle st : store_step st (store_toggle_expiration st)
| step_fetch_workers now utc st : store_step st (fetch_worker_metrics now utc st).2
| step_store_process now now' m ttl st : store_step st (store_process_metrics now now' m ttl st)
| step_fetch_processes now st : store_step st (fetch_process_metrics now st).2
| step_store_worker now now' m ttl st : store_step st (store_worker_metrics now now' m ttl st)
| step_purge now st : store_step st (store_purge_expired now st)
| step_get_job now id st : store_step st (get_job now id st).2
| step_fetch_jobs now ids st : store_step st (fetch_jobs now ids st).2
| step_get_token now id st : store_step st (get_token now id st).2
| step_get_state now id st : store_step st (get_state now id st).2
| step_progress now job v st : store_step st (update_job_progress now job v st).2
| step_set_lock now col token d st : store_step st (set_lock now col token d st)
| step_expire now col secs st : store_step st (expire now col secs st)
| step_set_fields now id fields st : store_step st (set_fields now id fields st)
| step_incr now key delta h st : store_step st (incr now key delta h st).2
| step_get_counter now key h st : store_step st (get_counter now key h st).2
| step_exists_in now col item st : store_step st (exists_in now col item st).2
| step_add_item col item score app st : store_step st (add_item col item score app st)
| step_remove_item col item st : store_step st (remove_item col item st)
| step_remove key st : store_step st (remove key st)
| step_clear_collections st : store_step st (clear_collections st)
| step_clear_jobs last st : store_step st (clear_jobs last st)
| step_pause b st : store_step st (pause b st)
| step_delayed_at a b st : store_step st (get_delayed_at a b st).2
| step_pop_set col min st : store_step st (pop_set col min st).2
| step_pop_push src dst st : store_step st (pop_back_push_front src dst st).2
| step_record id job st : j_id job = Some id ->
    store_step st (set_st_jobs (insert_constant (job_tag id) job (st_jobs st)) st)
| step_inital b st : store_step st (set_st_is_inital b st)
| step_listener st : store_step st
    (set_st_stored_metrics true (set_st_pause_workers true
      (set_st_notifier true (set_st_events true st)))).

(** ** Records are permanent and filed under their own identifier *)

Definition record_ok (k : Z) (e : ExpiryValue (Job D R P)) : Prop :=
  exists id job, e = Constant job /\ j_id job = Some id /\ k = job_tag id.

Definition records_ok (m : TimedMap SM (Job D R P)) : Prop :=
  forall k e, entry m k = Some e -> record_ok k e.

Lemma records_ok_sub (m m' : TimedMap SM (Job D R P)) :
  records_ok m -> (forall k e, entry m' k = Some e -> entry m k = Some e) -> records_ok m'.
Proof. intros H Hs k e He. by apply H, Hs. Qed.

Lemma timed_get_sub now key (m : TimedMap SM (Job D R P)) k e :
  entry (timed_get now key m).2 k = Some e -> entry m k = Some e.
Proof.
  rewrite timed_get_entry. case_decide; [subst|done].
  destruct (entry m k) as [e'|]; cbn; [|done]. destruct (is_expired now e'); done.
Qed.

Lemma records_get now key m : records_ok m -> records_ok (timed_get now key m).2.
Proof. intros H. eapply records_ok_sub; [done|]. apply timed_get_sub. Qed.

Lemma records_contains now key m :
  records_ok m -> records_ok (timed_contains_key now key m).2.
Proof. rewrite timed_contains_key_state. apply records_get. Qed.

Lemma records_write now key (f : Job D R P -> Job D R P) m :
  (forall j, j_id (f j) = j_id j) -> records_ok m -> records_ok (timed_write now key f m).
Proof.
  intros Hf H k e. rewrite entry_write. case_decide; [subst|apply H].
  destruct (entry m k) as [e'|] eqn:E; cbn; [|done].
  destruct (H _ _ E) as (id & job & -> & Hid & ->). cbn. intros [= <-].
  exists id, (f job). by rewrite Hf.
Qed.

Lemma records_remove key m : records_ok m -> records_ok (timed_remove key m).
Proof.
  intros H. eapply records_ok_sub; [done|]. intros k e. rewrite entry_remove. by case_decide.
Qed.

Lemma records_clear m : records_ok (timed_clear m).
Proof. intros k e. by rewrite entry_clear. Qed.

Lemma records_update_expiration now key d m :
  records_ok m -> records_ok (update_expiration_status now key d m).2.
Proof.
  intros H. unfold update_expiration_status.
  destruct (sm_get (inner m) key) as [e|] eqn:E; [|done].
  destruct (H key e E) as (id & job & -> & _). done.
Qed.

Lemma records_purge now m : records_ok m -> records_ok (purge_if_tracked now m).
Proof.
  intros H. unfold purge_if_tracked. case_match; [|done].
  eapply records_ok_sub; [done|]. intros k e. unfold purge_expired. case_match; [done|].
  rewrite entry_drop_expired. destruct (entry m k) as [e'|]; cbn; [|done].
  by destruct (is_expired (now k) e').
Qed.

Lemma apply_fields_id fields (j : Job D R P) :
  j_id (foldl (fun j f => apply_field f j) j fields) = j_id j.
Proof.
  revert j. induction fields as [|f fs IH]; intros j; cbn; [done|]. rewrite IH.
  destruct f as [|[]| | | |]; done.
Qed.

Lemma records_insert id job m :
  j_id job = Some id -> records_ok m -> records_ok (insert_constant (job_tag id) job m).
Proof.
  intros Hid H k e. rewrite entry_insert_constant. case_decide; [subst|apply H].
  intros [= <-]. by exists id, job.
Qed.

Hint Resolve records_get records_contains records_write records_remove records_clear
  records_update_expiration records_purge apply_fields_id : kio.

Lemma fetch_jobs_records now ids st :
  records_ok (st_jobs st) -> records_ok (st_jobs (fetch_jobs now ids st).2).
Proof.
  revert now st. induction ids as [|id ids IH]; intros now st H; cbn; [done|].
  unfold get_job. destruct (timed_get (now 0%nat) (job_tag id) (st_jobs st)) as [r tm] eqn:E.
  pose proof (IH (fun i => now (S i)) (set_st_jobs tm st)) as IH'.
  destruct (fetch_jobs _ ids _). cbn in *. apply IH'.
  change tm with (r, tm).2. rewrite <- E. by apply records_get.
Qed.

Lemma step_records st st' :
  store_step st st' -> records_ok (st_jobs st) -> records_ok (st_jobs st').
Proof.
  intros Hstep H. destruct Hstep; try done;
    try (by apply fetch_jobs_records); try (by apply records_insert).
  all: repeat (unfold fetch_worker_metrics, store_process_metrics, fetch_process_metrics,
    store_worker_metrics, store_purge_expired, get_job, get_token, get_state,
    update_job_progress, expire, set_fields, incr, get_counter, exists_in, add_item, remove_item,
    remove, clear_jobs, pause, get_delayed_at, pop_set, pop_back_push_front in *; case_match);
    name_snd; cbn; eauto with kio.
Qed.

Lemma reachable_records prefix name st :
  rtc store_step (store_new prefix name) st -> records_ok (st_jobs st).
Proof.
  revert st. apply (rtc_ind_r (fun st => records_ok (st_jobs st))).
  - intros k e. unfold entry; cbn. by rewrite get_new.
  - intros y z _ Hs IH. by eapply step_records.
Qed.

Lemma set_jobs_same st : set_st_jobs (st_jobs st) st = st.
Proof. by destruct st. Qed.

Lemma get_job_constant now id st :
  records_ok (st_jobs st) ->
  get_job now id st = (ev_value <$> entry (st_jobs st) (job_tag id), st).
Proof.
  intros H. unfold get_job, timed_get. fold (entry (st_jobs st) (job_tag id)).
  destruct (entry (st_jobs st) (job_tag id)) as [e|] eqn:E; [|by rewrite set_jobs_same].
  destruct (H _ _ E) as (i & job & -> & _). cbn. by rewrite set_jobs_same.
Qed.

(** C25: in every state the store can reach, a job record never expires: a
    lookup answers the same at every instant and evicts nothing, the record
    found under an identifier carries that identifier, and [expire], which the
    retention age goes through, leaves the store exactly as it was. *)
Theorem records_never_expire (prefix : option string) (name : string) st (id now now' secs : Z) :
  rtc store_step (store_new prefix name) st ->
  get_job now id st = get_job now' id st /\ (get_job now id st).2 = st /\
  expire now (CollectionSuffix.Job id) secs st = st /\
  (forall job id', (get_job now id st).1 = Some job -> j_id job = Some id' ->
     0 <= id < 2 ^ 56 -> 0 <= id' < 2 ^ 56 -> id' = id).
Proof.
  intros H%reachable_records. rewrite !get_job_constant by done. split_and!; try done.
  - unfold expire, update_expiration_status. fold (job_tag id).
    destruct (sm_get (inner (st_jobs st)) (job_tag id)) as [e|] eqn:E; [|apply set_jobs_same].
    destruct (H _ _ E) as (i & job & -> & _). apply set_jobs_same.
  - cbn [fst]. intros job id' Hj Hid Hr Hr'. apply fmap_Some in Hj as (e & E & ->).
    destruct (H _ _ E) as (i & j & -> & Hi & Ht). cbn [ev_value] in Hid.
    assert (i = id') as -> by congruence.
    by injection (CollectionSuffix.tag_injective_ok
      (CollectionSuffix.Job id) (CollectionSuffix.Job id') Hr Hr' Ht).
Qed.

(** ** Computations as sequences of steps *)

Section Runs.
Context {CLK : Clock} {X : Type}.

Definition steps : relation (Sys SM D R P X) :=
  fun s s' => rtc store_step (sy_store s) (sy_store s').

#[export] Instance steps_preorder : PreOrder steps.
Proof. split; [intros s; apply rtc_refl|]. intros x y z. unfold steps. by etrans. Qed.

Lemma steps_on_store {A} (f : InMemoryStore SM D R P -> A * InMemoryStore SM D R P) :
  (forall st, rtc store_step st (f st).2) -> preserves steps (on_store (X := X) f).
Proof.
  intros H. apply preserves_state. intros s. specialize (H (sy_store s)).
  by destruct (f (sy_store s)).
Qed.

Lemma steps_upd_store (f : InMemoryStore SM D R P -> InMemoryStore SM D R P) :
  (forall st, rtc store_step st (f st)) -> preserves steps (upd_store (X := X) f).
Proof. intros H. apply preserves_modify. intros s. apply H. Qed.

Lemma steps_clock : preserves steps (utc_now (X := X)) /\ preserves steps (instants (X := X)).
Proof. split; intros s; apply rtc_refl. Qed.

Lemma steps_utc_now : preserves steps (utc_now (X := X)).
Proof. apply steps_clock. Qed.

Lemma steps_timed {A} (f : Z -> InMemoryStore SM D R P -> A * InMemoryStore SM D R P) :
  (forall t st, rtc store_step st (f t st).2) -> preserves steps (timed (X := X) f).
Proof.
  intros H. apply preserves_bind; [apply _|apply steps_clock|].
  intros t. by apply steps_on_store.
Qed.

Lemma steps_timed_upd (f : Z -> InMemoryStore SM D R P -> InMemoryStore SM D R P) :
  (forall t st, rtc store_step st (f t st)) -> preserves steps (timed_upd (X := X) f).
Proof.
  intros H. apply preserves_bind; [apply _|apply steps_clock|].
  intros t. by apply steps_upd_store.
Qed.

Lemma steps_cells (f : Sys SM D R P X -> Sys SM D R P X) :
  (forall s, sy_store (f s) = sy_store s) -> preserves (E := KioError) steps (modify f).
Proof. intros H. apply preserves_modify. intros s. unfold steps. rewrite H. apply rtc_refl. Qed.

Lemma store_step_once st st' : store_step st st' -> rtc store_step st st'.
Proof. apply rtc_once. Qed.

Hint Resolve steps_on_store steps_upd_store steps_utc_now steps_timed steps_timed_upd
  store_step_once : kio.
Hint Constructors store_step : kio.

Lemma steps_publish_event (event : QueueStreamEvent R P) : preserves steps (publish_event (X := X) event).
Proof.
  unfold publish_event, process_each_event, pause_or_resume_workers, resume_helper. preserve.
  all: apply steps_cells; intros s; by repeat case_match.
Qed.
Hint Resolve steps_publish_event : kio.

Lemma steps_insert (job : Job D R P) opts pc id name is_paused :
  preserves steps (insert (X := X) job opts pc id name is_paused).
Proof. unfold insert. preserve. Qed.
Hint Resolve steps_insert : kio.

Lemma steps_add_bulk iter qo is_paused : preserves steps (add_bulk (X := X) iter qo is_paused).
Proof. unfold add_bulk, add_one. preserve. Qed.

Lemma steps_add_bulk_only iter qo is_paused :
  preserves steps (add_bulk_only (X := X) iter qo is_paused).
Proof. unfold add_bulk_only, add_one. preserve. Qed.
End Runs.
End Records.

#[export] Hint Resolve steps_on_store steps_upd_store steps_utc_now steps_timed steps_timed_upd
  store_step_once steps_publish_event steps_insert steps_add_bulk steps_add_bulk_only : kio.
#[export] Hint Constructors store_step : kio.

(** ** Witness *)

Section Witness.
#[local] Existing Instance sample_extern.

Definition recorded_store : InMemoryStore ZMap Z Z Z :=
  set_st_jobs (insert_constant (job_tag 1) (set_j_id (Some 1) (job_new 0 "n" (Some 5) None None))
                 (st_jobs (store_new None "demo"))) (store_new None "demo").

Lemma records_never_expire_witness :
  expire 10 (CollectionSuffix.Job 1) 0 recorded_store = recorded_store /\
  (get_job 0 1 recorded_store).1 <> None.
Proof.
  split; [|vm_compute; discriminate].
  apply (records_never_expire None "demo" recorded_store 1 10 10 0).
  apply rtc_once, step_record. reflexivity.
Defined.
End Witness.
