(* ===== verification/StoreInsert.v ===== *)
(** * Insertion and publication in the in-memory store

    Where a new job ends up, which identifiers a batch gets, how publishing an
    event wakes paused workers, and the interleavings of the identifier
    counter. *)

From S2P Require Import Prelude SkipMap Deque TimedMap Extern Schedule Job Options Events Shared Metrics InMemoryStore StoreProps StoreScored StoreRecords.

Section Insertion.
Context {SM : Type -> Type} `{OPS : !SkipMap Z SM} `{LAWS : !SkipMapLaws Z SM}
  {EXT : Extern} {CLK : Clock} {D R P X : Type}.
Implicit Types st : InMemoryStore SM D R P.
Implicit Types s : Sys SM D R P X.

(** The eight collections of a store. *)
Definition collections st :=
  (st_active st, st_waiting st, st_paused st, st_completed st, st_failed st,
   st_delayed st, st_prioritized st, st_stalled st).

(** The four handles have been registered by [create_stream_listener]. *)
Definition listening st : Prop :=
  st_events st = true /\ st_stored_metrics st = true /\ st_notifier st = true /\
  st_pause_workers st = true.

(** ** Publication *)

(** The pause signal after an event, given the refreshed counters. *)
Definition signal (m : QueueMetrics) s : Sys SM D R P X :=
  if metrics_is_idle m then (if sy_pause_workers s then s else set_sy_pause_workers true s)
  else if queue_has_work m && sy_pause_workers s
  then set_sy_pause_workers false (set_sy_notified (sy_notified s + 1) s) else s.

(** The state after an event was published on a listening store. *)
Definition published (event : QueueStreamEvent R P) (p : EventParameters R P) s :
    Sys SM D R P X :=
  let m := metrics_update (store_get_metrics (sy_store s)) (sy_metrics s) in
  let s' := set_sy_metrics m (set_sy_emitted ((qe_event event, p) :: sy_emitted s) s) in
  let s'' := if st_is_inital (sy_store s) then s' else signal m s' in
  set_sy_store (set_st_is_inital false (sy_store s'')) s''.

Lemma publish_event_listening (event : QueueStreamEvent R P) p s :
  listening (sy_store s) -> from_queue_event event = Some p ->
  publish_event event s = (Ok tt, published event p s).
Proof.
  intros (H1 & H2 & H3 & H4) Hp. unfold publish_event, process_each_event, published.
  rewrite Hp. cbv [m_bind gets]. rewrite H1, H2, H3, H4. cbn.
  destruct (st_is_inital (sy_store s)) eqn:Hi; cbn; [done|].
  unfold pause_or_resume_workers, signal, resume_helper; cbn.
  destruct (metrics_is_idle _); cbv [m_bind modify m_ret]; cbn.
  - destruct (sy_pause_workers s); cbn; by rewrite ?Hi.
  - destruct (queue_has_work _ && sy_pause_workers s); cbn; by rewrite ?Hi.
Qed.

(** Publishing never fails on an event that converts, and touches nothing of
    the store but [is_inital]. *)
Lemma publish_event_frame (event : QueueStreamEvent R P) p s :
  from_queue_event event = Some p ->
  exists b s', publish_event event s = (Ok tt, s') /\
    sy_store s' = set_st_is_inital b (sy_store s) /\ sy_reads s' = sy_reads s /\
    sy_ext s' = sy_ext s /\ qm_is_paused (sy_metrics s') = qm_is_paused (sy_metrics s).
Proof.
  intros Hp. set (st := sy_store s).
  assert (Hsame : set_st_is_inital (st_is_inital st) st = st) by (by destruct st).
  destruct (st_events st) eqn:H1.
  2: { exists (st_is_inital st), s. unfold publish_event. cbv [m_bind gets]. fold st. by rewrite H1, Hsame. }
  destruct (st_stored_metrics st && st_notifier st && st_pause_workers st) eqn:H2.
  - apply andb_true_iff in H2 as [[H2 H3]%andb_true_iff H4].
    exists false, (published event p s).
    rewrite (publish_event_listening event p s) by done. unfold published, signal.
    split; [done|]. by repeat case_match.
  - exists (st_is_inital st), s. unfold publish_event. cbv [m_bind gets]. fold st. by rewrite H1, H2, Hsame.
Qed.

Lemma collections_waiting st st' : collections st = collections st' -> st_waiting st = st_waiting st'.
Proof. by intros [=]. Qed.

Lemma collections_inital b st : collections (set_st_is_inital b st) = collections st.
Proof. done. Qed.

(** ** Placement *)

(** Where [insert] files a job with a fixed delay of [ms] milliseconds. *)
Definition placement (ms : Z) (opts : JobOptions) (pc id : Z) (is_paused : bool) (ts : Dt) st :=
  if ms <? 0 then st
  else if 0 <? ms then
    add_item CollectionSuffix.Delayed id (Some (timestamp_millis (ts + milliseconds ms))) false st
  else if 0 <? jo_priority opts then
    add_item CollectionSuffix.Prioritized id
      (Some (cast_signed (calculate_next_priority_score (jo_priority opts) pc))) true st
  else add_item (if is_paused then CollectionSuffix.Paused else CollectionSuffix.Wait) id None true st.

Definition placed_state (ms : Z) (opts : JobOptions) : JobState.t :=
  if 0 <? ms then JobState.Delayed
  else if (ms =? 0) && (0 <? jo_priority opts) then JobState.Prioritized else JobState.default.

Lemma delay_flags ms :
  i64_ok ms -> ms <= 0 \/ MIN_DELAY_MS_LIMIT <= ms ->
  (0 <? cast_unsigned ms) && (cast_unsigned ms <? MIN_DELAY_MS_LIMIT) = false /\
  (0 <? cast_unsigned ms) = negb (ms =? 0).
Proof.
  unfold i64_ok, cast_unsigned, two63, two64, MIN_DELAY_MS_LIMIT. intros Hi Hms.
  destruct (Z.lt_ge_cases ms 0).
  - replace (ms mod 2 ^ 64) with (ms + 2 ^ 64) by
      (symmetry; rewrite <- (Z.mod_add _ 1) by lia; rewrite Z.mod_small; lia).
    split; [|by destruct (Z.eqb_spec ms 0), (Z.ltb_spec 0 (ms + 2 ^ 64)); lia || done].
    apply andb_false_iff. right. apply Z.ltb_ge. lia.
  - rewrite Z.mod_small by lia.
    destruct (Z.eqb_spec ms 0), (Z.ltb_spec 0 ms), (Z.ltb_spec ms 50); done || lia.
Qed.

(** [insert] files the job, then publishes an event that converts. *)
Lemma insert_upto (job : Job D R P) opts pc id name is_paused s ms :
  jo_delay opts = TimeMilis ms -> i64_ok ms -> ms <= 0 \/ MIN_DELAY_MS_LIMIT <= ms ->
  (0 < ms -> dated (utc (S (sy_reads s))) ms) -> j_state job = JobState.default ->
  exists job' ev p t,
    insert job opts pc id name is_paused s = (publish_event ev ;;; m_ret job') t /\
    from_queue_event ev = Some p /\
    j_id job' = Some id /\ j_state job' = placed_state ms opts /\
    sy_store t =
      set_st_jobs (insert_constant (job_tag id) job' (st_jobs (sy_store s)))
        (placement ms opts pc id is_paused (utc (S (sy_reads s))) (sy_store s)) /\
    sy_metrics t = sy_metrics s /\ sy_pause_workers t = sy_pause_workers s /\
    sy_notified t = sy_notified s.
Proof.
  intros Hd Hi Hms Hdt Hst. unfold insert, utc_now, add_opts. rewrite Hd.
  cbv [m_bind state]. cbn [fst snd sy_reads set_sy_reads]. rewrite (next_occurrance_dated _ ms Hdt).
  cbv [expect m_ret as_diff_ms].
  destruct (delay_flags ms Hi Hms) as [E0 E1]. rewrite E0, E1.
  unfold placement, placed_state.
  destruct (Z.ltb_spec ms 0), (Z.ltb_spec 0 ms), (Z.eqb_spec ms 0), (Z.leb_spec ms 0); try lia;
    destruct (0 <? jo_priority opts), is_paused; cbn [negb andb fst snd upd_store modify];
    match goal with |- context [publish_event ?ev ?t] => eexists _, ev, _, t end;
    split_and!; done.
Qed.

Lemma insert_ok (job : Job D R P) opts pc id name is_paused s ms :
  jo_delay opts = TimeMilis ms -> i64_ok ms -> ms <= 0 \/ MIN_DELAY_MS_LIMIT <= ms ->
  (0 < ms -> dated (utc (S (sy_reads s))) ms) -> j_state job = JobState.default ->
  exists b job' s', insert job opts pc id name is_paused s = (Ok job', s') /\
    j_id job' = Some id /\ j_state job' = placed_state ms opts /\
    sy_store s' = set_st_is_inital b
      (set_st_jobs (insert_constant (job_tag id) job' (st_jobs (sy_store s)))
         (placement ms opts pc id is_paused (utc (S (sy_reads s))) (sy_store s))).
Proof.
  intros Hd Hi Hms Hdt Hst.
  destruct (insert_upto job opts pc id name is_paused s ms) as
    (job' & ev & p & t & E & Hp & H1 & H2 & H3 & _); [done..|].
  destruct (publish_event_frame ev p t Hp) as (b & s' & Es & Hs & _).
  exists b, job', s'. rewrite E. cbv [m_bind m_ret]. by rewrite Es, Hs, H3.
Qed.

Lemma get_job_inserted now id (job : Job D R P) st m :
  st_jobs st = insert_constant (job_tag id) job m -> (get_job now id st).1 = Some job.
Proof.
  intros Hm. unfold get_job. rewrite Hm.
  pose proof (timed_get_visible now (job_tag id) (insert_constant (job_tag id) job m)) as Hg.
  destruct (timed_get _ _ _) as [found tm]. cbn [fst] in *. subst found.
  unfold visible. by rewrite entry_insert_constant, decide_True.
Qed.

Lemma insert_undated (job : Job D R P) opts pc id name is_paused s ms :
  jo_delay opts = TimeMilis ms -> 0 < ms -> ~ dated (utc (S (sy_reads s))) ms ->
  (insert job opts pc id name is_paused s).1 = Panic /\
  sy_store (insert job opts pc id name is_paused s).2 = sy_store s.
Proof.
  intros Hd Hms Hdt. unfold insert, utc_now. rewrite Hd. cbv [m_bind state]. cbn [fst snd sy_reads set_sy_reads].
  cbn [next_occurrance_timestamp_ms]. destruct (Z.leb_spec ms 0); [lia|]. by rewrite dt_add_dated, decide_False.
Qed.

Lemma insert_refused (job : Job D R P) opts pc id name is_paused s ms :
  jo_delay opts = TimeMilis ms -> 0 < ms < MIN_DELAY_MS_LIMIT -> dated (utc (S (sy_reads s))) ms ->
  exists s', insert job opts pc id name is_paused s =
      (Err (KQueueError (DelayBelowAllowedLimit MIN_DELAY_MS_LIMIT ms)), s') /\
    sy_store s' = sy_store s /\ sy_metrics s' = sy_metrics s /\ sy_emitted s' = sy_emitted s.
Proof.
  intros Hd Hms Hdt. unfold insert, utc_now, add_opts. rewrite Hd.
  cbv [m_bind state]. cbn [fst snd sy_reads set_sy_reads]. rewrite (next_occurrance_dated _ ms) by done.
  cbv [expect m_ret as_diff_ms].
  rewrite cast_unsigned_small by (unfold u64_ok, two64, MIN_DELAY_MS_LIMIT in *; lia).
  destruct (Z.ltb_spec 0 ms), (Z.ltb_spec ms MIN_DELAY_MS_LIMIT); try lia. cbn [andb].
  by eexists.
Qed.

(** C28: [insert] of a job with a fixed delay of [ms] milliseconds, on every
    branch.  A positive delay that ends outside the range of dates panics, and a
    positive delay below the minimum is refused; both change nothing.  Otherwise
    the job is filed in at most one place: a delay of zero puts it on the waiting
    (or, on a paused queue, the paused) list, or under its priority score when it
    has a priority; a positive delay puts it in the delayed set under its due
    time; a negative one puts it in no collection.  No other collection changes,
    and the record can be read back under its identifier. *)
Theorem insert_placement (job : Job D R P) opts pc id name is_paused s (ms now : Z) :
  jo_delay opts = TimeMilis ms -> i64_ok ms -> j_state job = JobState.default ->
  let due := utc (S (sy_reads s)) in
  let r := insert job opts pc id name is_paused s in
  if decide (0 < ms /\ ~ dated due ms) then r.1 = Panic /\ sy_store r.2 = sy_store s
  else if (0 <? ms) && (ms <? MIN_DELAY_MS_LIMIT) then
    r.1 = Err (KQueueError (DelayBelowAllowedLimit MIN_DELAY_MS_LIMIT ms)) /\
    sy_store r.2 = sy_store s
  else
    exists job', r.1 = Ok job' /\ j_id job' = Some id /\ j_state job' = placed_state ms opts /\
    (get_job now id (sy_store r.2)).1 = Some job' /\
    collections (sy_store r.2) = collections (placement ms opts pc id is_paused due (sy_store s)).
Proof.
  intros Hd Hi Hst due r. case_decide as Hdt; [destruct Hdt; by apply (insert_undated _ _ _ _ _ _ _ ms)|].
  assert (Hdt' : 0 < ms -> dated due ms) by (intros ?; destruct (decide (dated due ms)); naive_solver).
  destruct ((0 <? ms) && (ms <? MIN_DELAY_MS_LIMIT)) eqn:Hb.
  - zify_bool. destruct (insert_refused job opts pc id name is_paused s ms Hd) as (s' & E & Hsame & _); [done|by apply Hdt'|].
    unfold r. by rewrite E.
  - destruct (insert_ok job opts pc id name is_paused s ms Hd Hi) as
      (b & job' & s' & E & H1 & H2 & H3); [|done|done|].
    { apply andb_false_iff in Hb as [Hb|Hb]; zify_bool; lia. }
    exists job'. unfold r. rewrite E. cbn [fst snd]. split_and!; try done.
    + eapply get_job_inserted. by rewrite H3.
    + by rewrite H3.
Qed.

(** ** Waking the workers *)

Lemma insert_nonempty {V} k (v : V) (m : SM V) : sm_iter (sm_insert k v m) <> [].
Proof.
  intros E. assert (Hin : (k, v) ∈ sm_iter (sm_insert k v m)).
  { apply get_iter, get_insert_eq. }
  rewrite E in Hin. by apply not_elem_of_nil in Hin.
Qed.

Lemma placement_has_work ms opts pc id is_paused ts st :
  MIN_DELAY_MS_LIMIT <= ms \/ (ms = 0 /\ (0 < jo_priority opts \/ is_paused = false)) ->
  queue_has_work (store_get_metrics (placement ms opts pc id is_paused ts st)) = true.
Proof.
  intros H. apply not_false_iff_true. rewrite has_work_empty.
  intros (Hw & Hd & _ & Hp). unfold placement, MIN_DELAY_MS_LIMIT in *.
  destruct (Z.ltb_spec ms 0); [lia|]. destruct (Z.ltb_spec 0 ms).
  { by apply insert_nonempty in Hd. }
  destruct (Z.ltb_spec 0 (jo_priority opts)).
  { by apply insert_nonempty in Hp. }
  destruct H as [?|[_ [?| ->]]]; [lia|lia|].
  unfold deque_list in Hw. apply fmap_nil_inv in Hw. by apply insert_nonempty in Hw.
Qed.

(** Adding a job that can run now or later wakes the workers: once the
    queue listens to its store and has seen a first event, inserting a job
    that goes to the waiting, prioritized or delayed collection leaves the
    pause signal cleared, and notifies the workers if they were paused. *)
Theorem insert_wakes_workers (job : Job D R P) opts pc id name is_paused s (ms : Z) :
  listening (sy_store s) -> st_is_inital (sy_store s) = false ->
  jo_delay opts = TimeMilis ms -> i64_ok ms -> (0 < ms -> dated (utc (S (sy_reads s))) ms) ->
  j_state job = JobState.default ->
  MIN_DELAY_MS_LIMIT <= ms \/ (ms = 0 /\ (0 < jo_priority opts \/ is_paused = false)) ->
  let s' := (insert job opts pc id name is_paused s).2 in
  sy_pause_workers s' = false /\ queue_has_work (sy_metrics s') = true /\
  sy_notified s' = sy_notified s + (if sy_pause_workers s then 1 else 0).
Proof.
  intros Hl Hin Hd Hi Hdt Hst Hms s'.
  destruct (insert_upto job opts pc id name is_paused s ms) as
    (job' & ev & p & t & E & Hp & _ & _ & Ht & Hm & Hpw & Hn); [done|done|lia|done|done|].
  assert (Hlt : listening (sy_store t) /\ st_is_inital (sy_store t) = false).
  { rewrite Ht. unfold placement. by repeat case_match. }
  destruct Hlt as [Hlt Hit].
  assert (Hw : queue_has_work (store_get_metrics (sy_store t)) = true).
  { rewrite Ht. apply (placement_has_work ms opts pc id is_paused (utc (S (sy_reads s)))
      (sy_store s) Hms). }
  unfold s'. rewrite E. cbv [m_bind m_ret].
  rewrite (publish_event_listening ev p t Hlt Hp). cbn [fst snd]. unfold published, signal.
  rewrite Hit. change (queue_has_work (metrics_update ?a ?b)) with (queue_has_work a).
  unfold metrics_is_idle.
  change (queue_has_work (metrics_update ?a ?b)) with (queue_has_work a).
  rewrite Hw. cbn. rewrite Hpw, Hn.
  destruct (sy_pause_workers s) eqn:Eb; cbn; rewrite ?Hw; split_and!; done || lia.
Qed.

(** ** Batches *)

(** The item's delay is fixed, is not refused, and ends at a date whenever it
    begins. *)
Definition item_ok (item : string * option JobOptions * D) : Prop :=
  exists ms, jo_delay (unwrap_or JobOptions_default item.1.2) = TimeMilis ms /\ i64_ok ms /\
    (ms <= 0 \/ (MIN_DELAY_MS_LIMIT <= ms /\ forall n, dated (utc n) ms)).

Lemma item_ok_dated ms n :
  ms <= 0 \/ (MIN_DELAY_MS_LIMIT <= ms /\ forall n, dated (utc n) ms) ->
  (ms <= 0 \/ MIN_DELAY_MS_LIMIT <= ms) /\ (0 < ms -> dated (utc n) ms).
Proof. intros [?|[? ?]]; (split; [tauto|]); [lia|done]. Qed.

Lemma placement_counter ms opts pc id is_paused ts st :
  st_id_counter (placement ms opts pc id is_paused ts st) = st_id_counter st.
Proof. unfold placement. by repeat case_match. Qed.

Lemma handle_counter_one c : 0 <= c -> c + 1 < two64 -> handle_counter 1 c = c + 1.
Proof.
  intros. unfold handle_counter, wrapping_add_u64. cbn.
  apply cast_unsigned_small. unfold u64_ok. lia.
Qed.

Lemma add_one_ok qo is_paused item s :
  item_ok item -> 0 <= st_id_counter (sy_store s) -> st_id_counter (sy_store s) + 1 < two64 ->
  exists job s', add_one qo is_paused item s = (Ok job, s') /\
    j_id job = Some (st_id_counter (sy_store s) + 1) /\
    st_id_counter (sy_store s') = st_id_counter (sy_store s) + 1 /\
    st_jobs (sy_store s') =
      insert_constant (job_tag (st_id_counter (sy_store s) + 1)) job (st_jobs (sy_store s)).
Proof.
  destruct item as [[name opts] d]. intros (ms & Hd & Hi & Hms) Hc Hc'. cbn in Hd.
  unfold add_one. set (o := update_job_opts qo (unwrap_or JobOptions_default opts)).
  change (jo_delay (unwrap_or JobOptions_default opts)) with (jo_delay o) in Hd.
  destruct (0 <? jo_priority o);
    cbv [timed instants on_store m_bind state gets m_ret utc_now];
    cbn -[handle_counter insert job_new];
    rewrite (handle_counter_one (st_id_counter (sy_store s))) by done;
    match goal with |- context [insert ?j o ?pc ?id ?n ?b ?t] =>
      destruct (item_ok_dated ms (S (sy_reads t)) Hms) as [? ?];
      destruct (insert_ok j o pc id n b t ms) as (b' & job & s' & E & H1 & _ & H3); [exact Hd|done..|reflexivity|] end;
    exists job, s'; rewrite E, H3; cbn; by rewrite placement_counter.
Qed.

Lemma job_tag_inj id id' : 0 <= id < 2 ^ 56 -> 0 <= id' < 2 ^ 56 -> job_tag id = job_tag id' -> id = id'.
Proof.
  intros H H' Ht. by injection (CollectionSuffix.tag_injective_ok
    (CollectionSuffix.Job id) (CollectionSuffix.Job id') H H' Ht).
Qed.

Lemma add_bulk_entries iter qo is_paused s :
  Forall item_ok iter -> 0 <= st_id_counter (sy_store s) ->
  st_id_counter (sy_store s) + Z.of_nat (length iter) < 2 ^ 56 ->
  exists jobs s', add_bulk iter qo is_paused s = (Ok jobs, s') /\
    length jobs = length iter /\
    st_id_counter (sy_store s') = st_id_counter (sy_store s) + Z.of_nat (length iter) /\
    (forall id, 0 <= id <= st_id_counter (sy_store s) ->
       entry (st_jobs (sy_store s')) (job_tag id) = entry (st_jobs (sy_store s)) (job_tag id)) /\
    forall i job, jobs !! i = Some job ->
      j_id job = Some (st_id_counter (sy_store s) + 1 + Z.of_nat i) /\
      entry (st_jobs (sy_store s')) (job_tag (st_id_counter (sy_store s) + 1 + Z.of_nat i)) =
        Some (Constant job).
Proof.
  intros Hok. revert s. induction Hok as [|item iter Hit Hok IH]; intros s Hc Hlt;
    cbn [length] in *.
  { exists [], s. split_and!; [done|done|lia|done|]. intros i job Hi. by rewrite lookup_nil in Hi. }
  destruct (add_one_ok qo is_paused item s Hit Hc) as (job & s1 & E1 & Hj & Hc1 & Hm1);
    [unfold two64; lia|].
  destruct (IH s1) as (jobs & s' & E & Hlen & Hc' & Hold & Hnew); [lia|lia|].
  exists (job :: jobs), s'. rewrite Hc1 in *. split_and!.
  - unfold add_bulk in *. cbn [for_collect]. cbv [m_bind m_ret]. by rewrite E1, E.
  - cbn. by rewrite Hlen.
  - lia.
  - intros id Hid. rewrite Hold by lia. rewrite Hm1, entry_insert_constant, decide_False; [done|].
    intros Ht%job_tag_inj; lia.
  - intros [|i] j Hi; cbn in Hi.
    + injection Hi as <-. rewrite Z.add_0_r. split; [done|].
      rewrite Hold by lia. rewrite Hm1, entry_insert_constant. by rewrite decide_True.
    + apply Hnew in Hi as [H1 H2]. split; [rewrite H1; f_equal; lia|]. rewrite <- H2.
      do 2 f_equal. lia.
Qed.

Lemma get_job_entry now id (job : Job D R P) st :
  entry (st_jobs st) (job_tag id) = Some (Constant job) -> (get_job now id st).1 = Some job.
Proof.
  intros He. unfold get_job. pose proof (timed_get_visible now (job_tag id) (st_jobs st)) as Hg.
  destruct (timed_get now (job_tag id) (st_jobs st)). cbn [fst] in *. subst. unfold visible.
  by rewrite He.
Qed.

(** A batch of jobs none of whose delays is refused is added completely:
    one job per item comes back, the identifiers are consecutive and follow
    the last one handed out, and every job of the batch can be read back under
    its identifier when the batch is done. *)
Theorem add_bulk_consecutive (iter : list (string * option JobOptions * D)) qo is_paused s :
  Forall item_ok iter -> 0 <= st_id_counter (sy_store s) ->
  st_id_counter (sy_store s) + Z.of_nat (length iter) < 2 ^ 56 ->
  exists jobs s', add_bulk iter qo is_paused s = (Ok jobs, s') /\
    length jobs = length iter /\
    st_id_counter (sy_store s') = st_id_counter (sy_store s) + Z.of_nat (length iter) /\
    forall i job now, jobs !! i = Some job ->
      j_id job = Some (st_id_counter (sy_store s) + 1 + Z.of_nat i) /\
      (get_job now (st_id_counter (sy_store s) + 1 + Z.of_nat i) (sy_store s')).1 = Some job.
Proof.
  intros Hok Hc Hlt.
  destruct (add_bulk_entries iter qo is_paused s Hok Hc Hlt) as (jobs & s' & H1 & H2 & H3 & _ & H4).
  exists jobs, s'. split_and!; [done..|]. intros i job now Hi.
  destruct (H4 i job Hi) as [Hid He]. split; [done|]. by apply get_job_entry.
Qed.
(** ** Batches with a refused item *)

(** The item asks for a delay of [ms] milliseconds, below the allowed minimum. *)
Definition item_refused (ms : Z) (item : string * option JobOptions * D) : Prop :=
  jo_delay (unwrap_or JobOptions_default item.1.2) = TimeMilis ms /\ 0 < ms < MIN_DELAY_MS_LIMIT /\
  forall n, dated (utc n) ms.

Definition refusal (ms : Z) : KioError :=
  KQueueError (DelayBelowAllowedLimit MIN_DELAY_MS_LIMIT ms).

Lemma add_one_refused qo is_paused item s ms :
  item_refused ms item -> 0 <= st_id_counter (sy_store s) ->
  st_id_counter (sy_store s) + 1 < two64 ->
  exists s', add_one qo is_paused item s = (Err (refusal ms), s') /\
    st_id_counter (sy_store s') = st_id_counter (sy_store s) + 1 /\
    st_jobs (sy_store s') = st_jobs (sy_store s) /\
    collections (sy_store s') = collections (sy_store s) /\
    sy_metrics s' = sy_metrics s /\ sy_emitted s' = sy_emitted s.
Proof.
  destruct item as [[name opts] d]. intros (Hd & Hms & Hdt) Hc Hc'. cbn in Hd.
  unfold add_one. set (o := update_job_opts qo (unwrap_or JobOptions_default opts)).
  change (jo_delay (unwrap_or JobOptions_default opts)) with (jo_delay o) in Hd.
  destruct (0 <? jo_priority o);
    cbv [timed instants on_store m_bind state gets m_ret utc_now];
    cbn -[handle_counter insert job_new];
    rewrite (handle_counter_one (st_id_counter (sy_store s))) by done;
    match goal with |- context [insert ?j o ?pc ?id ?n ?b ?t] =>
      destruct (insert_refused j o pc id n b t ms Hd Hms (Hdt _)) as (s' & E & H1 & H2 & H3) end;
    exists s'; rewrite E, H1, H2, H3; done.
Qed.

(** C17: a batch stops at its first refused item and is not rolled back.  The
    caller gets the refusal, with the limit and the delay asked for; what the
    store holds is what adding the earlier items alone leaves (their records,
    readable under consecutive identifiers, and every collection), the later
    items are not tried, the refused item publishes nothing, and it has used up
    an identifier. *)
Theorem add_bulk_refused (good : list (string * option JobOptions * D)) bad rest qo is_paused s ms :
  Forall item_ok good -> item_refused ms bad -> 0 <= st_id_counter (sy_store s) ->
  st_id_counter (sy_store s) + Z.of_nat (length good) + 1 < 2 ^ 56 ->
  exists jobs s1 s',
    add_bulk good qo is_paused s = (Ok jobs, s1) /\ length jobs = length good /\
    add_bulk (good ++ bad :: rest) qo is_paused s = (Err (refusal ms), s') /\
    st_jobs (sy_store s') = st_jobs (sy_store s1) /\
    collections (sy_store s') = collections (sy_store s1) /\
    sy_metrics s' = sy_metrics s1 /\ sy_emitted s' = sy_emitted s1 /\
    st_id_counter (sy_store s') = st_id_counter (sy_store s) + Z.of_nat (length good) + 1 /\
    forall i job now, jobs !! i = Some job ->
      (get_job now (st_id_counter (sy_store s) + 1 + Z.of_nat i) (sy_store s')).1 = Some job.
Proof.
  intros Hok Hbad Hc Hlt.
  destruct (add_bulk_entries good qo is_paused s Hok Hc) as (jobs & s1 & H1 & H2 & H3 & _ & H4);
    [lia|].
  destruct (add_one_refused qo is_paused bad s1 ms Hbad) as (s' & E & K1 & K2 & K3 & K4 & K5);
    [lia|unfold two64; lia|].
  exists jobs, s1, s'. split_and!; try done; [by eapply for_collect_err|lia|].
  intros i job now Hi. destruct (H4 i job Hi) as [_ He]. apply get_job_entry. by rewrite K2.
Qed.
End Insertion.

(** ** The identifier counter under concurrency

    [handle_counter] adds to the counter and then loads it, as two separate
    atomic accesses.  A task is before the first, between the two, or done
    with the value it loaded. *)

Inductive incr_task : Type :=
| Idle
| Added
| Got (id : Z).

Record incr_config : Type := mkIncr { ic_counter : Z; ic_tasks : list incr_task }.

Inductive incr_step : relation incr_config :=
| incr_fetch_add c ts i :
    ts !! i = Some Idle ->
    incr_step (mkIncr c ts) (mkIncr (wrapping_add_u64 c 1) (<[i := Added]> ts))
| incr_load c ts i :
    ts !! i = Some Added ->
    incr_step (mkIncr c ts) (mkIncr c (<[i := Got c]> ts)).

(** Tasks that have passed their [fetch_add]. *)
Definition started (t : incr_task) : Prop := t <> Idle.
#[global] Instance started_dec t : Decision (started t).
Proof. destruct t; [right|left|left]; unfold started; [by intros H|done|done]. Defined.

Definition count_started (ts : list incr_task) : Z := Z.of_nat (length (filter started ts)).

Lemma count_started_insert ts i t t' :
  ts !! i = Some t ->
  count_started (<[i := t']> ts) =
  count_started ts + (if decide (started t') then 1 else 0) - (if decide (started t) then 1 else 0).
Proof.
  unfold count_started. revert i. induction ts as [|u ts IH]; intros [|i] Hi; simplify_eq/=.
  - rewrite !filter_cons. repeat case_decide; cbn; lia.
  - rewrite !filter_cons. specialize (IH i Hi). destruct (decide (started u)); cbn; lia.
Qed.

Lemma count_started_le ts : count_started ts <= Z.of_nat (length ts).
Proof. unfold count_started. pose proof (length_filter started ts). lia. Qed.

Definition incr_inv (c0 : Z) (n : nat) (cfg : incr_config) : Prop :=
  length (ic_tasks cfg) = n /\ ic_counter cfg = c0 + count_started (ic_tasks cfg) /\
  forall i id, ic_tasks cfg !! i = Some (Got id) -> c0 < id <= ic_counter cfg.

Lemma incr_inv_step c0 n cfg cfg' :
  0 <= c0 -> c0 + Z.of_nat n < two64 -> incr_step cfg cfg' -> incr_inv c0 n cfg -> incr_inv c0 n cfg'.
Proof.
  intros Hc Hn Hs (Hl & Hk & Hg). pose proof (count_started_le (ic_tasks cfg)) as Hle.
  destruct Hs as [c ts i Hi|c ts i Hi]; cbn in *; unfold incr_inv; cbn.
  - pose proof (count_started_insert ts i Idle Added Hi) as Hcs.
    pose proof (count_started_le (<[i := Added]> ts)) as Hle'. rewrite length_insert in *.
    rewrite decide_True, decide_False in Hcs by (done || by intros H).
    assert (wrapping_add_u64 c 1 = c + 1) as -> by
      (apply cast_unsigned_small; unfold u64_ok, count_started in *; lia).
    split_and!; [done|lia|]. intros j id Hj.
    destruct (decide (i = j)) as [->|Hne].
    + rewrite list_lookup_insert_eq in Hj by (by eapply lookup_lt_Some). done.
    + rewrite list_lookup_insert_ne in Hj by done. specialize (Hg j id Hj). lia.
  - pose proof (count_started_insert ts i Added (Got c) Hi) as Hcs.
    rewrite !decide_True in Hcs by done. rewrite length_insert. split_and!; [done|lia|].
    intros j id Hj. destruct (decide (i = j)) as [->|Hne].
    + rewrite list_lookup_insert_eq in Hj by (by eapply lookup_lt_Some). injection Hj as <-.
      split; [|lia]. assert (0 < count_started ts); [|lia].
      unfold count_started. assert (Added ∈ filter started ts).
      { apply list_elem_of_filter. split; [done|]. by eapply list_elem_of_lookup_2. }
      destruct (filter started ts); [set_solver|cbn; lia].
    + rewrite list_lookup_insert_ne in Hj by done. by apply Hg in Hj.
Qed.

(** Under every interleaving of concurrent insertions the identifiers
    handed out lie between the old counter and the old counter plus the number
    of insertions; they need not be distinct, however: two insertions whose
    additions both precede the two loads get the same identifier. *)
Theorem incr_interleavings (c0 : Z) (n : nat) :
  0 <= c0 -> c0 + Z.of_nat n < two64 ->
  (forall cfg i id, rtc incr_step (mkIncr c0 (replicate n Idle)) cfg ->
     ic_tasks cfg !! i = Some (Got id) -> c0 < id <= c0 + Z.of_nat n) /\
  (n = 2%nat -> exists cfg, rtc incr_step (mkIncr c0 (replicate n Idle)) cfg /\
     ic_tasks cfg = [Got (c0 + 2); Got (c0 + 2)]).
Proof.
  intros Hc Hn. split.
  - intros cfg i id Hr Hi.
    assert (incr_inv c0 n cfg) as (Hl & Hk & Hg).
    { revert cfg Hr Hi. enough (forall cfg, rtc incr_step (mkIncr c0 (replicate n Idle)) cfg ->
        incr_inv c0 n cfg) by eauto.
      apply (rtc_ind_r (incr_inv c0 n)).
      - unfold incr_inv, count_started; cbn. rewrite length_replicate, filter_none; [cbn|].
        + split_and!; [done|lia|]. intros j id' [? _]%lookup_replicate. done.
        + intros x [-> _]%elem_of_replicate. by intros H.
      - intros y z _ Hs IH. by eapply incr_inv_step. }
    pose proof (count_started_le (ic_tasks cfg)). specialize (Hg i id Hi). lia.
  - intros ->. exists (mkIncr (c0 + 2) [Got (c0 + 2); Got (c0 + 2)]). split; [|done].
    assert (E : forall c, 0 <= c -> c + 1 < two64 -> wrapping_add_u64 c 1 = c + 1).
    { intros c H1 H2. apply cast_unsigned_small. unfold u64_ok. lia. }
    eapply rtc_l; [apply (incr_fetch_add c0 _ 0); reflexivity|]. rewrite E by lia.
    eapply rtc_l; [apply (incr_fetch_add (c0 + 1) _ 1); reflexivity|]. rewrite E by lia.
    replace (c0 + 1 + 1) with (c0 + 2) by lia.
    eapply rtc_l; [apply (incr_load (c0 + 2) _ 0); reflexivity|].
    apply rtc_once. apply (incr_load (c0 + 2) [Got (c0 + 2); Added] 1). reflexivity.
Qed.

(** ** Witnesses *)

(** Every reading is one second after the previous one; dates stop after thirty years. *)
Definition sample_clock : Clock := {|
  utc n := Z.min (Z.of_nat n * 1000000000) 1000000000000000000;
  instant n _ := Z.of_nat n * 1000000000;
|}.

Section Witnesses.
#[local] Existing Instance sample_extern.
#[local] Existing Instance sample_clock.

Lemma sample_dated ms n : 0 <= ms <= 1000000000000 -> dated (utc n) ms.
Proof. unfold dated, milliseconds. cbn. lia. Qed.

(** A queue that listens to its store, whose workers are paused. *)
Definition sample_sys : Sys ZMap Z Z Z unit :=
  mkSys (set_st_stored_metrics true (set_st_pause_workers true
           (set_st_notifier true (set_st_events true sample_store))))
    QueueMetrics_default true 0 [] 0 tt.

Definition sample_job : Job Z Z Z := job_new 0 "n" (Some 5) None None.

Lemma insert_placement_witness :
  exists job, (insert sample_job JobOptions_default 0 7 "n" false sample_sys).1 = Ok job /\
    j_id job = Some 7 /\
    wait_list (sy_store (insert sample_job JobOptions_default 0 7 "n" false sample_sys).2) = [7].
Proof.
  destruct (insert_placement sample_job JobOptions_default 0 7 "n" false sample_sys 0 0)
    as (job & H1 & H2 & _ & _ & H3); [reflexivity|unfold i64_ok, two63; lia|reflexivity|].
  exists job. split_and!; [exact H1|exact H2|].
  apply collections_waiting in H3. rewrite H3. vm_compute. reflexivity.
Defined.

Lemma insert_wakes_workers_witness :
  sy_pause_workers (insert sample_job JobOptions_default 0 7 "n" false sample_sys).2 = false /\
  sy_notified (insert sample_job JobOptions_default 0 7 "n" false sample_sys).2 = 1.
Proof.
  destruct (insert_wakes_workers sample_job JobOptions_default 0 7 "n" false sample_sys 0)
    as (H1 & _ & H2).
  - repeat split.
  - reflexivity.
  - reflexivity.
  - unfold i64_ok, two63; lia.
  - lia.
  - reflexivity.
  - right; split; [reflexivity|right; reflexivity].
  - split; [exact H1|exact H2].
Defined.

Lemma add_bulk_consecutive_witness :
  exists jobs s', add_bulk [("a"%string, None, 1); ("b"%string, None, 2)]
    (QueueOpts_default) false sample_sys = (Ok jobs, s') /\
  length jobs = 2%nat /\ st_id_counter (sy_store s') = 2.
Proof.
  destruct (add_bulk_consecutive [("a"%string, None, 1); ("b"%string, None, 2)]
    QueueOpts_default false sample_sys) as (jobs & s' & H1 & H2 & H3 & _).
  - repeat (constructor; [exists 0; split_and!; [reflexivity|unfold i64_ok, two63; lia..|left; lia]|]); constructor.
  - cbn; lia.
  - cbn; lia.
  - exists jobs, s'. split_and!; [exact H1|exact H2|exact H3].
Defined.

Lemma add_bulk_refused_witness :
  let bad := ("b"%string, Some (mkJobOptions 0 (TimeMilis 10) None 0 None None None None), 2) in
  exists jobs s1 s', add_bulk [("a"%string, None, 1)] QueueOpts_default false sample_sys =
      (Ok jobs, s1) /\
    add_bulk [("a"%string, None, 1); bad; ("c"%string, None, 3)] QueueOpts_default false sample_sys =
      (Err (refusal 10), s') /\
    st_id_counter (sy_store s') = 2.
Proof.
  intros bad.
  destruct (add_bulk_refused [("a"%string, None, 1)] bad [("c"%string, None, 3)]
    QueueOpts_default false sample_sys 10) as (jobs & s1 & s' & H1 & _ & H2 & _ & _ & _ & _ & H3 & _).
  - repeat (constructor; [exists 0; split_and!; [reflexivity|unfold i64_ok, two63; lia..|left; lia]|]); constructor.
  - split; [reflexivity|]. split; [unfold MIN_DELAY_MS_LIMIT; lia|]. intros n. apply sample_dated. lia.
  - cbn; lia.
  - cbn; lia.
  - exists jobs, s1, s'. split_and!; [exact H1|exact H2|exact H3].
Defined.

Lemma incr_interleavings_witness :
  exists cfg, rtc incr_step (mkIncr 0 [Idle; Idle]) cfg /\ ic_tasks cfg = [Got 2; Got 2].
Proof. apply (incr_interleavings 0 2); unfold two64; [lia|lia|reflexivity]. Defined.
End Witnesses.
