(* ===== verification/UnitTests.v ===== *)
(** * The unit tests of the crate

    The tests inside [src/job/backoff.rs], [src/timers/concurrent_timed_map.rs]
    and [src/error/backtrace_utils.rs], as programs over the definitions of
    [Schedule], [TimedMap] and [Catcher].  A test that sleeps holds for every
    clock that has moved on by then; the test with concurrent insertions, for every
    order and every instants of them. *)

From S2P Require Import Prelude SkipMap TimedMap Extern Schedule Catcher.

(** ** Backoff *)

Section Backoff.
Context {SS : Type -> Type} `{OPS : !SkipMap string SS}.

(** [if let Some(strategy) = ..] with one [assert_eq!] for each attempt. *)
Definition check_strategy (type : string) (cases : list (Z * Z)) : bool :=
  match lookup_strategy (SS := SS) backoff_new (mkBackOffOptions (Some type) (Some 100)) None with
  | Some strategy => forallb (fun c => strategy c.1 =? c.2) cases
  | None => true
  end.

Definition test_expotential_backoff : bool :=
  check_strategy "exponential" [(1, 200); (2, 400); (3, 800); (4, 1600); (5, 3200)].
Definition test_fixed_back : bool := check_strategy "fixed" [(2, 100); (3, 100); (3, 100)].

(** The tests pass for the reason they are meant to: the strategies are found. *)
Lemma backoff_tests_pass `{LAWS : !SkipMapLaws string SS} :
  test_expotential_backoff = true /\ test_fixed_back = true /\
  is_Some (lookup_strategy (SS := SS) backoff_new (mkBackOffOptions (Some "exponential"%string) (Some 100)) None) /\
  is_Some (lookup_strategy (SS := SS) backoff_new (mkBackOffOptions (Some "fixed"%string) (Some 100)) None).
Proof.
  unfold test_expotential_backoff, test_fixed_back, check_strategy, lookup_strategy, backoff_new, register.
  cbn [type_ bo_delay builtin_strategies]. rewrite !get_insert.
  rewrite (decide_False (P := "fixed"%string = "exponential"%string)) by done.
  rewrite !decide_True by done. by split_and!.
Qed.
End Backoff.

(** ** The timed map *)

Section Timed.
Context {SM : Type -> Type} `{OPS : !SkipMap Z SM}.

(** [t] is the instant of the insertion, [now] that of the purge. *)
Definition test_purge_removes_expired_async (t : Z) (now : Z -> Z) : bool :=
  let map := insert_expirable t 1 100 (from_millis 50) (timed_new : TimedMap SM Z) in
  let map := purge_expired now map in
  negb (sm_contains_key (inner map) 1).

(** Keys inserted by the tasks, each with its instant, in the order in which they
    happen to reach the map. *)
Definition insertions (order : list (Z * Z)) : TimedMap SM Z :=
  foldl (fun map e => insert_expirable e.2 e.1 e.1 (from_millis 30) map) timed_new order.

(** The keys of the fifty tasks. *)
Definition inserted_keys : list Z :=
  flat_map (fun i => map (fun j => Z.of_nat i * 100 + Z.of_nat j) (seq 0 10)) (seq 0 50).

Definition test_concurrent_inserts_and_purge_async (order : list (Z * Z)) (now : Z -> Z) : bool :=
  len_expired (purge_expired now (insertions order)) =? 0.

Context `{LAWS : !SkipMapLaws Z SM}.

Lemma insertions_snoc order e :
  insertions (order ++ [e]) = insert_expirable e.2 e.1 e.1 (from_millis 30) (insertions order).
Proof. unfold insertions. by rewrite foldl_app. Qed.

Lemma insertions_expire order : disable_expiration (insertions order) = false.
Proof.
  induction order as [|e order IH] using rev_ind; [done|].
  rewrite insertions_snoc. unfold insert_expirable. by rewrite IH.
Qed.

(** Everything that was inserted runs out thirty milliseconds after it was. *)
Lemma insertions_entry order key e :
  entry (insertions order) key = Some e -> exists t, (key, t) ∈ order /\ e = Expirable key (t + from_millis 30).
Proof.
  revert key e. induction order as [|[k t] order IH] using rev_ind; intros k' e'.
  { unfold entry. cbn. by rewrite get_new. }
  rewrite insertions_snoc, entry_insert_expirable, insertions_expire. cbn [fst snd]. case_decide as Hk.
  - intros [= <-]. subst k'. exists t. split; [|done]. apply elem_of_app. right. by apply list_elem_of_singleton.
  - intros He. destruct (IH k' e' He) as (t' & Hin & ->). exists t'. split; [|done]. apply elem_of_app. by left.
Qed.

(** The tests of the timed map pass under every clock.  A key inserted for
    fifty milliseconds is gone after a purge made eighty milliseconds later.
    However the insertions of the tasks are ordered and timed, and whatever their
    keys, no entry with a deadline is left by a purge that starts sixty
    milliseconds after the last of them. *)
Theorem timed_map_tests_pass (t : Z) (now now' : Z -> Z) (order : list (Z * Z)) (joined : Z) :
  (forall key, t + from_millis 80 <= now key) ->
  Forall (fun e => e.2 <= joined) order ->
  (forall key, joined + from_millis 60 <= now' key) ->
  test_purge_removes_expired_async t now = true /\
  test_concurrent_inserts_and_purge_async order now' = true.
Proof.
  intros Hnow Hord Hnow'. unfold from_millis in *. split.
  - unfold test_purge_removes_expired_async. rewrite contains_key_get.
    set (map := insert_expirable _ _ _ _ _). fold (entry (purge_expired now map) 1).
    rewrite purge_expired_exact. unfold map. rewrite entry_insert_expirable, decide_True by done.
    unfold from_millis. cbn. specialize (Hnow 1). by destruct (Z.leb_spec (t + 50 * 1000000) (now 1)); [|lia].
  - apply Z.eqb_eq. unfold len_expired. change 0 with (Z.of_nat 0). f_equal. apply length_zero_iff_nil.
    destruct (filter _ _) as [|[k e] l] eqn:E; [done|exfalso].
    assert (Hin : (k, e) ∈ filter (fun e => is_expirable e.2 = true) (sm_iter (inner (purge_expired now' (insertions order)))))
      by (rewrite E; left).
    apply list_elem_of_filter in Hin as [_ Hin]. apply get_iter in Hin.
    fold (entry (purge_expired now' (insertions order)) k) in Hin.
    rewrite purge_expired_exact, insertions_expire in Hin.
    destruct (entry (insertions order) k) as [e'|] eqn:Ek; [|done].
    destruct (insertions_entry order k e' Ek) as (t' & Hin' & ->). rewrite Forall_forall in Hord.
    specialize (Hord _ Hin'). specialize (Hnow' k). cbn in *. unfold from_millis in Hin.
    by destruct (Z.leb_spec (t' + 30 * 1000000) (now' k)); [|lia].
Qed.
End Timed.

Lemma timed_map_tests_pass_witness :
  test_concurrent_inserts_and_purge_async (SM := ZMap) (map (fun k => (k, k)) inserted_keys)
    (fun _ => 5000 + from_millis 60) = true.
Proof.
  apply (timed_map_tests_pass (SM := ZMap) 0 (fun _ => from_millis 80) (fun _ => 5000 + from_millis 60)
    (map (fun k => (k, k)) inserted_keys) 5000).
  - intros _. vm_compute. done.
  - apply (bool_decide_unpack _). vm_compute. exact I.
  - intros _. lia.
Defined.

(** ** The panic catcher *)

Definition test_catch_error : bool :=
  match (catch (T := unit) (FError "Test error" None) (mkGlobals HDefault None [])).1 with
  | CaughtError err _ => bool_decide (err = "Test error"%string)
  | _ => false
  end.

Definition test_no_error : bool :=
  match (catch (FValue 42) (mkGlobals HDefault None [])).1 with
  | Returned value => value =? 42
  | _ => false
  end.

(** The ignored test; [location] is where the panic is raised. *)
Definition test_catch_panic (location : option PanicLocation) (backtrace : Backtrace) : bool :=
  match (catch (T := unit) (FPanic (mkHookInfo (PStaticStr "Test panic") location) backtrace)
           (mkGlobals HDefault None [])).1 with
  | CaughtPanic payload _ => contains "Test panic" payload && contains "Backtrace:" payload
  | _ => false
  end.

Lemma catcher_tests_pass : test_catch_error = true /\ test_no_error = true.
Proof. by split. Qed.

(** The backtrace is not part of the payload: the ignored test cannot pass. *)
Example ignored_test_fails :
  test_catch_panic (Some (mkLocation "src/error/backtrace_utils.rs" 132 13)) (Some ["frame"%string]) = false.
Proof. reflexivity. Qed.
