(* ===== verification/Collector.v ===== *)
(** * The global timer collector ([src/metrics/process_metrics.rs],
    [TimerType], [TimerSender] and [register_worker_timers] of
    [src/timers/delay_queue_timer.rs])

    One task per process owns the delay queue.  Queues ask it for timers over a
    channel and wait for the acknowledgement; when a timer fires it broadcasts
    a command to the queues subscribed to the timer's duration.  Its two
    reactions are functions on the collector's state; [collector_step] is the
    task's loop, in which any pending timer whose deadline has passed may fire
    next.  A [Uuid] is its 128-bit number. *)

From S2P Require Import Prelude SkipMap TimedMap Extern Metrics.

Module TimerType.
Inductive t : Type :=
| StalledCheck (duration : Z)
| ExtendLock (duration : Z)
| PromotedDelayed (job_id queue_id : Z)
| CollectMetrics (duration : Z)
| ReregisterWorker.

#[export] Instance eq_dec : EqDecision t.
Proof. solve_decision. Defined.
End TimerType.
#[export] Existing Instance TimerType.eq_dec.

(** Both in milliseconds, on Linux. *)
Definition WORKER_STATE_TTL : Z := 100000.
Definition PROCESS_METRIC_UPDATE_INTERVAL : Z := 300.

Definition next_duration (timer : TimerType.t) : Z :=
  match timer with
  | TimerType.StalledCheck duration
  | TimerType.ExtendLock duration
  | TimerType.CollectMetrics duration => duration
  | TimerType.PromotedDelayed _ _ => from_millis MIN_DELAY_MS_LIMIT
  | TimerType.ReregisterWorker => from_millis WORKER_STATE_TTL
  end.

(** What the registries keep about a worker.  Its state cell and its task
    tracker are shared with the worker itself; they are found through the
    worker's identifier. *)
Record WorkerEntry : Type := mkWorkerEntry {
  we_opts : WorkerOpts;
  we_created_at : Dt;
}.

Section Collector.
Context {SM : Type -> Type} `{OPS : !SkipMap Z SM}.

(** [co_delay_queue] holds (deadline, (duration, timer)); [co_mail] is what
    has been broadcast, (queue, timer), oldest first. *)
Record Collector : Type := mkCollector {
  co_workers : TimedMap SM WorkerEntry;
  co_queues : SM unit;
  co_global_timers : SM (SM unit);
  co_delay_queue : list (Z * (Z * TimerType.t));
  co_mail : list (Z * TimerType.t);
}.

Definition collector_new : Collector := mkCollector timed_new sm_new sm_new [] [].

Definition register_queue (queue_id : Z) (co : Collector) : Collector :=
  if sm_contains_key (co_queues co) queue_id then co
  else mkCollector (co_workers co) (sm_insert queue_id tt (co_queues co)) (co_global_timers co)
         (co_delay_queue co) (co_mail co).

Definition register_worker (now now' : Z) (worker_id : Z) (state : WorkerEntry)
    (co : Collector) : Collector :=
  let '(exists_, workers) := timed_contains_key now worker_id (co_workers co) in
  let workers :=
    if exists_ then workers
    else
      let timeout := from_secs WORKER_STATE_TTL in
      insert_expirable now' worker_id state timeout workers in
  mkCollector workers (co_queues co) (co_global_timers co) (co_delay_queue co) (co_mail co).

Definition timer_exists (timer : TimerType.t) (queue_id : Z) (co : Collector) : bool :=
  let duration := next_duration timer in
  match sm_get (co_global_timers co) duration with
  | Some queues => sm_contains_key queues queue_id
  | None => false
  end.

Definition unregister_worker (uuid : Z) (co : Collector) : Collector :=
  mkCollector (timed_remove uuid (co_workers co)) (co_queues co) (co_global_timers co)
    (co_delay_queue co) (co_mail co).

Definition unregister_queue (queue_id : Z) (co : Collector) : Collector :=
  mkCollector (co_workers co) (sm_remove queue_id (co_queues co))
    (foldl (fun timers entry => sm_insert entry.1 (sm_remove queue_id entry.2) timers)
       (co_global_timers co) (sm_iter (co_global_timers co)))
    (co_delay_queue co) (co_mail co).

(** The [incoming_cmd_stream] arm of the task's [select!]. *)
Definition handle_request (now : Z) (queue_id : Z) (timer : TimerType.t) (co : Collector) :
    Collector :=
  let duration := next_duration timer in
  let value := unwrap_or sm_new (sm_get (co_global_timers co) duration) in
  let value := sm_insert queue_id tt value in
  mkCollector (co_workers co) (co_queues co) (sm_insert duration value (co_global_timers co))
    (co_delay_queue co ++ [(now + duration, (duration, timer))]) (co_mail co).

(** The [delayed_queue] arm. *)
Definition handle_expired (duration : Z) (timer : TimerType.t) (co : Collector) : Collector :=
  match sm_get (co_global_timers co) duration with
  | None => co
  | Some data =>
      let targets := match timer with
                     | TimerType.PromotedDelayed _ queue_id => sm_insert queue_id tt data
                     | _ => data
                     end in
      let sent := filter (fun queue_id => sm_contains_key (co_queues co) queue_id)
                    (sm_iter targets).*1 in
      mkCollector (co_workers co) (co_queues co) (sm_remove duration (co_global_timers co))
        (co_delay_queue co) (co_mail co ++ map (fun queue_id => (queue_id, timer)) sent)
  end.

Definition set_co_delay_queue (x : list (Z * (Z * TimerType.t))) (co : Collector) : Collector :=
  mkCollector (co_workers co) (co_queues co) (co_global_timers co) x (co_mail co).

(** [TimerSender::send]: nothing is sent for a timer that exists; otherwise the
    request is handled before the acknowledgement comes back. *)
Definition send (now : Z) (queue_id : Z) (timer : TimerType.t) (co : Collector) : Collector :=
  if timer_exists timer queue_id co then co else handle_request now queue_id timer co.

(** [DelayQueueTimer::register_worker_timers]. *)
Definition register_timers (now : nat -> Z) (queue_id : Z) (opts : WorkerOpts) (co : Collector) :
    Collector :=
  let stalled_interval := from_millis (wo_stalled_interval opts) in
  let extend_lock := from_millis (wo_lock_duration opts) in
  let worker_metrics_interval := from_millis (wo_metrics_update_interval opts) in
  let co := send (now 0%nat) queue_id (TimerType.ExtendLock extend_lock) co in
  let co := send (now 1%nat) queue_id (TimerType.StalledCheck stalled_interval) co in
  let co := send (now 2%nat) queue_id (TimerType.CollectMetrics worker_metrics_interval) co in
  send (now 3%nat) queue_id TimerType.ReregisterWorker co.

Inductive collector_step : relation Collector :=
| cs_register_queue q co : collector_step co (register_queue q co)
| cs_register_worker now now' w e co : collector_step co (register_worker now now' w e co)
| cs_unregister_worker w co : collector_step co (unregister_worker w co)
| cs_unregister_queue q co : collector_step co (unregister_queue q co)
| cs_request now q timer co : collector_step co (handle_request now q timer co)
| cs_expired now deadline duration timer l1 l2 co :
    co_delay_queue co = l1 ++ (deadline, (duration, timer)) :: l2 -> deadline <= now ->
    collector_step co (handle_expired duration timer (set_co_delay_queue (l1 ++ l2) co)).

(** ** Properties *)

Context `{LAWS : !SkipMapLaws Z SM}.

Definition subscribed (co : Collector) (duration queue_id : Z) : Prop :=
  exists queues, sm_get (co_global_timers co) duration = Some queues /\
    is_Some (sm_get queues queue_id).

Lemma timer_exists_subscribed timer q co :
  timer_exists timer q co = true <-> subscribed co (next_duration timer) q.
Proof.
  unfold timer_exists, subscribed. destruct (sm_get (co_global_timers co) _) as [qs|].
  - rewrite contains_key_get, bool_decide_eq_true. naive_solver.
  - naive_solver.
Qed.

Lemma handle_request_subscribed now q timer co d q' :
  subscribed (handle_request now q timer co) d q' <->
  (d = next_duration timer /\ q' = q) \/ subscribed co d q'.
Proof.
  unfold subscribed, handle_request; cbn. rewrite get_insert. case_decide as Hd.
  - subst d. split.
    + intros (qs & [= <-] & Hq). rewrite get_insert in Hq. case_decide as Hqq; [by left|].
      right. destruct (sm_get (co_global_timers co) _) as [qs|]; cbn in Hq; [by exists qs|].
      rewrite get_new in Hq. by destruct Hq.
    + intros [[_ ->]|(qs & Hqs & Hq)]; eexists; split; try done.
      * by rewrite get_insert_eq.
      * rewrite Hqs; cbn. rewrite get_insert. by case_decide.
  - naive_solver.
Qed.

(** Whatever happens, a timer a queue asked for is subscribed afterwards. *)
Lemma send_subscribed now q timer co : subscribed (send now q timer co) (next_duration timer) q.
Proof.
  unfold send. destruct (timer_exists timer q co) eqn:E.
  - by apply timer_exists_subscribed.
  - apply handle_request_subscribed. by left.
Qed.

Lemma send_mono now q timer co d q' : subscribed co d q' -> subscribed (send now q timer co) d q'.
Proof.
  intros H. unfold send. case_match; [done|]. apply handle_request_subscribed. by right.
Qed.

(** Every duration with subscribers has a timer of that duration in the delay
    queue, so the subscribers will hear from it. *)
Definition pending (co : Collector) (duration : Z) : Prop :=
  exists deadline timer, (deadline, (duration, timer)) ∈ co_delay_queue co.

Definition timers_pending (co : Collector) : Prop :=
  forall duration, is_Some (sm_get (co_global_timers co) duration) -> pending co duration.

Lemma get_unsubscribe_all q (es : list (Z * SM unit)) (m : SM (SM unit)) d :
  is_Some (sm_get (foldl (fun timers entry =>
    sm_insert entry.1 (sm_remove q entry.2) timers) m es) d) ->
  is_Some (sm_get m d) \/ d ∈ es.*1.
Proof.
  revert m. induction es as [|[k v] es IH]; intros m; cbn; [by left|].
  intros [H|H]%IH; [|right; by right].
  rewrite get_insert in H. case_decide; [subst; right; left|by left].
Qed.

Lemma timers_pending_step co co' :
  collector_step co co' -> timers_pending co -> timers_pending co'.
Proof.
  intros Hs H. destruct Hs as [q co|now now' w e co|w co|q co|now q timer co|
    now deadline d timer l1 l2 co Hl Hd].
  - unfold register_queue. by case_match.
  - unfold register_worker. destruct (timed_contains_key _ _ _). done.
  - done.
  - intros d Hd. apply H. cbn in Hd. apply get_unsubscribe_all in Hd as [?|Hd]; [done|].
    apply list_elem_of_fmap in Hd as ([d' qs] & -> & Hin%get_iter). by eexists.
  - intros d Hd. cbn in Hd. rewrite get_insert in Hd. unfold pending; cbn.
    case_decide; [subst|].
    + eexists _, timer. rewrite elem_of_app. right. by apply list_elem_of_singleton.
    + destruct (H d Hd) as (dl & t & Hin). exists dl, t. rewrite elem_of_app. by left.
  - unfold handle_expired. set (co1 := set_co_delay_queue (l1 ++ l2) co).
    assert (Hkeep : forall d', d' <> d -> is_Some (sm_get (co_global_timers co) d') ->
      exists dl t, (dl, (d', t)) ∈ l1 ++ l2).
    { intros d' Hne Hs. destruct (H d' Hs) as (dl & t & Hin). exists dl, t.
      rewrite Hl in Hin. set_solver. }
    destruct (sm_get (co_global_timers co1) d) as [data|] eqn:E; intros d' Hd'; cbn in *.
    + rewrite get_remove in Hd'. case_decide; [by destruct Hd'|]. by apply Hkeep.
    + apply Hkeep; [|done]. intros ->. rewrite E in Hd'. by destruct Hd'.
Qed.


(** Some stalled check is scheduled. *)
Definition has_stalled_check (co : Collector) : Prop :=
  exists deadline d, (deadline, (d, TimerType.StalledCheck d)) ∈ co_delay_queue co.

Lemma send_elem now q timer co e :
  e ∈ co_delay_queue (send now q timer co) <->
  e ∈ co_delay_queue co \/
  (~ subscribed co (next_duration timer) q /\
   e = (now + next_duration timer, (next_duration timer, timer))).
Proof.
  rewrite <- timer_exists_subscribed. unfold send. destruct (timer_exists timer q co); [naive_solver|].
  cbn. rewrite elem_of_app, list_elem_of_singleton. naive_solver.
Qed.

Lemma send_stalled_check now q timer co :
  has_stalled_check (send now q timer co) <->
  has_stalled_check co \/
  (~ subscribed co (next_duration timer) q /\ exists d, timer = TimerType.StalledCheck d).
Proof.
  unfold has_stalled_check. setoid_rewrite send_elem. split.
  - intros (dl & d & [H|[Hn He]]); [left; eauto|]. right. split; [done|]. exists d. congruence.
  - intros [(dl & d & H)|[Hn [d ->]]]; [eauto|]. exists (now + d), d. by right.
Qed.

Lemma send_stalled_same now q timer co :
  (forall d, timer <> TimerType.StalledCheck d) ->
  has_stalled_check (send now q timer co) <-> has_stalled_check co.
Proof. intros Hne. rewrite send_stalled_check. naive_solver. Qed.

(** Timers are identified by their duration alone: once a queue is
    subscribed to a duration, asking for any other kind of timer of the same
    duration is silently dropped.  In particular registering a worker adds the
    stalled check only when its interval differs from the lock duration, and
    the default options set both to the same value, so with them no stalled
    check is ever scheduled. *)
Theorem same_duration_dropped (now : nat -> Z) (queue_id : Z) (opts : WorkerOpts) (co : Collector) :
  (forall t timer, subscribed co (next_duration timer) queue_id -> send t queue_id timer co = co) /\
  (co_delay_queue co = [] -> (forall d, ~ subscribed co d queue_id) ->
   let co' := register_timers now queue_id opts co in
   has_stalled_check co' <->
   wo_stalled_interval opts <> wo_lock_duration opts) /\
  (forall num_cpus, wo_stalled_interval (WorkerOpts_default num_cpus) =
                    wo_lock_duration (WorkerOpts_default num_cpus)).
Proof.
  split_and!; [|intros Hnil Hfree co'|done].
  - intros t timer H. unfold send. by rewrite (proj2 (timer_exists_subscribed timer queue_id co) H).
  - unfold co', register_timers.
    rewrite !send_stalled_same, send_stalled_check, send_stalled_same by done.
    assert (Hno : ~ has_stalled_check co).
    { intros (dl & d & H). rewrite Hnil in H. by apply not_elem_of_nil in H. }
    unfold send at 1. destruct (timer_exists _ queue_id co) eqn:E.
    { apply timer_exists_subscribed in E. by destruct (Hfree _ E). }
    rewrite handle_request_subscribed. cbn [next_duration]. unfold from_millis.
    split; [intros [H|[H _]]; [done|]; intros Heq; apply H; left; lia|].
    intros Hne. right. split; [|eauto]. intros [[? _]|H]; [lia|by destruct (Hfree _ H)].
Qed.
End Collector.

Arguments Collector : clear implicits.
Arguments mkCollector {SM}.
Arguments co_workers {SM}.
Arguments co_queues {SM}.
Arguments co_global_timers {SM}.
Arguments co_delay_queue {SM}.
Arguments co_mail {SM}.

(** ** Witnesses *)

Definition sample_collector : Collector ZMap :=
  register_timers (fun i => Z.of_nat i) 7 (WorkerOpts_default 4) (register_queue 7 collector_new).


Lemma same_duration_dropped_witness : ~ has_stalled_check sample_collector.
Proof.
  intros H. destruct (same_duration_dropped (fun i => Z.of_nat i) 7 (WorkerOpts_default 4)
    (register_queue 7 collector_new : Collector ZMap)) as (_ & Hiff & Heq).
  apply Hiff; [reflexivity| |exact H|apply (Heq 4)].
  intros d (qs & Hq & _). vm_compute in Hq. discriminate Hq.
Defined.
