(* ===== verification/Tracker.v ===== *)
(** * CPU and memory of the process tree ([src/metrics/process_tree_tracker.rs])

    Two implementations, one per operating system.  The Linux one reads the
    process table at every sample; the other one keeps the state of a package
    that caches processes.  The readings are inputs, the package is a class, and
    [f32] arithmetic is an abstract set of operations. *)

From S2P Require Import Prelude Extern.

(** [f32] as far as it is used. *)
Class Floats (F : Type) := {
  f_zero : F;
  f_hundred : F;
  f_add : F -> F -> F;
  f_sub : F -> F -> F;
  f_mul : F -> F -> F;
  f_div : F -> F -> F;
  (** The casts [u64 as f32] and [usize as f32]. *)
  f_of_int : Z -> F;
  (** [Duration::as_secs_f32], for a number of nanoseconds. *)
  f_secs : Z -> F;
}.

Section Tracker.
Context {F : Type} {FL : Floats F}.

Record ProcessTreeStats : Type := mkStats {
  st_cpu_usage : F;
  st_rss_bytes : Z;
  st_virt_bytes : Z;
}.

(** ** Linux *)

(** The fields of [/proc/<pid>/stat] that are read. *)
Record Stat : Type := mkStat {
  s_ppid : Z;
  s_utime : Z;
  s_stime : Z;
  s_cutime : Z;
  s_cstime : Z;
  s_rss : Z;
  s_vsize : Z;
}.

(** One look at the process table.  Every access may fail; an entry that is kept
    by the filter is read a second time by the loop. *)
Record ProcEntry : Type := mkEntry { e_filtered : option Stat; e_counted : option Stat }.
Record Reading : Type := mkReading {
  r_me : option Stat;
  r_processes : option (list (option ProcEntry));
}.

Record LinuxTracker : Type := mkLinux {
  lt_pid : Z;
  lt_prev_total_ticks : F;
  lt_prev_time : Z;
  lt_ticks_per_second : F;
  lt_page_size : Z;
  lt_cpu_count : Z;
}.

Definition Totals : Type := F * Z * Z.

Definition add_own (stat : Stat) (t : Totals) : Totals :=
  let '(ticks, rss, virt) := t in
  (f_add ticks (f_of_int (wrapping_add_u64 (wrapping_add_u64 (wrapping_add_u64
     (s_utime stat) (s_stime stat)) (cast_unsigned (s_cutime stat))) (cast_unsigned (s_cstime stat)))),
   wrapping_add_u64 rss (s_rss stat), wrapping_add_u64 virt (s_vsize stat)).

Definition add_child (t : Totals) (child : ProcEntry) : Totals :=
  match e_counted child with
  | Some stat =>
      let '(ticks, rss, virt) := t in
      (f_add ticks (f_of_int (wrapping_add_u64 (s_utime stat) (s_stime stat))),
       wrapping_add_u64 rss (s_rss stat), wrapping_add_u64 virt (s_vsize stat))
  | None => t
  end.

Definition is_child (pid : Z) (process : ProcEntry) : bool :=
  match e_filtered process with Some stat => s_ppid stat =? pid | None => false end.

Definition children (pid : Z) (processes : option (list (option ProcEntry))) : list ProcEntry :=
  match processes with
  | Some l => filter (fun e => is_child pid e = true) (omap id l)
  | None => []
  end.

Definition sample_tree_metrics (t : LinuxTracker) (r : Reading) : Totals :=
  let totals := (f_zero, 0, 0) in
  let totals := match r_me r with Some stat => add_own stat totals | None => totals end in
  let '(ticks, pages, virt) := foldl add_child totals (children (lt_pid t) (r_processes r)) in
  (ticks, wrapping_mul_u64 pages (lt_page_size t), virt).

Definition linux_new (pid : Z) (now : Z) (ticks_per_second : F) (page_size cpu_count : Z) (r : Reading) :
    LinuxTracker :=
  let tracker := mkLinux pid f_zero now ticks_per_second page_size cpu_count in
  let '(ticks, _, _) := sample_tree_metrics tracker r in
  mkLinux pid ticks now ticks_per_second page_size cpu_count.

Definition linux_sample (now : Z) (r : Reading) (t : LinuxTracker) : ProcessTreeStats * LinuxTracker :=
  let elapsed_secs := f_secs (Z.max 0 (now - lt_prev_time t)) in
  let '(current_total_ticks, rss_bytes, virt_bytes) := sample_tree_metrics t r in
  let delta_ticks := f_sub current_total_ticks (lt_prev_total_ticks t) in
  let cpu_time_spent := f_div delta_ticks (lt_ticks_per_second t) in
  let cpu_usage := f_mul (f_div cpu_time_spent elapsed_secs) f_hundred in
  let cpu_usage := f_div cpu_usage (f_of_int (lt_cpu_count t)) in
  (mkStats cpu_usage rss_bytes virt_bytes,
   mkLinux (lt_pid t) current_total_ticks now (lt_ticks_per_second t) (lt_page_size t) (lt_cpu_count t)).

(** Samples at the given times. *)
Fixpoint linux_samples (rs : list (Z * Reading)) (t : LinuxTracker) : list ProcessTreeStats :=
  match rs with
  | [] => []
  | (now, r) :: rs' => let '(s, t) := linux_sample now r t in s :: linux_samples rs' t
  end.

(** ** What a Linux sample means *)

(** The part of the process table that counts: the process itself and its direct
    children that could be read both times. *)
Definition own_stats (r : Reading) : list Stat := option_list (r_me r).
Definition child_stats (pid : Z) (r : Reading) : list Stat :=
  omap e_counted (children pid (r_processes r)).

Definition sum (l : list Z) : Z := foldr Z.add 0 l.

Lemma add_child_totals l ticks rss virt :
  0 <= rss < two64 -> 0 <= virt < two64 ->
  foldl add_child (ticks, rss, virt) l =
  (foldl (fun t s => f_add t (f_of_int (wrapping_add_u64 (s_utime s) (s_stime s)))) ticks (omap e_counted l),
   (rss + sum (s_rss <$> omap e_counted l)) mod two64, (virt + sum (s_vsize <$> omap e_counted l)) mod two64).
Proof.
  revert ticks rss virt. induction l as [|e l IH]; intros ticks rss virt Hr Hv.
  { cbn. by rewrite !Z.add_0_r, !Z.mod_small. }
  cbn [foldl omap list_omap]. unfold add_child at 2. destruct (e_counted e) as [st|] eqn:E; [|by apply IH].
  rewrite IH by (apply Z.mod_pos_bound; unfold two64; lia). unfold wrapping_add_u64.
  rewrite !Zplus_mod_idemp_l. cbn [omap list_omap]. rewrite ?E. cbn [fmap list_fmap foldr sum foldl].
  by rewrite <- !Z.add_assoc.
Qed.

(** The memory reported is that of the process and its direct children. *)
Lemma sample_memory t r :
  Forall (fun s => 0 <= s_rss s < two64 /\ 0 <= s_vsize s < two64) (own_stats r) ->
  let stats := (own_stats r ++ child_stats (lt_pid t) r)%list in
  (sample_tree_metrics t r).1.2 = (sum (s_rss <$> stats) * lt_page_size t) mod two64 /\
  (sample_tree_metrics t r).2 = sum (s_vsize <$> stats) mod two64.
Proof.
  intros Hb. unfold sample_tree_metrics, own_stats, child_stats in *.
  destruct (r_me r) as [st|]; cbn [option_list app] in *.
  - inversion_clear Hb as [|? ? [H1 H2] _]. unfold add_own.
    rewrite add_child_totals by (apply Z.mod_pos_bound; unfold two64; lia).
    cbn [fst snd fmap list_fmap sum foldr]. unfold wrapping_add_u64, wrapping_mul_u64, sum.
    rewrite !Zplus_mod_idemp_l, Zmult_mod_idemp_l, !Z.add_0_l. done.
  - rewrite add_child_totals by (unfold two64; lia). cbn [fst snd]. unfold wrapping_mul_u64.
    by rewrite Zmult_mod_idemp_l, !Z.add_0_l.
Qed.

(** The sample that belongs to the interval between two readings. *)
Definition interval_stats (pid : Z) (tps : F) (page cpus : Z) (from to : Z * Reading) : ProcessTreeStats :=
  let t := mkLinux pid f_zero 0 tps page cpus in
  let ticks r := (sample_tree_metrics t r).1.1 in
  mkStats
    (f_div (f_mul (f_div (f_div (f_sub (ticks to.2) (ticks from.2)) tps)
                    (f_secs (Z.max 0 (to.1 - from.1)))) f_hundred) (f_of_int cpus))
    (sample_tree_metrics t to.2).1.2 (sample_tree_metrics t to.2).2.

(** What a tracker remembers of its last reading. *)
Lemma samples_from pid tps page cpus from rs t :
  t = mkLinux pid ((sample_tree_metrics (mkLinux pid f_zero 0 tps page cpus) from.2).1.1) from.1 tps page cpus ->
  linux_samples rs t = zip_with (interval_stats pid tps page cpus) (from :: rs) rs.
Proof.
  revert from t. induction rs as [|[now r] rs IH]; intros from t ->; [done|].
  cbn [linux_samples zip_with]. unfold linux_sample.
  change (sample_tree_metrics (mkLinux pid _ _ tps page cpus) r)
    with (sample_tree_metrics (mkLinux pid f_zero 0 tps page cpus) r).
  cbn [lt_pid lt_prev_time lt_prev_total_ticks lt_ticks_per_second lt_page_size lt_cpu_count].
  unfold interval_stats at 1. cbn [fst snd].
  destruct (sample_tree_metrics (mkLinux pid f_zero 0 tps page cpus) r) as [[ticks rss] virt] eqn:E.
  f_equal. apply (IH (now, r)). cbn [fst snd]. by rewrite E.
Qed.

(** The samples of a Linux tracker cover adjacent intervals.  Every sample is
    computed from its own reading and the one before, the first from the reading
    made at construction; nothing else is carried over. *)
Theorem linux_samples_adjacent (pid now : Z) (tps : F) (page cpus : Z) (r : Reading) (rs : list (Z * Reading)) :
  linux_samples rs (linux_new pid now tps page cpus r) =
  zip_with (interval_stats pid tps page cpus) ((now, r) :: rs) rs.
Proof.
  apply samples_from. unfold linux_new. cbn [fst snd].
  change (sample_tree_metrics (mkLinux pid f_zero now tps page cpus) r)
    with (sample_tree_metrics (mkLinux pid f_zero 0 tps page cpus) r).
  by destruct (sample_tree_metrics _ r) as [[ticks rss] virt].
Qed.

(** ** Other systems *)

Record Proc : Type := mkProc {
  p_parent : option Z;
  p_cpu_usage : F;
  p_memory : Z;
  p_virtual_memory : Z;
}.

(** The package: the processes it knows, and its refresh, of some processes or of
    all ([None]), from what the operating system has at that time. *)
Class Sysinfo := {
  System : Type;
  sys_new : System;
  sys_processes : System -> list (Z * Proc);
  sys_process : Z -> System -> option Proc;
  sys_refresh : option (list Z) -> list (Z * Proc) -> System -> System;
}.

(** A new system knows no process, and refreshing some processes makes only
    those known. *)
Class SysinfoLaws `{SYS : Sysinfo} : Prop := {
  new_empty : sys_processes sys_new = [];
  refresh_only pids env sys pid p :
    (pid, p) ∈ sys_processes (sys_refresh (Some pids) env sys) ->
    pid ∈ pids \/ pid ∈ (sys_processes sys).*1;
}.

Section Portable.
Context `{SYS : Sysinfo}.

(** [child_processes] is a set; its elements in some order. *)
Record PortableTracker : Type := mkPortable {
  pt_system : System;
  pt_pid : Z;
  pt_cpu_count : Z;
  pt_child_processes : list Z;
}.

Definition portable_new (pid cpu_count : Z) (env : list (Z * Proc)) : PortableTracker :=
  mkPortable (sys_refresh (Some [pid]) env sys_new) pid cpu_count [].

Definition add_proc (t : Totals) (p : Proc) : Totals :=
  let '(cpu, rss, virt) := t in
  (f_add cpu (p_cpu_usage p), wrapping_add_u64 rss (p_memory p), wrapping_add_u64 virt (p_virtual_memory p)).

Definition set_add (x : Z) (l : list Z) : list Z := if decide (x ∈ l) then l else (l ++ [x])%list.

(** One round of the loop over the processes the package knows. *)
Definition add_process (pid : Z) (acc : Totals * list Z) (entry : Z * Proc) : Totals * list Z :=
  let '(totals, children) := acc in
  if decide (entry.1 = pid) then acc
  else
    match p_parent entry.2 with
    | Some parent_pid =>
        if parent_pid =? pid then (add_proc totals entry.2, set_add entry.1 children) else acc
    | None => acc
    end.

Definition portable_sample (env : list (Z * Proc)) (t : PortableTracker) :
    ProcessTreeStats * PortableTracker :=
  let processes := (pt_child_processes t ++ [pt_pid t])%list in
  let process_to_update := if (1 <? length processes)%nat then None else Some processes in
  let system := sys_refresh process_to_update env (pt_system t) in
  let totals := (f_zero, 0, 0) in
  let totals := match sys_process (pt_pid t) system with
                | Some parent_proc => add_proc totals parent_proc
                | None => totals
                end in
  let '(totals, children) :=
    foldl (add_process (pt_pid t)) (totals, pt_child_processes t) (sys_processes system) in
  let '(cpu_usage, rss_bytes, virt_bytes) := totals in
  (mkStats (f_div cpu_usage (f_of_int (pt_cpu_count t))) rss_bytes virt_bytes,
   mkPortable system (pt_pid t) (pt_cpu_count t) children).

Fixpoint portable_samples (envs : list (list (Z * Proc))) (t : PortableTracker) : list ProcessTreeStats :=
  match envs with
  | [] => []
  | env :: envs' => let '(s, t) := portable_sample env t in s :: portable_samples envs' t
  end.

(** The same, for a tracker that looks at its own process only. *)
Fixpoint own_samples (pid cpu_count : Z) (envs : list (list (Z * Proc))) (sys : System) :
    list ProcessTreeStats :=
  match envs with
  | [] => []
  | env :: envs' =>
      let sys := sys_refresh (Some [pid]) env sys in
      let '(cpu, rss, virt) := match sys_process pid sys with
                               | Some p => add_proc (f_zero, 0, 0) p
                               | None => (f_zero, 0, 0)
                               end in
      mkStats (f_div cpu (f_of_int cpu_count)) rss virt :: own_samples pid cpu_count envs' sys
  end.

Context `{LAWS : !SysinfoLaws}.

Definition alone (pid : Z) (sys : System) : Prop := forall x p, (x, p) ∈ sys_processes sys -> x = pid.

Lemma alone_refresh pid env sys : alone pid sys -> alone pid (sys_refresh (Some [pid]) env sys).
Proof.
  intros Ha x p Hx. apply refresh_only in Hx as [Hx|Hx]; [set_solver|].
  apply list_elem_of_fmap in Hx as ([y q] & -> & Hy). by eapply Ha.
Qed.

Lemma alone_fold pid l acc : (forall x p, (x, p) ∈ l -> x = pid) -> foldl (add_process pid) acc l = acc.
Proof.
  induction l as [|[x p] l IH] in acc |- *; intros Ha; [done|]. cbn [foldl].
  rewrite IH by (intros y q Hy; apply (Ha y q); by right).
  unfold add_process. destruct acc as [totals ch]. rewrite decide_True; [done|]. apply (Ha x p). by left.
Qed.

Lemma portable_alone envs t :
  alone (pt_pid t) (pt_system t) -> pt_child_processes t = [] ->
  portable_samples envs t = own_samples (pt_pid t) (pt_cpu_count t) envs (pt_system t).
Proof.
  intros Ha Hc. induction envs as [|env envs IH] in t, Ha, Hc |- *; [done|].
  cbn [portable_samples own_samples]. unfold portable_sample. rewrite Hc. cbn [app length Nat.ltb Nat.leb].
  pose proof (alone_refresh _ env _ Ha) as Ha'. rewrite alone_fold by exact Ha'.
  destruct (match sys_process _ _ with Some p => _ | None => _ end) as [[cpu rss] virt].
  f_equal. by rewrite IH.
Qed.

(** Away from Linux the children of the process are never counted.  Whatever
    processes there are, the samples are those of a tracker that looks at its own
    process only: a child is searched for among the processes the package knows,
    and the package is asked about the own process alone until a child has been
    found. *)
Theorem children_never_counted (pid cpu_count : Z) (env : list (Z * Proc)) (envs : list (list (Z * Proc))) :
  portable_samples envs (portable_new pid cpu_count env) =
  own_samples pid cpu_count envs (sys_refresh (Some [pid]) env sys_new).
Proof.
  apply portable_alone; [|done]. apply alone_refresh. intros x p Hx. by rewrite new_empty in Hx; apply elem_of_nil in Hx.
Qed.
End Portable.
End Tracker.

Arguments Proc F : clear implicits.
Arguments Sysinfo F : clear implicits.

(** ** Witness: a process with one child *)

Definition integer_floats : Floats Z := {|
  f_zero := 0; f_hundred := 100; f_add := Z.add; f_sub := Z.sub; f_mul := Z.mul; f_div := Z.div;
  f_of_int n := n; f_secs n := n / 1000000000;
|}.

Definition listed_sysinfo : Sysinfo Z := {|
  System := list (Z * Proc Z);
  sys_new := [];
  sys_processes sys := sys;
  sys_process pid sys := snd <$> list_find (fun e => e.1 = pid) sys ≫= fun r => Some r.2;
  sys_refresh which env sys :=
    match which with
    | None => env
    | Some pids => (filter (fun e => e.1 ∈ pids) env ++ filter (fun e => e.1 ∉ pids) sys)%list
    end;
|}.

#[local] Existing Instance integer_floats.
#[local] Existing Instance listed_sysinfo.

Lemma listed_laws : SysinfoLaws.
Proof.
  split; [done|]. intros pids env sys pid p Hin. cbn in Hin. apply elem_of_app in Hin as [Hin|Hin];
    apply list_elem_of_filter in Hin as [H1 H2]; [by left|right].
  by apply (list_elem_of_fmap_2 fst) in H2.
Qed.

#[local] Existing Instance listed_laws.

Definition family : list (Z * Proc Z) := [(1, mkProc None 10 1000 5000); (2, mkProc (Some 1) 50 7000 9000)].

Lemma children_never_counted_witness :
  portable_samples [family; family] (portable_new 1 1 family) = [mkStats 10 1000 5000; mkStats 10 1000 5000].
Proof. rewrite (children_never_counted 1 1 family [family; family]). vm_compute. reflexivity. Defined.
