(* ===== verification/Sampling.v ===== *)
(** * Samples of tasks, workers and the process ([src/metrics/worker_metrics.rs],
    [create_process_metrics_stream] of [src/metrics/process_metrics.rs])

    How the records of [Metrics] come about: from what the task and runtime
    monitors report, from the registry of workers and from the tracker of the
    process tree; the stream of process samples; and the histogram of a task, its
    encoding, its equality and its order. *)

From S2P Require Import Prelude SkipMap TimedMap Extern Metrics Collector Tracker.

(** ** Tasks *)

(** The fields of [tokio_metrics::TaskMetrics] that are read. *)
Record TaskMetrics : Type := mkTaskMetrics {
  tm_total_poll_count : Z;
  tm_total_slow_poll_count : Z;
  tm_total_poll_duration : Z;
  tm_total_idle_duration : Z;
  tm_total_scheduled_duration : Z;
}.

Definition from_metrics (m : TaskMetrics) : TaskStats :=
  mkTaskStats (tm_total_poll_count m) (tm_total_slow_poll_count m) (tm_total_poll_duration m)
    (tm_total_idle_duration m) (tm_total_scheduled_duration m).

Section Tasks.
Context {EXT : Extern}.

Definition TaskInfo_new (now : Dt) (task_id job_id : Z) (metrics : TaskMetrics) (histogram : Histogram) :
    TaskInfo :=
  mkTaskInfo task_id job_id (from_metrics metrics) now histogram.

Definition TaskInfo_update (now : Dt) (metrics : TaskMetrics) (t : TaskInfo) : TaskInfo :=
  mkTaskInfo (ti_task_id t) (ti_job_id t) (from_metrics metrics) now (ti_poll_histogram t).

(** ** Histograms *)

(** The package: the V2 encoding and its parser, the number of recorded values
    and the largest one. *)
Class HdrHistogram := {
  hist_bytes : Histogram -> option (list Z);
  hist_parse : list Z -> option Histogram;
  hist_len : Histogram -> Z;
  hist_max : Histogram -> Z;
}.

(** What is written is bytes and can be read; what is read encodes the same, and
    the encoding determines count and maximum. *)
Class HdrLaws `{HDR : HdrHistogram} : Prop := {
  bytes_range h l : hist_bytes h = Some l -> Forall (fun b => 0 <= b < 256) l;
  bytes_parse h l : hist_bytes h = Some l -> exists h', hist_parse l = Some h' /\ hist_bytes h' = Some l;
  bytes_len h h' l : hist_bytes h = Some l -> hist_bytes h' = Some l -> hist_len h = hist_len h';
  bytes_max h h' l : hist_bytes h = Some l -> hist_bytes h' = Some l -> hist_max h = hist_max h';
}.

(** What a deserializer may hand to the visitor: bytes, or a sequence of numbers
    of which any may fail to be a [u8]. *)
Inductive Encoded : Type :=
| EBytes (bytes : list Z)
| ESeq (elements : list (option Z)).

Context `{HDR : !HdrHistogram}.

Definition wrapper_serialize (h : Histogram) : option Encoded := EBytes <$> hist_bytes h.

Definition visit_bytes (v : list Z) : option Histogram := hist_parse v.

(** [seq.next_element::<u8>()?] until the end. *)
Fixpoint collect_bytes (elements : list (option Z)) : option (list Z) :=
  match elements with
  | [] => Some []
  | Some b :: elements' =>
      if (0 <=? b) && (b <? 256) then cons b <$> collect_bytes elements' else None
  | None :: _ => None
  end.

Definition visit_seq (elements : list (option Z)) : option Histogram :=
  collect_bytes elements ≫= visit_bytes.

Definition wrapper_deserialize (e : Encoded) : option Histogram :=
  match e with EBytes v => visit_bytes v | ESeq elements => visit_seq elements end.

(** JSON has no bytes: they become a sequence of numbers. *)
Definition through_json (e : Encoded) : Encoded :=
  match e with EBytes l => ESeq (map Some l) | ESeq _ => e end.

Definition wrapper_eq (h h' : Histogram) : bool := bool_decide (hist_bytes h = hist_bytes h').

Definition wrapper_cmp (h h' : Histogram) : comparison :=
  match Z.compare (hist_len h) (hist_len h') with
  | Eq => Z.compare (hist_max h) (hist_max h')
  | c => c
  end.

Context `{LAWS : !HdrLaws}.

Lemma collect_bytes_all l : Forall (fun b => 0 <= b < 256) l -> collect_bytes (map Some l) = Some l.
Proof.
  induction 1 as [|b l Hb Hl IH]; [done|]. cbn. rewrite IH.
  destruct (Z.leb_spec 0 b), (Z.ltb_spec b 256); [done|lia..].
Qed.

(** A histogram that can be encoded survives storage: read back from bytes or
    from JSON it is equal to the original, compares as equal, and compares with
    any other histogram as the original does. *)
Theorem histogram_roundtrip (h : Histogram) (e : Encoded) :
  wrapper_serialize h = Some e ->
  exists h', wrapper_deserialize e = Some h' /\ wrapper_deserialize (through_json e) = Some h' /\
    wrapper_eq h h' = true /\ forall k, wrapper_cmp h' k = wrapper_cmp h k.
Proof.
  unfold wrapper_serialize. destruct (hist_bytes h) as [l|] eqn:El; intros [= <-].
  destruct (bytes_parse h l El) as (h' & Ep & El'). exists h'. split_and!.
  - done.
  - cbn. unfold visit_seq. by rewrite (collect_bytes_all l (bytes_range h l El)).
  - apply bool_decide_eq_true. by rewrite El, El'.
  - intros k. unfold wrapper_cmp. by rewrite (bytes_len h h' l El El'), (bytes_max h h' l El El').
Qed.

(** The order is total and transitive, and agrees with equality one way only:
    histograms with as many values and the same maximum compare as equal. *)
Lemma wrapper_cmp_antisym h h' : wrapper_cmp h h' = CompOpp (wrapper_cmp h' h).
Proof.
  unfold wrapper_cmp. rewrite (Z.compare_antisym (hist_len h') (hist_len h)).
  destruct (Z.compare (hist_len h') (hist_len h)); cbn; [apply Z.compare_antisym|done..].
Qed.

Lemma wrapper_cmp_le h h' :
  wrapper_cmp h h' <> Gt <-> hist_len h < hist_len h' \/ (hist_len h = hist_len h' /\ hist_max h <= hist_max h').
Proof.
  unfold wrapper_cmp. destruct (Z.compare_spec (hist_len h) (hist_len h')) as [E|E|E].
  - rewrite Z.compare_ngt_iff. lia.
  - split; [lia|done].
  - split; [done|lia].
Qed.

Lemma wrapper_cmp_trans h1 h2 h3 : wrapper_cmp h1 h2 <> Gt -> wrapper_cmp h2 h3 <> Gt -> wrapper_cmp h1 h3 <> Gt.
Proof. rewrite !wrapper_cmp_le. lia. Qed.

Lemma wrapper_eq_cmp h h' : is_Some (hist_bytes h) -> wrapper_eq h h' = true -> wrapper_cmp h h' = Eq.
Proof.
  intros [l El] E%bool_decide_eq_true. rewrite El in E. symmetry in E. unfold wrapper_cmp.
  rewrite (bytes_len h h' l El E), (bytes_max h h' l El E), Z.compare_refl. apply Z.compare_refl.
Qed.
End Tasks.

(** A package that keeps the recorded values; for it the order confuses
    histograms that differ. *)
Definition listed_extern : Extern := {|
  Cron := positive;
  parse_cron _ := None;
  find_next_occurrence _ _ := None;
  from_timestamp_micros us := Some (us * 1000);
  dt_min := -8334601228800 * 1000000000;
  dt_max := 8210266876799999999999;
  Histogram := list Z;
  HeapStats := unit;
  F32 := Z;
|}.
#[local] Existing Instance listed_extern.

Definition listed_histogram : HdrHistogram := {|
  hist_bytes l := if decide (Forall (fun b => 0 <= b < 256) l) then Some l else None;
  hist_parse l := Some l;
  hist_len l := Z.of_nat (length l);
  hist_max l := foldr Z.max 0 l;
|}.
#[local] Existing Instance listed_histogram.

Lemma listed_hdr_laws : HdrLaws.
Proof.
  split; cbn; intros *; repeat case_decide; try (by intros; simplify_eq).
  intros [= <-]. exists h. split; [done|]. by rewrite decide_True.
Qed.
#[local] Existing Instance listed_hdr_laws.

Definition hist (l : list Z) : Histogram (Extern := listed_extern) := l.

Lemma histogram_roundtrip_witness :
  exists h', wrapper_deserialize (ESeq [Some 3; Some 7]) = Some h' /\ wrapper_eq (hist [3; 7]) h' = true.
Proof.
  destruct (histogram_roundtrip (hist [3; 7]) (EBytes [3; 7])) as (h' & _ & H1 & H2 & _);
    [vm_compute; reflexivity|].
  exists h'. split; [exact H1|exact H2].
Defined.

Example order_confuses :
  wrapper_cmp (hist [1; 7]) (hist [3; 7]) = Eq /\ wrapper_eq (hist [1; 7]) (hist [3; 7]) = false.
Proof. split; reflexivity. Qed.

(** ** The process *)

(** The fields of [tokio_metrics::RuntimeMetrics] that are read. *)
Record RuntimeMetrics : Type := mkTokioMetrics {
  tr_workers_count : Z;
  tr_live_tasks_count : Z;
  tr_total_park_count : Z;
  tr_max_park_count : Z;
  tr_min_park_count : Z;
  tr_total_busy_duration : Z;
  tr_max_busy_duration : Z;
  tr_min_busy_duration : Z;
  tr_global_queue_depth : Z;
  tr_elapsed : Z;
}.

Definition from_runtime (v : RuntimeMetrics) : RawRuntimeMetrics :=
  mkRuntimeMetrics (tr_workers_count v) (tr_live_tasks_count v) (tr_total_park_count v)
    (tr_max_park_count v) (tr_min_park_count v) (tr_total_busy_duration v) (tr_max_busy_duration v)
    (tr_min_busy_duration v) (tr_global_queue_depth v) (tr_elapsed v).

Section Process.
Context {SM : Type -> Type} `{OPS : !SkipMap Z SM} {EXT : Extern} {FL : Floats F32}.

Definition ProcessMetrics_new (now : Dt) (heap : HeapStats) (hostname : string) (pid : Z)
    (rt_metrics : RuntimeMetrics) (stats : ProcessTreeStats (F := F32)) (workers : list WorkerMeta) :
    ProcessMetrics :=
  mkProcessMetrics hostname pid heap (st_cpu_usage stats) (st_rss_bytes stats) (from_runtime rt_metrics)
    workers now.

(** What the stream shares with the rest of the collector. *)
Record Sampled : Type := mkSampled {
  sa_tracker : LinuxTracker (F := F32);
  sa_workers : TimedMap SM WorkerEntry;
  sa_last_updated : Dt;
}.

Inductive StreamState : Type :=
| SActive (intervals : list RuntimeMetrics)
| SDone.

(** What ends the wait of a round, with what the round then reads: instants (the
    sample's, and one per registered worker while purging), the process table,
    the heap, the cells of the workers, and the clock. *)
Record Round : Type := mkRound {
  ro_instant : Z;
  ro_purge : Z -> Z;
  ro_table : Reading;
  ro_heap : HeapStats;
  ro_state : Z -> WorkerState.t;
  ro_processing : Z -> Z;
  ro_now : Z -> Dt;
  ro_end : Dt;
  ro_stored : Dt;
}.

Inductive Wake : Type :=
| WCancelled
| WSlept (r : Round).

(** The registry after the purge, as records. *)
Definition worker_metas (r : Round) (workers : TimedMap SM WorkerEntry) : list WorkerMeta :=
  map (fun e => WorkerMeta_new (ro_now r e.1) e.1 (we_created_at (ev_value e.2)) (ro_state r e.1)
                  (we_opts (ev_value e.2)) (ro_processing r e.1))
    (sm_iter (inner workers)).

(** One round of [unfold]; [None] ends the stream. *)
Definition stream_next (hostname : string) (pid : Z) (wake : Wake) (state : StreamState) (s : Sampled) :
    option (option ProcessMetrics * StreamState) * Sampled :=
  match state with
  | SDone => (None, s)
  | SActive intervals =>
      match wake with
      | WCancelled => (None, s)
      | WSlept r =>
          match intervals with
          | [] => (None, s)
          | rt_metrics :: intervals =>
              let '(stats, tracker) := linux_sample (ro_instant r) (ro_table r) (sa_tracker s) in
              let workers := purge_expired (ro_purge r) (sa_workers s) in
              let metrics := ProcessMetrics_new (ro_end r) (ro_heap r) hostname pid rt_metrics stats
                               (worker_metas r workers) in
              (Some (Some metrics, SActive intervals), mkSampled tracker workers (ro_stored r))
          end
      end
  end.

(** The stream polled once per wake-up; an ended stream stays ended. *)
Fixpoint stream_items (hostname : string) (pid : Z) (wakes : list Wake) (state : option StreamState)
    (s : Sampled) : list (option ProcessMetrics) * Sampled :=
  match wakes with
  | [] => ([], s)
  | wake :: wakes' =>
      match state with
      | None => ([], s)
      | Some state =>
          match stream_next hostname pid wake state s with
          | (Some (item, state), s) =>
              let '(items, s) := stream_items hostname pid wakes' (Some state) s in (item :: items, s)
          | (None, s) => stream_items hostname pid wakes' None s
          end
      end
  end.

(** The wake-ups before the first cancellation. *)
Fixpoint rounds (wakes : list Wake) : list Round :=
  match wakes with WSlept r :: wakes' => r :: rounds wakes' | _ => [] end.

(** What the collector publishes: the last sample. *)
Definition published_metrics (items : list (option ProcessMetrics)) (before : option ProcessMetrics) :
    option ProcessMetrics :=
  foldl (fun current item => match item with Some m => Some m | None => current end) before items.

Context `{LAWS : !SkipMapLaws Z SM}.

Lemma stream_ended hostname pid wakes s : stream_items hostname pid wakes None s = ([], s).
Proof. by destruct wakes. Qed.

(** Who is listed: the workers that are registered after the purge. *)
Lemma metas_entry r (workers : TimedMap SM WorkerEntry) id :
  id ∈ wm_worker_id <$> worker_metas r workers <-> is_Some (entry workers id).
Proof.
  unfold worker_metas, entry. rewrite <- list_fmap_compose. cbn. split.
  - intros ([k e] & -> & Hin)%list_elem_of_fmap. apply get_iter in Hin. by eexists.
  - intros [e He]. apply get_iter in He. apply list_elem_of_fmap. by exists (id, e).
Qed.

Lemma purged_entry now (workers : TimedMap SM WorkerEntry) id :
  disable_expiration workers = false ->
  is_Some (entry (purge_expired now workers) id) <-> is_Some (visible (now id) workers id).
Proof.
  intros He. rewrite purge_expired_exact, He. unfold visible.
  destruct (entry workers id) as [e|]; cbn; [|done]. destruct (is_expired (now id) e); [done|]. by split; eexists.
Qed.

(** A purge does not bring anything back, nor hide what it keeps. *)
Lemma purged_visible now t (workers : TimedMap SM WorkerEntry) id :
  disable_expiration workers = false ->
  visible t (purge_expired now workers) id =
  if bool_decide (is_Some (visible (now id) workers id)) then visible t workers id else None.
Proof.
  intros He. unfold visible at 1. rewrite purge_expired_exact, He. unfold visible.
  destruct (entry workers id) as [e|] eqn:E; cbn; [|done].
  destruct (is_expired (now id) e); [done|]. cbn. by destruct (is_expired t e).
Qed.

(** [id] was registered at every purge so far. *)
Definition kept (rs : list Round) (i : nat) (workers : TimedMap SM WorkerEntry) (id : Z) : Prop :=
  forall j r, (j <= i)%nat -> rs !! j = Some r -> is_Some (visible (ro_purge r id) workers id).

(** A worker survives the purges so far when it survives the first and, looked at
    in what that left, the others. *)
Lemma kept_purged r rs i r' (workers : TimedMap SM WorkerEntry) id :
  disable_expiration workers = false -> rs !! i = Some r' ->
  kept rs i (purge_expired (ro_purge r) workers) id <-> kept (r :: rs) (S i) workers id.
Proof.
  intros He Hi. unfold kept. split.
  - intros Hk j r1 Hj Hr.
    assert (Hfirst : is_Some (visible (ro_purge r id) workers id)).
    { specialize (Hk i r' (Nat.le_refl i) Hi). rewrite purged_visible in Hk by done.
      case_bool_decide; [done|by destruct Hk]. }
    destruct j as [|j]; [by injection Hr as <-|].
    specialize (Hk j r1 ltac:(lia) Hr). rewrite purged_visible in Hk by done.
    by rewrite bool_decide_eq_true_2 in Hk.
  - intros Hk j r1 Hj Hr. rewrite purged_visible by done.
    rewrite bool_decide_eq_true_2 by (by apply (Hk 0%nat); [lia|]). apply (Hk (S j)); [lia|done].
Qed.

(** The stream of process samples.  It yields one sample per wake-up until it
    is cancelled or the runtime monitor ends, and nothing afterwards; every
    sample carries the counters of its own interval and lists exactly the workers
    whose registration had not run out by then. *)
Theorem process_stream (hostname : string) (pid : Z) (wakes : list Wake) (intervals : list RuntimeMetrics)
    (s : Sampled) :
  disable_expiration (sa_workers s) = false ->
  let items := (stream_items hostname pid wakes (Some (SActive intervals)) s).1 in
  length items = (length (rounds wakes) `min` length intervals)%nat /\
  forall i item, items !! i = Some item ->
    exists m rt r, item = Some m /\ intervals !! i = Some rt /\ rounds wakes !! i = Some r /\
      pm_rt_metrics m = from_runtime rt /\ pm_last_updated m = ro_end r /\
      forall id, id ∈ wm_worker_id <$> pm_workers m <-> kept (rounds wakes) i (sa_workers s) id.
Proof.
  revert intervals s. induction wakes as [|[|r] wakes IH]; intros intervals s He; [done|..].
  { cbn. rewrite stream_ended. done. }
  cbn [stream_items stream_next rounds]. destruct intervals as [|rt intervals].
  { rewrite stream_ended. split; [by rewrite Nat.min_0_r|done]. }
  destruct (linux_sample (ro_instant r) (ro_table r) (sa_tracker s)) as [stats tracker].
  set (workers := purge_expired (ro_purge r) (sa_workers s)).
  assert (He' : disable_expiration workers = false).
  { unfold workers, purge_expired. by destruct (negb _). }
  specialize (IH intervals (mkSampled tracker workers (ro_stored r)) He'). cbn in IH.
  destruct (stream_items hostname pid wakes _ _) as [items s']. cbn [fst] in *. destruct IH as [IHl IHi].
  split; [cbn; by rewrite IHl|]. intros [|i] item Hi; cbn in Hi.
  - injection Hi as <-. eexists _, rt, r. split_and!; try done. intros id. cbn [pm_workers ProcessMetrics_new].
    rewrite metas_entry. unfold workers. rewrite purged_entry by done. split.
    + intros Hv j r' Hj Hr. destruct j; [|lia]. by injection Hr as <-.
    + intros Hk. by apply (Hk 0%nat).
  - destruct (IHi i item Hi) as (mt & rt' & r' & E1 & E2 & E3 & E4 & E5 & E6).
    exists mt, rt', r'. split_and!; try done. intros id. rewrite E6.
    by apply (kept_purged r (rounds wakes) i r').
Qed.
End Process.

(** ** Witness: a worker whose registration runs out *)

#[local] Existing Instance integer_floats.

Definition sample_entry : WorkerEntry := mkWorkerEntry (WorkerOpts_default 4) 0.

(** Worker 1 is registered until instant 150, worker 2 until 1000. *)
Definition sample_sampled : Sampled (SM := ZMap) :=
  mkSampled (mkLinux 7 0 0 100 4096 4)
    (insert_expirable 100 2 sample_entry 900 (insert_expirable 100 1 sample_entry 50 timed_new)) 0.

Definition sample_round (now : Z) : Round :=
  mkRound now (fun _ => now) (mkReading None None) tt (fun _ => WorkerState.Idle) (fun _ => 0)
    (fun _ => now) now now.

Definition sample_runtime : RuntimeMetrics := mkTokioMetrics 4 1 0 0 0 0 0 0 0 0.

Lemma process_stream_witness :
  let items := (stream_items "host" 7 [WSlept (sample_round 120); WSlept (sample_round 160); WCancelled]
                  (Some (SActive [sample_runtime; sample_runtime; sample_runtime])) sample_sampled).1 in
  length items = 2%nat /\
  exists m, items !! 1%nat = Some (Some m) /\ wm_worker_id <$> pm_workers m = [2] /\
    (2 ∈ wm_worker_id <$> pm_workers m).
Proof.
  destruct (process_stream "host" 7 [WSlept (sample_round 120); WSlept (sample_round 160); WCancelled]
    [sample_runtime; sample_runtime; sample_runtime] sample_sampled eq_refl) as [Hl Hi].
  split; [exact Hl|]. eexists. split; [vm_compute; reflexivity|]. split; [reflexivity|].
  apply list_elem_of_singleton. reflexivity.
Defined.
