(* ===== verification/Queue.v ===== *)
(** * The queue ([src/queue/mod.rs])

    [QueueExt] is what a [Queue] owns beside the cells it shares with its store
    (those are in [Sys]): its options, the registered workers, the jobs being
    processed, the backoff strategies, its timers and the collector they talk
    to.  One definition per method; every store call is the in-memory store's
    operation.  The event mode cell is the one inside the metrics. *)

From S2P Require Import Prelude SkipMap Deque TimedMap Extern Schedule Job Options Events Shared Metrics InMemoryStore Collector.

Section QueueState.
Context {SM SS : Type -> Type} {EXT : Extern} {D R P : Type}.

(** A value of [jobs_in_progress]; the task monitor is read through the job's
    identifier. *)
Record JobMeta : Type := mkJobMeta {
  meta_job : Job D R P;
  meta_token : JobToken;
  meta_handle : option Z;
  meta_histogram : Histogram;
  meta_opts : WorkerOpts;
}.

(** [q_states] holds the state cell of every worker; the registries refer to a
    cell by the worker's identifier. *)
Record QueueExt : Type := mkQueueExt {
  q_id : Z;
  q_paused : bool;
  q_opts : QueueOpts;
  q_workers : SM WorkerEntry;
  q_states : SM WorkerState.t;
  q_jobs : SM JobMeta;
  q_backoff : BackOff SS;
  q_timers : bool;
  q_cancelled : bool;
  q_collector : Collector SM;
}.

Definition set_q_paused (x : bool) (r : QueueExt) : QueueExt :=
  mkQueueExt (q_id r) x (q_opts r) (q_workers r) (q_states r) (q_jobs r) (q_backoff r)
    (q_timers r) (q_cancelled r) (q_collector r).
Definition set_q_workers (x : SM WorkerEntry) (r : QueueExt) : QueueExt :=
  mkQueueExt (q_id r) (q_paused r) (q_opts r) x (q_states r) (q_jobs r) (q_backoff r)
    (q_timers r) (q_cancelled r) (q_collector r).
Definition set_q_states (x : SM WorkerState.t) (r : QueueExt) : QueueExt :=
  mkQueueExt (q_id r) (q_paused r) (q_opts r) (q_workers r) x (q_jobs r) (q_backoff r)
    (q_timers r) (q_cancelled r) (q_collector r).
Definition set_q_jobs (x : SM JobMeta) (r : QueueExt) : QueueExt :=
  mkQueueExt (q_id r) (q_paused r) (q_opts r) (q_workers r) (q_states r) x (q_backoff r)
    (q_timers r) (q_cancelled r) (q_collector r).
Definition set_q_backoff (x : BackOff SS) (r : QueueExt) : QueueExt :=
  mkQueueExt (q_id r) (q_paused r) (q_opts r) (q_workers r) (q_states r) (q_jobs r) x
    (q_timers r) (q_cancelled r) (q_collector r).
Definition set_q_cancelled (x : bool) (r : QueueExt) : QueueExt :=
  mkQueueExt (q_id r) (q_paused r) (q_opts r) (q_workers r) (q_states r) (q_jobs r)
    (q_backoff r) (q_timers r) x (q_collector r).
Definition set_q_collector (x : Collector SM) (r : QueueExt) : QueueExt :=
  mkQueueExt (q_id r) (q_paused r) (q_opts r) (q_workers r) (q_states r) (q_jobs r)
    (q_backoff r) (q_timers r) (q_cancelled r) x.
End QueueState.

Arguments JobMeta {EXT} D R P.
Arguments QueueExt SM SS {EXT} D R P.

(** [MoveToActiveResult]. *)
Inductive MoveToActiveResult {EXT : Extern} (D R P : Type) : Type :=
| MPaused
| RateLimit (ms : Z)
| DelayUntil (ts : Z)
| ProcessJob (job : Job D R P).
Arguments MPaused {EXT D R P}.
Arguments RateLimit {EXT D R P} ms.
Arguments DelayUntil {EXT D R P} ts.
Arguments ProcessJob {EXT D R P} job.

Section Queue.
Context {SM SS : Type -> Type} `{OPS : !SkipMap Z SM} `{SOPS : !SkipMap string SS}
  {EXT : Extern} {CLK : Clock} {D R P : Type}.

Abbreviation QSys := (Sys SM D R P (QueueExt SM SS D R P)).
Abbreviation Q A := (KM QSys A).

Definition on_ext {A} (f : QueueExt SM SS D R P -> A) : Q A := gets (fun s => f (sy_ext s)).
Definition upd_ext (f : QueueExt SM SS D R P -> QueueExt SM SS D R P) : Q unit :=
  modify (fun s => set_sy_ext (f (sy_ext s)) s).
Definition upd_collector (f : Collector SM -> Collector SM) : Q unit :=
  upd_ext (fun q => set_q_collector (f (q_collector q)) q).

(** ** Construction *)

(** [Store::metadata_field_exists] and [Store::set_event_mode] of the
    in-memory store. *)
Definition metadata_field_exists (_field : string) (st : InMemoryStore SM D R P) : bool := true.
Definition set_event_mode (_mode : QueueEventMode) (st : InMemoryStore SM D R P) :
    InMemoryStore SM D R P := st.

Definition set_qm_event_mode (x : QueueEventMode) (m : QueueMetrics) : QueueMetrics :=
  mkQueueMetrics (qm_last_id m) (qm_processing m) (qm_prioritized m) (qm_active m)
    (qm_stalled m) (qm_delayed m) (qm_completed m) (qm_failed m) (qm_paused m) (qm_waiting m)
    (qm_is_paused m) x.

(** [Queue::new]; [id] is the fresh [Uuid], [co] the global collector. *)
Definition queue_new (id : Z) (queue_opts : option QueueOpts) (co : Collector SM)
    (st : InMemoryStore SM D R P) : QSys :=
  let opts := unwrap_or QueueOpts_default queue_opts in
  let metrics := store_get_metrics st in
  let events_mode_exits := metadata_field_exists "event_mode" st in
  let '(st, metrics) :=
    match qo_event_mode opts with
    | Some passed_mode =>
        if negb events_mode_exits && bool_decide (passed_mode <> qm_event_mode metrics)
        then (set_event_mode passed_mode st, set_qm_event_mode passed_mode metrics)
        else (st, metrics)
    | None => (st, metrics)
    end in
  let is_paused := qm_is_paused metrics in
  let co := register_queue id co in
  let s := mkSys st metrics false 0 [] 0
             (mkQueueExt id is_paused opts sm_new sm_new sm_new backoff_new true false co) in
  (create_stream_listener s).2.

(** ** Workers *)

(** Two readings of the clock, for the lookup and the insertion. *)
Definition register_in_collector (id : Z) (entry : WorkerEntry) : Q unit :=
  let* t := instants in
  let* t' := instants in
  upd_collector (register_worker (t 0) (t' 0) id entry).

Definition add_worker (id : Z) (opts : WorkerOpts) (created_at : Dt) : Q unit :=
  let entry := mkWorkerEntry opts created_at in
  let* workers := on_ext q_workers in
  (if sm_contains_key workers id then m_ret tt
   else upd_ext (fun q => set_q_workers (sm_insert id entry (q_workers q)) q)) ;;;
  register_in_collector id entry.

Definition add_worker_heartbeat (worker_id : Z) : Q unit :=
  let* workers := on_ext q_workers in
  match sm_get workers worker_id with
  | Some entry => register_in_collector worker_id entry
  | None => m_ret tt
  end.

Definition register_worker_timers (opts : WorkerOpts) : Q unit :=
  let* timers := on_ext q_timers in
  if timers then
    let* t := instants in
    let* id := on_ext q_id in
    upd_collector (register_timers (fun i => t (Z.of_nat i)) id opts)
  else m_ret tt.

Definition remove_worker (id : Z) : Q unit :=
  upd_ext (fun q => set_q_workers (sm_remove id (q_workers q)) q) ;;;
  upd_collector (unregister_worker id).

(** ** Adding and reading jobs *)

Definition is_paused : Q bool := gets (fun s => queue_is_paused (sy_metrics s)).

Definition bulk_add (iter : list (string * option JobOptions * D)) : Q (list (Job D R P)) :=
  let* paused := is_paused in
  let* opts := on_ext q_opts in
  add_bulk iter opts paused.

Definition bulk_add_only (iter : list (string * option JobOptions * D)) : Q unit :=
  let* paused := is_paused in
  let* opts := on_ext q_opts in
  add_bulk_only iter opts paused.

Definition add_job (name : string) (data : D) (opts : option JobOptions) : Q (Job D R P) :=
  let opts := unwrap_or JobOptions_default opts in
  let* paused := is_paused in
  let* queue_opts := on_ext q_opts in
  let* jobs := add_bulk [(name, Some opts, data)] queue_opts paused in
  expect (last jobs).

Definition queue_get_job (id : Z) : Q (option (Job D R P)) := timed (fun t => get_job t id).

(** ** State transitions *)

Definition publish_now (f : QueueStreamEvent R P -> QueueStreamEvent R P) : Q unit :=
  let* now := utc_now in
  publish_event (f (event_default now)).

Definition event_result (value : option (ProcessedResult R)) (ev : QueueStreamEvent R P) :
    QueueStreamEvent R P :=
  match value with
  | Some (PFailed failed_details) => set_qe_failed_reason (Some failed_details) ev
  | Some (PSuccess value metrics) => set_qe_metrics (Some metrics) (set_qe_returned_value (Some value) ev)
  | None => ev
  end.

Definition state_fields (to : JobState.t) (value : option (ProcessedResult R)) (ts : option Z)
    (backtrace : option Trace) : list (JobField R) :=
  [FState to] ++
  match backtrace with Some backtrace => [FBackTrace backtrace] | None => [] end ++
  match value with
  | Some rec =>
      FPayload rec :: match ts with Some ts => [FFinishedOn (Z.abs ts)] | None => [] end
  | None => []
  end.

Definition is_terminal (to : JobState.t) : bool :=
  match to with JobState.Failed | JobState.Completed => true | _ => false end.

Definition move_job_to_state (job_id : Z) (from to : JobState.t)
    (value : option (ProcessedResult R)) (ts : option Z) (backtrace : option Trace) : Q unit :=
  let* is_paused := is_paused in
  let job_key := CollectionSuffix.Job job_id in
  let move_to_failed_or_completed := is_terminal to in
  let previous_suffix := CollectionSuffix.from_state from in
  let next_state_suffix := CollectionSuffix.from_state to in
  if is_paused then m_ret tt
  else
    let* exists_ := timed (fun t => job_exists t job_id) in
    if negb exists_ then throw (KJobError JobNotFound)
    else
      (if move_to_failed_or_completed then
         (let* _ := timed (fun t => incr t job_key 1 (Some "attemptsMade"%string)) in m_ret tt) ;;;
         upd_store (remove_item previous_suffix job_id) ;;;
         let* score := (match ts with
                        | Some ts => m_ret ts
                        | None => let* now := utc_now in m_ret (timestamp_micros now)
                        end) in
         upd_store (add_item next_state_suffix job_id (Some score) false)
       else
         let* exists_in_list := timed (fun t => exists_in t next_state_suffix job_id) in
         if negb exists_in_list then
           upd_store (remove_item previous_suffix job_id) ;;;
           upd_store (add_item next_state_suffix job_id None false)
         else m_ret tt) ;;;
      timed_upd (fun t => set_fields t job_id (state_fields to value ts backtrace)) ;;;
      publish_now (fun ev => event_result value
        (set_qe_job_id job_id (set_qe_prev (Some from) (set_qe_event to ev)))).

Definition queue_get_metrics : Q QueueMetrics :=
  let* updated := gets (fun s => store_get_metrics (sy_store s)) in
  modify (fun s => set_sy_metrics (metrics_update updated (sy_metrics s)) s) ;;;
  m_ret updated.

Definition pause_or_resume : Q unit :=
  let* metrics := queue_get_metrics in
  let pause_ := negb (qm_is_paused metrics) in
  upd_store (pause pause_) ;;;
  let state := if pause_ then JobState.Paused else JobState.Resumed in
  let* now := utc_now in
  let event := set_qe_event state (event_default now) in
  upd_ext (set_q_paused pause_) ;;;
  publish_event event.

(** ** Locks and stalled jobs *)

Definition extend_lock (job_id lock_duration : Z) (token : JobToken) : Q bool :=
  let* previous := timed (fun t => get_token t job_id) in
  match previous with
  | Some prev_token =>
      if decide (prev_token = token) then
        timed_upd (fun t => set_lock t (CollectionSuffix.Lock job_id) (Some token) lock_duration) ;;;
        upd_store (remove_item CollectionSuffix.Stalled job_id) ;;;
        m_ret true
      else m_ret false
  | None => m_ret false
  end.

Definition get_target_list : Q (bool * JobState.t) :=
  let* paused := is_paused in
  if paused then m_ret (paused, JobState.Paused) else m_ret (paused, JobState.Wait).

Definition stalled_reason : string := "job stalled more than allowable limit".

(** One round of the recovery loop; the accumulator is [(failed, stall)]. *)
Definition recover_stalled (opts : WorkerOpts) (target : JobState.t) (acc : list Z * list Z)
    (id : Z) : Q (list Z * list Z) :=
  let '(failed, stall) := acc in
  let job_key := CollectionSuffix.Job id in
  let* lock_exists := timed (fun t => exists_in t (CollectionSuffix.Lock id) id) in
  if lock_exists then
    let* stalled_count := timed (fun t => incr t job_key 1 (Some "stalledCounter"%string)) in
    let* attempts := timed (fun t => get_counter t job_key (Some "attempts_made"%string)) in
    let attempts_made := unwrap_or 0 attempts in
    let* from := timed (fun t => get_state t id) in
    let from := unwrap_or JobState.default from in
    if wo_max_stalled_count opts <? stalled_count then
      let failed_reason := mkFailedDetails (wrapping_add_u64 attempts_made 1) stalled_reason in
      move_job_to_state id from JobState.Failed (Some (PFailed failed_reason)) None None ;;;
      m_ret (failed ++ [id], stall)
    else
      move_job_to_state id JobState.Active target None None None ;;;
      m_ret (failed, stall ++ [id])
  else m_ret acc.

Definition mark_stalled (id : Z) : Q unit :=
  let lock := CollectionSuffix.Lock id in
  let* locked := timed (fun t => exists_in t lock id) in
  if negb locked then
    upd_store (add_item CollectionSuffix.Stalled id None true) ;;;
    upd_store (remove_item CollectionSuffix.Active id)
  else m_ret tt.

Definition make_stalled_jobs_wait (opts : WorkerOpts) : Q (list Z * list Z) :=
  let* target := get_target_list in
  let stalled_check_key := CollectionSuffix.StalledCheck in
  let* check_key_exists := timed (fun t => exists_in t CollectionSuffix.StalledCheck
                                     (CollectionSuffix.tag stalled_check_key)) in
  if check_key_exists then m_ret ([], [])
  else
    timed_upd (fun t => set_lock t stalled_check_key None (wo_stalled_interval opts)) ;;;
    let* stalled := gets (fun s => get_job_ids_in_state JobState.Stalled None None (sy_store s)) in
    if decide (stalled = []) then
      for_fold stalled ([], []) (recover_stalled opts target.2)
    else
      let* active := gets (fun s => get_job_ids_in_state JobState.Active None None (sy_store s)) in
      for_each active mark_stalled ;;;
      m_ret ([], []).

(** ** Taking a job *)

Definition prepare_job_for_processing (token : JobToken) (job_id ts : Z) (opts : WorkerOpts)
    (prev_state : JobState.t) : Q (Job D R P) :=
  timed_upd (fun t => set_lock t (CollectionSuffix.Lock job_id) (Some token)
                        (wo_lock_duration opts)) ;;;
  move_job_to_state job_id prev_state JobState.Active None None None ;;;
  timed_upd (fun t => set_fields t job_id [FToken token; FProcessedOn ts]) ;;;
  let* job := queue_get_job job_id in
  ok_or job (KJobError JobNotFound).

Definition move_job_from_priorty_to_active : Q (option Z) :=
  let* min_priority_job := on_store (pop_set CollectionSuffix.Prioritized true) in
  match last min_priority_job with
  | Some (job_id, _) =>
      upd_store (add_item CollectionSuffix.Active job_id None true) ;;;
      m_ret (Some job_id)
  | None =>
      upd_store (remove CollectionSuffix.PriorityCounter) ;;;
      m_ret None
  end.

(** The closure [prepare_job] of [move_to_active]. *)
Definition prepare_job (token : JobToken) (opts : WorkerOpts) (ts : Z) (id : Z) :
    Q (Job D R P * option JobState.t) :=
  let* prev_state := timed (fun t => get_state t id) in
  let* job := prepare_job_for_processing token id (cast_unsigned ts) opts
                (unwrap_or JobState.default prev_state) in
  m_ret (job, prev_state).

Definition from_job_state_pair (prepared : Job D R P * option JobState.t) :
    MoveToActiveResult D R P := ProcessJob prepared.1.

Definition move_to_active (token : JobToken) (opts : WorkerOpts) : Q (MoveToActiveResult D R P) :=
  let* now := utc_now in
  let ts := timestamp_micros now in
  let* _ := get_target_list in
  let* job_id := on_store (pop_back_push_front CollectionSuffix.Wait CollectionSuffix.Active) in
  match job_id with
  | Some job_id =>
      let* prepared := prepare_job token opts ts job_id in
      m_ret (from_job_state_pair prepared)
  | None =>
      let* id := move_job_from_priorty_to_active in
      match id with
      | Some id =>
          let* prepared := prepare_job token opts ts id in
          m_ret (ProcessJob prepared.1)
      | None =>
          let next_delay := 1 / 0x1000 in
          m_ret (DelayUntil next_delay)
      end
  end.

(** ** Finishing a job *)

Definition move_job_to_finished_or_failed (job_id ts : Z) (_token : JobToken)
    (move_to_state : JobState.t) (processed : ProcessedResult R) (backtrace : option Trace) :
    Q (Job D R P) :=
  let* prev_state := timed (fun t => get_state t job_id) in
  let prev_state := unwrap_or JobState.default prev_state in
  move_job_to_state job_id prev_state move_to_state (Some processed) (Some ts) backtrace ;;;
  let* job := queue_get_job job_id in
  ok_or job (KJobError JobNotFound).

(** [i64::try_from(id).unwrap_or(i64::MAX)]. *)
Definition id_as_i64 (id : Z) : Z := if id <? two63 then id else two63 - 1.

Definition exceeds (max_to_keep id : Z) : bool := (0 <? max_to_keep) && (max_to_keep <? id_as_i64 id).

Definition clean_up_job (job_id : Z) (remove_options : option RemoveOnCompletionOrFailure) : Q unit :=
  match remove_options with
  | None => m_ret tt
  | Some (RBool remove_immediately) =>
      if remove_immediately then upd_store (remove (CollectionSuffix.Job job_id)) else m_ret tt
  | Some (RInt max_to_keep) =>
      if exceeds max_to_keep job_id then upd_store (remove (CollectionSuffix.Job job_id))
      else m_ret tt
  | Some (ROpts (mkKeepJobs age count)) =>
      (match age with
       | Some expire_in_secs =>
           timed_upd (fun t => expire t (CollectionSuffix.Job job_id) expire_in_secs)
       | None => m_ret tt
       end) ;;;
      match count with
      | Some max_to_keep =>
          if exceeds max_to_keep job_id then upd_store (remove (CollectionSuffix.Job job_id))
          else m_ret tt
      | None => m_ret tt
      end
  end.

Definition retry_failed (job_id : Z) (backoff_job_opts : BackOffJobOptions) (attempts : Z) : Q unit :=
  let* ts := utc_now in
  let* backoff := on_ext q_backoff in
  match calculate_next_delay_ms backoff backoff_job_opts (cast_signed attempts) with
  | Some next_delay =>
      let* expected_active_time := expect (dt_add ts (milliseconds next_delay)) in
      upd_store (add_item CollectionSuffix.Delayed job_id
                   (Some (timestamp_millis expected_active_time)) false) ;;;
      upd_store (remove_item CollectionSuffix.Failed job_id)
  | None => m_ret tt
  end.

Definition retry_job (job_id : Z) (opts : RetryOptions) (attempts : Z) : Q unit :=
  match opts with
  | RetryFailed backoff_job_opts => retry_failed job_id backoff_job_opts attempts
  | WithRepeat repeat =>
      let* now := utc_now in
      let* backoff := on_ext q_backoff in
      let* next := expect (next_occurrence now repeat backoff attempts) in
      match next with
      | Some next_delayed_timestamp =>
          if next_delayed_timestamp =? 0
          then upd_store (add_item CollectionSuffix.Wait job_id None true)
          else upd_store (add_item CollectionSuffix.Delayed job_id (Some next_delayed_timestamp) true)
      | None => m_ret tt
      end
  end.

Definition update_processing_count (increment : bool) (worker_id job_id : Z) (state : JobState.t) :
    Q Z :=
  let delta := if increment then 1 else -1 in
  (let* _ := timed (fun t => incr t CollectionSuffix.Meta delta (Some "processing"%string)) in
   m_ret tt) ;;;
  publish_now (fun ev => set_qe_worker_id (Some worker_id) (set_qe_prev (Some state)
    (set_qe_event JobState.Processing (set_qe_job_id job_id ev)))) ;;;
  let* current := timed (fun t => get_counter t CollectionSuffix.Meta (Some "processing"%string)) in
  m_ret (unwrap_or 0 current).

(** ** The whole queue *)

Definition delete_all_jobs : Q unit :=
  let* last_id := gets (fun s => qm_last_id (sy_metrics s)) in
  upd_store (clear_jobs last_id).

(** [DelayQueueTimer::clear] and [close]: the workers map is the queue's. *)
Definition timers_close : Q unit :=
  upd_ext (fun q => set_q_workers (sm_clear (q_workers q)) q) ;;;
  upd_ext (set_q_cancelled true).

Definition obliterate : Q unit :=
  delete_all_jobs ;;;
  upd_store clear_collections ;;;
  let* last_id := gets (fun s => qm_last_id (sy_metrics s)) in
  publish_now (fun ev => set_qe_event JobState.Obliterated (set_qe_job_id last_id ev)) ;;;
  modify (fun s => set_sy_metrics (metrics_clear (sy_metrics s)) s) ;;;
  upd_store clear_collections ;;;
  let* timers := on_ext q_timers in
  (if timers then timers_close else m_ret tt) ;;;
  let* id := on_ext q_id in
  upd_collector (unregister_queue id).

Definition pause_active_workers : Q unit := modify (set_sy_pause_workers true).

Definition resume_workers : Q unit :=
  let* m := gets sy_metrics in resume_helper m.

Definition queue_register_backoff_strategy (name : string) (strategy : BackoffFn) : Q unit :=
  upd_ext (fun q => set_q_backoff (register_backoff_strategy name strategy (q_backoff q)) q).
End Queue.
