(* ===== verification/Promotion.v ===== *)
(** * Promotion of delayed jobs ([promote_jobs] of [src/utils/mod.rs])

    A pass over the delayed jobs of a window.  The futures of [promote_jobs] are
    run in the order they are pushed: with the in-memory store each completes at
    its first poll. *)

From S2P Require Import Prelude SkipMap Deque TimedMap Extern Schedule Job Options Events Shared Metrics InMemoryStore Collector Queue.

(** What the runtime and the metrics packages supply: the cumulative statistics
    of a job's task monitor at each reading, recording a value in a histogram
    (an error is ignored), a fresh histogram, the iteration order of a hash map,
    and the random identifiers of [Uuid::new_v4]. *)
Class Monitors {EXT : Extern} := {
  cumulative : nat -> Z -> TaskStats;
  hist_record : Z -> Histogram -> Histogram;
  hist_new : Histogram;
  hash_order : forall A : Type, list (Z * A) -> list (Z * A);
  new_v4 : nat -> Z;
}.
Arguments hash_order {EXT _ A} _.

Section Promotion.
Context {SM SS : Type -> Type} `{OPS : !SkipMap Z SM} `{SOPS : !SkipMap string SS}
  {EXT : Extern} {CLK : Clock} {MON : Monitors} {D R P : Type}.

Abbreviation QSys := (Sys SM D R P (QueueExt SM SS D R P)).
Abbreviation Q A := (KM QSys A).

(** ** Promotion of delayed jobs *)

(** [TimerSender::send] of the queue's sender. *)
Definition timer_send (timer : TimerType.t) : Q unit :=
  let* t := instants in
  let* id := on_ext q_id in
  upd_collector (send (t 0) id timer).

(** [JobToken::default]. *)
Definition JobToken_default (n : nat) : JobToken := mkToken (new_v4 n) (new_v4 (S n)) 0.

(** The future pushed for each job that missed its deadline. *)
Definition fail_missed (ts : Z) (job_id : Z) : Q unit :=
  let* attempts := timed (fun t => get_counter t (CollectionSuffix.Job job_id)
                                     (Some "attemptsMade"%string)) in
  let* token := timed (fun t => get_token t job_id) in
  let attempts := unwrap_or 0 attempts in
  let* n := gets sy_reads in
  let token := unwrap_or (JobToken_default n) token in
  let reason := mkFailedDetails attempts (job_error_message MissedDelayDeadline) in
  let* _ := move_job_to_finished_or_failed job_id ts token JobState.Failed
              (PFailed reason) None in
  m_ret tt.

Definition promote_jobs (date_time : Dt) (interval_ms : Z) : Q unit :=
  let* metrics := gets sy_metrics in
  if negb (has_delayed metrics) then m_ret tt
  else
    let start := timestamp_millis date_time in
    let* end_ := expect (dt_add date_time (milliseconds interval_ms)) in
    let stop := timestamp_millis end_ in
    let* found := on_store (get_delayed_at start stop) in
    let '(jobs, missed_deadline) := found in
    let* id := on_ext q_id in
    for_each jobs (fun job_id => timer_send (TimerType.PromotedDelayed job_id id)) ;;;
    let ts := timestamp_micros date_time in
    for_each missed_deadline (fun job_id => ignore_result (fail_missed ts job_id)).

(** [Queue::promote_delayed_jobs]. *)
Definition promote_delayed_jobs (date_time : Dt) (interval_ms : Z) : Q unit :=
  promote_jobs date_time interval_ms.
End Promotion.
