(* ===== verification/QueueInv.v ===== *)
(** * Invariants of every run of the queue

    [queue_op] lists the methods of the queue; [queue_step] runs one of them,
    whatever its outcome.  Along these steps the store evolves by
    [store_step]s, the queue's own pause flag never changes, and the stalled
    set stays empty. *)

From S2P Require Import Prelude SkipMap Deque TimedMap Extern Schedule Job Options Events Shared Metrics InMemoryStore StoreProps StoreScored StoreRecords StoreInsert Collector Queue Promotion.

Section QueueInv.
Context {SM SS : Type -> Type} `{OPS : !SkipMap Z SM} `{LAWS : !SkipMapLaws Z SM}
  `{SOPS : !SkipMap string SS} {EXT : Extern} {CLK : Clock} {D R P : Type}.

Abbreviation QSys := (Sys SM D R P (QueueExt SM SS D R P)).
Abbreviation Q A := (KM QSys A).

Inductive queue_op : forall {A : Type}, Q A -> Prop :=
| op_add_worker id opts dt : queue_op (add_worker id opts dt)
| op_heartbeat id : queue_op (add_worker_heartbeat id)
| op_register_timers opts : queue_op (register_worker_timers opts)
| op_remove_worker id : queue_op (remove_worker id)
| op_bulk_add iter : queue_op (bulk_add iter)
| op_bulk_add_only iter : queue_op (bulk_add_only iter)
| op_add_job name data opts : queue_op (add_job name data opts)
| op_get_job id : queue_op (queue_get_job id)
| op_move id from to value ts bt : queue_op (move_job_to_state id from to value ts bt)
| op_get_metrics : queue_op queue_get_metrics
| op_pause_or_resume : queue_op pause_or_resume
| op_extend_lock id d token : queue_op (extend_lock id d token)
| op_stalled opts : queue_op (make_stalled_jobs_wait opts)
| op_prepare token id ts opts st : queue_op (prepare_job_for_processing token id ts opts st)
| op_move_to_active token opts : queue_op (move_to_active token opts)
| op_finish id ts token st r bt : queue_op (move_job_to_finished_or_failed id ts token st r bt)
| op_clean_up id ro : queue_op (clean_up_job id ro)
| op_retry id opts attempts : queue_op (retry_job id opts attempts)
| op_promote (MON : Monitors) dt ms : queue_op (promote_delayed_jobs dt ms)
| op_processing b w id st : queue_op (update_processing_count b w id st)
| op_obliterate : queue_op obliterate
| op_pause_workers : queue_op pause_active_workers
| op_resume_workers : queue_op resume_workers
| op_backoff name f : queue_op (queue_register_backoff_strategy name f).

Inductive queue_step : relation QSys :=
| queue_run {A} (c : Q A) s : queue_op c -> queue_step s (c s).2.

(** ** Store steps *)

Abbreviation qsteps := (steps (SM := SM) (D := D) (R := R) (P := P) (X := QueueExt SM SS D R P)).

Lemma steps_on_ext (f : QueueExt SM SS D R P -> QueueExt SM SS D R P) :
  preserves qsteps (upd_ext (SS := SS) f).
Proof. by apply steps_cells. Qed.

Lemma steps_metrics (f : QueueMetrics -> QueueMetrics) :
  preserves (E := KioError) qsteps (modify (fun s : QSys => set_sy_metrics (f (sy_metrics s)) s)).
Proof. by apply steps_cells. Qed.

Hint Resolve steps_on_ext steps_metrics : kio.

Lemma steps_instants : preserves qsteps (instants (X := QueueExt SM SS D R P)).
Proof. apply steps_clock. Qed.

Lemma steps_resume m : preserves qsteps (resume_helper (X := QueueExt SM SS D R P) m).
Proof. apply steps_cells. intros s. cbn. by destruct (queue_has_work m && sy_pause_workers s). Qed.
Hint Resolve steps_instants steps_resume : kio.

Ltac queue_unfold :=
  repeat progress unfold add_worker, add_worker_heartbeat, register_worker_timers, remove_worker,
    register_in_collector, upd_collector, on_ext, bulk_add, bulk_add_only, add_job,
    queue_get_job, pause_or_resume, queue_get_metrics, extend_lock,
    make_stalled_jobs_wait, recover_stalled, mark_stalled, prepare_job_for_processing,
    move_to_active, prepare_job, move_job_from_priorty_to_active, get_target_list, is_paused,
    move_job_to_finished_or_failed, move_job_to_state, publish_now, clean_up_job, retry_job,
    retry_failed, update_processing_count, obliterate, delete_all_jobs, timers_close,
    pause_active_workers, resume_workers, queue_register_backoff_strategy, job_exists,
    promote_delayed_jobs, promote_jobs, timer_send, fail_missed.

Lemma queue_op_steps {A} (c : Q A) : queue_op c -> preserves qsteps c.
Proof. intros Hop. destruct Hop; queue_unfold; preserve. Qed.

Lemma queue_run_steps s s' : rtc queue_step s s' -> qsteps s s'.
Proof.
  intros H. induction H as [s|s1 s2 s3 [A c s Hop] _ IH]; [done|].
  etrans; [by apply (queue_op_steps c)|done].
Qed.

(** ** The pause flag *)

Definition same_flag : relation QSys :=
  fun s s' => qm_is_paused (sy_metrics s') = qm_is_paused (sy_metrics s).

#[export] Instance same_flag_preorder : PreOrder same_flag.
Proof. split; [done|]. intros x y z H1 H2. unfold same_flag in *. congruence. Qed.

(** Computations that do not touch the metrics, or only through [update]. *)
Lemma flag_on_store {A} (f : InMemoryStore SM D R P -> A * InMemoryStore SM D R P) :
  preserves same_flag (on_store f).
Proof. apply preserves_state. intros s. by destruct (f (sy_store s)). Qed.

Lemma flag_upd_store (f : InMemoryStore SM D R P -> InMemoryStore SM D R P) :
  preserves same_flag (upd_store f).
Proof. done. Qed.

Lemma flag_upd_ext (f : QueueExt SM SS D R P -> QueueExt SM SS D R P) :
  preserves same_flag (upd_ext f).
Proof. done. Qed.

Lemma flag_utc_now : preserves same_flag utc_now.
Proof. done. Qed.

Lemma flag_instants : preserves same_flag instants.
Proof. done. Qed.

Hint Resolve flag_on_store flag_upd_store flag_upd_ext flag_utc_now flag_instants : kio.

Lemma flag_timed {A} (f : Z -> InMemoryStore SM D R P -> A * InMemoryStore SM D R P) :
  preserves same_flag (timed f).
Proof. unfold timed. preserve. Qed.

Lemma flag_timed_upd (f : Z -> InMemoryStore SM D R P -> InMemoryStore SM D R P) :
  preserves same_flag (timed_upd f).
Proof. unfold timed_upd. preserve. Qed.

Lemma flag_update (f : QSys -> QueueMetrics) :
  preserves (E := KioError) same_flag
    (modify (fun s => set_sy_metrics (metrics_update (f s) (sy_metrics s)) s)).
Proof. done. Qed.

Lemma flag_cells (f : QSys -> QSys) :
  (forall s, sy_metrics (f s) = sy_metrics s) -> preserves (E := KioError) same_flag (modify f).
Proof. intros H s. unfold same_flag; cbn. by rewrite H. Qed.

Lemma flag_resume m : preserves same_flag (resume_helper m).
Proof.
  apply flag_cells. intros s. cbn. by destruct (queue_has_work m && sy_pause_workers s).
Qed.
Hint Resolve flag_timed flag_timed_upd flag_update flag_resume : kio.

Lemma flag_publish (event : QueueStreamEvent R P) : preserves same_flag (publish_event event).
Proof.
  unfold publish_event, process_each_event, pause_or_resume_workers. preserve.
  all: apply flag_cells; intros s; by repeat case_match.
Qed.
Hint Resolve flag_publish : kio.

Lemma flag_add_one qo b item : preserves same_flag (add_one qo b item).
Proof. unfold add_one, insert. preserve. Qed.
Hint Resolve flag_add_one : kio.

Lemma flag_add_bulk iter qo b : preserves same_flag (add_bulk iter qo b).
Proof. unfold add_bulk. preserve. Qed.

Lemma flag_add_bulk_only iter qo b : preserves same_flag (add_bulk_only iter qo b).
Proof. unfold add_bulk_only. preserve. Qed.
Hint Resolve flag_add_bulk flag_add_bulk_only : kio.

Lemma queue_op_flag {A} (c : Q A) : queue_op c -> preserves same_flag c.
Proof.
  intros Hop. destruct Hop; queue_unfold; unfold metrics_clear; preserve; by apply flag_cells.
Qed.

Lemma queue_run_flag s s' : rtc queue_step s s' -> same_flag s s'.
Proof.
  intros H. induction H as [s|s1 s2 s3 [A c s Hop] _ IH]; [done|].
  etrans; [by apply (queue_op_flag c)|done].
Qed.

Lemma pause_or_resume_run (s : QSys) :
  exists b s', pause_or_resume s = (Ok tt, s') /\
    sy_store s' = set_st_is_inital b (pause (negb (st_is_paused (sy_store s))) (sy_store s)).
Proof.
  unfold pause_or_resume, queue_get_metrics, utc_now, upd_ext, upd_store.
  cbv [m_bind gets modify m_ret state]. cbn [fst snd qm_is_paused store_get_metrics QueueMetrics_new].
  match goal with |- context [publish_event ?ev ?t] =>
    destruct (publish_event_frame ev EvVoid t) as (b & s' & E & Hs & _) end.
  { by destruct (st_is_paused (sy_store s)). }
  exists b, s'. rewrite E. split; [done|]. by rewrite Hs.
Qed.

Lemma pause_flag b (st : InMemoryStore SM D R P) : st_is_paused (pause b st) = b.
Proof. unfold pause. by destruct b; destruct (drain _ _ _). Qed.

(** C13: the pause flag the queue consults never changes: whatever sequence of
    queue operations runs, [pause_or_resume] included, [is_paused] answers what
    it answered when the queue was opened; the store's own flag does follow
    [pause_or_resume], so after pausing a queue opened unpaused the two
    disagree. *)
Theorem pause_flag_frozen (id : Z) (opts : option QueueOpts) (co : Collector SM)
    (st : InMemoryStore SM D R P) (s : QSys) :
  rtc queue_step (queue_new id opts co st) s ->
  (is_paused s).1 = Ok (st_is_paused st) /\
  (pause_or_resume s).1 = Ok tt /\
  st_is_paused (sy_store (pause_or_resume s).2) = negb (st_is_paused (sy_store s)) /\
  (is_paused (pause_or_resume s).2).1 = Ok (st_is_paused st).
Proof.
  intros Hr. pose proof (queue_run_flag _ _ Hr) as Hf. unfold same_flag in Hf.
  assert (Hn : qm_is_paused (sy_metrics (queue_new (SS := SS) id opts co st)) = st_is_paused st).
  { unfold queue_new. by destruct (qo_event_mode _). }
  rewrite Hn in Hf. split; [unfold is_paused; cbn; by rewrite <- Hf|].
  pose proof (queue_op_flag pause_or_resume op_pause_or_resume s) as Hp. unfold same_flag in Hp.
  rewrite Hf in Hp. destruct (pause_or_resume_run s) as (b & s' & E & Hs).
  rewrite E in *. cbn [fst snd] in *. rewrite Hs. split_and!; [done| |by unfold is_paused; cbn; rewrite <- Hp].
  exact (pause_flag _ _).
Qed.

(** ** Stalled jobs *)

Definition kept_empty : relation QSys :=
  fun s s' => sm_iter (st_stalled (sy_store s)) = [] -> sm_iter (st_stalled (sy_store s')) = [].

#[export] Instance kept_empty_preorder : PreOrder kept_empty.
Proof. split; [by intros s ?|]. intros x y z H1 H2 H. by apply H2, H1. Qed.

Definition keeps_stalled (f : InMemoryStore SM D R P -> InMemoryStore SM D R P) : Prop :=
  forall st, sm_iter (st_stalled st) = [] -> sm_iter (st_stalled (f st)) = [].

Lemma stalled_upd_store f : keeps_stalled f -> preserves kept_empty (upd_store f).
Proof. intros H s Hs. by apply H. Qed.

Lemma stalled_on_store {A} (f : InMemoryStore SM D R P -> A * InMemoryStore SM D R P) :
  keeps_stalled (fun st => (f st).2) -> preserves kept_empty (on_store f).
Proof.
  intros H. apply preserves_state. intros s Hs. specialize (H (sy_store s) Hs). cbn in H.
  destruct (f (sy_store s)). exact H.
Qed.

Lemma stalled_cells (f : QSys -> QSys) :
  (forall s, sy_store (f s) = sy_store s) -> preserves (E := KioError) kept_empty (modify f).
Proof. intros H s Hs. cbn. by rewrite H. Qed.

Lemma stalled_utc_now : preserves kept_empty utc_now.
Proof. by intros s ?. Qed.
Lemma stalled_instants : preserves kept_empty instants.
Proof. by intros s ?. Qed.
Lemma stalled_upd_ext (f : QueueExt SM SS D R P -> QueueExt SM SS D R P) :
  preserves kept_empty (upd_ext f).
Proof. by apply stalled_cells. Qed.
Lemma stalled_metrics (f : QueueMetrics -> QueueMetrics) :
  preserves (E := KioError) kept_empty (modify (fun s => set_sy_metrics (f (sy_metrics s)) s)).
Proof. by apply stalled_cells. Qed.
Lemma stalled_resume m : preserves kept_empty (resume_helper m).
Proof.
  apply stalled_cells. intros s. cbn. by destruct (queue_has_work m && sy_pause_workers s).
Qed.

Hint Resolve stalled_upd_store stalled_on_store stalled_utc_now stalled_instants
  stalled_upd_ext stalled_metrics stalled_resume : kio.

Lemma stalled_timed {A} (f : Z -> InMemoryStore SM D R P -> A * InMemoryStore SM D R P) :
  (forall t, keeps_stalled (fun st => (f t st).2)) -> preserves kept_empty (timed f).
Proof. intros H. unfold timed. preserve. Qed.

Lemma stalled_timed_upd (f : Z -> InMemoryStore SM D R P -> InMemoryStore SM D R P) :
  (forall t, keeps_stalled (f t)) -> preserves kept_empty (timed_upd f).
Proof. intros H. unfold timed_upd. preserve. Qed.

(** Closes [keeps_stalled] for an operation that does not reach the set. *)
Ltac keeps :=
  intros; let st := fresh in let H := fresh in intros st H;
  repeat (unfold incr, get_counter, exists_in, get_job, get_state, get_token, set_lock,
    set_fields, expire, pop_set, pop_sorted, pop_back_push_front, add_item, remove_item, remove,
    clear_collections, clear_jobs, pause in *; case_match); name_snd; cbn; try done;
  rewrite ?iter_clear, ?iter_remove, ?H; done.

Lemma keeps_add_item to id score app : keeps_stalled (add_item (CollectionSuffix.from_state to) id score app).
Proof. intros st H. by destruct to. Qed.

Lemma keeps_remove_item from id : keeps_stalled (remove_item from id).
Proof. intros st H. destruct from; try done. cbn. by rewrite iter_remove, H. Qed.

Lemma stalled_publish (event : QueueStreamEvent R P) : preserves kept_empty (publish_event event).
Proof.
  unfold publish_event, process_each_event, pause_or_resume_workers. preserve.
  all: try (apply stalled_cells; intros s; by repeat case_match).
Qed.

Hint Resolve stalled_publish keeps_add_item keeps_remove_item : kio.
Hint Extern 5 (keeps_stalled _) => keeps : kio.
Hint Extern 1 (preserves kept_empty (timed _)) => apply stalled_timed; keeps : kio.
Hint Extern 1 (preserves kept_empty (timed_upd _)) => apply stalled_timed_upd; keeps : kio.

Lemma stalled_add_one qo b item : preserves kept_empty (add_one qo b item).
Proof. unfold add_one, insert. preserve. Qed.
Hint Resolve stalled_add_one : kio.

Lemma stalled_add_bulk iter qo b : preserves kept_empty (add_bulk iter qo b).
Proof. unfold add_bulk. preserve. Qed.

Lemma stalled_add_bulk_only iter qo b : preserves kept_empty (add_bulk_only iter qo b).
Proof. unfold add_bulk_only. preserve. Qed.
Hint Resolve stalled_add_bulk stalled_add_bulk_only : kio.

(** With no stalled job, a stalled check only takes its own lock. *)
Lemma make_stalled_empty opts (s : QSys) :
  sm_iter (st_stalled (sy_store s)) = [] ->
  exists s', make_stalled_jobs_wait opts s = (Ok ([], []), s') /\
    collections (sy_store s') = collections (sy_store s) /\
    st_jobs (sy_store s') = st_jobs (sy_store s).
Proof.
  intros Hs. unfold make_stalled_jobs_wait, get_target_list, is_paused, timed, timed_upd,
    instants, on_store, upd_store.
  cbv [m_bind gets m_ret state modify]. cbn [fst snd].
  destruct (queue_is_paused (sy_metrics s)); cbn [exists_in];
    destruct (timed_contains_key _ _ _) as [[] tm]; cbn -[get_job_ids_in_state]; try by eexists.
  all: unfold get_job_ids_in_state; rewrite page_slice; cbn; rewrite Hs; cbn; by eexists.
Qed.

Lemma queue_op_stalled {A} (c : Q A) : queue_op c -> preserves kept_empty c.
Proof.
  intros Hop. destruct Hop; try (queue_unfold; preserve; fail).
  intros s Hs. destruct (make_stalled_empty opts s Hs) as (s' & -> & [=] & _). cbn. congruence.
Qed.

Lemma queue_run_stalled s s' : rtc queue_step s s' -> kept_empty s s'.
Proof.
  intros H. induction H as [s|s1 s2 s3 [A c s Hop] _ IH]; [by intros ?|].
  intros Hs. by apply IH, (queue_op_stalled c Hop).
Qed.

(** C12: stall recovery never recovers anything: starting from a store with no
    stalled job, no sequence of queue operations ever puts a job in the stalled
    set, so every stalled check returns two empty lists and leaves all
    collections and all job records as they were, whatever active jobs have
    lost their locks. *)
Theorem stalled_never_recovered (id : Z) (opts : option QueueOpts) (co : Collector SM)
    (st : InMemoryStore SM D R P) (s : QSys) (wopts : WorkerOpts) :
  sm_iter (st_stalled st) = [] -> rtc queue_step (queue_new id opts co st) s ->
  sm_iter (st_stalled (sy_store s)) = [] /\
  exists s', make_stalled_jobs_wait wopts s = (Ok ([], []), s') /\
    collections (sy_store s') = collections (sy_store s) /\
    st_jobs (sy_store s') = st_jobs (sy_store s).
Proof.
  intros Hs Hr. assert (He : sm_iter (st_stalled (sy_store s)) = []).
  { apply (queue_run_stalled _ _ Hr). unfold queue_new. by destruct (qo_event_mode _). }
  split; [done|]. by apply make_stalled_empty.
Qed.
End QueueInv.

(** ** Witnesses *)

Section Witnesses.
#[local] Existing Instance sample_extern.
#[local] Existing Instance sample_clock.

Definition sample_queue : Sys ZMap Z Z Z (QueueExt ZMap StrMap Z Z Z) :=
  queue_new 77 None collector_new sample_store.

(** A queue that was paused and then given a job. *)
Definition paused_queue : Sys ZMap Z Z Z (QueueExt ZMap StrMap Z Z Z) :=
  (add_job "late" 5 None (pause_or_resume sample_queue).2).2.

Lemma paused_queue_run : rtc queue_step sample_queue paused_queue.
Proof.
  refine (rtc_l _ _ _ _ (queue_run pause_or_resume sample_queue op_pause_or_resume) _).
  exact (rtc_once _ _ (queue_run (add_job "late" 5 None) _ (op_add_job _ _ _))).
Qed.

Lemma pause_flag_frozen_witness :
  (is_paused paused_queue).1 = Ok false /\ st_is_paused (sy_store paused_queue) = true /\
  wait_list (sy_store paused_queue) = [1].
Proof.
  split_and!; [|vm_compute; reflexivity|vm_compute; reflexivity].
  destruct (pause_flag_frozen (SM := ZMap) (SS := StrMap) 77 None collector_new sample_store paused_queue
    paused_queue_run) as [H _]. rewrite H. reflexivity.
Defined.

Lemma stalled_never_recovered_witness :
  exists s', make_stalled_jobs_wait (WorkerOpts_default 4) paused_queue = (Ok ([], []), s').
Proof.
  destruct (stalled_never_recovered (SM := ZMap) (SS := StrMap) 77 None collector_new sample_store paused_queue
    (WorkerOpts_default 4)) as (_ & s' & H & _).
  - vm_compute. reflexivity.
  - exact paused_queue_run.
  - exists s'. exact H.
Defined.
End Witnesses.
