(* ===== verification/QueueProps.v ===== *)
(** * What the queue's methods do

    The life of a job: taking it from the waiting list under a lock, keeping
    the lock, finishing it, applying the retention policy, scheduling a retry,
    and wiping the queue; with the error paths. *)

From S2P Require Import Prelude SkipMap Deque TimedMap Extern Schedule Job Options Events Shared Metrics InMemoryStore StoreProps StoreScored StoreRecords StoreInsert Collector Queue QueueInv.

Section QueueProps.
Context {SM SS : Type -> Type} `{OPS : !SkipMap Z SM} `{LAWS : !SkipMapLaws Z SM}
  `{SOPS : !SkipMap string SS} {EXT : Extern} {CLK : Clock} {D R P : Type}.

Abbreviation QSys := (Sys SM D R P (QueueExt SM SS D R P)).
Implicit Types st : InMemoryStore SM D R P.
Implicit Types s : QSys.

(** ** Running single store calls *)

(** The state after a reading of the clock. *)
Definition tick s : QSys := set_sy_reads (S (sy_reads s)) s.

(** The state after the store was replaced. *)
Definition with_store st s : QSys := set_sy_store st s.

Lemma with_store_same s : with_store (sy_store s) s = s.
Proof. by destruct s. Qed.

Lemma run_timed {A} (f : Z -> InMemoryStore SM D R P -> A * InMemoryStore SM D R P) s :
  timed f s = (Ok (f (instant (sy_reads s) 0) (sy_store s)).1,
               with_store (f (instant (sy_reads s) 0) (sy_store s)).2 (tick s)).
Proof.
  unfold timed, instants, on_store. cbv [m_bind state]. cbn.
  by destruct (f (instant (sy_reads s) 0) (sy_store s)).
Qed.

(** A call that leaves the store alone. *)
Lemma run_timed_same {A} (f : Z -> InMemoryStore SM D R P -> A * InMemoryStore SM D R P) s a :
  f (instant (sy_reads s) 0) (sy_store s) = (a, sy_store s) -> timed f s = (Ok a, tick s).
Proof. intros E. rewrite run_timed, E. cbn [fst snd]. by destruct s. Qed.

Lemma run_timed_upd (f : Z -> InMemoryStore SM D R P -> InMemoryStore SM D R P) s :
  timed_upd f s = (Ok tt, with_store (f (instant (sy_reads s) 0) (sy_store s)) (tick s)).
Proof. done. Qed.

Lemma run_upd_store (f : InMemoryStore SM D R P -> InMemoryStore SM D R P) s :
  upd_store f s = (Ok tt, with_store (f (sy_store s)) s).
Proof. done. Qed.

(** ** The record of a job *)

Definition has_record st (id : Z) (job : Job D R P) : Prop :=
  entry (st_jobs st) (job_tag id) = Some (Constant job).

Lemma job_exists_record now id st job :
  has_record st id job -> job_exists now id st = (true, st).
Proof.
  intros H. unfold job_exists, exists_in. fold (job_tag id).
  pose proof (timed_contains_key_visible now (job_tag id) (st_jobs st)) as Hv.
  pose proof (timed_contains_key_state now (job_tag id) (st_jobs st)) as Hs.
  destruct (timed_contains_key _ _ _) as [r tm]. cbn [fst snd] in *. subst r tm.
  unfold visible, timed_get. unfold has_record, entry in *. rewrite H. cbn.
  by rewrite set_jobs_same.
Qed.

Lemma job_exists_missing now id st :
  entry (st_jobs st) (job_tag id) = None -> job_exists now id st = (false, st).
Proof.
  intros H. unfold job_exists, exists_in. fold (job_tag id).
  unfold timed_contains_key. rewrite contains_key_get.
  unfold entry in H. rewrite H. cbn. by rewrite set_jobs_same.
Qed.

Lemma get_job_record now id st job : has_record st id job -> get_job now id st = (Some job, st).
Proof.
  intros H. unfold get_job, timed_get. unfold has_record, entry in H. rewrite H. cbn.
  by rewrite set_jobs_same.
Qed.

Lemma get_state_record now id st job :
  has_record st id job -> get_state now id st = (Some (j_state job), st).
Proof.
  intros H. unfold get_state, timed_get. unfold has_record, entry in H. rewrite H. cbn.
  by rewrite set_jobs_same.
Qed.

Lemma get_state_missing now id st :
  entry (st_jobs st) (job_tag id) = None -> get_state now id st = (None, st).
Proof.
  intros H. unfold get_state, timed_get. unfold entry in H. rewrite H. cbn.
  by rewrite set_jobs_same.
Qed.

(** What a store with another job map looks like. *)
Definition with_jobs (m : TimedMap SM (Job D R P)) st := set_st_jobs m st.

Lemma set_fields_record now id fields st job :
  has_record st id job ->
  exists m, set_fields now id fields st = with_jobs m st /\
    has_record (with_jobs m st) id (foldl (fun j f => apply_field f j) job fields).
Proof.
  intros H. unfold set_fields. eexists; split; [done|]. unfold has_record in *; cbn [with_jobs st_jobs set_st_jobs].
  by rewrite entry_write, decide_True, H by done.
Qed.

Lemma incr_attempts_record now id st job :
  has_record st id job ->
  exists m, (incr now (CollectionSuffix.Job id) 1 (Some "attemptsMade"%string) st).2 = with_jobs m st /\
    has_record (with_jobs m st) id (set_j_attempts_made (bump 1 (j_attempts_made job)) job).
Proof.
  intros H. unfold incr. fold (job_tag id). pose proof (get_job_record now id st job H) as Hg.
  unfold get_job in Hg. destruct (timed_get now (job_tag id) (st_jobs st)) as [r tm].
  injection Hg as -> _. change (is_attempts_field "attemptsMade"%string) with true.
  cbv iota zeta. cbn [snd].
  eexists; split; [done|]. unfold has_record in *; cbn [with_jobs st_jobs set_st_jobs].
  by rewrite entry_write, decide_True, H by done.
Qed.

(** ** Finishing a job *)

(** The event of a transition converts: a completed one needs its value. *)
Definition result_fits (to : JobState.t) (value : ProcessedResult R) : Prop :=
  match to, value with
  | JobState.Completed, PSuccess _ _ => True
  | JobState.Failed, _ => True
  | _, _ => False
  end.

(** The record after a job was finished at [ts] with [value]. *)
Definition finished (to : JobState.t) (value : ProcessedResult R) (ts : Z)
    (bt : option Trace) (job : Job D R P) : Job D R P :=
  foldl (fun j f => apply_field f j)
    (set_j_attempts_made (bump 1 (j_attempts_made job)) job)
    (state_fields to (Some value) (Some ts) bt).

Lemma publish_now_frame (f : QueueStreamEvent R P -> QueueStreamEvent R P) s :
  (forall now, is_Some (from_queue_event (f (event_default now)))) ->
  exists b s', publish_now f s = (Ok tt, s') /\
    sy_store s' = set_st_is_inital b (sy_store s) /\ sy_ext s' = sy_ext s /\
    qm_is_paused (sy_metrics s') = qm_is_paused (sy_metrics s).
Proof.
  intros Hf. unfold publish_now, utc_now. cbv [m_bind state].
  destruct (Hf (utc (sy_reads s))) as [p Hp].
  destruct (publish_event_frame (f (event_default (utc (sy_reads s)))) p (tick s) Hp)
    as (b & s' & E & Hs & _ & Hx).
  exists b, s'. split; [exact E|]. split; [exact Hs|exact Hx].
Qed.

Lemma move_terminal id from to value ts bt s job :
  qm_is_paused (sy_metrics s) = false -> has_record (sy_store s) id job ->
  is_terminal to = true -> result_fits to value ->
  exists s', move_job_to_state id from to (Some value) (Some ts) bt s = (Ok tt, s') /\
    has_record (sy_store s') id (finished to value ts bt job) /\
    collections (sy_store s') =
      collections (add_item (CollectionSuffix.from_state to) id (Some ts) false
        (remove_item (CollectionSuffix.from_state from) id (sy_store s))).
Proof.
  intros Hp Hj Ht Hfit. unfold move_job_to_state.
  rewrite (run_bind _ _ s false s) by (unfold is_paused, gets, queue_is_paused; by rewrite Hp).
  rewrite (run_bind _ _ s true (tick s)).
  2: { by apply run_timed_same, job_exists_record with job. }
  rewrite Ht. cbn [negb].
  destruct (incr_attempts_record (instant (sy_reads (tick s)) 0) id (sy_store (tick s)) job Hj)
    as (m1 & E1 & H1).
  set (st1 := with_jobs m1 (sy_store (tick s))) in *.
  set (st2 := add_item (CollectionSuffix.from_state to) id (Some ts) false
        (remove_item (CollectionSuffix.from_state from) id st1)).
  assert (Hst : exists t, (((let* _ := timed (fun t => incr t (CollectionSuffix.Job id) 1
      (Some "attemptsMade"%string)) in m_ret tt) ;;;
    upd_store (remove_item (CollectionSuffix.from_state from) id) ;;;
    (let* score := m_ret ts in
     upd_store (add_item (CollectionSuffix.from_state to) id (Some score) false))) : KM QSys unit)
    (tick s) = (Ok tt, with_store st2 t)).
  { eexists. erewrite run_bind.
    2: { erewrite run_bind by apply run_timed. cbv beta. rewrite E1. done. }
    erewrite run_bind by apply run_upd_store. done. }
  destruct Hst as [t Hst]. erewrite run_bind by exact Hst.
  assert (H2 : has_record st2 id (set_j_attempts_made (bump 1 (j_attempts_made job)) job)).
  { unfold st2. by destruct to, from. }
  destruct (set_fields_record (instant (sy_reads (with_store st2 t)) 0) id
    (state_fields to (Some value) (Some ts) bt) st2 _ H2) as (m3 & E3 & H3).
  erewrite run_bind by apply run_timed_upd.
  match goal with |- context [publish_now ?f ?t] =>
    destruct (publish_now_frame f t) as (b & s' & E & Hs & _) end.
  { intros now. by destruct to, value. }
  exists s'. rewrite E, Hs. change (sy_store (with_store st2 t)) with st2.
  cbv beta. rewrite E3. split_and!; [done|exact H3|].
  unfold st2. by destruct to, from.
Qed.

Lemma move_missing id from to value ts bt s :
  qm_is_paused (sy_metrics s) = false -> entry (st_jobs (sy_store s)) (job_tag id) = None ->
  move_job_to_state id from to value ts bt s = (Err (KJobError JobNotFound), tick s).
Proof.
  intros Hp Hj. unfold move_job_to_state.
  rewrite (run_bind _ _ s false s) by (unfold is_paused, gets, queue_is_paused; by rewrite Hp).
  rewrite (run_bind _ _ s false (tick s)); [done|].
  by apply run_timed_same, job_exists_missing.
Qed.

(** The result of a run, in the record of its job. *)
Definition carries (value : ProcessedResult R) (job : Job D R P) : Prop :=
  match value with
  | PSuccess result _ => j_returned_value job = Some result
  | PFailed failed => j_failed_reason job = Some failed
  end.

Lemma finished_carries to value ts bt (job : Job D R P) : carries value (finished to value ts bt job).
Proof. unfold finished, state_fields. by destruct bt, value. Qed.

Lemma finished_fields to value ts bt (job : Job D R P) :
  j_state (finished to value ts bt job) = to /\
  j_attempts_made (finished to value ts bt job) = bump 1 (j_attempts_made job) /\
  j_finished_on (finished to value ts bt job) =
    from_timestamp_micros (cast_signed (Z.abs ts)) /\
  j_id (finished to value ts bt job) = j_id job.
Proof. unfold finished, state_fields. by destruct bt, value. Qed.

Lemma add_scored_elem (score id : Z) (m : SM Z) :
  0 <= score < two63 -> (score, id) ∈ sm_iter (add_scored (Some score) id m).
Proof.
  intros Hs. unfold add_scored. rewrite cast_unsigned_small
    by (unfold u64_ok, two64, two63 in *; lia).
  apply get_iter, get_insert_eq.
Qed.

(** Finishing an active job, as one run. *)
Lemma finish_run id ts token to value bt s job :
  qm_is_paused (sy_metrics s) = false -> has_record (sy_store s) id job -> j_state job = JobState.Active ->
  is_terminal to = true -> result_fits to value ->
  exists s', move_job_to_finished_or_failed id ts token to value bt s =
      (Ok (finished to value ts bt job), s') /\
    has_record (sy_store s') id (finished to value ts bt job) /\
    collections (sy_store s') =
      collections (add_item (CollectionSuffix.from_state to) id (Some ts) false
        (remove_item CollectionSuffix.Active id (sy_store s))).
Proof.
  intros Hp Hj Hact Ht Hfit. unfold move_job_to_finished_or_failed.
  rewrite (run_bind _ _ s (Some (j_state job)) (tick s)) by (by apply run_timed_same, get_state_record).
  cbn [unwrap_or]. rewrite Hact.
  destruct (move_terminal id JobState.Active to value ts bt (tick s) job Hp Hj Ht Hfit)
    as (s' & E & Hr & Hc). rewrite (run_bind _ _ _ _ _ E). exists (tick s').
  rewrite (run_bind _ _ s' (Some (finished to value ts bt job)) (tick s'))
    by (by apply run_timed_same, get_job_record).
  by split_and!.
Qed.

Lemma bump_one a : 0 <= a -> a + 1 < two63 -> bump 1 a = a + 1.
Proof.
  intros H1 H2. unfold bump, wrapping_add_i64, two63 in *. rewrite (cast_signed_small a) by (unfold two63; lia).
  rewrite cast_signed_small by (unfold two63; lia). rewrite Z.max_l by lia.
  apply cast_unsigned_small. unfold u64_ok, two64. lia.
Qed.

(** C7: finishing an active job on an unpaused queue always succeeds: the
    job leaves the active list, enters the completed or failed set under the
    finishing time, and its record gets the new state, one more attempt, the
    finishing time and the result or the reason of the failure; the record is what the call returns.  When
    the record is gone the call fails with "job not found" and no collection
    or record changes. *)
Theorem finish_job (id ts : Z) (token : JobToken) (to : JobState.t) (value : ProcessedResult R)
    (bt : option Trace) s :
  qm_is_paused (sy_metrics s) = false -> is_terminal to = true -> result_fits to value ->
  0 <= ts < two63 ->
  (forall job, has_record (sy_store s) id job -> j_state job = JobState.Active ->
     0 <= j_attempts_made job -> j_attempts_made job + 1 < two63 ->
     exists job' s', move_job_to_finished_or_failed id ts token to value bt s = (Ok job', s') /\
       has_record (sy_store s') id job' /\ j_state job' = to /\
       j_attempts_made job' = j_attempts_made job + 1 /\
       j_finished_on job' = from_timestamp_micros ts /\ carries value job' /\
       active_list (sy_store s') = filter (fun x => x <> id) (active_list (sy_store s)) /\
       exists m, scored (CollectionSuffix.from_state to) (sy_store s') = Some m /\
         (ts, id) ∈ sm_iter m) /\
  (entry (st_jobs (sy_store s)) (job_tag id) = None ->
     exists s', move_job_to_finished_or_failed id ts token to value bt s =
         (Err (KJobError JobNotFound), s') /\ sy_store s' = sy_store s).
Proof.
  intros Hp Ht Hfit Hts. split.
  - intros job Hj Hact Ha1 Ha2.
    destruct (finish_run id ts token to value bt s job Hp Hj Hact Ht Hfit) as (s' & E & Hr & Hc).
    exists (finished to value ts bt job), s'. rewrite E.
    destruct (finished_fields to value ts bt job) as (F1 & F2 & F3 & _).
    rewrite F2, bump_one, F3, Z.abs_eq, cast_signed_small by (done || lia).
    split_and!; try done.
    + apply finished_carries.
    + destruct to; try done; injection Hc; intros; rewrite <- deque_remove_value_list; by f_equal.
    + destruct to; try done; cbn [scored CollectionSuffix.from_state]; eexists; split; try done;
        injection Hc; intros;
        match goal with H : ?x = _ |- (_, _) ∈ sm_iter ?x => rewrite H end;
        by apply add_scored_elem.
  - intros Hn. unfold move_job_to_finished_or_failed.
    rewrite (run_bind _ _ s None (tick s)) by (by apply run_timed_same, get_state_missing).
    rewrite (run_bind_err _ _ (tick s) (KJobError JobNotFound) (tick (tick s)))
      by (by apply move_missing). by eexists.
Qed.

(** ** Taking a job *)

(** Moving a job that is already on the active list only updates its record. *)
Lemma move_to_active_state id from s job :
  qm_is_paused (sy_metrics s) = false -> has_record (sy_store s) id job ->
  id ∈ active_list (sy_store s) ->
  exists s', move_job_to_state id from JobState.Active None None None s = (Ok tt, s') /\
    has_record (sy_store s') id (set_j_state JobState.Active job) /\
    collections (sy_store s') = collections (sy_store s) /\
    st_locks (sy_store s') = st_locks (sy_store s).
Proof.
  intros Hp Hj Hin. unfold move_job_to_state.
  rewrite (run_bind _ _ s false s) by (unfold is_paused, gets, queue_is_paused; by rewrite Hp).
  rewrite (run_bind _ _ s true (tick s)) by (by apply run_timed_same, job_exists_record with job).
  cbn [negb is_terminal].
  rewrite (run_bind _ _ (tick s) tt (tick (tick s))).
  2: { rewrite (run_bind _ _ (tick s) true (tick (tick s))); [done|].
       apply run_timed_same. cbn [CollectionSuffix.from_state exists_in].
       rewrite contains_value_list, bool_decide_eq_true_2; done. }
  destruct (set_fields_record (instant (sy_reads (tick (tick s))) 0) id
    (state_fields JobState.Active None None None) (sy_store s) job Hj) as (m & E & Hm).
  erewrite run_bind by apply run_timed_upd.
  match goal with |- context [publish_now ?f ?t] =>
    destruct (publish_now_frame f t) as (b & s' & Es & Hs & _) end; [by intros now|].
  exists s'. rewrite Es, Hs. cbv beta. change (sy_store (tick (tick s))) with (sy_store s).
  rewrite E. done.
Qed.

(** The record of a job that was handed to the holder of [token]. *)
Definition taken (token : JobToken) (ts : Z) (job : Job D R P) : Job D R P :=
  set_j_processed_on (from_timestamp_micros (cast_signed ts))
    (set_j_token (Some token) (set_j_state JobState.Active job)).

Lemma prepare_ok token id ts opts prev s job :
  qm_is_paused (sy_metrics s) = false -> has_record (sy_store s) id job ->
  id ∈ active_list (sy_store s) ->
  exists s', prepare_job_for_processing token id ts opts prev s = (Ok (taken token ts job), s') /\
    has_record (sy_store s') id (taken token ts job) /\
    collections (sy_store s') = collections (sy_store s) /\
    st_locks (sy_store s') = insert_expirable (instant (sy_reads s) 0) (lock_tag id)
      (LToken token) (from_millis (wo_lock_duration opts)) (st_locks (sy_store s)).
Proof.
  intros Hp Hj Hin. unfold prepare_job_for_processing.
  erewrite run_bind by apply run_timed_upd.
  set (s1 := with_store _ _).
  destruct (move_to_active_state id prev s1 job Hp Hj Hin) as (s2 & E2 & Hj2 & Hc2 & Hl2).
  rewrite (run_bind _ _ _ _ _ E2).
  destruct (set_fields_record (instant (sy_reads s2) 0) id [FToken token; FProcessedOn ts]
    (sy_store s2) _ Hj2) as (m & E & Hm).
  erewrite run_bind by apply run_timed_upd. cbv beta. rewrite E.
  set (s3 := with_store _ _).
  rewrite (run_bind _ _ s3 (Some (taken token ts job)) (tick s3)).
  2: { apply run_timed_same, get_job_record. exact Hm. }
  exists (tick s3). split_and!; [done|exact Hm|exact Hc2|exact Hl2].
Qed.

(** The job [move_to_active] hands out: the oldest waiting one, or the
    prioritized one with the least score when none waits. *)
Definition next_candidate st : option Z :=
  match last (wait_list st) with
  | Some id => Some id
  | None => snd <$> head (sm_iter (st_prioritized st))
  end.

Lemma prepare_job_ok token opts ts id s job :
  qm_is_paused (sy_metrics s) = false -> has_record (sy_store s) id job ->
  id ∈ active_list (sy_store s) ->
  exists job' s', prepare_job token opts ts id s = (Ok (job', Some (j_state job)), s') /\
    job' = taken token (cast_unsigned ts) job /\
    has_record (sy_store s') id job' /\
    collections (sy_store s') = collections (sy_store s) /\
    exists now, st_locks (sy_store s') = insert_expirable now (lock_tag id) (LToken token)
      (from_millis (wo_lock_duration opts)) (st_locks (sy_store s)).
Proof.
  intros Hp Hj Hin. unfold prepare_job.
  rewrite (run_bind _ _ s (Some (j_state job)) (tick s)) by (by apply run_timed_same, get_state_record).
  destruct (prepare_ok token id (cast_unsigned ts) opts (unwrap_or JobState.default (Some (j_state job)))
    (tick s) job Hp Hj Hin) as (s' & E & H1 & H2 & H3).
  rewrite (run_bind _ _ _ _ _ E). eexists _, s'. split_and!; [done|done|done|done|]. by eexists.
Qed.

Lemma prepare_job_missing token opts ts id s :
  qm_is_paused (sy_metrics s) = false -> entry (st_jobs (sy_store s)) (job_tag id) = None ->
  exists s', prepare_job token opts ts id s = (Err (KJobError JobNotFound), s') /\
    collections (sy_store s') = collections (sy_store s).
Proof.
  intros Hp Hn. unfold prepare_job.
  rewrite (run_bind _ _ s None (tick s)) by (by apply run_timed_same, get_state_missing).
  eexists; split.
  - apply run_bind_err. unfold prepare_job_for_processing.
    erewrite run_bind by apply run_timed_upd. apply run_bind_err. by apply move_missing.
  - done.
Qed.

(** What the holder of [token] gets for the job [id] taken in state [s0]. *)
Definition handed_out (token : JobToken) (opts : WorkerOpts) (id : Z) s0
    (r : outcome KioError (Job D R P)) st : Prop :=
  (forall job, has_record (sy_store s0) id job ->
     exists job' now, r = Ok job' /\ has_record st id job' /\
       j_state job' = JobState.Active /\ j_token job' = Some token /\
       st_locks st = insert_expirable now (lock_tag id) (LToken token)
         (from_millis (wo_lock_duration opts)) (st_locks (sy_store s0))) /\
  (entry (st_jobs (sy_store s0)) (job_tag id) = None -> r = Err (KJobError JobNotFound)).

Lemma prepare_job_outcome token opts ts id s :
  qm_is_paused (sy_metrics s) = false -> records_ok (st_jobs (sy_store s)) ->
  id ∈ active_list (sy_store s) ->
  exists (r : outcome KioError (Job D R P)) s',
    (let* prepared := prepare_job token opts ts id in m_ret (ProcessJob prepared.1)) s =
      (match r with Ok j => Ok (ProcessJob j) | Err e => Err e | Panic => Panic end, s') /\
    collections (sy_store s') = collections (sy_store s) /\
    handed_out token opts id s r (sy_store s').
Proof.
  intros Hp Hok Hin. destruct (entry (st_jobs (sy_store s)) (job_tag id)) as [e|] eqn:He.
  - destruct (Hok _ _ He) as (i & job & -> & _).
    destruct (prepare_job_ok token opts ts id s job Hp He Hin) as (job' & s' & E & -> & H1 & H2 & now & H3).
    exists (Ok (taken token (cast_unsigned ts) job)), s'. rewrite (run_bind _ _ _ _ _ E).
    split_and!; [done|done|]. split; [|congruence]. intros job2 Hj2.
    assert (job2 = job) as -> by (unfold has_record in Hj2; congruence).
    by eexists _, now.
  - destruct (prepare_job_missing token opts ts id s Hp He) as (s' & E & Hc).
    exists (Err (KJobError JobNotFound)), s'. rewrite (run_bind_err _ _ _ _ _ E).
    split_and!; [done|done|]. split; [|done]. intros job Hj. unfold has_record in Hj. congruence.
Qed.

Lemma run_on_store {A} (f : InMemoryStore SM D R P -> A * InMemoryStore SM D R P) s :
  on_store f s = (Ok (f (sy_store s)).1, with_store (f (sy_store s)).2 s).
Proof. unfold on_store, state. by destruct (f (sy_store s)). Qed.

Lemma run_target s :
  qm_is_paused (sy_metrics s) = false -> get_target_list s = (Ok (false, JobState.Wait), s).
Proof.
  intros Hp. unfold get_target_list, is_paused, queue_is_paused. cbv [m_bind gets m_ret].
  by rewrite Hp.
Qed.

Lemma handed_out_same token opts id s0 s1 r st :
  st_jobs (sy_store s1) = st_jobs (sy_store s0) ->
  st_locks (sy_store s1) = st_locks (sy_store s0) ->
  handed_out token opts id s1 r st -> handed_out token opts id s0 r st.
Proof. intros H1 H2. unfold handed_out, has_record. by rewrite H1, H2. Qed.

(** From a state whose active list starts with [id] and whose records and
    locks are those of [s], the preparation decides the rest. *)
Lemma hand_out token opts ts id s s1 :
  qm_is_paused (sy_metrics s1) = false -> records_ok (st_jobs (sy_store s)) ->
  st_jobs (sy_store s1) = st_jobs (sy_store s) ->
  st_locks (sy_store s1) = st_locks (sy_store s) ->
  active_list (sy_store s1) = id :: active_list (sy_store s) ->
  exists o s', (let* prepared := prepare_job token opts ts id in m_ret (ProcessJob prepared.1)) s1 =
      (match o with Ok j => Ok (ProcessJob j) | Err e => Err e | Panic => Panic end, s') /\
    handed_out token opts id s o (sy_store s') /\
    collections (sy_store s') = collections (sy_store s1).
Proof.
  intros Hp Hok Hj Hl Ha.
  destruct (prepare_job_outcome token opts ts id s1) as (o & s' & E & Hc & Ho);
    [done|by rewrite Hj|rewrite Ha; by left|].
  exists o, s'. split_and!; [done|by eapply handed_out_same|done].
Qed.

Lemma pop_push_frame src dst st :
  st_jobs (pop_back_push_front src dst st).2 = st_jobs st /\
  st_locks (pop_back_push_front src dst st).2 = st_locks st.
Proof. unfold pop_back_push_front. by repeat case_match. Qed.

(** Nothing waits, nothing moves. *)
Lemma pop_push_nil st :
  wait_list st = [] ->
  pop_back_push_front CollectionSuffix.Wait CollectionSuffix.Active st = (None, st).
Proof.
  intros Hnil. unfold pop_back_push_front, pop_back. rewrite back_iter. unfold deque_list in Hnil.
  apply fmap_nil_inv in Hnil. rewrite Hnil. cbn. by destruct st.
Qed.

Lemma run_priority s :
  deque_wf (st_active (sy_store s)) ->
  match sm_iter (st_prioritized (sy_store s)) with
  | [] => exists s', move_job_from_priorty_to_active s = (Ok None, s') /\
            sy_metrics s' = sy_metrics s /\ collections (sy_store s') = collections (sy_store s) /\
            st_jobs (sy_store s') = st_jobs (sy_store s) /\
            st_id_counter (sy_store s') = st_id_counter (sy_store s) /\
            st_priority_counter (sy_store s') = st_priority_counter (sy_store s)
  | (_, id) :: l => exists s', move_job_from_priorty_to_active s = (Ok (Some id), s') /\
      sy_metrics s' = sy_metrics s /\ st_jobs (sy_store s') = st_jobs (sy_store s) /\
      st_locks (sy_store s') = st_locks (sy_store s) /\
      active_list (sy_store s') = id :: active_list (sy_store s) /\
      st_waiting (sy_store s') = st_waiting (sy_store s) /\
      sm_iter (st_prioritized (sy_store s')) = l /\
      st_active (sy_store s') = push_front id (st_active (sy_store s)) /\
      st_id_counter (sy_store s') = st_id_counter (sy_store s) /\
      st_priority_counter (sy_store s') = st_priority_counter (sy_store s)
  end.
Proof.
  intros Hwf. destruct (sm_iter (st_prioritized (sy_store s))) as [|[sc id] l] eqn:Hm;
    unfold move_job_from_priorty_to_active.
  - pose proof (pop_front_nil _ Hm) as E. eexists. erewrite run_bind by apply run_on_store.
    unfold pop_set, pop_sorted. rewrite E. cbn [fst snd last].
    erewrite run_bind by apply run_upd_store. done.
  - destruct (pop_front_cons _ _ _ _ Hm) as (m' & E & Hl). eexists.
    erewrite run_bind by apply run_on_store. unfold pop_set, pop_sorted. rewrite E. cbn [fst snd last].
    erewrite run_bind by apply run_upd_store. split_and!; try done. by apply push_front_list.
Qed.

(** C6: a worker asking for a job on an unpaused queue gets the oldest
    waiting job, or, when none waits, the prioritized job with the least
    score; that job is at the front of the active list, off its old
    collection, marked active and locked with the worker's token for the lock
    duration.  A candidate whose record is gone makes the call fail, with the
    identifier left on the active list.  With no candidate the answer is to
    wait, and no collection changes. *)
Theorem move_to_active_outcome (token : JobToken) (opts : WorkerOpts) s :
  qm_is_paused (sy_metrics s) = false -> records_ok (st_jobs (sy_store s)) ->
  deque_wf (st_active (sy_store s)) ->
  let r := move_to_active token opts s in
  match next_candidate (sy_store s) with
  | None => r.1 = Ok (DelayUntil 0) /\ collections (sy_store r.2) = collections (sy_store s)
  | Some id =>
      exists o, r.1 = match o with Ok j => Ok (ProcessJob j) | Err e => Err e | Panic => Panic end /\
      handed_out token opts id s o (sy_store r.2) /\
      active_list (sy_store r.2) = id :: active_list (sy_store s) /\
      wait_list (sy_store r.2) = removelast (wait_list (sy_store s)) /\
      (wait_list (sy_store s) = [] ->
       sm_iter (st_prioritized (sy_store r.2)) = tail (sm_iter (st_prioritized (sy_store s))))
  end.
Proof.
  intros Hp Hok Hwf r. unfold r, move_to_active, next_candidate.
  rewrite (run_bind _ _ s (utc (sy_reads s)) (tick s)) by done.
  rewrite (run_bind _ _ (tick s) (false, JobState.Wait) (tick s)) by (by apply run_target).
  erewrite run_bind by apply run_on_store.
  destruct (last (wait_list (sy_store s))) as [id|] eqn:Hlast.
  - apply last_snoc_inv in Hlast as [l Hw].
    destruct (dequeue_one (sy_store s) id l Hw) as (st' & E & Hw' & Ha').
    pose proof (pop_push_frame CollectionSuffix.Wait CollectionSuffix.Active (sy_store s)) as [Hj Hl].
    change (sy_store (tick s)) with (sy_store s). rewrite E in *. cbn [fst snd] in *.
    destruct (hand_out token opts (timestamp_micros (utc (sy_reads s))) id s
      (with_store st' (tick s))) as (o & s' & Eo & Ho & Hc); [done..| |].
    { cbn [with_store sy_store set_sy_store]. rewrite Ha'. by apply push_front_list. }
    unfold from_job_state_pair. rewrite Eo. exists o. cbn [fst snd]. rewrite Hw.
    injection Hc as Hca Hcw _ _ _ _ _ _. rewrite Hca, Hcw. split_and!; try done.
    + cbn. rewrite Ha'. by apply push_front_list.
    + cbn. by rewrite removelast_last.
    + by destruct l.
  - apply last_None in Hlast. rewrite Hlast.
    change (sy_store (tick s)) with (sy_store s). rewrite (pop_push_nil _ Hlast).
    cbn [fst snd]. set (s1 := with_store _ _). pose proof (run_priority s1 Hwf) as Hpr.
    change (sy_store s1) with (sy_store s) in Hpr.
    destruct (sm_iter (st_prioritized (sy_store s))) as [|[sc id] l] eqn:Hm; cbn.
    + destruct Hpr as (s' & E & _ & Hc & _). rewrite (run_bind _ _ _ _ _ E). done.
    + destruct Hpr as (s' & E & Hmet & Hj & Hl & Ha & Hw & Hpl & _). rewrite (run_bind _ _ _ _ _ E).
      destruct (hand_out token opts (timestamp_micros (utc (sy_reads s))) id s s')
        as (o & s2 & Eo & Ho & Hc); [by rewrite Hmet|done..|].
      rewrite Eo. exists o. cbn [fst snd]. injection Hc as Hca Hcw _ _ _ _ Hcp _.
      rewrite Hca, Hcw, Hcp, Hw. split_and!; done.
Qed.

(** ** Keeping a lock *)

Lemma get_token_visible now id st :
  (get_token now id st).1 =
  match visible now (st_locks st) (lock_tag id) with Some (LToken token) => Some token | _ => None end.
Proof.
  unfold get_token. rewrite <- timed_get_visible. by destruct (timed_get _ _ _).
Qed.

Lemma get_token_frame now id st :
  (get_token now id st).2 = set_st_locks (timed_get now (lock_tag id) (st_locks st)).2 st.
Proof. unfold get_token. by destruct (timed_get _ _ _). Qed.

(** C32: a lock can be extended only by its holder: the call succeeds exactly
    when an unexpired lock with the caller's token is held, and then the lock
    lasts the full new duration counted from the call; otherwise it answers
    [false], and every reader of every lock sees what it would have seen. *)
Theorem extend_lock_owner (id duration : Z) (token : JobToken) s (t : Z) :
  disable_expiration (st_locks (sy_store s)) = false ->
  let now := instant (sy_reads s) 0 in
  let now' := instant (S (sy_reads s)) 0 in
  let held := visible now (st_locks (sy_store s)) (lock_tag id) in
  let r := extend_lock id duration token s in
  (held = Some (LToken token) ->
     r.1 = Ok true /\
     visible t (st_locks (sy_store r.2)) (lock_tag id) =
       (if t <? now' + from_millis duration then Some (LToken token) else None)) /\
  (held <> Some (LToken token) ->
     r.1 = Ok false /\ collections (sy_store r.2) = collections (sy_store s) /\
     forall key, now <= t ->
       visible t (st_locks (sy_store r.2)) key = visible t (st_locks (sy_store s)) key).
Proof.
  intros Hd now now' held r. unfold r, extend_lock. erewrite run_bind by apply run_timed.
  cbv beta. rewrite get_token_visible, get_token_frame. fold now held. split.
  - intros Hh. rewrite Hh, decide_True by done.
    erewrite run_bind by apply run_timed_upd. erewrite run_bind by apply run_upd_store.
    cbn [m_ret fst snd]. split; [done|].
    apply insert_expirable_lease_eq. unfold timed_get.
    destruct (sm_get _ _) as [e|]; [|done]. by destruct (is_expired now e).
  - intros Hh.
    set (s1 := with_store _ _).
    assert (E : forall c, (match (match held with Some (LToken tok) => Some tok | _ => None end) with
      | Some prev_token => if decide (prev_token = token) then c else m_ret false
      | None => m_ret false end : KM QSys bool) s1 = (Ok false, s1)).
    { intros c. destruct held as [[tok|]|]; try done. case_decide; [subst; done|done]. }
    rewrite E. cbn [fst snd]. split_and!; [done|done|]. intros key Hle.
    unfold s1; cbn [with_store sy_store set_sy_store st_locks set_st_locks].
    apply timed_get_invisible. exact Hle.
Qed.

(** ** Retention *)

(** The policies that delete the record of job [id]. *)
Definition deletes (ro : option RemoveOnCompletionOrFailure) (id : Z) : Prop :=
  ro = Some (RBool true) \/
  exists n, 0 < n < id /\ (ro = Some (RInt n) \/ exists a, ro = Some (ROpts (mkKeepJobs a (Some n)))).

Lemma exceeds_spec n id : 0 <= id < two63 -> exceeds n id = true <-> 0 < n < id.
Proof.
  intros Hid. unfold exceeds, id_as_i64. destruct (Z.ltb_spec id two63); [|lia].
  rewrite andb_true_iff, !Z.ltb_lt. lia.
Qed.

Lemma remove_record id st : remove (CollectionSuffix.Job id) st =
  with_jobs (timed_remove (job_tag id) (st_jobs st)) st.
Proof. done. Qed.

Lemma expire_record now id secs st :
  records_ok (st_jobs st) -> expire now (CollectionSuffix.Job id) secs st = st.
Proof.
  intros H. unfold expire, update_expiration_status. fold (job_tag id).
  destruct (sm_get (inner (st_jobs st)) (job_tag id)) as [e|] eqn:E; [|apply set_jobs_same].
  destruct (H _ _ E) as (i & job & -> & _). apply set_jobs_same.
Qed.

(** Either nothing happens to the store, or the record of [id] is removed. *)
Lemma clean_up_run id ro s :
  records_ok (st_jobs (sy_store s)) -> 0 <= id < two63 ->
  exists s', clean_up_job id ro s = (Ok tt, s') /\
    ((deletes ro id /\ sy_store s' = remove (CollectionSuffix.Job id) (sy_store s)) \/
     (~ deletes ro id /\ sy_store s' = sy_store s)).
Proof.
  intros Hok Hid. unfold deletes.
  assert (Hlim : forall n, (exceeds n id = true /\ 0 < n < id) \/ (exceeds n id = false /\ ~ 0 < n < id)).
  { intros n. pose proof (exceeds_spec n id Hid). destruct (exceeds n id); naive_solver. }
  destruct ro as [[[]|n|[a [n|]]]|]; cbn [clean_up_job].
  - eexists; split; [done|]. left; split; [by left|done].
  - eexists; split; [done|]. right; split; [naive_solver|done].
  - destruct (Hlim n) as [[-> Hn]|[-> Hn]]; (eexists; split; [done|]); [left|right]; naive_solver.
  - assert (Ha : exists s1, (match a with Some x => timed_upd (fun t => expire t (CollectionSuffix.Job id) x)
        | None => m_ret tt end) s = (Ok tt, s1) /\ sy_store s1 = sy_store s).
    { destruct a as [x|]; [|by exists s]. eexists; split; [done|]. cbn. by apply expire_record. }
    destruct Ha as (s1 & Ea & Hs1). rewrite (run_bind _ _ _ _ _ Ea).
    destruct (Hlim n) as [[-> Hn]|[-> Hn]]; (eexists; split; [done|]).
    + left. split; [naive_solver|]. cbn. by rewrite Hs1.
    + right. naive_solver.
  - destruct a as [x|].
    + eexists; split; [done|]. right. split; [naive_solver|]. cbn. by apply expire_record.
    + eexists; split; [done|]. right. naive_solver.
  - eexists; split; [done|]. right. naive_solver.
Qed.

(** C34: the retention policy of a finished job only looks at that job's own
    identifier: the record is deleted for [Bool(true)] and for a positive
    count limit smaller than the identifier, and kept otherwise, whatever the
    age limit says; no other record and no collection changes, so a count
    limit of [n] keeps the jobs numbered 1 to [n] and deletes every later
    one as it finishes. *)
Theorem clean_up_job_exact (id : Z) (ro : option RemoveOnCompletionOrFailure) s :
  records_ok (st_jobs (sy_store s)) -> 0 <= id < two63 ->
  exists s', clean_up_job id ro s = (Ok tt, s') /\
    collections (sy_store s') = collections (sy_store s) /\
    (deletes ro id -> entry (st_jobs (sy_store s')) (job_tag id) = None) /\
    (~ deletes ro id -> sy_store s' = sy_store s) /\
    forall k, k <> job_tag id -> entry (st_jobs (sy_store s')) k = entry (st_jobs (sy_store s)) k.
Proof.
  intros Hok Hid. destruct (clean_up_run id ro s Hok Hid) as (s' & E & H).
  exists s'. split; [done|]. destruct H as [[Hd ->]|[Hd ->]]; [|split_and!; naive_solver].
  rewrite remove_record. split_and!; [done| |naive_solver|].
  - intros _. cbn [with_jobs st_jobs set_st_jobs]. by rewrite entry_remove, decide_True.
  - intros k Hk. cbn [with_jobs st_jobs set_st_jobs]. by rewrite entry_remove, decide_False.
Qed.

(** ** Retrying *)

(** The delayed set has [id] under its due time, in the place of what was there,
    and is unchanged otherwise. *)
Definition delayed_until (due id : Z) st st' : Prop := forall k v,
  (k, v) ∈ sm_iter (st_delayed st') <->
  (k = cast_unsigned due /\ v = id) \/ (k <> cast_unsigned due /\ (k, v) ∈ sm_iter (st_delayed st)).

(** The failed set has lost [id]; but an entry whose finishing time happens to be
    that number goes instead of it. *)
Definition unfailed (id : Z) st st' : Prop := forall k v,
  (k, v) ∈ sm_iter (st_failed st') <->
  (k, v) ∈ sm_iter (st_failed st) /\ if decide (id ∈ (sm_iter (st_failed st)).*1) then k <> id else v <> id.

Lemma add_delayed due id append st :
  let st' := add_item CollectionSuffix.Delayed id (Some due) append st in
  delayed_until due id st st' /\ st' = set_st_delayed (st_delayed st') st.
Proof.
  split; [|done]. intros k v. cbn. rewrite iter_insert. apply alist_insert_elem, sm_sorted.
Qed.

Lemma remove_failed id st :
  let st' := remove_item CollectionSuffix.Failed id st in
  unfailed id st st' /\ st' = set_st_failed (st_failed st') st.
Proof.
  split; [|done]. intros k v. cbn. rewrite remove_scored_iter.
  case_decide; rewrite list_elem_of_filter; cbn; tauto.
Qed.

(** C35: what a retry does, on every branch.  A failed job with a strategy for its
    delay is filed in the delayed set under the time of the call plus the delay, in
    the place of a job that was due then, and is taken out of the failed set; but an
    entry of that set whose finishing time is the number of the job goes instead of
    it.  No other part of the store changes.  A
    repeating job goes to the front of the waiting list or to the delayed set, as
    its policy says, and stays in the set it was in.  Without a strategy, or when
    the policy is exhausted, nothing happens; a delay that ends outside the range
    of dates panics before anything has changed. *)
Theorem retry_job_placement (id attempts : Z) (opts : RetryOptions) s :
  deque_wf (st_waiting (sy_store s)) ->
  let st := sy_store s in
  let now := utc (sy_reads s) in
  let r := retry_job id opts attempts s in
  let st' := sy_store r.2 in
  match opts with
  | RetryFailed b =>
      match calculate_next_delay_ms (q_backoff (sy_ext s)) b (cast_signed attempts) with
      | Some d =>
          if decide (dated now d) then
            r.1 = Ok tt /\ delayed_until (timestamp_millis (now + milliseconds d)) id st st' /\
            unfailed id st st' /\ st' = set_st_failed (st_failed st') (set_st_delayed (st_delayed st') st)
          else r.1 = Panic /\ st' = st
      | None => r.1 = Ok tt /\ st' = st
      end
  | WithRepeat rp =>
      match next_occurrence now rp (q_backoff (sy_ext s)) attempts with
      | Some (Some 0) =>
          r.1 = Ok tt /\ wait_list st' = id :: wait_list st /\ st' = set_st_waiting (st_waiting st') st
      | Some (Some due) =>
          r.1 = Ok tt /\ delayed_until due id st st' /\ st' = set_st_delayed (st_delayed st') st
      | Some None => r.1 = Ok tt /\ st' = st
      | None => r.1 = Panic /\ st' = st
      end
  end.
Proof.
  intros Hwf st now r st'. subst r st'. unfold retry_job, retry_failed. destruct opts as [b|rp];
    rewrite !(run_bind _ _ s now (tick s)) by done;
    rewrite !(run_bind _ _ (tick s) (q_backoff (sy_ext s)) (tick s)) by done.
  - destruct (calculate_next_delay_ms _ _ _) as [d|]; [|done]. rewrite dt_add_dated. case_decide; [|done].
    set (due := timestamp_millis (now + milliseconds d)).
    destruct (add_delayed due id false st) as [H1 _].
    destruct (remove_failed id (add_item CollectionSuffix.Delayed id (Some due) false st)) as [H2 _].
    split_and!; done.
  - destruct (next_occurrence _ _ _ _) as [[[|z|z]|]|]; try done.
    + split_and!; [done| |done]. by apply push_front_list.
    + destruct (add_delayed (Z.pos z) id true st) as [H1 _]. by split_and!.
    + destruct (add_delayed (Z.neg z) id true st) as [H1 _]. by split_and!.
Qed.

(** ** Wiping the queue *)

(** C36: after [obliterate] nothing is left: every collection is empty, no
    job record can be found, the counters read zero, no worker is registered,
    the timers are cancelled, and the collector no longer knows the queue nor
    keeps it subscribed to any timer. *)
Theorem obliterate_wipes s :
  q_timers (sy_ext s) = true ->
  exists s', obliterate s = (Ok tt, s') /\
    (forall state, ids_in state (sy_store s') = []) /\
    (forall now id, (get_job now id (sy_store s')).1 = None) /\
    sy_metrics s' = set_qm_is_paused (qm_is_paused (sy_metrics s)) QueueMetrics_default /\
    sm_iter (q_workers (sy_ext s')) = [] /\ q_cancelled (sy_ext s') = true /\
    sm_get (co_queues (q_collector (sy_ext s'))) (q_id (sy_ext s)) = None.
Proof.
  intros Ht. unfold obliterate, delete_all_jobs.
  erewrite run_bind by (erewrite run_bind by done; apply run_upd_store).
  erewrite run_bind by apply run_upd_store.
  erewrite run_bind by done.
  match goal with |- context [m_bind (publish_now ?f) _ ?t] =>
    destruct (publish_now_frame f t) as (b & s2 & E & Hs & Hx & Hq); [done|] end.
  rewrite (run_bind _ _ _ _ _ E). erewrite run_bind by done.
  erewrite run_bind by apply run_upd_store. erewrite run_bind by done.
  cbn [sy_ext with_store set_sy_store set_sy_metrics] in *. rewrite Hx, Ht.
  eexists; split; [done|]. cbn. rewrite Hs, Hx, ?iter_clear.
  split_and!; try done.
  - intros state. unfold ids_in, deque_list. destruct state; cbn; by rewrite ?iter_clear.
  - intros now id. unfold get_job, timed_get; cbn. by rewrite get_clear.
  - unfold metrics_clear, metrics_update. cbn in *. by rewrite Hq.
  - by rewrite get_remove_eq.
Qed.
End QueueProps.

(** ** Witnesses *)

Section Witnesses.
#[local] Existing Instance sample_extern.
#[local] Existing Instance sample_clock.

Definition sample_token : JobToken := mkToken 3 4 0.

Definition waiting_queue : Sys ZMap Z Z Z (QueueExt ZMap StrMap Z Z Z) :=
  (add_job "a" 5 None sample_queue).2.

Definition active_queue : Sys ZMap Z Z Z (QueueExt ZMap StrMap Z Z Z) :=
  (move_to_active sample_token (WorkerOpts_default 4) waiting_queue).2.

Lemma sample_queue_store : rtc store_step sample_store (sy_store sample_queue).
Proof. exact (rtc_once _ _ (step_listener sample_store)). Qed.

Lemma queue_records s : rtc queue_step sample_queue s -> records_ok (st_jobs (sy_store s)).
Proof.
  intros H%queue_run_steps. eapply reachable_records. etrans; [exact sample_queue_store|exact H].
Qed.

Lemma waiting_queue_run : rtc queue_step sample_queue waiting_queue.
Proof. exact (rtc_once _ _ (queue_run (add_job "a" 5 None) _ (op_add_job _ _ _))). Qed.

Lemma active_queue_run : rtc queue_step sample_queue active_queue.
Proof.
  refine (rtc_r _ _ _ waiting_queue_run _).
  exact (queue_run (move_to_active _ _) _ (op_move_to_active _ _)).
Qed.

Lemma move_to_active_outcome_witness :
  exists job, (move_to_active sample_token (WorkerOpts_default 4) waiting_queue).1 =
    Ok (ProcessJob job) /\ j_token job = Some sample_token /\
  active_list (sy_store active_queue) = [1].
Proof.
  pose proof (move_to_active_outcome sample_token (WorkerOpts_default 4) waiting_queue) as H.
  assert (E : next_candidate (sy_store waiting_queue) = Some 1) by (vm_compute; reflexivity).
  destruct (entry (st_jobs (sy_store waiting_queue)) (job_tag 1)) as [e|] eqn:He;
    [|vm_compute in He; discriminate He].
  destruct (queue_records _ waiting_queue_run _ _ He) as (i & job & -> & _).
  cbv zeta in H. rewrite E in H. destruct H as (o & H1 & [H2 _] & H3 & _).
  - vm_compute. reflexivity.
  - exact (queue_records _ waiting_queue_run).
  - split_and!; try (vm_compute; split; discriminate || reflexivity).
    intros k v Hk. vm_compute in Hk. by apply not_elem_of_nil in Hk.
  - destruct (H2 job He) as (job' & now & -> & _ & _ & Ht & _).
    exists job'. split_and!; [exact H1|exact Ht|].
    unfold active_queue. rewrite H3. vm_compute. reflexivity.
Defined.

Lemma finish_job_witness :
  exists job s', move_job_to_finished_or_failed 1 1000 sample_token JobState.Completed
    (PSuccess 42 JobMetrics_default) None active_queue = (Ok job, s') /\
  j_state job = JobState.Completed /\ j_attempts_made job = 1.
Proof.
  destruct (finish_job 1 1000 sample_token JobState.Completed (PSuccess 42 JobMetrics_default)
    None active_queue) as [H _].
  - vm_compute. reflexivity.
  - reflexivity.
  - exact I.
  - unfold two63. lia.
  - destruct (entry (st_jobs (sy_store active_queue)) (job_tag 1)) as [e|] eqn:He;
      [|vm_compute in He; discriminate He].
    destruct (queue_records _ active_queue_run _ _ He) as (i & job & -> & _).
    assert (Hs : (j_state job, j_attempts_made job) = (JobState.Active, 0)).
    { assert (Hm : (fun e => (j_state (ev_value e), j_attempts_made (ev_value e))) <$>
        entry (st_jobs (sy_store active_queue)) (job_tag 1) = Some (JobState.Active, 0))
        by (vm_compute; reflexivity).
      rewrite He in Hm. by injection Hm as -> ->. }
    injection Hs as Hs1 Hs2.
    destruct (H job He Hs1) as (job' & s' & E & _ & H3 & H4 & _).
    + rewrite Hs2. lia.
    + rewrite Hs2. unfold two63. lia.
    + exists job', s'. split_and!; [exact E|exact H3|]. rewrite H4, Hs2. reflexivity.
Defined.

Lemma extend_lock_owner_witness :
  (extend_lock 1 1000 sample_token active_queue).1 = Ok true /\
  (extend_lock 1 1000 (mkToken 9 9 9) active_queue).1 = Ok false.
Proof.
  split.
  - apply (extend_lock_owner 1 1000 sample_token active_queue 0);
      vm_compute; reflexivity.
  - apply (extend_lock_owner 1 1000 (mkToken 9 9 9) active_queue 0);
      vm_compute; [reflexivity|discriminate].
Defined.

Lemma clean_up_job_exact_witness :
  exists s', clean_up_job 1 (Some (RBool true)) active_queue = (Ok tt, s') /\
  entry (st_jobs (sy_store s')) (job_tag 1) = None.
Proof.
  destruct (clean_up_job_exact 1 (Some (RBool true)) active_queue) as (s' & E & _ & H & _).
  - exact (queue_records _ active_queue_run).
  - unfold two63. lia.
  - exists s'. split; [exact E|]. apply H. left. reflexivity.
Defined.

Lemma obliterate_wipes_witness :
  exists s', obliterate active_queue = (Ok tt, s') /\
  forall state, ids_in state (sy_store s') = [].
Proof.
  destruct (obliterate_wipes active_queue) as (s' & E & H & _).
  - vm_compute. reflexivity.
  - exists s'. split; [exact E|exact H].
Defined.

Definition failed_queue : Sys ZMap Z Z Z (QueueExt ZMap StrMap Z Z Z) :=
  (move_job_to_finished_or_failed 1 1000 sample_token JobState.Failed
     (PFailed (mkFailedDetails 1 "boom")) None active_queue).2.

Lemma failed_waiting_wf : deque_wf (st_waiting (sy_store failed_queue)).
Proof.
  split_and!; try (vm_compute; split; discriminate || reflexivity).
  intros k v Hk. vm_compute in Hk. by apply not_elem_of_nil in Hk.
Qed.

Lemma failed_queue_values :
  calculate_next_delay_ms (q_backoff (sy_ext failed_queue)) (Number 100) (cast_signed 1) = Some 100 /\
  sm_iter (st_failed (sy_store failed_queue)) = [(1000, 1)] /\
  sm_iter (st_delayed (sy_store failed_queue)) = [].
Proof. vm_compute. split_and!; reflexivity. Qed.

Lemma retry_job_placement_witness :
  let s' := (retry_job 1 (RetryFailed (Number 100)) 1 failed_queue).2 in
  (exists due, (due, 1) ∈ sm_iter (st_delayed (sy_store s'))) /\
  forall k v, ((k, v) ∉ sm_iter (st_failed (sy_store s'))).
Proof.
  pose proof (retry_job_placement 1 1 (RetryFailed (Number 100)) failed_queue failed_waiting_wf) as H.
  destruct failed_queue_values as (E1 & E2 & E3). cbv beta zeta iota in H |- *. rewrite E1 in H.
  rewrite decide_True in H by (apply sample_dated; lia). destruct H as (_ & Hd & Hf & _). split.
  - eexists. apply Hd. left. split; reflexivity.
  - intros k v [Hin Hne]%Hf. rewrite E2 in Hin, Hne. apply list_elem_of_singleton in Hin as [= -> ->].
    case_decide as Hc; [|by apply Hne]. apply list_elem_of_singleton in Hc. done.
Defined.
End Witnesses.
