(* ===== verification/Lifecycle.v ===== *)
(** * The life of a job: every job runs once, by priority and order of arrival

    Clients add jobs and workers take, finish and clean them up, in any order and
    any number, on the in-memory store.  An abstract queue, a number and four
    lists, says what each call must answer; the methods of [Queue] answer the
    same, whatever the clock says. *)

From S2P Require Import Prelude SkipMap Deque TimedMap Extern Schedule Job Options Events Shared Metrics InMemoryStore StoreProps StoreScored StoreRecords StoreInsert Collector Queue QueueInv QueueProps.

(** ** The abstract queue *)

(** Jobs are numbered from one, [f_issued] being the last.  [f_waiting] have no
    priority and wait in the order of arrival; [f_prioritized] have one, a smaller
    rank going first, and wait in the order in which they are served, as pairs of
    rank and number.  [f_running] are with a worker, the last one taken
    first, and [f_done] have been finished, in order. *)
Record Line : Type := mkLine {
  f_issued : Z;
  f_waiting : list Z;
  f_prioritized : list (Z * Z);
  f_running : list Z;
  f_done : list Z;
}.

Definition line_new : Line := mkLine 0 [] [] [] [].

(** Behind the jobs of the same rank. *)
Fixpoint file (p id : Z) (l : list (Z * Z)) : list (Z * Z) :=
  match l with
  | [] => [(p, id)]
  | q :: l' => if p <? q.1 then (p, id) :: l else q :: file p id l'
  end.

(** Jobs that no one has taken go first; then the prioritized ones. *)
Definition take (f : Line) : option (Z * Line) :=
  match f_waiting f, f_prioritized f with
  | id :: w, l => Some (id, mkLine (f_issued f) w l (id :: f_running f) (f_done f))
  | [], (_, id) :: l => Some (id, mkLine (f_issued f) [] l (id :: f_running f) (f_done f))
  | [], [] => None
  end.

Definition settle (id : Z) (f : Line) : Line :=
  mkLine (f_issued f) (f_waiting f) (f_prioritized f) (filter (fun x => x <> id) (f_running f)) (f_done f ++ [id]).

Inductive Answer : Type :=
| Added (ids : list Z)
| Started (id : Z)
| Idle
| Ended (id : Z)
| Cleaned
| Refused.

(** Served before: by rank, then by number. *)
Definition before (q q' : Z * Z) : Prop := q.1 < q'.1 \/ (q.1 = q'.1 /\ q.2 < q'.2).

Lemma file_perm p id l : file p id l ≡ₚ (p, id) :: l.
Proof.
  induction l as [|q l IH]; [done|]. cbn. case_match; [done|]. rewrite IH. apply Permutation_swap.
Qed.

Lemma file_sorted p id l :
  Forall (fun q => q.2 < id) l -> StronglySorted before l -> StronglySorted before (file p id l).
Proof.
  intros Hid. induction 1 as [|q l Hs IH Hq]; cbn; [by repeat constructor|].
  apply Forall_cons in Hid as [Hqid Hid]. destruct (Z.ltb_spec p q.1) as [Hlt|Hge].
  - constructor; [by constructor|]. constructor; [by left|].
    eapply Forall_impl; [exact Hq|]. unfold before. cbn. lia.
  - constructor; [by apply IH|]. rewrite file_perm. constructor; [|done].
    unfold before. cbn. lia.
Qed.

Lemma seqZ_snoc m n : 0 <= n -> seqZ m (n + 1) = seqZ m n ++ [m + n].
Proof. intros Hn. by rewrite seqZ_app by lia. Qed.

Lemma Forall_impl_in {A} (F G : A -> Prop) l : Forall F l -> (forall x, x ∈ l -> F x -> G x) -> Forall G l.
Proof. rewrite !Forall_forall. naive_solver. Qed.

(** *** What holds of every abstract queue *)

(** The jobs that have not been finished, with the state of their records. *)
Definition expected (f : Line) : list (JobState.t * Z) :=
  (pair JobState.Wait <$> f_waiting f) ++ (pair JobState.Prioritized <$> (f_prioritized f).*2) ++
  (pair JobState.Active <$> f_running f).

Record line_ok (f : Line) : Prop := {
  lo_bound : 0 <= f_issued f < 2 ^ 56;
  lo_all : (expected f).*2 ++ f_done f ≡ₚ seqZ 1 (f_issued f);
  lo_sorted : StronglySorted before (f_prioritized f);
}.

Lemma expected_ids f : (expected f).*2 = f_waiting f ++ (f_prioritized f).*2 ++ f_running f.
Proof. unfold expected. rewrite !fmap_app, <- !list_fmap_compose. by rewrite !list_fmap_id. Qed.

Lemma expected_bounds f q : line_ok f -> q ∈ expected f -> 1 <= q.2 <= f_issued f.
Proof.
  intros Hok Hq. assert (Hin : q.2 ∈ (expected f).*2 ++ f_done f).
  { apply elem_of_app. left. by apply list_elem_of_fmap_2. }
  rewrite (lo_all f Hok), elem_of_seqZ in Hin. lia.
Qed.

Lemma expected_nodup f : line_ok f -> NoDup (expected f).*2 /\ forall id, id ∈ f_done f -> (id ∉ (expected f).*2).
Proof.
  intros Hok. assert (Hnd : NoDup ((expected f).*2 ++ f_done f)) by (rewrite (lo_all f Hok); apply NoDup_seqZ).
  apply NoDup_app in Hnd as (H1 & H2 & _). split; [done|]. intros id Hd He. by apply (H2 id).
Qed.

(** The step of one job from one place to the next. *)
Lemma expected_take f id f' :
  take f = Some (id, f') ->
  exists state rest, expected f ≡ₚ (state, id) :: rest /\
    expected f' ≡ₚ (JobState.Active, id) :: rest /\
    f_running f' = id :: f_running f /\ f_done f' = f_done f /\ f_issued f' = f_issued f.
Proof.
  unfold take, expected. intros H. destruct (f_waiting f) as [|i w]; [destruct (f_prioritized f) as [|[p i] l]; [done|]|];
    injection H as <- <-; cbn.
  - eexists JobState.Prioritized, _. split_and!; [done| |done..]. by rewrite <- Permutation_middle.
  - eexists JobState.Wait, _. split_and!; [done| |done..]. by rewrite <- !Permutation_middle.
Qed.

Lemma filter_ne_perm (id : Z) (l : list Z) : NoDup l -> id ∈ l -> l ≡ₚ id :: filter (fun x => x <> id) l.
Proof.
  intros Hnd Hin. apply NoDup_Permutation; [done| |].
  - constructor; [rewrite list_elem_of_filter; naive_solver|by apply NoDup_filter].
  - intros x. rewrite elem_of_cons, list_elem_of_filter. destruct (decide (x = id)); naive_solver.
Qed.

Lemma running_nodup f : line_ok f -> NoDup (f_running f).
Proof.
  intros Hok. destruct (expected_nodup f Hok) as [Hnd _]. rewrite expected_ids in Hnd.
  by apply NoDup_app in Hnd as (_ & _ & (_ & _ & ?)%NoDup_app).
Qed.

Lemma expected_settle f id :
  line_ok f -> id ∈ f_running f -> expected f ≡ₚ (JobState.Active, id) :: expected (settle id f).
Proof.
  intros Hok Hin. unfold expected, settle. cbn [f_waiting f_prioritized f_running].
  rewrite (filter_ne_perm id (f_running f)) at 1 by (done || by apply running_nodup).
  cbn. by rewrite <- !Permutation_middle.
Qed.

Lemma take_ok f id f' : line_ok f -> take f = Some (id, f') -> line_ok f'.
Proof.
  intros [Hb Ha Hs] H. destruct (expected_take f id f' H) as (state & rest & E & E' & Hr & Hd & Hi). split.
  - by rewrite Hi.
  - by rewrite E', Hd, Hi, <- Ha, E.
  - unfold take in H. destruct (f_waiting f), (f_prioritized f) as [|[? ?] ?]; simplify_eq; try done.
    by apply StronglySorted_inv in Hs as [? _].
Qed.

Lemma settle_ok id f : line_ok f -> id ∈ f_running f -> line_ok (settle id f).
Proof.
  intros Hok Hin. pose proof (expected_settle f id Hok Hin) as E. destruct Hok as [Hb Ha Hs]. split; [done| |done].
  change (f_issued (settle id f)) with (f_issued f). rewrite <- Ha, E. cbn [settle f_done fmap list_fmap snd].
  rewrite (Permutation_app_comm (f_done f)). symmetry. apply Permutation_middle.
Qed.

Section Lifecycle.
Context {SM SS : Type -> Type} `{OPS : !SkipMap Z SM} `{SOPS : !SkipMap string SS}
  {EXT : Extern} {CLK : Clock} {D R P : Type}.
Abbreviation Store := (InMemoryStore SM D R P).
Abbreviation QSys := (Sys SM D R P (QueueExt SM SS D R P)).
Abbreviation Item := (string * option JobOptions * D)%type.
Implicit Types st : Store.
Implicit Types s : QSys.
Implicit Types f : Line.

Inductive Call : Type :=
| CAdd (iter : list Item)
| CTake (token : JobToken) (opts : WorkerOpts)
| CFinish (id ts : Z) (token : JobToken) (to : JobState.t) (value : ProcessedResult R) (bt : option Trace)
| CClean (id : Z) (ro : option RemoveOnCompletionOrFailure).

Definition priority_of (item : Item) : Z := jo_priority (unwrap_or JobOptions_default item.1.2).
Definition ranked (item : Item) : bool := 0 <? priority_of item.

(** What the score keeps of a priority: its lower half.  Up to [2 ^ 32] this is
    the priority itself. *)
Definition rank (item : Item) : Z := priority_of item mod 2 ^ 32.

(** An item without delay. *)
Definition prompt (item : Item) : bool :=
  match jo_delay (unwrap_or JobOptions_default item.1.2) with TimeMilis ms => ms =? 0 | _ => false end.

Definition enter (f : Line) (item : Item) : Line :=
  let id := f_issued f + 1 in
  if ranked item
  then mkLine id (f_waiting f) (file (rank item) id (f_prioritized f)) (f_running f) (f_done f)
  else mkLine id (f_waiting f ++ [id]) (f_prioritized f) (f_running f) (f_done f).

(** How many jobs a queue may number: ranks share a word with a counter. *)
Definition limit (iter : list Item) : Z := if existsb ranked iter then 2 ^ 32 else 2 ^ 56.

Definition fits (to : JobState.t) (value : ProcessedResult R) : bool :=
  match to, value with
  | JobState.Completed, PSuccess _ _ => true
  | JobState.Failed, _ => true
  | _, _ => false
  end.

(** What a call must answer; [None] for a call that clients do not make: jobs
    that are delayed, a worker that finishes a job it does not hold or cleans up
    one that is not finished. *)
Definition line_call (c : Call) (f : Line) : option (Answer * Line) :=
  match c with
  | CAdd iter =>
      let n := Z.of_nat (length iter) in
      if forallb prompt iter && (f_issued f + n <? limit iter)
      then Some (Added (seqZ (f_issued f + 1) n), foldl enter f iter)
      else None
  | CTake _ _ =>
      match take f with
      | Some (id, f) => Some (Started id, f)
      | None => Some (Idle, f)
      end
  | CFinish id _ _ to value _ =>
      if decide (id ∈ f_running f) then
        if fits to value then Some (Ended id, settle id f) else None
      else None
  | CClean id _ => if decide (id ∈ f_done f) then Some (Cleaned, f) else None
  end.

Fixpoint line_run (cs : list Call) (f : Line) : option (list Answer * Line) :=
  match cs with
  | [] => Some ([], f)
  | c :: cs =>
      '(a, f) ← line_call c f;
      '(l, f) ← line_run cs f;
      Some (a :: l, f)
  end.

(** ** The calls on a queue *)

Definition perform (c : Call) (s : QSys) : Answer * QSys :=
  match c with
  | CAdd iter =>
      match bulk_add iter s with
      | (Ok jobs, s) => (match mapM j_id jobs with Some ids => Added ids | None => Refused end, s)
      | (_, s) => (Refused, s)
      end
  | CTake token opts =>
      match move_to_active token opts s with
      | (Ok (ProcessJob job), s) => (match j_id job with Some id => Started id | None => Refused end, s)
      | (Ok (DelayUntil _), s) => (Idle, s)
      | (_, s) => (Refused, s)
      end
  | CFinish id ts token to value bt =>
      match move_job_to_finished_or_failed id ts token to value bt s with
      | (Ok job, s) => (match j_id job with Some id => Ended id | None => Refused end, s)
      | (_, s) => (Refused, s)
      end
  | CClean id ro =>
      match clean_up_job id ro s with
      | (Ok _, s) => (Cleaned, s)
      | (_, s) => (Refused, s)
      end
  end.

Fixpoint perform_all (cs : list (Call)) (s : QSys) : list Answer * QSys :=
  match cs with
  | [] => ([], s)
  | c :: cs =>
      let '(a, s) := perform c s in
      let '(l, s) := perform_all cs s in (a :: l, s)
  end.

Context `{LAWS : !SkipMapLaws Z SM}.

(** ** Calls about one job leave the other records alone *)

Definition stays (id : Z) : relation Store := fun st st' =>
  st_id_counter st' = st_id_counter st /\ st_priority_counter st' = st_priority_counter st /\
  forall k, k <> job_tag id -> entry (st_jobs st') k = entry (st_jobs st) k.

Definition frame (id : Z) : relation QSys := fun s s' => stays id (sy_store s) (sy_store s').

#[export] Instance frame_preorder id : PreOrder (frame id).
Proof.
  split; [by intros s|]. intros s1 s2 s3 (H1 & H2 & H3) (H4 & H5 & H6). split_and!; [congruence..|].
  intros k Hk. by rewrite H6, H3.
Qed.

Lemma frame_on_store id {A} (g : Store -> A * Store) :
  (forall st, stays id st (g st).2) -> preserves (frame id) (on_store g).
Proof. intros H. apply preserves_state. intros s. specialize (H (sy_store s)). by destruct (g (sy_store s)). Qed.

Lemma frame_upd_store id (g : Store -> Store) :
  (forall st, stays id st (g st)) -> preserves (frame id) (upd_store g).
Proof. intros H. apply preserves_modify. intros s. apply H. Qed.

Lemma frame_utc_now id : preserves (frame id) utc_now.
Proof. by intros s. Qed.

Lemma frame_instants id : preserves (frame id) instants.
Proof. by intros s. Qed.
Hint Resolve frame_on_store frame_upd_store frame_utc_now frame_instants : kio.

Lemma frame_timed id {A} (g : Z -> Store -> A * Store) :
  (forall t st, stays id st (g t st).2) -> preserves (frame id) (timed g).
Proof. intros H. unfold timed. preserve. Qed.

Lemma frame_timed_upd id (g : Z -> Store -> Store) :
  (forall t st, stays id st (g t st)) -> preserves (frame id) (timed_upd g).
Proof. intros H. unfold timed_upd. preserve. Qed.

Lemma frame_cells id (g : QSys -> QSys) :
  (forall s, sy_store (g s) = sy_store s) -> preserves (E := KioError) (frame id) (modify g).
Proof. intros H s. unfold frame. cbn. by rewrite H. Qed.
Hint Resolve frame_timed frame_timed_upd : kio.

Lemma frame_publish id (event : QueueStreamEvent R P) : preserves (frame id) (publish_event event).
Proof.
  unfold publish_event, process_each_event, pause_or_resume_workers, resume_helper. preserve.
  all: try (apply frame_cells; intros s; by repeat case_match).
Qed.
Hint Resolve frame_publish : kio.

(** The store operations of such calls. *)
Lemma stays_jobs id (m : TimedMap SM (Job D R P)) st :
  (forall k, k <> job_tag id -> entry m k = entry (st_jobs st) k) -> stays id st (set_st_jobs m st).
Proof. by split. Qed.

Lemma stays_write id now g st : stays id st (set_st_jobs (timed_write now (job_tag id) g (st_jobs st)) st).
Proof. apply stays_jobs. intros k Hk. by rewrite entry_write, decide_False. Qed.

Lemma stays_get id now st : stays id st (set_st_jobs (timed_get now (job_tag id) (st_jobs st)).2 st).
Proof. apply stays_jobs. intros k Hk. by rewrite timed_get_entry, decide_False. Qed.

Lemma stays_get_state id now st : stays id st (get_state now id st).2.
Proof. pose proof (stays_get id now st). unfold get_state. by destruct (timed_get _ _ _). Qed.

Lemma stays_get_job id now st : stays id st (get_job now id st).2.
Proof. pose proof (stays_get id now st). unfold get_job. by destruct (timed_get _ _ _). Qed.

Lemma stays_exists id now st : stays id st (job_exists now id st).2.
Proof.
  pose proof (stays_get id now st) as H. rewrite <- timed_contains_key_state in H.
  unfold job_exists, exists_in. fold (job_tag id). by destruct (timed_contains_key _ _ _).
Qed.

Lemma stays_in_state id now to st : stays id st (exists_in now (CollectionSuffix.from_state to) id st).2.
Proof. by destruct to. Qed.

Lemma stays_incr id now field st : stays id st (incr now (CollectionSuffix.Job id) 1 field st).2.
Proof.
  pose proof (stays_get id now st) as H. unfold incr. destruct field as [field|]; [|done]. fold (job_tag id).
  destruct (timed_get _ _ _) as [[job|] tm]; cbn in H |- *; [|done].
  repeat case_match; cbn; try done; apply stays_write.
Qed.

Lemma stays_set_fields id now fields st : stays id st (set_fields now id fields st).
Proof. apply stays_write. Qed.

Lemma stays_set_lock id id' now token d st : stays id st (set_lock now (CollectionSuffix.Lock id') token d st).
Proof. done. Qed.

Lemma stays_remove_item id from st : stays id st (remove_item (CollectionSuffix.from_state from) id st).
Proof. by destruct from. Qed.

Lemma stays_add_item id to score append st : stays id st (add_item (CollectionSuffix.from_state to) id score append st).
Proof. by destruct to. Qed.
Hint Resolve stays_get_state stays_get_job stays_exists stays_in_state stays_incr stays_set_fields
  stays_set_lock stays_remove_item stays_add_item : kio.

Lemma frame_move id from to value ts bt : preserves (frame id) (move_job_to_state id from to value ts bt).
Proof. unfold move_job_to_state, is_paused, publish_now. preserve. Qed.
Hint Resolve frame_move : kio.

Lemma frame_finish id ts token to value bt :
  preserves (frame id) (move_job_to_finished_or_failed id ts token to value bt).
Proof. unfold move_job_to_finished_or_failed, queue_get_job. preserve. Qed.

Lemma frame_prepare id token opts ts : preserves (frame id) (prepare_job token opts ts id).
Proof. unfold prepare_job, prepare_job_for_processing, queue_get_job. preserve. Qed.

(** ** The simulation *)

Definition in_state st (q : JobState.t * Z) : Prop :=
  exists job, has_record st q.2 job /\ j_id job = Some q.2 /\ j_state job = q.1.

(** A deque with room for [n] more pushes at the front. *)
Definition roomy (n : Z) (d : ConcurrentDeque SM Z) : Prop := deque_wf d /\ - two63 < head_idx d - n.

(** The entry of the prioritized set for a job: its score is made of the priority
    and of a reading of the counter, which is at [pc] now. *)
Definition scored_as (pc : Z) (q e : Z * Z) : Prop :=
  e.2 = q.2 /\ exists c, e.1 = q.1 * 2 ^ 32 + c /\ 0 <= c <= pc /\ c < 2 ^ 32.

Definition f_started f : Z := Z.of_nat (length (f_running f) + length (f_done f)).

(** What a store has in common with an abstract queue. *)
Record stored f st : Prop := {
  so_counter : st_id_counter st = f_issued f;
  so_priority_counter : 0 <= st_priority_counter st <= f_issued f;
  so_waiting : wait_list st = rev (f_waiting f);
  so_active : active_list st = f_running f;
  so_prioritized :
    Forall2 (scored_as (st_priority_counter st)) (f_prioritized f) (sm_iter (st_prioritized st));
  so_room_waiting : roomy (2 ^ 56 - f_issued f) (st_waiting st);
  so_room_active : roomy (2 ^ 56 - f_started f) (st_active st);
  so_records : Forall (in_state st) (expected f);
}.

Record simulates f s : Prop := {
  si_ok : line_ok f;
  si_flag : qm_is_paused (sy_metrics s) = false;
  si_records : records_ok (st_jobs (sy_store s));
  si_stored : stored f (sy_store s);
}.

(** Only the record of [id] has changed. *)
Definition others_kept (id : Z) st st' : Prop :=
  forall k, k <> job_tag id -> entry (st_jobs st') k = entry (st_jobs st) k.

Lemma records_kept id st st' (l : list (JobState.t * Z)) :
  others_kept id st st' -> 0 <= id < 2 ^ 56 -> (id ∉ l.*2) -> (forall q, q ∈ l -> 0 <= q.2 < 2 ^ 56) ->
  Forall (in_state st) l -> Forall (in_state st') l.
Proof.
  intros Hk Hid Hnot Hb Hl. eapply Forall_impl_in; [exact Hl|]. intros q Hq (job & Hr & Hj).
  exists job. split; [|done]. unfold has_record in *. rewrite Hk; [done|].
  intros E%job_tag_inj; [|by apply Hb|done]. apply Hnot. rewrite <- E. by apply list_elem_of_fmap_2.
Qed.

Lemma records_rest f id state st st' rest :
  line_ok f -> expected f ≡ₚ (state, id) :: rest -> others_kept id st st' ->
  Forall (in_state st) (expected f) -> 1 <= id <= f_issued f /\ in_state st (state, id) /\ Forall (in_state st') rest.
Proof.
  intros Hok E Hk Hf. pose proof (lo_bound f Hok) as Hb. destruct (expected_nodup f Hok) as [Hnd _].
  assert (Hin : forall q, q ∈ (state, id) :: rest -> 1 <= q.2 <= f_issued f).
  { intros q Hq. rewrite <- E in Hq. by apply expected_bounds. }
  rewrite E in Hf, Hnd. apply Forall_cons in Hf as [H1 H2]. cbn in Hnd. apply NoDup_cons in Hnd as [Hnot _].
  pose proof (Hin (state, id) ltac:(by left)) as Hid. cbn in Hid. split_and!; [lia|lia|done|].
  eapply records_kept; [done|lia|done| |done]. intros q Hq. specialize (Hin q ltac:(by right)). lia.
Qed.

Lemma op_keeps {A} (c : KM QSys A) s :
  queue_op c -> qm_is_paused (sy_metrics s) = false -> records_ok (st_jobs (sy_store s)) ->
  qm_is_paused (sy_metrics (c s).2) = false /\ records_ok (st_jobs (sy_store (c s).2)).
Proof.
  intros Hop Hf Hr. split; [by rewrite (queue_op_flag c Hop s)|].
  pose proof (queue_op_steps c Hop s) as Hs. unfold steps in Hs. revert Hs Hr.
  generalize (sy_store s) (sy_store (c s).2). induction 1 as [|st1 st2 st3 H _ IH]; [done|].
  intros Hr. by eapply IH, step_records.
Qed.

Lemma push_roomy n v (d : ConcurrentDeque SM Z) : 0 < n -> roomy n d -> roomy (n - 1) (push_front v d).
Proof.
  intros Hn [Hwf Hr]. split; [by eapply push_front_wf_room|].
  rewrite (push_front_head v n d) by done. lia.
Qed.

Lemma started_bound f : line_ok f -> f_started f <= f_issued f.
Proof.
  intros Hok. pose proof (Permutation_length (lo_all f Hok)) as H. pose proof (lo_bound f Hok).
  rewrite expected_ids, !length_app, length_seqZ in H. unfold f_started. lia.
Qed.

(** *** Adding *)

Lemma expected_enter f item :
  expected (enter f item) ≡ₚ
  ((if ranked item then JobState.Prioritized else JobState.Wait), f_issued f + 1) :: expected f.
Proof.
  unfold expected, enter. destruct (ranked item); cbn [f_waiting f_prioritized f_running].
  - rewrite file_perm. cbn. by rewrite <- Permutation_middle.
  - rewrite fmap_app, <- app_assoc. cbn. by rewrite <- Permutation_middle.
Qed.

Lemma enter_ok f item : line_ok f -> f_issued f + 1 < 2 ^ 56 -> line_ok (enter f item).
Proof.
  intros Hok Hb'. pose proof (expected_bounds f) as Hin. pose proof (expected_enter f item) as E.
  destruct Hok as [Hb Ha Hs] eqn:Eok. assert (Hi : f_issued (enter f item) = f_issued f + 1) by (by unfold enter; case_match).
  assert (Hd : f_done (enter f item) = f_done f) by (by unfold enter; case_match). split.
  - rewrite Hi. lia.
  - rewrite E, Hi, Hd, seqZ_snoc, <- Ha, (Z.add_comm 1) by lia. apply Permutation_cons_append.
  - unfold enter. case_match; [|done]. apply file_sorted; [|done]. apply Forall_forall. intros q Hq.
    assert (H' : (JobState.Prioritized, q.2) ∈ expected f).
    { unfold expected. rewrite !elem_of_app. right. left. by apply list_elem_of_fmap_2, list_elem_of_fmap_2. }
    specialize (Hin _ Hok H'). cbn in Hin. lia.
Qed.

Lemma add_one_prompt qo item s :
  let st := sy_store s in
  let id := st_id_counter st + 1 in
  let pc := st_priority_counter st in
  prompt item = true -> 0 <= st_id_counter st -> id < two64 -> 0 <= pc -> pc + 1 < two64 ->
  exists job s', add_one qo false item s = (Ok job, s') /\ j_id job = Some id /\
    j_state job = (if ranked item then JobState.Prioritized else JobState.Wait) /\
    st_id_counter (sy_store s') = id /\
    st_priority_counter (sy_store s') = (if ranked item then pc + 1 else pc) /\
    st_jobs (sy_store s') = insert_constant (job_tag id) job (st_jobs st) /\
    collections (sy_store s') = collections (
      if ranked item
      then add_item CollectionSuffix.Prioritized id
             (Some (cast_signed (calculate_next_priority_score (priority_of item) (pc + 1)))) true st
      else add_item CollectionSuffix.Wait id None true st).
Proof.
  destruct item as [[name opts] d]. unfold prompt, ranked, priority_of. cbn [fst snd]. intros Hpr Hc Hc' Hpc Hpc'.
  destruct (jo_delay (unwrap_or JobOptions_default opts)) as [ms|] eqn:Ed; [|done]. apply Z.eqb_eq in Hpr as ->.
  unfold add_one. set (o := update_job_opts qo (unwrap_or JobOptions_default opts)).
  change (jo_delay (unwrap_or JobOptions_default opts)) with (jo_delay o) in Ed.
  change (jo_priority (unwrap_or JobOptions_default opts)) with (jo_priority o).
  destruct (0 <? jo_priority o) eqn:Hp;
  cbv [timed instants on_store m_bind state gets m_ret utc_now]; cbn -[handle_counter insert job_new];
  rewrite ?(handle_counter_one (st_id_counter (sy_store s))), ?(handle_counter_one (st_priority_counter (sy_store s)))
    by done;
  match goal with |- context [insert ?j o ?pc ?i ?n ?b ?t] =>
    destruct (insert_ok j o pc i n b t 0) as (b' & job & s' & E & H1 & H2 & H3);
      [exact Ed|by unfold i64_ok, two63|by left|lia|reflexivity|] end;
  exists job, s'; unfold placed_state in H2; rewrite Hp in H2; unfold placement in H3; rewrite Hp in H3;
  rewrite E, H1, H2, H3; by split_and!.
Qed.

Lemma scored_ids pc l es : Forall2 (scored_as pc) l es -> es.*2 = l.*2.
Proof. by induction 1 as [|q e ? ? [Hq _] _ IH]; cbn; [|rewrite Hq, IH]. Qed.

(** Filing by priority and inserting by score agree: the counter only grows. *)
Lemma file_scored pc p id (l es : list (Z * Z)) :
  0 <= pc -> pc + 1 < 2 ^ 32 -> Forall2 (scored_as pc) l es ->
  Forall2 (scored_as (pc + 1)) (file p id l) (alist_insert (p * 2 ^ 32 + (pc + 1)) id es).
Proof.
  intros H0 Hpc. assert (Hmono : forall q e, scored_as pc q e -> scored_as (pc + 1) q e).
  { intros q e (H1 & c & H2 & H3 & H4). split; [done|]. exists c. split_and!; (done || lia). }
  induction 1 as [|q [k v] l es Hqe Hl IH]; cbn [file alist_insert].
  { repeat constructor. exists (pc + 1). cbn. lia. }
  destruct Hqe as (Hid & c & Hk & Hc & Hc'). cbn in Hid, Hk.
  assert (Hq : scored_as (pc + 1) q (k, v)) by (apply Hmono; split; [done|by exists c]).
  assert (Hl' : Forall2 (scored_as (pc + 1)) l es) by (by eapply Forall2_impl).
  destruct (Z.ltb_spec p q.1); repeat case_decide; cbn in *; try lia.
  - constructor; [|by constructor]. split; [done|]. exists (pc + 1). cbn. lia.
  - by constructor.
Qed.

Lemma add_one_stored f qo item s :
  line_ok f -> f_issued f + 1 < (if ranked item then 2 ^ 32 else 2 ^ 56) -> prompt item = true ->
  stored f (sy_store s) ->
  exists job s', add_one qo false item s = (Ok job, s') /\ j_id job = Some (f_issued f + 1) /\
    stored (enter f item) (sy_store s').
Proof.
  intros Hok Hb Hpr [Hc Hpc Hw Ha Hp Hrw Hra Hre]. pose proof (lo_bound f Hok) as Hb0.
  assert (Hb' : f_issued f + 1 < 2 ^ 56) by (destruct (ranked item); lia).
  destruct (add_one_prompt qo item s Hpr) as (job & s' & E & Hid & Hst & Hc' & Hpc' & Hj & Hcol);
    [lia|unfold two64; lia|lia|unfold two64; lia|].
  rewrite Hc in *. exists job, s'. split; [done|]. split; [done|].
  assert (Hrec : Forall (in_state (sy_store s')) (expected (enter f item))).
  { rewrite expected_enter. constructor.
    - exists job. split_and!; [|done|done]. unfold has_record. by rewrite Hj, entry_insert_constant, decide_True.
    - apply (records_kept (f_issued f + 1) (sy_store s)); [|lia| | |done].
      + intros k Hk. by rewrite Hj, entry_insert_constant, decide_False.
      + intros (q & Eq & Hq%expected_bounds)%list_elem_of_fmap; [lia|done].
      + intros q Hq%expected_bounds; [lia|done]. }
  pose proof (push_roomy (2 ^ 56 - f_issued f) (f_issued f + 1) _ ltac:(lia) Hrw) as Hroom.
  replace (2 ^ 56 - f_issued f - 1) with (2 ^ 56 - (f_issued f + 1)) in Hroom by lia.
  unfold enter in *. destruct (ranked item) eqn:Hr; injection Hcol as Ea Ew _ _ _ _ Ep _;
    split; cbn [f_issued f_waiting f_prioritized f_running f_done]; rewrite ?Ea, ?Ew, ?Ep, ?Hpc'; try done.
  all: try lia.
  - unfold add_scored. pose proof (Z.mod_pos_bound (priority_of item) (2 ^ 32) ltac:(lia)).
    rewrite priority_score_rank, cast_unsigned_signed, iter_insert by (unfold u64_ok, two64; lia).
    apply file_scored; [lia|lia|done].
  - destruct Hrw as [Hwf Hr']. split; [done|lia].
  - cbn [push]. rewrite push_front_list by apply Hrw. by rewrite Hw, rev_app_distr.
Qed.

Lemma limit_cons item iter : limit (item :: iter) = if ranked item then 2 ^ 32 else limit iter.
Proof. unfold limit. cbn. by destruct (ranked item). Qed.

Lemma limit_bounds iter : 2 ^ 32 <= limit iter <= 2 ^ 56.
Proof. unfold limit. case_match; lia. Qed.

Lemma enter_issued iter : forall f, f_issued (foldl enter f iter) = f_issued f + Z.of_nat (length iter).
Proof.
  induction iter as [|item iter IH]; intros f; cbn [foldl length]; [lia|]. rewrite IH.
  unfold enter. destruct (ranked item); cbn [f_issued]; lia.
Qed.

Lemma add_bulk_stored iter qo : forall f s,
  line_ok f -> f_issued f + Z.of_nat (length iter) < limit iter -> forallb prompt iter = true ->
  stored f (sy_store s) ->
  exists jobs s', add_bulk iter qo false s = (Ok jobs, s') /\
    mapM j_id jobs = Some (seqZ (f_issued f + 1) (Z.of_nat (length iter))) /\
    line_ok (foldl enter f iter) /\ stored (foldl enter f iter) (sy_store s').
Proof.
  induction iter as [|item iter IH]; intros f s Hok Hb Hpr Hst; [by exists [], s|].
  cbn [forallb length] in *. apply andb_true_iff in Hpr as [Hi Hpr].
  rewrite limit_cons in Hb. pose proof (limit_bounds iter) as Hl.
  destruct (add_one_stored f qo item s Hok) as (job & s1 & E1 & Hj & Hst1); [by case_match; lia|done|done|].
  pose proof (enter_issued [item] f) as Hi1. cbn in Hi1.
  destruct (IH (enter f item) s1) as (jobs & s' & E & Hjs & Hok' & Hst');
    [apply enter_ok; [done|case_match; lia]|rewrite Hi1; case_match; lia|done|done|].
  exists (job :: jobs), s'. split; [unfold add_bulk in *; cbn [for_collect]; cbv [m_bind m_ret]; by rewrite E1, E|].
  split; [|by split]. cbn. rewrite Hj. cbn. rewrite Hjs. cbn. f_equal.
  rewrite Hi1, Nat2Z.inj_succ, (seqZ_cons (f_issued f + 1)) by lia. do 2 f_equal; lia.
Qed.

Lemma perform_add f s iter a f' :
  simulates f s -> line_call (CAdd iter) f = Some (a, f') ->
  exists s', perform (CAdd iter) s = (a, s') /\ simulates f' s'.
Proof.
  intros [Hok Hfl Hre Hst] Hc. cbn in Hc. destruct (forallb prompt iter) eqn:Him; [|done]. cbn in Hc.
  destruct (Z.ltb_spec (f_issued f + Z.of_nat (length iter)) (limit iter)) as [Hlt|]; [|done].
  injection Hc as <- <-.
  destruct (add_bulk_stored iter (q_opts (sy_ext s)) f s Hok Hlt Him Hst) as (jobs & s' & E & Hj & Hok' & Hst').
  assert (Eb : bulk_add iter s = (Ok jobs, s')).
  { unfold bulk_add. rewrite (run_bind _ _ s false s) by (unfold is_paused, gets, queue_is_paused; by rewrite Hfl).
    by erewrite run_bind by done. }
  exists s'. cbn [perform]. rewrite Eb, Hj. split; [done|].
  pose proof (op_keeps (bulk_add iter) s (op_bulk_add iter) Hfl Hre) as [H1 H2]. by rewrite Eb in H1, H2.
Qed.

(** *** Taking *)

(** What [move_to_active] does to the job it hands out. *)
Definition hands_out (id : Z) st (job : Job D R P) (r : outcome KioError (MoveToActiveResult D R P) * QSys) : Prop :=
  exists job' s', r = (Ok (ProcessJob job'), s') /\
    j_id job' = j_id job /\ j_state job' = JobState.Active /\ has_record (sy_store s') id job' /\
    stays id st (sy_store s') /\ st_active (sy_store s') = push_front id (st_active st).

Lemma prepared token opts ts id st job s1 :
  qm_is_paused (sy_metrics s1) = false -> deque_wf (st_active st) -> has_record st id job ->
  stays id st (sy_store s1) -> st_jobs (sy_store s1) = st_jobs st ->
  st_active (sy_store s1) = push_front id (st_active st) ->
  let r := (let* p := prepare_job token opts ts id in m_ret (ProcessJob p.1)) s1 in
  hands_out id st job r /\ st_waiting (sy_store r.2) = st_waiting (sy_store s1) /\
  st_prioritized (sy_store r.2) = st_prioritized (sy_store s1).
Proof.
  intros Hp Hwf Hj Hst Ej Ea r. subst r.
  assert (Hin : id ∈ active_list (sy_store s1)) by (rewrite Ea, push_front_list by done; by left).
  assert (Hj' : has_record (sy_store s1) id job) by (unfold has_record; by rewrite Ej).
  destruct (prepare_job_ok token opts ts id s1 job Hp Hj' Hin) as (job' & s' & E & -> & Hrec & Hcol & _).
  pose proof (frame_prepare id token opts ts s1) as Hfr. rewrite E in Hfr. cbn [snd] in Hfr.
  rewrite (run_bind _ _ _ _ _ E). injection Hcol as Ea' Ew' _ _ _ _ Ep' _. split; [|by split].
  eexists _, s'. split; [reflexivity|]. split_and!; [done|done|done| |congruence].
  destruct Hst as (H1 & H2 & H3), Hfr as (H4 & H5 & H6). split_and!; [congruence..|].
  intros k Hk. by rewrite H6, H3.
Qed.

Lemma move_to_active_some token opts s id l job :
  qm_is_paused (sy_metrics s) = false -> deque_wf (st_active (sy_store s)) ->
  wait_list (sy_store s) = l ++ [id] -> has_record (sy_store s) id job ->
  let r := move_to_active token opts s in
  hands_out id (sy_store s) job r /\ st_waiting (sy_store r.2) = (pop_back (st_waiting (sy_store s))).2 /\
  st_prioritized (sy_store r.2) = st_prioritized (sy_store s).
Proof.
  intros Hp Hwf Hw Hj r. subst r. unfold move_to_active.
  rewrite (run_bind _ _ s (utc (sy_reads s)) (tick s)) by done.
  rewrite (run_bind _ _ (tick s) (false, JobState.Wait) (tick s)) by (by apply run_target).
  erewrite run_bind by apply run_on_store. change (sy_store (tick s)) with (sy_store s).
  pose proof (pop_back_list (st_waiting (sy_store s))) as [Hpop _]. rewrite Hw, last_snoc in Hpop.
  unfold pop_back_push_front. destruct (pop_back (st_waiting (sy_store s))) as [v w] eqn:Epop.
  cbn in Hpop. subst v. cbn [fst snd].
  match goal with |- context [with_store ?x (tick s)] => set (s1 := with_store x (tick s)) end.
  by apply (prepared token opts _ id (sy_store s) job s1).
Qed.

Lemma move_to_active_ranked token opts s sc id l job :
  qm_is_paused (sy_metrics s) = false -> deque_wf (st_active (sy_store s)) ->
  wait_list (sy_store s) = [] -> sm_iter (st_prioritized (sy_store s)) = (sc, id) :: l ->
  has_record (sy_store s) id job ->
  let r := move_to_active token opts s in
  hands_out id (sy_store s) job r /\ st_waiting (sy_store r.2) = st_waiting (sy_store s) /\
  sm_iter (st_prioritized (sy_store r.2)) = l.
Proof.
  intros Hp Hwf Hnil Hpr Hj r. subst r. unfold move_to_active.
  rewrite (run_bind _ _ s (utc (sy_reads s)) (tick s)) by done.
  rewrite (run_bind _ _ (tick s) (false, JobState.Wait) (tick s)) by (by apply run_target).
  erewrite run_bind by apply run_on_store. change (sy_store (tick s)) with (sy_store s).
  rewrite (pop_push_nil _ Hnil). cbn [fst snd].
  pose proof (run_priority (with_store (sy_store s) (tick s)) Hwf) as H.
  change (sy_store (with_store (sy_store s) (tick s))) with (sy_store s) in H. rewrite Hpr in H.
  destruct H as (s1 & E & Hm & Ej & _ & _ & Ew & Ep & Ea & Hc & Hpc). rewrite (run_bind _ _ _ _ _ E).
  destruct (prepared token opts (timestamp_micros (utc (sy_reads s))) id (sy_store s) job s1) as (H1 & H2 & H3);
    [by rewrite Hm|done|done|by split_and!; [| |intros; rewrite Ej]|done|done|].
  split; [done|]. by rewrite H2, H3.
Qed.

Lemma move_to_active_none token opts s :
  qm_is_paused (sy_metrics s) = false -> deque_wf (st_active (sy_store s)) ->
  wait_list (sy_store s) = [] -> sm_iter (st_prioritized (sy_store s)) = [] ->
  exists s', move_to_active token opts s = (Ok (DelayUntil 0), s') /\
    collections (sy_store s') = collections (sy_store s) /\
    st_jobs (sy_store s') = st_jobs (sy_store s) /\ st_id_counter (sy_store s') = st_id_counter (sy_store s) /\
    st_priority_counter (sy_store s') = st_priority_counter (sy_store s).
Proof.
  intros Hp Hwf Hnil Hpr. unfold move_to_active.
  rewrite (run_bind _ _ s (utc (sy_reads s)) (tick s)) by done.
  rewrite (run_bind _ _ (tick s) (false, JobState.Wait) (tick s)) by (by apply run_target).
  erewrite run_bind by apply run_on_store. change (sy_store (tick s)) with (sy_store s).
  rewrite (pop_push_nil _ Hnil). cbn [fst snd].
  pose proof (run_priority (with_store (sy_store s) (tick s)) Hwf) as H.
  change (sy_store (with_store (sy_store s) (tick s))) with (sy_store s) in H. rewrite Hpr in H.
  destruct H as (s' & E & _ & Hrest). rewrite (run_bind _ _ _ _ _ E). by exists s'.
Qed.

Lemma stored_take f id f' st st' (job' : Job D R P) :
  line_ok f -> take f = Some (id, f') -> stored f st ->
  has_record st' id job' -> j_id job' = Some id -> j_state job' = JobState.Active -> stays id st st' ->
  st_active st' = push_front id (st_active st) ->
  wait_list st' = rev (f_waiting f') -> roomy (2 ^ 56 - f_issued f) (st_waiting st') ->
  Forall2 (scored_as (st_priority_counter st)) (f_prioritized f') (sm_iter (st_prioritized st')) ->
  stored f' st'.
Proof.
  intros Hok Ht [Hc Hpc Hw Ha Hp Hrw Hra Hre] Hrec Hid Hact (H1 & H2 & H3) Ea Hw' Hrw' Hp'.
  destruct (expected_take f id f' Ht) as (state & rest & E & E' & Hr & Hd & Hi).
  destruct (records_rest f id state st st' rest Hok E H3 Hre) as (Hb & _ & Hrest).
  pose proof (lo_bound f Hok). pose proof (started_bound f Hok).
  split; rewrite ?Hi, ?H1, ?H2; try done.
  - by rewrite Ea, push_front_list, Ha, Hr by apply Hra.
  - rewrite Ea. replace (2 ^ 56 - f_started f') with (2 ^ 56 - f_started f - 1)
      by (unfold f_started; rewrite Hr, Hd; cbn [length]; lia).
    apply push_roomy; [lia|done].
  - rewrite E'. constructor; [by exists job'|done].
Qed.

Lemma stored_same f st st' :
  collections st' = collections st -> st_jobs st' = st_jobs st -> st_id_counter st' = st_id_counter st ->
  st_priority_counter st' = st_priority_counter st -> stored f st -> stored f st'.
Proof.
  intros Hcol Hj Hc Hpc [? ? ? ? ? ? ? Hre]. injection Hcol as Ea Ew _ _ _ _ Ep _.
  split; rewrite ?Ea, ?Ew, ?Ep, ?Hc, ?Hpc; try done.
  eapply Forall_impl; [exact Hre|]. intros q. unfold in_state, has_record. by rewrite Hj.
Qed.

(** The job that the abstract queue hands out has a record. *)
Lemma take_record f id f' st : take f = Some (id, f') -> stored f st ->
  exists job, has_record st id job /\ j_id job = Some id.
Proof.
  intros Ht Hst. destruct (expected_take f id f' Ht) as (state & rest & E & _).
  pose proof (so_records f st Hst) as Hre. rewrite E in Hre.
  apply Forall_cons in Hre as [(job & Hj & Hid & _) _]. by exists job.
Qed.

Lemma move_to_active_takes f s token opts id f' :
  simulates f s -> take f = Some (id, f') ->
  exists job' s', move_to_active token opts s = (Ok (ProcessJob job'), s') /\ j_id job' = Some id /\
    stored f' (sy_store s').
Proof.
  intros [Hok Hfl _ Hst] Ht. pose proof (so_room_active f _ Hst) as [Hwf _].
  destruct (take_record f id f' _ Ht Hst) as (job & Hj & Hid). pose proof (stored_take f id f' (sy_store s)) as Htake.
  assert (Hrun : exists r, r = move_to_active token opts s /\ hands_out id (sy_store s) job r /\
    wait_list (sy_store r.2) = rev (f_waiting f') /\ roomy (2 ^ 56 - f_issued f) (st_waiting (sy_store r.2)) /\
    Forall2 (scored_as (st_priority_counter (sy_store s))) (f_prioritized f') (sm_iter (st_prioritized (sy_store r.2)))).
  { destruct Hst as [_ _ Hw _ Hp [Hww Hrw] _ _]. eexists. split; [reflexivity|]. unfold take in Ht.
    destruct (f_waiting f) as [|i w].
    - destruct (f_prioritized f) as [|[p i] l]; [done|]. injection Ht as -> <-.
      apply Forall2_cons_inv_l in Hp as ([sc v] & es & [Hv _] & Hes & Ei). cbn in Hv. subst v.
      destruct (move_to_active_ranked token opts s sc id es job) as (H1 & H2 & H3); [done..|].
      split; [done|]. by rewrite H2, H3.
    - injection Ht as -> <-.
      destruct (move_to_active_some token opts s id (rev w) job) as (H1 & H2 & H3); [done..|].
      split; [done|]. rewrite H2, H3, (proj2 (pop_back_list _)), Hw. cbn [rev f_waiting f_prioritized].
      rewrite removelast_last. split_and!; [done| |done].
      split; [by apply pop_back_wf|]. unfold pop_back. by repeat case_match. }
  destruct Hrun as (r & Er & (job' & s' & E & Hid' & Hact & Hrec & Hfr & Ea) & Hw' & Hr' & Hp').
  rewrite E in *. exists job', s'. split; [done|]. rewrite Hid', Hid. split; [done|].
  eapply Htake; (done || congruence).
Qed.

Lemma perform_take f s token opts a f' :
  simulates f s -> line_call (CTake token opts) f = Some (a, f') ->
  exists s', perform (CTake token opts) s = (a, s') /\ simulates f' s'.
Proof.
  intros Hs Hc. pose proof Hs as [Hok Hfl Hre Hst]. cbn in Hc. cbn [perform].
  pose proof (op_keeps (move_to_active token opts) s (op_move_to_active token opts) Hfl Hre) as [H1 H2].
  destruct (take f) as [[id f1]|] eqn:Ht; injection Hc as <- <-.
  - destruct (move_to_active_takes f s token opts id f1 Hs Ht) as (job' & s' & E & Hid & Hst').
    rewrite E in *. rewrite Hid. exists s'. split; [done|]. split; [by eapply take_ok|done|done|done].
  - unfold take in Ht. destruct (f_waiting f) eqn:Hw; [|done]. destruct (f_prioritized f) as [|[? ?] ?] eqn:Hp; [|done].
    destruct (move_to_active_none token opts s) as (s' & E & Hcol & Hjobs & Hcnt & Hpc);
      [done|apply Hst|by rewrite (so_waiting f _ Hst), Hw| |].
    { pose proof (so_prioritized f _ Hst) as H. rewrite Hp in H. by apply Forall2_nil_inv_l in H. }
    rewrite E in *. exists s'. split; [done|]. split; [done|done|done|]. by eapply stored_same.
Qed.

(** *** Finishing and cleaning up *)

Lemma stored_settle f st st' id to ts :
  line_ok f -> id ∈ f_running f -> is_terminal to = true -> stored f st -> stays id st st' ->
  collections st' = collections (add_item (CollectionSuffix.from_state to) id (Some ts) false
    (remove_item CollectionSuffix.Active id st)) ->
  stored (settle id f) st'.
Proof.
  intros Hok Hin Ht [Hc Hpc Hw Ha Hp Hrw Hra Hre] (H1 & H2 & H3) Hcol.
  destruct (records_rest f id _ st st' _ Hok (expected_settle f id Hok Hin) H3 Hre) as (_ & _ & Hrest).
  assert (Eqs : st_waiting st' = st_waiting st /\ st_active st' = deque_remove_value id (st_active st) /\
    st_prioritized st' = st_prioritized st) by (by destruct to; try done; injection Hcol as -> -> _ _ _ _ -> _).
  destruct Eqs as (Ew & Ea & Ep).
  split; cbn [settle f_issued f_waiting f_prioritized f_running]; rewrite ?Ew, ?Ea, ?Ep, ?H1, ?H2; try done.
  - by rewrite deque_remove_value_list, Ha.
  - replace (f_started (settle id f)) with (f_started f).
    { destruct Hra as [Hwf Hr]. split; [by apply deque_remove_value_wf|done]. }
    unfold f_started. cbn [settle f_running f_done]. rewrite length_app.
    rewrite (Permutation_length (filter_ne_perm id _ (running_nodup f Hok) Hin)). cbn [length]. lia.
Qed.

Lemma perform_finish f s id ts token to value bt a f' :
  simulates f s -> line_call (CFinish id ts token to value bt) f = Some (a, f') ->
  exists s', perform (CFinish id ts token to value bt) s = (a, s') /\ simulates f' s'.
Proof.
  intros [Hok Hfl Hre Hst] Hc. cbn in Hc. destruct (decide (id ∈ f_running f)) as [Hin|]; [|done].
  destruct (fits to value) eqn:Hfit; [|done]. injection Hc as <- <-.
  assert (is_terminal to = true /\ result_fits to value) as [Ht Hr] by (by destruct to, value).
  pose proof (so_records f _ Hst) as Har. rewrite (expected_settle f id Hok Hin) in Har.
  apply Forall_cons in Har as [(job & Hj & Hid & Hact) _].
  destruct (finish_run id ts token to value bt s job Hfl Hj Hact Ht Hr) as (s' & E & _ & Hcol).
  pose proof (frame_finish id ts token to value bt s) as Hfr.
  pose proof (op_keeps _ s (op_finish id ts token to value bt) Hfl Hre) as [H1 H2].
  rewrite E in Hfr, H1, H2. exists s'. cbn [perform]. rewrite E.
  destruct (finished_fields to value ts bt job) as (_ & _ & _ & ->). rewrite Hid. split; [done|].
  split; [by apply settle_ok|done|done|by eapply stored_settle].
Qed.

Lemma perform_clean f s id ro a f' :
  simulates f s -> line_call (CClean id ro) f = Some (a, f') ->
  exists s', perform (CClean id ro) s = (a, s') /\ simulates f' s'.
Proof.
  intros [Hok Hfl Hre Hst] Hc. cbn in Hc. destruct (decide (id ∈ f_done f)) as [Hin|]; [|done].
  injection Hc as <- <-. destruct (expected_nodup f Hok) as [_ Hnot]. pose proof (lo_bound f Hok).
  assert (Hb : 1 <= id <= f_issued f).
  { assert (Hid : id ∈ (expected f).*2 ++ f_done f) by (apply elem_of_app; by right).
    rewrite (lo_all f Hok), elem_of_seqZ in Hid. lia. }
  destruct (clean_up_run id ro s Hre) as (s' & E & Hs'); [unfold two63; lia|].
  pose proof (op_keeps _ s (op_clean_up id ro) Hfl Hre) as [H1 H2].
  rewrite E in H1, H2. exists s'. cbn [perform]. rewrite E. split; [done|]. split; [done|done|done|].
  destruct Hs' as [[_ ->]|[_ ->]]; [|done]. rewrite remove_record.
  destruct Hst as [? ? ? ? ? ? ? Hrec]. split; try done.
  apply (records_kept id (sy_store s)); [|lia|by apply Hnot| |done].
  - intros k Hk. cbn. by rewrite entry_remove, decide_False.
  - intros q Hq%expected_bounds; [lia|done].
Qed.

(** ** The theorems *)

Lemma perform_simulates c f s a f' :
  simulates f s -> line_call c f = Some (a, f') -> exists s', perform c s = (a, s') /\ simulates f' s'.
Proof.
  destruct c; [apply perform_add|apply perform_take|apply perform_finish|apply perform_clean].
Qed.

Lemma perform_all_simulates cs : forall f s l f',
  simulates f s -> line_run cs f = Some (l, f') -> exists s', perform_all cs s = (l, s') /\ simulates f' s'.
Proof.
  induction cs as [|c cs IH]; intros f s l f' Hs H; cbn in H; [injection H as <- <-; by exists s|].
  destruct (line_call c f) as [[a f1]|] eqn:Ec; [|done]. cbn in H.
  destruct (line_run cs f1) as [[l1 f2]|] eqn:Er; [|done]. injection H as <- <-.
  destruct (perform_simulates c f s a f1 Hs Ec) as (s1 & E1 & Hs1).
  destruct (IH f1 s1 l1 f2 Hs1 Er) as (s2 & E2 & Hs2). exists s2. cbn. by rewrite E1, E2.
Qed.

Lemma new_simulates id opts co prefix name :
  simulates line_new (queue_new id opts co (store_new prefix name)).
Proof.
  set (st := store_new prefix name : Store). set (s := queue_new id opts co st : QSys).
  assert (H : collections (sy_store s) = collections st /\
    st_jobs (sy_store s) = timed_new /\ st_id_counter (sy_store s) = 0 /\
    st_priority_counter (sy_store s) = 0 /\ qm_is_paused (sy_metrics s) = false).
  { unfold s, queue_new. destruct (qo_event_mode _) as [m|]; [|done].
    by destruct (bool_decide (m <> _)). }
  destruct H as (Hcol & Hj & Hc & Hpc & Hf). split.
  - split; cbn; [lia|done|constructor].
  - done.
  - rewrite Hj. intros k e. unfold entry. cbn. by rewrite get_new.
  - apply (stored_same _ st); [done|done|done|done|]. split; try done; cbn.
    + apply deque_new_list.
    + apply deque_new_list.
    + rewrite iter_new. constructor.
    + split; [apply deque_new_wf|cbn; unfold two63; lia].
    + split; [apply deque_new_wf|]. unfold f_started. cbn. unfold two63. lia.
Qed.

(** C1: a queue serves its jobs by priority and order of arrival.  From a new
    queue on a fresh in-memory store, whatever the clock says, every sequence of
    calls that add jobs without delay, take jobs, finish taken ones and clean up
    finished ones gets the answers of the abstract queue, none of them an error,
    and leaves the jobs waiting, prioritized and active that the abstract queue
    has. *)
Theorem queue_refines_line (id : Z) (opts : option QueueOpts) (co : Collector SM) (prefix : option string)
    (name : string) (cs : list Call) (l : list Answer) (f : Line) :
  line_run cs line_new = Some (l, f) ->
  let r := perform_all cs (queue_new id opts co (store_new prefix name) : QSys) in
  r.1 = l /\ wait_list (sy_store r.2) = rev (f_waiting f) /\
  (sm_iter (st_prioritized (sy_store r.2))).*2 = (f_prioritized f).*2 /\
  active_list (sy_store r.2) = f_running f /\ st_id_counter (sy_store r.2) = f_issued f.
Proof.
  intros H r. destruct (perform_all_simulates cs line_new _ l f (new_simulates id opts co prefix name) H)
    as (s & E & Hs). unfold r. rewrite E. destruct (si_stored f s Hs) as [? ? ? ? Hp ? ? ?]. cbn [fst snd].
  split_and!; [done|done|by eapply scored_ids|done|done].
Qed.

(** *** The history of a run *)

Definition started_of (a : Answer) : option Z := match a with Started id => Some id | _ => None end.
Definition ended_of (a : Answer) : option Z := match a with Ended id => Some id | _ => None end.
Definition added_of (a : Answer) : list Z := match a with Added ids => ids | _ => [] end.

Definition unranked (c : Call) : bool :=
  match c with CAdd iter => forallb (fun item => negb (ranked item)) iter | _ => true end.

Lemma enter_all_ok iter : forall f,
  line_ok f -> f_issued f + Z.of_nat (length iter) < 2 ^ 56 -> line_ok (foldl enter f iter).
Proof.
  induction iter as [|item iter IH]; intros f Hok Hb; cbn [foldl length] in *; [done|].
  pose proof (enter_issued [item] f) as Hi. cbn in Hi. apply IH; [apply enter_ok; [done|lia]|lia].
Qed.

Lemma enter_all_same iter : forall f,
  f_running (foldl enter f iter) = f_running f /\ f_done (foldl enter f iter) = f_done f.
Proof.
  induction iter as [|item iter IH]; intros f; [done|]. cbn [foldl]. destruct (IH (enter f item)) as [-> ->].
  unfold enter. by destruct (ranked item).
Qed.

Lemma enter_unranked iter : forall f,
  forallb (fun item => negb (ranked item)) iter = true ->
  f_prioritized (foldl enter f iter) = f_prioritized f /\
  f_waiting (foldl enter f iter) = f_waiting f ++ seqZ (f_issued f + 1) (Z.of_nat (length iter)).
Proof.
  induction iter as [|item iter IH]; intros f H; cbn [foldl length forallb] in *; [by rewrite app_nil_r|].
  apply andb_true_iff in H as [Hr%negb_true_iff H]. destruct (IH (enter f item) H) as [-> ->].
  unfold enter. rewrite Hr. cbn [f_prioritized f_waiting f_issued]. split; [done|].
  rewrite Nat2Z.inj_succ, (seqZ_cons (f_issued f + 1)), <- app_assoc by lia. cbn. do 3 f_equal; lia.
Qed.

Record history f (started ended added : list Z) f' : Prop := {
  hi_ok : line_ok f';
  hi_done : f_done f' = f_done f ++ ended;
  hi_started : f_running f' ++ f_done f' ≡ₚ (f_running f ++ f_done f) ++ started;
  hi_added : seqZ 1 (f_issued f') = seqZ 1 (f_issued f) ++ added;
}.

Lemma call_history c f a f' :
  line_ok f -> line_call c f = Some (a, f') ->
  a <> Refused /\ history f (option_list (started_of a)) (option_list (ended_of a)) (added_of a) f'.
Proof.
  intros Hok H. pose proof (lo_bound f Hok) as Hb. destruct c; cbn in H.
  - destruct (forallb prompt iter); [|done]. cbn in H. pose proof (limit_bounds iter) as Hl.
    destruct (Z.ltb_spec (f_issued f + Z.of_nat (length iter)) (limit iter)) as [Hlt|]; [|done].
    injection H as <- <-. split; [done|]. destruct (enter_all_same iter f) as [Hr Hd].
    split; cbn; rewrite ?Hr, ?Hd, ?app_nil_r; try done; [apply enter_all_ok; [done|lia]|].
    rewrite enter_issued, seqZ_app by lia. do 2 f_equal. lia.
  - destruct (take f) as [[id f1]|] eqn:Ht; injection H as <- <-; (split; [done|]).
    + destruct (expected_take f id f1 Ht) as (_ & _ & _ & _ & Hr & Hd & Hi).
      split; cbn; rewrite ?Hr, ?Hd, ?Hi, ?app_nil_r; [by eapply take_ok|done| |done].
      apply Permutation_cons_append.
    + by split; cbn; rewrite ?app_nil_r.
  - destruct (decide (id ∈ f_running f)) as [Hin|]; [|done]. destruct (fits to value); [|done]. injection H as <- <-.
    split; [done|]. split; cbn [settle f_done f_issued option_list ended_of started_of added_of];
      rewrite ?app_nil_r; [by apply settle_ok|done| |done].
    cbn [f_running f_done settle]. rewrite (filter_ne_perm id (f_running f)) at 2 by (done || by apply running_nodup).
    rewrite app_assoc. symmetry. cbn. apply Permutation_cons_append.
  - destruct (decide (id ∈ f_done f)); [|done]. injection H as <- <-. split; [done|]. by split; cbn; rewrite ?app_nil_r.
Qed.

Lemma run_history cs : forall f l f',
  line_ok f -> line_run cs f = Some (l, f') ->
  (Refused ∉ l) /\ history f (omap started_of l) (omap ended_of l) (mjoin (added_of <$> l)) f'.
Proof.
  induction cs as [|c cs IH]; intros f l f' Hok H; cbn in H.
  { injection H as <- <-. split; [by intros ?%elem_of_nil|]. by split; cbn; rewrite ?app_nil_r. }
  destruct (line_call c f) as [[a f1]|] eqn:Ec; [|done]. cbn in H.
  destruct (line_run cs f1) as [[l1 f2]|] eqn:Er; [|done]. injection H as <- <-.
  destruct (call_history c f a f1 Hok Ec) as (Ha & [Hok1 H1 H2 H3]).
  destruct (IH f1 l1 f2 Hok1 Er) as (Hl & [Hok2 H4 H5 H6]).
  split; [intros [?|?]%elem_of_cons; naive_solver|]. split; [done| | |].
  - rewrite H4, H1, <- app_assoc. by destruct a.
  - rewrite H5, H2, <- app_assoc. by destruct a.
  - by rewrite H6, H3, <- app_assoc.
Qed.

Lemma run_unranked cs : forall f l f',
  forallb unranked cs = true -> f_prioritized f = [] -> line_run cs f = Some (l, f') ->
  f_waiting f ++ mjoin (added_of <$> l) = omap started_of l ++ f_waiting f'.
Proof.
  induction cs as [|c cs IH]; intros f l f' Hu Hp H; cbn in H; [injection H as <- <-; apply app_nil_r|].
  cbn [forallb] in Hu. apply andb_true_iff in Hu as [Hc Hu].
  destruct (line_call c f) as [[a f1]|] eqn:Ec; [|done]. cbn in H.
  destruct (line_run cs f1) as [[l1 f2]|] eqn:Er; [|done]. injection H as <- <-.
  assert (Hone : f_prioritized f1 = [] /\ f_waiting f ++ added_of a = option_list (started_of a) ++ f_waiting f1).
  { destruct c; cbn in Ec, Hc; repeat case_match; simplify_eq; cbn; rewrite ?app_nil_r; try done.
    - by destruct (enter_unranked iter f Hc) as [-> ->].
    - unfold take in *. rewrite Hp in *. destruct (f_waiting f); by simplify_eq. }
  destruct Hone as [Hp1 Hw]. specialize (IH f1 l1 f2 Hu Hp1 Er).
  change (mjoin (added_of <$> a :: l1)) with (added_of a ++ mjoin (added_of <$> l1)). rewrite app_assoc, Hw, <- app_assoc, IH.
  by destruct a.
Qed.

(** C2: every job runs once.  In such a sequence of calls no call fails; the jobs
    that were added are those that were started and those that still wait, each
    once; no job is started or finished twice, and the jobs that were started are
    the active ones and the finished ones.  Without priorities they start in the
    order in which they were added. *)
Theorem runs_once_in_order (id : Z) (opts : option QueueOpts) (co : Collector SM) (prefix : option string)
    (name : string) (cs : list Call) :
  is_Some (line_run cs line_new) ->
  let '(l, s) := perform_all cs (queue_new id opts co (store_new prefix name) : QSys) in
  let added := mjoin (added_of <$> l) in
  let started := omap started_of l in
  let ended := omap ended_of l in
  let waiting := rev (wait_list (sy_store s)) in
  (Refused ∉ l) /\ NoDup added /\ added ≡ₚ started ++ waiting ++ (sm_iter (st_prioritized (sy_store s))).*2 /\
  NoDup ended /\ active_list (sy_store s) ++ ended ≡ₚ started /\
  (forallb unranked cs = true -> added = started ++ waiting).
Proof.
  intros [[l f] H].
  destruct (perform_all_simulates cs line_new _ l f (new_simulates id opts co prefix name) H) as (s & -> & Hs).
  pose proof (si_ok _ _ (new_simulates id opts co prefix name)) as Hok0.
  destruct (run_history cs line_new l f Hok0 H) as (Hl & [Hok H1 H2 H3]).
  cbn [line_new f_done f_running f_issued app] in H1, H2, H3. rewrite (seqZ_nil 1 0) in H3 by lia. cbn [app] in H3.
  destruct (si_stored f s Hs) as [_ _ Hw Ha Hp _ _ _]. pose proof (lo_all f Hok) as Hall.
  apply scored_ids in Hp as Hids.
  assert (Hnd : NoDup (f_running f ++ f_done f)).
  { assert (Hnd : NoDup ((expected f).*2 ++ f_done f)) by (rewrite Hall; apply NoDup_seqZ).
    rewrite expected_ids, <- !app_assoc in Hnd. by apply NoDup_app in Hnd as (_ & _ & (_ & _ & ?)%NoDup_app). }
  cbn zeta. rewrite Hw, Ha, Hids, rev_involutive, <- H3, <- H1. split_and!; [done|apply NoDup_seqZ| | |done|].
  - rewrite <- Hall, expected_ids, <- H2, (Permutation_app_comm (f_running f ++ f_done f)). by rewrite <- !app_assoc.
  - by apply NoDup_app in Hnd as (_ & _ & ?).
  - intros Hu. pose proof (run_unranked cs line_new l f Hu eq_refl H) as Hfifo. cbn in Hfifo. by rewrite H3.
Qed.

(** *** Priorities *)

Lemma enter_ranked iter : forall f,
  forallb ranked iter = true ->
  f_waiting (foldl enter f iter) = f_waiting f /\
  f_prioritized (foldl enter f iter) ≡ₚ
    f_prioritized f ++ zip (rank <$> iter) (seqZ (f_issued f + 1) (Z.of_nat (length iter))).
Proof.
  induction iter as [|item iter IH]; intros f H; cbn [foldl length forallb] in *; [by rewrite app_nil_r|].
  apply andb_true_iff in H as [Hr H]. destruct (IH (enter f item) H) as [-> ->].
  unfold enter. rewrite Hr. cbn [f_prioritized f_waiting f_issued]. split; [done|].
  rewrite file_perm, Nat2Z.inj_succ, (seqZ_cons (f_issued f + 1)) by lia. cbn.
  rewrite <- Permutation_middle. do 3 f_equiv; f_equal; lia.
Qed.

Lemma rank_small iter :
  forallb ranked iter = true -> Forall (fun item => priority_of item < 2 ^ 32) iter ->
  rank <$> iter = priority_of <$> iter.
Proof.
  intros Hr Hs. apply list_fmap_ext. intros i item Hi%list_elem_of_lookup_2. unfold rank.
  rewrite forallb_forall in Hr. rewrite Forall_forall in Hs. specialize (Hs item Hi).
  apply list_elem_of_In, Hr in Hi. unfold ranked in Hi. apply Z.mod_small. zify_bool. lia.
Qed.

Lemma take_all takes : forall f,
  f_waiting f = [] -> length takes = length (f_prioritized f) ->
  exists f', line_run (map (fun t => CTake t.1 t.2) takes) f = Some (Started <$> (f_prioritized f).*2, f') /\
    f_prioritized f' = [].
Proof.
  induction takes as [|t takes IH]; intros f Hw Hlen.
  { exists f. destruct (f_prioritized f) eqn:Hp; [|done]. split; [by cbn|done]. }
  destruct (f_prioritized f) as [|[p id] l] eqn:Hp; [done|]. injection Hlen as Hlen.
  destruct (IH (mkLine (f_issued f) [] l (id :: f_running f) (f_done f)) eq_refl Hlen) as (f' & E & Hp').
  exists f'. split; [|done]. cbn. unfold take. rewrite Hw, Hp. cbn. by rewrite E.
Qed.

(** C3: prioritized jobs run by rank, and in the order of arrival among equal
    ones.  When a batch of them has been added to a new queue, as many takes start
    all of them, sorted by their rank and then by their number, and leave none
    behind.  The rank is the priority when it is below [2 ^ 32]; of a larger one
    only the lower half counts, so that it may be served before a smaller one. *)
Theorem priority_order (id : Z) (opts : option QueueOpts) (co : Collector SM) (prefix : option string)
    (name : string) (iter : list Item) (takes : list (JobToken * WorkerOpts)) :
  forallb prompt iter = true -> forallb ranked iter = true -> Z.of_nat (length iter) < 2 ^ 32 ->
  length takes = length iter ->
  let n := Z.of_nat (length iter) in
  let '(l, s) := perform_all (CAdd iter :: map (fun t => CTake t.1 t.2) takes)
    (queue_new id opts co (store_new prefix name) : QSys) in
  exists order, l = Added (seqZ 1 n) :: (Started <$> order.*2) /\
    StronglySorted before order /\ order ≡ₚ zip (rank <$> iter) (seqZ 1 n) /\
    sm_iter (st_prioritized (sy_store s)) = [] /\
    (Forall (fun item => priority_of item < 2 ^ 32) iter -> rank <$> iter = priority_of <$> iter).
Proof.
  intros Hpr Hra Hn Htakes n. pose proof (new_simulates id opts co prefix name) as Hnew.
  assert (Hlim : n < limit iter) by (pose proof (limit_bounds iter); lia).
  set (f := foldl enter line_new iter).
  assert (Hok : line_ok f) by (apply enter_all_ok; [apply Hnew|cbn; lia]).
  destruct (enter_ranked iter line_new Hra) as [Hw Hp]. cbn [line_new f_waiting f_prioritized f_issued app] in Hw, Hp.
  assert (Hlen : length takes = length (f_prioritized f)).
  { unfold f. rewrite Hp, length_zip_with, length_fmap, length_seqZ. lia. }
  destruct (take_all takes f Hw Hlen) as (f' & Erun & Hp').
  assert (Er : line_run (CAdd iter :: map (fun t => CTake t.1 t.2) takes) line_new =
    Some (Added (seqZ 1 n) :: (Started <$> (f_prioritized f).*2), f')).
  { cbn [line_run line_call]. rewrite Hpr. cbn [andb line_new f_issued].
    rewrite (proj2 (Z.ltb_lt _ _)) by done. cbn [mbind option_bind]. fold f. by rewrite Erun. }
  destruct (perform_all_simulates _ _ _ _ _ Hnew Er) as (s & E & Hs). cbn zeta in E |- *. rewrite E.
  exists (f_prioritized f). split_and!; [done|apply Hok|done| |by apply rank_small].
  pose proof (so_prioritized _ _ (si_stored _ _ Hs)) as H. rewrite Hp' in H. by apply Forall2_nil_inv_l in H.
Qed.
End Lifecycle.

(** ** Witnesses *)

#[local] Existing Instance sample_extern.
#[local] Existing Instance sample_clock.

Definition with_priority (p : Z) : option JobOptions :=
  let d := JobOptions_default in
  Some (mkJobOptions p (jo_delay d) (jo_id d) (jo_attempts d) (jo_remove_on_complete d) (jo_remove_on_fail d)
    (jo_backoff d) (jo_repeat d)).

Definition sample_calls : list (Call (D := Z) (R := Z)) :=
  [CAdd [("a"%string, with_priority 5, 10); ("b"%string, None, 20); ("c"%string, with_priority 2, 25)];
   CTake sample_token (WorkerOpts_default 4); CTake sample_token (WorkerOpts_default 4);
   CTake sample_token (WorkerOpts_default 4); CTake sample_token (WorkerOpts_default 4);
   CFinish 2 5000 sample_token JobState.Completed (PSuccess 7 (JobMetrics_default)) None;
   CAdd [("d"%string, None, 30); ("e"%string, with_priority 1, 40)]; CClean 2 (Some (RBool true))].

Abbreviation sample_queue :=
  (queue_new 77 None collector_new (store_new None "demo") : Sys ZMap Z Z Z (QueueExt ZMap StrMap Z Z Z)).

Lemma queue_refines_line_witness :
  let r := perform_all sample_calls sample_queue in
  r.1 = [Added [1; 2; 3]; Started 2; Started 3; Started 1; Idle; Ended 2; Added [4; 5]; Cleaned] /\
  wait_list (sy_store r.2) = [4] /\ (sm_iter (st_prioritized (sy_store r.2))).*2 = [5] /\
  active_list (sy_store r.2) = [1; 3] /\ st_id_counter (sy_store r.2) = 5.
Proof.
  apply (queue_refines_line 77 None collector_new None "demo" sample_calls
    [Added [1; 2; 3]; Started 2; Started 3; Started 1; Idle; Ended 2; Added [4; 5]; Cleaned]
    (mkLine 5 [4] [(1, 5)] [1; 3] [2])).
  vm_compute. reflexivity.
Defined.

Lemma runs_once_in_order_witness :
  let '(l, s) := perform_all sample_calls sample_queue in
  let added := mjoin (added_of <$> l) in
  let started := omap started_of l in
  let ended := omap ended_of l in
  let waiting := rev (wait_list (sy_store s)) in
  (Refused ∉ l) /\ NoDup added /\ added ≡ₚ started ++ waiting ++ (sm_iter (st_prioritized (sy_store s))).*2 /\
  NoDup ended /\ active_list (sy_store s) ++ ended ≡ₚ started /\
  (forallb unranked sample_calls = true -> added = started ++ waiting).
Proof.
  apply (runs_once_in_order 77 None collector_new None "demo" sample_calls). vm_compute. by eexists.
Defined.

Definition ranked_items : list (string * option JobOptions * Z) :=
  [("a"%string, with_priority 5, 1); ("b"%string, with_priority 2, 2); ("c"%string, with_priority 5, 3);
   ("d"%string, with_priority 1, 4)].

Lemma priority_order_witness :
  let n := Z.of_nat (length ranked_items) in
  let '(l, s) := perform_all (CAdd (R := Z) ranked_items :: map (fun t => CTake t.1 t.2)
    (replicate 4 (sample_token, WorkerOpts_default 4))) sample_queue in
  exists order, l = Added (seqZ 1 n) :: (Started <$> order.*2) /\ StronglySorted before order /\
    order ≡ₚ zip (rank <$> ranked_items) (seqZ 1 n) /\ sm_iter (st_prioritized (sy_store s)) = [] /\
    (Forall (fun item => priority_of item < 2 ^ 32) ranked_items ->
     rank <$> ranked_items = priority_of <$> ranked_items).
Proof.
  apply (priority_order 77 None collector_new None "demo" ranked_items
    (replicate 4 (sample_token, WorkerOpts_default 4))); reflexivity.
Defined.

(** A priority of [2 ^ 32] is served before one of 1. *)
Lemma large_priority_first :
  (perform_all [CAdd [("a"%string, with_priority 1, 1); ("b"%string, with_priority (2 ^ 32), 2)];
     CTake sample_token (WorkerOpts_default 4)] sample_queue).1 = [Added [1; 2]; Started 2].
Proof. vm_compute. reflexivity. Qed.
