(* ===== verification/Suite.v ===== *)
(** * The queue suite ([src/macros/queue_test_suit.rs])

    The tests that the macro [queue_store_suite!] generates, as programs over the
    operations of [Queue]: an assertion that fails panics, a [?] returns the
    error.  They are run on the in-memory store, whatever the clock says and
    whatever the external packages do. *)

From S2P Require Import Prelude SkipMap Deque TimedMap Extern Schedule Job Options Events Shared Metrics InMemoryStore StoreInsert Collector Queue QueueProps.

Definition assert_ {S} (b : bool) : KM S unit := if b then m_ret tt else panic.

Section Suite.
Context {EXT : Extern} {CLK : Clock}.

Abbreviation TestSys := (Sys ZMap Z Z Z (QueueExt ZMap StrMap Z Z Z)).
Abbreviation T A := (KM TestSys A).

(** [Queue::new(make_store().await?, Some(opts)).await?]: the store of the test
    file, the identifier of the queue and the process's collector. *)
Record Setup : Type := mkSetup {
  se_store : InMemoryStore ZMap Z Z Z;
  se_id : Z;
  se_collector : Collector ZMap;
}.

Definition started (opts : QueueOpts) (e : Setup) : TestSys :=
  queue_new (se_id e) (Some opts) (se_collector e) (se_store e).

Definition with_queue (opts : QueueOpts) (test : T unit) (e : Setup) : outcome KioError unit :=
  (test (started opts e)).1.

Definition fetch_last (metrics : QueueMetrics) : T (option (Job Z Z Z)) :=
  queue_get_job (qm_last_id metrics).

(** [if let Some(fetched) = fetched_job { .. }]. *)
Definition if_fetched (fetched_job : option (Job Z Z Z)) (check : Job Z Z Z -> T unit) : T unit :=
  match fetched_job with Some fetched => check fetched | None => m_ret tt end.

Definition add_and_fetch_job_single : Setup -> outcome KioError unit :=
  with_queue QueueOpts_default (
    let* job := add_job "test" 1 None in
    let* metrics := queue_get_metrics in
    assert_ (qm_waiting metrics =? 1) ;;;
    let* fetched_job := fetch_last metrics in
    if_fetched fetched_job (fun fetched => assert_ (bool_decide (j_id job = j_id fetched))) ;;;
    obliterate).

(** [(0..4).map(|i| (i.to_string(), None, i))]. *)
Definition job_iterator : list (string * option JobOptions * Z) :=
  [("0", None, 0); ("1", None, 1); ("2", None, 2); ("3", None, 3)]%string.

Definition add_bulk_jobs : Setup -> outcome KioError unit :=
  with_queue QueueOpts_default (
    let* jobs := bulk_add job_iterator in
    let* metrics := queue_get_metrics in
    assert_ (qm_waiting metrics =? Z.of_nat (length jobs)) ;;;
    obliterate).

Definition obliterate_test : Setup -> outcome KioError unit :=
  with_queue QueueOpts_default (
    let* jobs := bulk_add job_iterator in
    let* metrics := queue_get_metrics in
    assert_ (qm_waiting metrics =? Z.of_nat (length jobs)) ;;;
    obliterate ;;;
    let* current := gets (fun s => sy_metrics s) in
    assert_ (qm_waiting current =? 0)).

Definition set_jo_delay (x : JobDelay) (o : JobOptions) : JobOptions :=
  mkJobOptions (jo_priority o) x (jo_id o) (jo_attempts o) (jo_remove_on_complete o)
    (jo_remove_on_fail o) (jo_backoff o) (jo_repeat o).
Definition set_jo_priority (x : Z) (o : JobOptions) : JobOptions :=
  mkJobOptions x (jo_delay o) (jo_id o) (jo_attempts o) (jo_remove_on_complete o)
    (jo_remove_on_fail o) (jo_backoff o) (jo_repeat o).

(** Equality of delays, for the ones the tests use. *)
Definition same_delay (d d' : JobDelay) : bool :=
  match d, d' with TimeMilis ms, TimeMilis ms' => ms =? ms' | _, _ => false end.

Definition add_delayed_jobs : Setup -> outcome KioError unit :=
  let job_opts := set_jo_delay (delay_of_ms 200) JobOptions_default in
  with_queue QueueOpts_default (
    let* job := add_job "delay" 1 (Some job_opts) in
    let* metrics := queue_get_metrics in
    let delayed := qm_delayed metrics in
    let* fetched_job := fetch_last metrics in
    assert_ (has_delayed metrics) ;;;
    assert_ (delayed =? 1) ;;;
    if_fetched fetched_job (fun fetched =>
      assert_ (bool_decide (j_id job = j_id fetched)) ;;;
      assert_ (j_delay fetched =? 200) ;;;
      assert_ (bool_decide (j_state fetched = JobState.Delayed)) ;;;
      assert_ (same_delay (jo_delay (j_opts job)) (jo_delay (j_opts fetched)))) ;;;
    obliterate).

Definition add_prioritized : Setup -> outcome KioError unit :=
  let job_opts := set_jo_priority 2 JobOptions_default in
  with_queue QueueOpts_default (
    let* job := add_job "Priorized" 1 (Some job_opts) in
    let* metrics := queue_get_metrics in
    let* fetched_job := fetch_last metrics in
    if_fetched fetched_job (fun fetched =>
      assert_ (bool_decide (j_id job = j_id fetched)) ;;;
      assert_ (j_priority fetched =? 2) ;;;
      assert_ (bool_decide (j_state fetched = JobState.Prioritized)) ;;;
      assert_ (same_delay (jo_delay (j_opts job)) (jo_delay (j_opts fetched)))) ;;;
    obliterate).

Definition set_qo_event_mode (x : option QueueEventMode) (o : QueueOpts) : QueueOpts :=
  mkQueueOpts (qo_remove_on_fail o) (qo_remove_on_complete o) (qo_attempts o) (qo_default_backoff o)
    x (qo_repeat o).

(** [name] is the fresh identifier. *)
Definition pause_and_resume (name : string) : Setup -> outcome KioError unit :=
  let queue_opts := set_qo_event_mode (Some PubSub) QueueOpts_default in
  with_queue queue_opts (
    let* _job := add_job name 1 None in
    let* metrics := queue_get_metrics in
    assert_ (qm_waiting metrics =? 1) ;;;
    pause_or_resume ;;;
    let* metrics := queue_get_metrics in
    assert_ (qm_is_paused metrics) ;;;
    assert_ (qm_waiting metrics =? 0) ;;;
    assert_ (qm_paused metrics =? 1) ;;;
    pause_or_resume ;;;
    let* paused := is_paused in
    assert_ (negb paused) ;;;
    let* metrics := queue_get_metrics in
    assert_ (qm_waiting metrics =? 1) ;;;
    obliterate).

Definition queue_suite (name : string) (e : Setup) : list (outcome KioError unit) :=
  [add_and_fetch_job_single e; add_bulk_jobs e; obliterate_test e; add_delayed_jobs e;
   add_prioritized e; pause_and_resume name e].

(** The environment of a test: a fresh store and a fresh collector. *)
Definition fresh (prefix : option string) (store_name : string) (id : Z) : Setup :=
  mkSetup (store_new prefix store_name) id collector_new.

Lemma obliterate_returns : returns (obliterate : T unit).
Proof.
  unfold obliterate, delete_all_jobs, timers_close, upd_store, upd_collector, upd_ext, on_ext.
  repeat first [return_step | progress intros].
  intros s. match goal with |- context [publish_now ?f s] =>
    destruct (publish_now_frame f s) as (b & s' & E & _); [done|] end.
  by exists tt, s'.
Qed.

(** Filing a delayed job on a listening store. *)
Lemma insert_delayed (job : Job Z Z Z) opts pc id name paused (s : TestSys) ms :
  jo_delay opts = TimeMilis ms -> MIN_DELAY_MS_LIMIT <= ms < two63 -> dated (utc (S (sy_reads s))) ms ->
  exists b s', insert job opts pc id name paused s =
      (Ok (set_j_id (Some id) (set_j_state JobState.Delayed
        (set_j_opts opts (set_j_delay ms (set_j_priority (jo_priority opts) job))))), s') /\
    sy_store s' = set_st_is_inital b (set_st_jobs (insert_constant (job_tag id)
      (set_j_id (Some id) (set_j_state JobState.Delayed
        (set_j_opts opts (set_j_delay ms (set_j_priority (jo_priority opts) job)))))
      (st_jobs (sy_store s)))
      (add_item CollectionSuffix.Delayed id
         (Some (timestamp_millis (utc (S (sy_reads s)) + milliseconds ms))) false (sy_store s))).
Proof.
  intros Hd Hms Hdt. unfold MIN_DELAY_MS_LIMIT, two63 in Hms.
  unfold insert, utc_now, add_opts. rewrite Hd.
  cbv [m_bind state]. cbn [fst snd sy_reads set_sy_reads]. rewrite (next_occurrance_dated _ ms) by done.
  cbv [expect m_ret as_diff_ms].
  rewrite (cast_unsigned_small ms) by (unfold u64_ok, two64; lia). unfold MIN_DELAY_MS_LIMIT.
  destruct (Z.ltb_spec 0 ms), (Z.ltb_spec ms 50), (Z.leb_spec ms 0); try lia.  cbn [negb].
  rewrite !andb_false_r. cbn [negb andb fst snd upd_store modify].
  match goal with |- context [publish_event ?ev ?t] =>
    destruct (publish_event_frame ev _ t eq_refl) as (b & s' & E & Hs & _) end.
  exists b, s'. rewrite E. split; [done|]. by rewrite Hs.
Qed.

(** What the test looks at after its first call. *)
Lemma add_delayed_run prefix store_name id opts ms :
  jo_delay opts = TimeMilis ms -> jo_priority opts = 0 -> MIN_DELAY_MS_LIMIT <= ms < two63 ->
  (forall n, dated (utc n) ms) ->
  let s := started QueueOpts_default (fresh prefix store_name id) in
  exists k job s', add_job "delay" 1 (Some opts) s = (Ok job, s') /\
    j_id job = Some 1 /\ j_delay job = ms /\ j_state job = JobState.Delayed /\
    jo_delay (j_opts job) = TimeMilis ms /\
    st_delayed (sy_store s') = sm_insert k 1 sm_new /\ st_id_counter (sy_store s') = 1 /\
    st_jobs (sy_store s') = insert_constant (job_tag 1) job timed_new.
Proof.
  intros Hd Hp Hms Hdt s. unfold add_job. erewrite run_bind by done. erewrite run_bind by done.
  unfold add_bulk, for_collect, add_one. cbn [jo_priority update_job_opts unwrap_or]. rewrite Hp.
  cbv [m_bind gets m_ret]. cbn [Z.ltb Z.compare]. unfold timed, on_store, instants, utc_now.
  cbv [m_bind state]. cbn [incr sy_store set_sy_reads sy_reads set_sy_store fst snd].
  match goal with |- context [insert ?j ?o ?pc ?i ?n ?pa ?t] =>
    destruct (insert_delayed j o pc i n pa t ms Hd Hms (Hdt _)) as (b & s' & E & Hs) end.
  eexists _, _, s'. rewrite E. cbn [last expect]. split; [done|]. rewrite Hs. by split_and!.
Qed.

Lemma delayed_passes prefix store_name id :
  (forall n, dated (utc n) 200) -> add_delayed_jobs (fresh prefix store_name id) = Ok tt.
Proof.
  intros Hdt. unfold add_delayed_jobs, with_queue.
  destruct (add_delayed_run prefix store_name id (set_jo_delay (delay_of_ms 200) JobOptions_default) 200)
    as (k & job & s & E & H1 & H2 & H3 & H4 & H5 & H6 & H7); [done|done|by unfold two63, MIN_DELAY_MS_LIMIT; lia|done|].
  assert (Hm : qm_delayed (store_get_metrics (sy_store s)) = 1).
  { cbn. unfold count_entries. by rewrite H5, iter_insert, iter_new. }
  rewrite (run_bind _ _ _ _ _ E). erewrite run_bind by done.
  unfold fetch_last, queue_get_job. erewrite run_bind by apply run_timed.
  cbn [store_get_metrics QueueMetrics_new qm_last_id sy_store set_sy_metrics sy_reads]. rewrite H6.
  rewrite (get_job_inserted _ 1 job _ _ H7).
  unfold has_delayed, if_fetched. rewrite Hm, H2, H3, H4, !bool_decide_eq_true_2 by done.
  cbv [assert_ m_bind m_ret same_delay]. cbn [Z.ltb Z.compare Z.eqb Pos.eqb bool_decide].
  edestruct obliterate_returns as ([] & s' & ->). done.
Qed.

(** Every test of the suite passes on the in-memory store: on a fresh store
    and collector, under every clock that stays within the range of dates and
    whatever the external packages do, none of the six programs fails an assertion or returns an error. *)
Theorem queue_suite_passes (prefix : option string) (store_name name : string) (id : Z) :
  (forall n, dated (utc n) 200) -> queue_suite name (fresh prefix store_name id) = replicate 6 (Ok tt).
Proof.
  intros Hdt. unfold queue_suite. rewrite delayed_passes by done. vm_compute. reflexivity.
Qed.
End Suite.
