(* ===== verification/Access.v ===== *)
(** * Reading a queue, and reporting progress (the accessors of
    [src/queue/mod.rs], [update_progress] of [src/job/mod.rs])

    The methods of [Queue] and [Job] that only pass a call on to the store, on
    the in-memory store: what a caller gets back of the jobs it added, what a
    report of progress leaves behind, and how long stored metrics last. *)

From S2P Require Import Prelude SkipMap Deque TimedMap Extern Schedule Job Options Events Shared Metrics InMemoryStore StoreProps StoreScored StoreRecords StoreInsert Collector Queue QueueInv QueueProps.

Section Access.
Context {SM SS : Type -> Type} `{OPS : !SkipMap Z SM} `{SOPS : !SkipMap string SS}
  {EXT : Extern} {CLK : Clock} {D R P : Type}.
Abbreviation Store := (InMemoryStore SM D R P).
Abbreviation QSys := (Sys SM D R P (QueueExt SM SS D R P)).
Abbreviation Q A := (KM QSys A).
Implicit Types st : Store.
Implicit Types s : QSys.

Definition queue_fetch_jobs (ids : list Z) : Q (list (Job D R P)) :=
  let* t := instants in on_store (fetch_jobs (fun i => t (Z.of_nat i)) ids).

Definition queue_get_job_ids_in_state (state : JobState.t) (start end_ : option nat) : Q (list Z) :=
  gets (fun s => get_job_ids_in_state state start end_ (sy_store s)).

Definition queue_name : Q string := gets (fun s => st_name (sy_store s)).
Definition queue_prefix : Q string := gets (fun s => st_prefix (sy_store s)).

Definition queue_fetch_worker_metrics : Q (list (Z * WorkerMetrics)) :=
  let* t := instants in
  let* now := utc_now in
  on_store (fetch_worker_metrics t (fun _ => now)).

Definition queue_fetch_proess_metrics : Q (list (Z * ProcessMetrics)) :=
  let* t := instants in on_store (fetch_process_metrics t).

Definition queue_store_process_metrics (metrics : ProcessMetrics) (ttl_ms : Z) : Q unit :=
  let* t := instants in
  let* t' := instants in
  upd_store (store_process_metrics (t 0) (t' 0) metrics ttl_ms).

(** [Job::update_progress] and [Job::update_progress_sync]: the job comes back
    as the call leaves it. *)
Definition job_update_progress (job : Job D R P) (value : P) : Q (Job D R P) :=
  timed (fun t => update_job_progress t job value).
Definition job_update_progress_sync (job : Job D R P) (value : P) : Q (Job D R P) :=
  timed (fun t => update_job_progress t job value).

Context `{LAWS : !SkipMapLaws Z SM}.

(** ** Fetching *)

Lemma fetch_all (now : nat -> Z) ids jobs st :
  Forall2 (has_record st) ids jobs -> fetch_jobs now ids st = (jobs, st).
Proof.
  intros H. revert now. induction H as [|id job ids jobs Hr H IH]; intros now; [done|]. cbn [fetch_jobs].
  by rewrite (get_job_record (now 0%nat) id st job Hr), IH.
Qed.

Lemma added_ids (jobs : list (Job D R P)) c :
  (forall i job, jobs !! i = Some job -> j_id job = Some (c + Z.of_nat i)) ->
  omap j_id jobs = (fun i => c + Z.of_nat i) <$> seq 0 (length jobs).
Proof.
  revert c. induction jobs as [|job jobs IH]; intros c H; [done|]. cbn [omap list_omap length seq fmap list_fmap].
  rewrite (H 0%nat job eq_refl), <- fmap_S_seq, <- list_fmap_compose.
  rewrite (IH (c + 1)); [cbn; f_equal; apply list_fmap_ext; intros i x Hx; cbn; lia|].
  intros i j Hj. rewrite (H (S i) j Hj). f_equal. lia.
Qed.

(** A batch is read back as it was returned: fetching the jobs of a batch by
    their identifiers gives the jobs of the batch, all of them and in order, and
    leaves the store as it is. *)
Theorem jobs_fetched_back (iter : list (string * option JobOptions * D)) s :
  Forall item_ok iter -> 0 <= st_id_counter (sy_store s) ->
  st_id_counter (sy_store s) + Z.of_nat (length iter) < 2 ^ 56 ->
  exists jobs s1 s2, bulk_add iter s = (Ok jobs, s1) /\ length jobs = length iter /\
    queue_fetch_jobs (omap j_id jobs) s1 = (Ok jobs, s2) /\ sy_store s2 = sy_store s1.
Proof.
  intros Hok Hc Hlt. unfold bulk_add. erewrite run_bind by done. erewrite run_bind by done.
  match goal with |- context [add_bulk iter ?qo ?pa s] =>
    destruct (add_bulk_entries iter qo pa s Hok Hc Hlt) as (jobs & s1 & E & Hlen & _ & _ & Hnew) end.
  exists jobs, s1, (tick s1). split_and!; [done|done| |by destruct s1].
  rewrite (added_ids jobs (st_id_counter (sy_store s) + 1)) by (intros i job Hi; apply (Hnew i job Hi)).
  unfold queue_fetch_jobs, instants, on_store, state. cbv [m_bind]. cbn [sy_store set_sy_reads].
  rewrite (fetch_all _ _ jobs); [by destruct s1|].
  apply Forall2_fmap_l, Forall2_same_length_lookup_2; [by rewrite length_seq|].
  intros i k job Hi Hj. apply lookup_seq in Hi as [-> _]. apply (Hnew i job Hj).
Qed.

(** ** Progress *)

(** Reporting progress, in both forms.  The caller's copy of the job and the
    stored record get the value, nothing else of the record changes and no other
    record does.  No event is published: a listener for progress hears nothing. *)
Theorem progress_recorded (job stored : Job D R P) (id : Z) (value : P) s :
  j_id job = Some id -> has_record (sy_store s) id stored ->
  exists s', job_update_progress job value s = (Ok (set_j_progress (Some value) job), s') /\
    job_update_progress_sync job value s = job_update_progress job value s /\
    has_record (sy_store s') id (set_j_progress (Some value) stored) /\
    (forall k, k <> job_tag id -> entry (st_jobs (sy_store s')) k = entry (st_jobs (sy_store s)) k) /\
    sy_emitted s' = sy_emitted s.
Proof.
  intros Hid Hr. unfold job_update_progress_sync, job_update_progress. rewrite run_timed.
  unfold update_job_progress. rewrite Hid. cbn [fst snd]. eexists. split_and!; [done|done| | |done].
  - unfold has_record in *. cbn [sy_store with_store set_sy_store st_jobs set_st_jobs tick set_sy_reads].
    by rewrite entry_write, decide_True, Hr by done.
  - intros k Hk. cbn [sy_store with_store set_sy_store st_jobs set_st_jobs tick set_sy_reads].
    by rewrite entry_write, decide_False by done.
Qed.
End Access.

(** ** Stored metrics *)

Section Lease.
Context {SM : Type -> Type} `{OPS : !SkipMap Z SM} `{LAWS : !SkipMapLaws Z SM} {EXT : Extern} {D R P : Type}.
Implicit Types st : InMemoryStore SM D R P.

(** Samples stored at the given instants. *)
Definition store_all (ttl_ms : Z) (updates : list (Z * ProcessMetrics)) st :=
  foldl (fun st u => store_process_metrics u.1 u.1 u.2 ttl_ms st) st updates.

Lemma store_renewed now now' metrics ttl st m0 deadline :
  entry (st_process_metrics st) (pm_pid metrics) = Some (Expirable m0 deadline) -> now < deadline ->
  entry (st_process_metrics (store_process_metrics now now' metrics ttl st)) (pm_pid metrics) =
    Some (Expirable metrics deadline).
Proof.
  intros He Hlt. unfold store_process_metrics.
  pose proof (timed_get_visible now (pm_pid metrics) (st_process_metrics st)) as Hv.
  destruct (timed_get _ _ _) as [current tm]. cbn [fst] in Hv. subst current. unfold visible.
  rewrite He. cbn [mbind option_bind is_expired]. destruct (Z.leb_spec deadline now); [lia|].
  cbn. rewrite entry_write, decide_True, He by done. cbn. by destruct (Z.leb_spec deadline now); [lia|].
Qed.

(** C31: the metrics of a process last for the time to live of the first sample.
    Storing a later sample replaces the value and does not renew the deadline, so
    the metrics of a process that goes on reporting disappear when the first
    deadline passes, until it reports again. *)
Theorem metrics_lease (pid t0 ttl_ms t : Z) (m0 : ProcessMetrics) (updates : list (Z * ProcessMetrics)) st :
  let deadline := t0 + from_millis ttl_ms in
  let st' := store_all ttl_ms ((t0, m0) :: updates) st in
  disable_expiration (st_process_metrics st) = false ->
  entry (st_process_metrics st) pid = None -> pm_pid m0 = pid ->
  Forall (fun u => pm_pid u.2 = pid /\ u.1 < deadline) updates ->
  visible t (st_process_metrics st') pid =
  if t <? deadline then Some (default m0 (last updates.*2)) else None.
Proof.
  intros deadline st' Hexp He Hpid Hup.
  enough (entry (st_process_metrics st') pid = Some (Expirable (default m0 (last updates.*2)) deadline)) as E.
  { unfold visible. rewrite E. cbn. destruct (Z.ltb_spec t deadline), (Z.leb_spec deadline t); done || lia. }
  unfold st', store_all. cbn [foldl fst snd].
  assert (E0 : entry (st_process_metrics (store_process_metrics t0 t0 m0 ttl_ms st)) pid =
                 Some (Expirable m0 deadline)).
  { unfold store_process_metrics, timed_get. rewrite Hpid. unfold entry in He. rewrite He. cbn.
    by rewrite entry_insert_expirable, Hexp, decide_True by done. }
  revert E0. generalize (store_process_metrics t0 t0 m0 ttl_ms st). clear st' He Hexp Hpid.
  revert m0. induction Hup as [|[t1 m1] updates [Hp Hlt] Hup IH]; intros m0 s0 E0; [done|].
  cbn [foldl fst snd] in *. subst pid. rewrite (IH m1); [|by eapply store_renewed].
  rewrite fmap_cons, last_cons. by destruct (last updates.*2).
Qed.
End Lease.

(** ** Witnesses *)

Section Witnesses.
#[local] Existing Instance sample_extern.
#[local] Existing Instance sample_clock.

Lemma sample_items_ok : Forall (item_ok (D := Z)) [("a"%string, None, 1); ("b"%string, None, 2)].
Proof. repeat constructor; exists 0; (split; [done|]); (split; [by unfold i64_ok, two63|by left]). Qed.

Lemma jobs_fetched_back_witness :
  exists jobs s1 s2, bulk_add [("a"%string, None, 1); ("b"%string, None, 2)] sample_queue = (Ok jobs, s1) /\
    length jobs = 2%nat /\ queue_fetch_jobs (omap j_id jobs) s1 = (Ok jobs, s2).
Proof.
  destruct (jobs_fetched_back [("a"%string, None, 1); ("b"%string, None, 2)] sample_queue sample_items_ok)
    as (jobs & s1 & s2 & H1 & H2 & H3 & _); [done|done|].
  exists jobs, s1, s2. split; [exact H1|]. split; [exact H2|exact H3].
Defined.

Lemma progress_recorded_witness :
  exists s', job_update_progress (set_j_id (Some 1) (job_new 0 "a" (Some 5) None None)) 30 waiting_queue =
    (Ok (set_j_progress (Some 30) (set_j_id (Some 1) (job_new 0 "a" (Some 5) None None))), s') /\
    sy_emitted s' = sy_emitted waiting_queue.
Proof.
  assert (exists stored, has_record (sy_store waiting_queue) 1 stored) as [stored Hr].
  { eexists. vm_compute. reflexivity. }
  destruct (progress_recorded (set_j_id (Some 1) (job_new 0 "a" (Some 5) None None)) stored 1 30 waiting_queue)
    as (s' & H1 & _ & _ & _ & H2); [reflexivity|exact Hr|].
  exists s'. split; [exact H1|exact H2].
Defined.

Definition sample_metrics (rss : Z) : ProcessMetrics :=
  mkProcessMetrics "host" 7 tt tt rss (mkRuntimeMetrics 1 0 0 0 0 0 0 0 0 0) [] 0.

(** Stored every 300 ms with a time to live of 500 ms. *)
Lemma metrics_lease_witness :
  let st := store_all 500 [(0, sample_metrics 1); (300000000, sample_metrics 2)] sample_store in
  visible 400000000 (st_process_metrics st) 7 = Some (sample_metrics 2) /\
  visible 500000000 (st_process_metrics st) 7 = None.
Proof.
  split.
  - apply (metrics_lease 7 0 500 400000000 (sample_metrics 1) [(300000000, sample_metrics 2)] sample_store);
      [reflexivity|reflexivity|reflexivity|by repeat constructor].
  - apply (metrics_lease 7 0 500 500000000 (sample_metrics 1) [(300000000, sample_metrics 2)] sample_store);
      [reflexivity|reflexivity|reflexivity|by repeat constructor].
Defined.
End Witnesses.
