(* ===== verification/IntervalTimer.v ===== *)
(** * The interval timer ([src/timers/mod.rs])

    A timer and the loops that [run] has spawned for it, one definition per
    stretch of a loop between suspension points.  Callers and loops interleave
    in [timer_step]; time passes between their steps.  An interval is documented
    to complete its first tick at once and tick [k] after [k] periods, whatever
    was missed in between. *)

From S2P Require Import Prelude.

Module TimerState.
Inductive t : Type :=
| Stopped
| Active
| Paused.

#[export] Instance eq_dec : EqDecision t.
Proof. solve_decision. Defined.

Definition is_active (s : t) : bool := match s with Active => true | _ => false end.
Definition is_paused (s : t) : bool := match s with Paused => true | _ => false end.
Definition is_stopped (s : t) : bool := match s with Stopped => true | _ => false end.
End TimerState.

(** Where a loop is. *)
Inductive TimerPc : Type :=
| AtFirstTick              (* [if !skip_first_tick { interval.tick().await }] *)
| AtWhile                  (* [while !token.is_cancelled()] *)
| AtState                  (* [if state.load().is_paused()] *)
| AtNotified               (* about to create [notifier.notified()] *)
| Waiting (seen : nat)     (* waiting, after [seen] notifications *)
| AtCallback               (* [callback().await] *)
| AtTick                   (* [interval.tick().await] *)
| Done.

(** A loop: when it was spawned, its place, how many ticks its interval has
    completed, how often it has called back, and the flag it read. *)
Record TimerLoop : Type := mkTimerLoop {
  tl_start : Z;
  tl_skip : bool;
  tl_pc : TimerPc;
  tl_ticks : nat;
  tl_calls : nat;
}.

(** The cells of a [Timer], and the loops it has spawned. *)
Record IntervalTimer : Type := mkTimer {
  ti_interval : Z;
  ti_state : TimerState.t;
  ti_skip_first_tick : bool;
  ti_notified : nat;
  ti_cancelled : bool;
  ti_loops : list TimerLoop;
  ti_now : Z;
}.

Definition set_ti_state (x : TimerState.t) (t : IntervalTimer) : IntervalTimer :=
  mkTimer (ti_interval t) x (ti_skip_first_tick t) (ti_notified t) (ti_cancelled t) (ti_loops t) (ti_now t).
Definition set_ti_skip_first_tick (x : bool) (t : IntervalTimer) : IntervalTimer :=
  mkTimer (ti_interval t) (ti_state t) x (ti_notified t) (ti_cancelled t) (ti_loops t) (ti_now t).
Definition set_ti_notified (x : nat) (t : IntervalTimer) : IntervalTimer :=
  mkTimer (ti_interval t) (ti_state t) (ti_skip_first_tick t) x (ti_cancelled t) (ti_loops t) (ti_now t).
Definition set_ti_cancelled (x : bool) (t : IntervalTimer) : IntervalTimer :=
  mkTimer (ti_interval t) (ti_state t) (ti_skip_first_tick t) (ti_notified t) x (ti_loops t) (ti_now t).
Definition set_ti_loops (x : list TimerLoop) (t : IntervalTimer) : IntervalTimer :=
  mkTimer (ti_interval t) (ti_state t) (ti_skip_first_tick t) (ti_notified t) (ti_cancelled t) x (ti_now t).
Definition set_ti_now (x : Z) (t : IntervalTimer) : IntervalTimer :=
  mkTimer (ti_interval t) (ti_state t) (ti_skip_first_tick t) (ti_notified t) (ti_cancelled t) (ti_loops t) x.

(** ** What callers do *)

Definition timer_new (delay_ms now : Z) : IntervalTimer :=
  mkTimer delay_ms TimerState.Stopped false 0 false [] now.

(** [compare_exchange(false, true).unwrap_or_default()]: the old value, [false],
    when it was exchanged, and the default, [false], when it was not. *)
Definition should_skip_first_tick (t : IntervalTimer) : bool * IntervalTimer :=
  if ti_skip_first_tick t then (false, t) else (false, set_ti_skip_first_tick true t).

Definition timer_pause (t : IntervalTimer) : IntervalTimer :=
  if TimerState.is_paused (ti_state t) then t else set_ti_state TimerState.Paused t.

Definition timer_is_running (t : IntervalTimer) : bool := TimerState.is_active (ti_state t).

(** Whether a task was spawned, and the timer afterwards; an interval of zero
    panics, here [None]. *)
Definition timer_run (t : IntervalTimer) : option (bool * IntervalTimer) :=
  if timer_is_running t then Some (false, t)
  else if ti_interval t =? 0 then None
  else
    let task := mkTimerLoop (ti_now t) (ti_skip_first_tick t) AtFirstTick 0 0 in
    Some (true, set_ti_state TimerState.Active (set_ti_loops (ti_loops t ++ [task]) t)).

Definition timer_stop (t : IntervalTimer) : IntervalTimer :=
  set_ti_state TimerState.Stopped (set_ti_cancelled true t).

Definition timer_resume (t : IntervalTimer) : IntervalTimer :=
  match ti_state t with
  | TimerState.Active | TimerState.Stopped => t
  | TimerState.Paused => set_ti_notified (S (ti_notified t)) t
  end.

(** ** What a loop does *)

Definition goto (pc : TimerPc) (l : TimerLoop) : TimerLoop :=
  mkTimerLoop (tl_start l) (tl_skip l) pc (tl_ticks l) (tl_calls l).

(** The interval has a tick to give. *)
Definition tick_ready (t : IntervalTimer) (l : TimerLoop) : bool :=
  tl_start l + Z.of_nat (tl_ticks l) * ti_interval t <=? ti_now t.

Definition ticked (pc : TimerPc) (l : TimerLoop) : TimerLoop :=
  mkTimerLoop (tl_start l) (tl_skip l) pc (S (tl_ticks l)) (tl_calls l).

Definition called (l : TimerLoop) : TimerLoop :=
  mkTimerLoop (tl_start l) (tl_skip l) AtTick (tl_ticks l) (S (tl_calls l)).

(** The next stretch of a loop: its place and the state of the timer, or [None]
    when it has to wait or has ended.  [run_until_cancelled] looks at the token
    first. *)
Definition loop_next (t : IntervalTimer) (l : TimerLoop) : option (TimerLoop * TimerState.t) :=
  let st := ti_state t in
  match tl_pc l with
  | AtFirstTick =>
      if tl_skip l then Some (goto AtWhile l, st)
      else if tick_ready t l then Some (ticked AtWhile l, st) else None
  | AtWhile => Some (goto (if ti_cancelled t then Done else AtState) l, st)
  | AtState => Some (goto (if TimerState.is_paused st then AtNotified else AtCallback) l, st)
  | AtNotified => Some (goto (Waiting (ti_notified t)) l, st)
  | Waiting seen =>
      if ti_cancelled t then Some (goto Done l, TimerState.Stopped)
      else if (seen <? ti_notified t)%nat then Some (goto AtCallback l, TimerState.Active) else None
  | AtCallback => Some (called l, st)
  | AtTick => if tick_ready t l then Some (ticked AtWhile l, st) else None
  | Done => None
  end.

Definition loop_moves (i : nat) (l' : TimerLoop) (st : TimerState.t) (t : IntervalTimer) : IntervalTimer :=
  set_ti_state st (set_ti_loops (<[i := l']> (ti_loops t)) t).

(** ** All interleavings *)

Inductive timer_step : relation IntervalTimer :=
| ts_skip t : timer_step t (should_skip_first_tick t).2
| ts_pause t : timer_step t (timer_pause t)
| ts_run t b t' : timer_run t = Some (b, t') -> timer_step t t'
| ts_stop t : timer_step t (timer_stop t)
| ts_resume t : timer_step t (timer_resume t)
| ts_loop t i l l' st :
    ti_loops t !! i = Some l -> loop_next t l = Some (l', st) -> timer_step t (loop_moves i l' st t)
| ts_time t now : ti_now t <= now -> timer_step t (set_ti_now now t).

(** ** How often a loop calls back *)

Definition extra (l : TimerLoop) : nat := if tl_skip l then 1 else 0.

(** The last tick is not early, and the calls follow the ticks. *)
Definition loop_ok (t : IntervalTimer) (l : TimerLoop) : Prop :=
  tl_start l + (Z.of_nat (tl_ticks l) - 1) * ti_interval t <= ti_now t /\
  match tl_pc l with
  | AtFirstTick => tl_calls l = 0%nat /\ tl_ticks l = 0%nat
  | AtTick => tl_calls l = (tl_ticks l + extra l)%nat
  | _ => S (tl_calls l) = (tl_ticks l + extra l)%nat
  end.

Definition timer_ok (t : IntervalTimer) : Prop :=
  0 <= ti_interval t /\ Forall (loop_ok t) (ti_loops t).

Lemma loop_next_ok t l l' st : loop_ok t l -> loop_next t l = Some (l', st) -> loop_ok t l'.
Proof.
  destruct l as [start skip pc ticks calls]. intros [Ht Hc]. unfold loop_next, tick_ready.
  destruct pc; cbn [tl_pc tl_skip tl_start tl_ticks tl_calls] in *; intros E; repeat case_match;
    simplify_eq; unfold loop_ok, goto, ticked, called, extra in *; cbn in *; simplify_eq;
    split; try done; try lia; try (by destruct skip; lia);
    match goal with H : (_ <=? _) = true |- _ => apply Z.leb_le in H; lia end.
Qed.

(** What a step can do to the loops. *)
Inductive loops_step (t t' : IntervalTimer) : Prop :=
| loops_same : ti_loops t' = ti_loops t -> loops_step t t'
| loops_spawn :
    ti_loops t' = ti_loops t ++ [mkTimerLoop (ti_now t) (ti_skip_first_tick t) AtFirstTick 0 0] ->
    loops_step t t'
| loops_move i l l' st :
    ti_loops t !! i = Some l -> loop_next t l = Some (l', st) ->
    ti_loops t' = <[i := l']> (ti_loops t) -> loops_step t t'.

Ltac unmoved :=
  split_and!; [done|cbn; lia|done|first [by apply loops_same|by apply loops_spawn]].

Lemma timer_step_frame t t' :
  timer_step t t' ->
  ti_interval t' = ti_interval t /\ ti_now t <= ti_now t' /\
  (ti_cancelled t = true -> ti_cancelled t' = true) /\ loops_step t t'.
Proof.
  intros Hs. destruct Hs as [t|t|t b t' E|t|t|t i l l' st Hi E|t now Hn].
  - unfold should_skip_first_tick. case_match; unmoved.
  - unfold timer_pause. case_match; unmoved.
  - unfold timer_run in E. repeat case_match; simplify_eq; unmoved.
  - unmoved.
  - unfold timer_resume. case_match; unmoved.
  - split_and!; [done|cbn; lia|done|]. by eapply loops_move.
  - unmoved.
Qed.

Lemma loop_ok_later t t' l :
  ti_interval t' = ti_interval t -> ti_now t <= ti_now t' -> loop_ok t l -> loop_ok t' l.
Proof. intros Hi Hn [H1 H2]. split; [rewrite Hi; lia|done]. Qed.

Lemma timer_step_ok t t' : timer_step t t' -> timer_ok t -> timer_ok t'.
Proof.
  intros (Hi & Hn & _ & Hl)%timer_step_frame [H0 Hok].
  assert (Hok' : Forall (loop_ok t') (ti_loops t)).
  { eapply Forall_impl; [done|]. intros l. by apply loop_ok_later. }
  split; [lia|]. destruct Hl as [->| ->|i l l' st Hi' E ->]; [done| |].
  - apply Forall_app. split; [done|]. constructor; [|done]. split; [cbn; lia|done].
  - apply Forall_insert; [done|]. eapply loop_ok_later; [done..|].
    eapply loop_next_ok; [|done]. by eapply Forall_lookup_1.
Qed.

Lemma timer_steps_ok t t' : rtc timer_step t t' -> timer_ok t -> timer_ok t'.
Proof. induction 1; [done|]. intros. eauto using timer_step_ok. Qed.

(** C39: a timer never calls back too often.  Whatever callers do and however
    loops and callers interleave, a loop that was spawned [d] milliseconds ago has
    called back at most [d / interval + 1] times, and once more when the first
    tick is skipped: the first tick of an interval does not wait, so that skipping
    it gives a second call at once instead of a first one earlier. *)
Theorem calls_bounded (delay_ms now : Z) (t : IntervalTimer) (l : TimerLoop) :
  0 < delay_ms -> rtc timer_step (timer_new delay_ms now) t -> l ∈ ti_loops t ->
  Z.of_nat (tl_calls l) <= (ti_now t - tl_start l) / ti_interval t + 1 + (if tl_skip l then 1 else 0).
Proof.
  intros Hd Hs Hl.
  assert (Hi : ti_interval t = delay_ms).
  { clear Hl. remember (timer_new delay_ms now) as t0 eqn:E.
    assert (ti_interval t0 = delay_ms) as Ei by (by subst). clear E.
    induction Hs as [|t0 t1 t H _ IH]; [done|]. apply IH. apply timer_step_frame in H as [-> _]. done. }
  destruct (timer_steps_ok _ _ Hs) as [_ Hok]; [split; [cbn; lia|constructor]|].
  rewrite Forall_forall in Hok. destruct (Hok l Hl) as [Ht Hc].
  assert (Z.of_nat (tl_calls l) <= Z.of_nat (tl_ticks l) + (if tl_skip l then 1 else 0)).
  { unfold extra in Hc. destruct (tl_pc l), (tl_skip l); lia. }
  assert (Z.of_nat (tl_ticks l) - 1 <= (ti_now t - tl_start l) / ti_interval t); [|lia].
  apply Z.div_le_lower_bound; lia.
Qed.

(** ** Stopping *)

(** How often a loop can still call back once the timer is cancelled. *)
Definition budget (l : TimerLoop) : nat :=
  match tl_pc l with AtState | AtNotified | AtCallback => 1 | _ => 0 end.

Lemma cancelled_next t l l' st :
  ti_cancelled t = true -> loop_next t l = Some (l', st) ->
  (tl_calls l <= tl_calls l' /\ tl_calls l' + budget l' <= tl_calls l + budget l)%nat.
Proof.
  intros Hc. destruct l as [start skip pc ticks calls]. unfold loop_next, budget. rewrite Hc.
  destruct pc; cbn [tl_pc tl_skip tl_calls]; intros E; repeat case_match; simplify_eq; cbn; lia.
Qed.

(** A loop of a cancelled timer, and a later view of it. *)
Definition winds_down (l l' : TimerLoop) : Prop :=
  (tl_calls l <= tl_calls l' /\ tl_calls l' + budget l' <= tl_calls l + budget l)%nat.

Instance winds_down_preorder : PreOrder winds_down.
Proof. split; unfold winds_down; [intros l; lia|intros l1 l2 l3; lia]. Qed.

(** The old loops wind down; the new ones have not called back and will not. *)
Definition wound_down (t t' : IntervalTimer) : Prop :=
  exists old new, ti_loops t' = old ++ new /\ Forall2 winds_down (ti_loops t) old /\
    Forall (fun l => tl_calls l + budget l = 0)%nat new.

Lemma wound_down_step t0 t t' :
  ti_cancelled t = true -> loops_step t t' -> wound_down t0 t -> wound_down t0 t'.
Proof.
  intros Hc Hs (old & new & E & Ho & Hn). destruct Hs as [El|El|i l l' st Hi En El].
  - exists old, new. by rewrite El.
  - exists old. eexists. rewrite El, E, <- app_assoc. split; [reflexivity|]. split; [done|].
    apply Forall_app. split; [done|]. by constructor.
  - pose proof (cancelled_next t l l' st Hc En) as Hw. unfold wound_down. rewrite El, E in *.
    destruct (decide (i < length old)%nat) as [Hlt|Hge].
    + exists (<[i := l']> old), new. rewrite insert_app_l by done. split; [done|]. split; [|done].
      rewrite lookup_app_l in Hi by done.
      destruct (Forall2_lookup_r _ _ _ _ _ Ho Hi) as (l0 & H0 & Hl).
      rewrite <- (list_insert_id (ti_loops t0) i l0 H0). apply Forall2_insert; [done|].
      by etransitivity.
    + exists old, (<[i - length old := l']> new)%nat. rewrite insert_app_r_alt by lia.
      split; [done|]. split; [done|]. rewrite lookup_app_r in Hi by lia.
      apply Forall_insert; [done|]. pose proof (Forall_lookup_1 _ _ _ _ Hn Hi) as Hz. cbn in *. lia.
Qed.

Lemma wound_down_steps t t' :
  rtc timer_step t t' -> forall t0, ti_cancelled t = true -> wound_down t0 t ->
  wound_down t0 t' /\ ti_cancelled t' = true.
Proof.
  induction 1 as [|t t1 t' H _ IH]; [done|]. intros t0 Hc Hw.
  apply timer_step_frame in H as (_ & _ & Hc' & Hl). apply IH; [by apply Hc'|].
  by eapply wound_down_step.
Qed.

(** [stop] is final for the callbacks.  Once the timer has been stopped, each
    of its loops calls back at most once more, whatever happens afterwards, and a
    loop that is spawned later never does.  [run] is not refused then: it spawns
    such a loop and the timer reports that it is running. *)
Theorem stop_is_final (t t' : IntervalTimer) :
  rtc timer_step (timer_stop t) t' ->
  (forall i l, ti_loops t !! i = Some l ->
     exists l', ti_loops t' !! i = Some l' /\ (tl_calls l <= tl_calls l' <= S (tl_calls l))%nat) /\
  (forall i l', (length (ti_loops t) <= i)%nat -> ti_loops t' !! i = Some l' -> tl_calls l' = 0%nat) /\
  (0 < ti_interval t -> exists t1, timer_run (timer_stop t) = Some (true, t1) /\ timer_is_running t1 = true).
Proof.
  intros Hs. destruct (wound_down_steps _ _ Hs (timer_stop t)) as [(old & new & E & Ho & Hn) _]; [done| |].
  { exists (ti_loops t), []. split; [by rewrite app_nil_r|]. split; [reflexivity|done]. }
  pose proof (Forall2_length _ _ _ Ho) as Hlen. split_and!.
  - intros i l Hl. destruct (Forall2_lookup_l _ _ _ _ _ Ho Hl) as (l' & Hl' & H1 & H2).
    exists l'. rewrite E, lookup_app_l by (by eapply lookup_lt_Some). split; [done|].
    unfold budget in H2. destruct (tl_pc l), (tl_pc l'); lia.
  - intros i l' Hi Hl. rewrite E, lookup_app_r in Hl by (cbn in Hlen; lia).
    pose proof (Forall_lookup_1 _ _ _ _ Hn Hl) as Hz. cbn in Hz. lia.
  - intros Hi. unfold timer_run. cbn. destruct (Z.eqb_spec (ti_interval t) 0); [lia|]. by eexists.
Qed.

(** ** Resuming *)

(** A stretch of loop [i]. *)
Definition loop_step (i : nat) (t t' : IntervalTimer) : Prop :=
  exists l l' st, ti_loops t !! i = Some l /\ loop_next t l = Some (l', st) /\ t' = loop_moves i l' st t.

Lemma loop_step_to i t l l' st :
  ti_loops t !! i = Some l -> loop_next t l = Some (l', st) ->
  loop_step i t (loop_moves i l' st t) /\ ti_loops (loop_moves i l' st t) !! i = Some l'.
Proof.
  intros Hi E. split; [by exists l, l', st|]. cbn. apply list_lookup_insert_eq.
  by eapply lookup_lt_Some.
Qed.

(** A resumption can be lost.  A timer that is paused and resumed while its
    loop is about to look at the state does not go on: the notification was sent
    before the loop waits for one, and the loop waits, without a callback, in a
    timer that is still paused, until it is resumed again or stopped. *)
Theorem resume_lost (t : IntervalTimer) (i : nat) (l : TimerLoop) :
  ti_loops t !! i = Some l -> tl_pc l = AtState -> timer_is_running t = true -> ti_cancelled t = false ->
  exists t' l', rtc (loop_step i) (timer_resume (timer_pause t)) t' /\
    ti_loops t' !! i = Some l' /\ tl_calls l' = tl_calls l /\ loop_next t' l' = None /\
    ti_state t' = TimerState.Paused /\
    is_Some (loop_next (timer_resume t') l') /\ is_Some (loop_next (timer_stop t') l').
Proof.
  intros Hi Hpc Hr Hc.
  replace (timer_resume (timer_pause t))
    with (set_ti_notified (S (ti_notified t)) (set_ti_state TimerState.Paused t));
    [|unfold timer_pause, timer_is_running in *; by destruct (ti_state t)].
  set (t1 := set_ti_notified _ _).
  destruct (loop_step_to i t1 l (goto AtNotified l) TimerState.Paused Hi) as [S1 H1];
    [unfold loop_next; by rewrite Hpc|].
  set (t2 := loop_moves i (goto AtNotified l) TimerState.Paused t1) in *.
  destruct (loop_step_to i t2 _ (goto (Waiting (ti_notified t1)) l) TimerState.Paused H1) as [S2 H2]; [done|].
  eexists _, _. split; [by eapply rtc_l; [exact S1|apply rtc_once; exact S2]|].
  split; [exact H2|]. unfold loop_next. cbn -[Nat.ltb]. rewrite Hc, Nat.ltb_irrefl.
  rewrite (proj2 (Nat.ltb_lt _ _) (Nat.lt_succ_diag_r _)). by split_and!.
Qed.

(** ** Witnesses *)

(** [n] stretches of loop [i]. *)
Fixpoint loop_run (i n : nat) (t : IntervalTimer) : option IntervalTimer :=
  match n with
  | O => Some t
  | S n' =>
      l ← ti_loops t !! i;
      '(l', st) ← loop_next t l;
      loop_run i n' (loop_moves i l' st t)
  end.

Lemma loop_run_steps i n t t' : loop_run i n t = Some t' -> rtc timer_step t t'.
Proof.
  revert t. induction n as [|n IH]; intros t E; [injection E as ->; apply rtc_refl|]. cbn in E.
  destruct (ti_loops t !! i) as [l|] eqn:Hl; [|done]. cbn in E.
  destruct (loop_next t l) as [[l' st]|] eqn:En; [|done].
  eapply rtc_l; [by eapply ts_loop|]. by apply IH.
Qed.

(** A timer that skips the first tick: two calls at once. *)
Definition two_calls : IntervalTimer :=
  mkTimer 100 TimerState.Active true 0 false [mkTimerLoop 5 true AtTick 1 2] 5.
Definition skipping : IntervalTimer := (should_skip_first_tick (timer_new 100 5)).2.
Definition running : IntervalTimer :=
  mkTimer 100 TimerState.Active true 0 false [mkTimerLoop 5 true AtFirstTick 0 0] 5.

Lemma two_calls_reached : rtc timer_step (timer_new 100 5) two_calls.
Proof.
  apply (rtc_l _ _ skipping); [apply ts_skip|].
  apply (rtc_l _ _ running); [by apply (ts_run skipping true)|].
  by apply (loop_run_steps 0 8).
Qed.

Lemma calls_bounded_witness : 2 <= (5 - 5) / 100 + 1 + 1.
Proof.
  apply (calls_bounded 100 5 two_calls (mkTimerLoop 5 true AtTick 1 2)); [lia|apply two_calls_reached|].
  by left.
Defined.

(** The loop was about to call back when the timer was stopped. *)
Definition about_to_call : IntervalTimer :=
  mkTimer 100 TimerState.Active false 0 false [mkTimerLoop 5 false AtCallback 1 0] 5.

Lemma stop_is_final_witness :
  exists t' l', loop_run 0 1 (timer_stop about_to_call) = Some t' /\ ti_loops t' !! 0%nat = Some l' /\
    (0 <= tl_calls l' <= 1)%nat /\
    exists t1, timer_run (timer_stop about_to_call) = Some (true, t1) /\ timer_is_running t1 = true.
Proof.
  eexists. destruct (stop_is_final about_to_call
    (mkTimer 100 TimerState.Stopped false 0 true [mkTimerLoop 5 false AtTick 1 1] 5)) as (H1 & _ & H3).
  - by apply (loop_run_steps 0 1).
  - destruct (H1 0%nat _ eq_refl) as (l' & Hl & Hc). exists l'. split; [reflexivity|].
    split; [exact Hl|]. split; [exact Hc|]. by apply H3.
Defined.

Definition about_to_look : IntervalTimer :=
  mkTimer 100 TimerState.Active false 0 false [mkTimerLoop 5 false AtState 1 0] 5.

Lemma resume_lost_witness :
  exists t' l', rtc (loop_step 0) (timer_resume (timer_pause about_to_look)) t' /\
    ti_loops t' !! 0%nat = Some l' /\ loop_next t' l' = None.
Proof.
  destruct (resume_lost about_to_look 0 (mkTimerLoop 5 false AtState 1 0)) as (t' & l' & H1 & H2 & _ & H3 & _);
    [done..|]. by exists t', l'.
Defined.
