(* ===== verification/IntervalTests.v ===== *)
(** * The tests of the interval timer ([src/timers/mod.rs])

    The tests run on one thread: the loops of a timer get their turns while the
    test sleeps, and how the turns fall is a parameter of the tests.  What the
    tests assert is proved for every such parameter, or shown to depend on it. *)

From S2P Require Import Prelude IntervalTimer.

(** ** Sleeping *)

(** What goes on while a test sleeps: turns of the loops, and time. *)
Inductive background : relation IntervalTimer :=
| bg_loop t i l l' st :
    ti_loops t !! i = Some l -> loop_next t l = Some (l', st) -> background t (loop_moves i l' st t)
| bg_time t now : ti_now t <= now -> background t (set_ti_now now t).

Definition blocked (t : IntervalTimer) : Prop :=
  Forall (fun l => loop_next t l = None) (ti_loops t).

#[export] Instance blocked_dec t : Decision (blocked t).
Proof. unfold blocked. apply Forall_dec. intros l. destruct (loop_next t l); [by right|by left]. Defined.

(** The test slept for [d] milliseconds at least, and the loops had their turns:
    at some time all of them were waiting. *)
Definition slept (d : Z) (t t' : IntervalTimer) : Prop :=
  ti_now t + d <= ti_now t' /\ exists m, rtc background t m /\ blocked m /\ rtc background m t'.

Definition Sleep : Type := Z -> IntervalTimer -> IntervalTimer.

(** ** The tests *)

(** The counter that the callback of a test increments. *)
Definition counter (t : IntervalTimer) : nat := sum_list (tl_calls <$> ti_loops t).

(** [let _ = timer.run()]: a panic fails the test. *)
Definition then_run (t : IntervalTimer) (test : IntervalTimer -> bool) : bool :=
  match timer_run t with Some (_, t) => test t | None => false end.

Definition runs_and_stops (now : Z) (sleep : Sleep) : bool :=
  then_run (timer_new 100 now) (fun t =>
    timer_is_running t &&
    let t := timer_stop (sleep 300 t) in negb (timer_is_running t)).

Definition skips_first_ticks (now : Z) (sleep : Sleep) : bool :=
  then_run (should_skip_first_tick (timer_new 100 now)).2 (fun t =>
    ti_skip_first_tick t &&
    let t := timer_stop (sleep 100 t) in
    negb (timer_is_running t) && (counter t =? 2)%nat).

Definition can_pause_and_resume (now : Z) (sleep : nat -> Sleep) : bool :=
  then_run (should_skip_first_tick (timer_new 100 now)).2 (fun t =>
    ti_skip_first_tick t &&
    let t := timer_pause (sleep 0%nat 100 t) in
    TimerState.is_paused (ti_state t) &&
    let t := sleep 2%nat 50 (timer_resume (sleep 1%nat 100 t)) in
    timer_is_running t && (counter t =? 4)%nat).

Definition stops_when_paused (now : Z) (sleep : nat -> Sleep) : bool :=
  then_run (timer_new 100 now) (fun t =>
    let t := timer_pause (sleep 0%nat 100 t) in
    let t := timer_stop (sleep 1%nat 100 t) in
    TimerState.is_stopped (ti_state t)).

(** ** One loop in the background *)

Lemma background_step t t' : background t t' -> timer_step t t'.
Proof. destruct 1; [by eapply ts_loop|by apply ts_time]. Qed.

Lemma background_steps t t' : rtc background t t' -> rtc timer_step t t'.
Proof. apply rtc_subrel. intros ?? ?. by apply background_step. Qed.

(** A later view of a loop. *)
Definition aged (l l' : TimerLoop) : Prop :=
  tl_start l' = tl_start l /\ tl_skip l' = tl_skip l /\ (tl_calls l <= tl_calls l')%nat.

#[export] Instance aged_preorder : PreOrder aged.
Proof. split; [by intros l|]. intros l1 l2 l3 (? & ? & ?) (? & ? & ?). split_and!; [congruence..|lia]. Qed.

Lemma loop_next_aged t l l' st : loop_next t l = Some (l', st) -> aged l l'.
Proof.
  destruct l as [start skip pc ticks calls]. unfold loop_next, aged.
  destruct pc; cbn [tl_pc]; intros E; repeat case_match; simplify_eq; cbn; split_and!; (done || lia).
Qed.

Lemma background_one t t' l :
  rtc background t t' -> ti_loops t = [l] ->
  ti_interval t' = ti_interval t /\ exists l', ti_loops t' = [l'] /\ aged l l'.
Proof.
  intros H. revert l. induction H as [t|t t1 t' H _ IH]; intros l El; [split; [done|]; by exists l|].
  destruct H as [t i l0 l1 st Hi En|t now Hn].
  - rewrite El in Hi. destruct i; [|done]. injection Hi as ->.
    destruct (IH l1) as (Ei & l' & El' & Ha); [cbn; by rewrite El|]. split; [done|].
    exists l'. split; [done|]. etransitivity; [by eapply loop_next_aged|done].
  - destruct (IH l El) as (Ei & l' & El' & Ha). split; [done|]. by exists l'.
Qed.

(** A timer that runs, nothing else being done to it: its loop does not leave the
    cycle of callbacks and ticks. *)
Definition going (t : IntervalTimer) : Prop :=
  ti_cancelled t = false /\ ti_state t = TimerState.Active /\
  Forall (fun l => match tl_pc l with AtNotified | Waiting _ | Done => False | _ => True end) (ti_loops t).

Lemma background_going t t' : background t t' -> going t -> going t'.
Proof.
  intros Hb (Hc & Hs & Hp). destruct Hb as [t i l l' st Hi E|t now Hn]; [|done].
  pose proof (Forall_lookup_1 _ _ _ _ Hp Hi) as Hl. cbn in Hl. unfold loop_next in E.
  assert (st = TimerState.Active /\ match tl_pc l' with AtNotified | Waiting _ | Done => False | _ => True end)
    as [-> Hl'].
  { destruct (tl_pc l) eqn:Epc; try done; rewrite ?Hc, ?Hs in E; repeat case_match; simplify_eq; by rewrite ?Hs. }
  split; [done|]. split; [done|]. by apply Forall_insert.
Qed.

Lemma background_all (I : IntervalTimer -> Prop) t t' :
  (forall a b, background a b -> I a -> I b) -> rtc background t t' -> I t -> I t'.
Proof. intros Hstep. induction 1; eauto. Qed.

(** A loop that waits for a tick has called back, twice if it skipped the first. *)
Lemma blocked_called t l :
  going t -> ti_loops t = [l] -> loop_ok t l -> blocked t -> 0 < ti_interval t -> tl_start l <= ti_now t ->
  (1 + extra l <= tl_calls l)%nat.
Proof.
  intros (Hc & Hs & Hp) El [Ht Hk] Hb Hi Hn. unfold blocked in Hb. rewrite El in Hp, Hb.
  rewrite Forall_singleton in Hp, Hb. destruct l as [start skip pc ticks calls].
  unfold loop_next, tick_ready, extra in *. cbn -[Z.mul] in *.
  destruct pc; try done; destruct ticks as [|ticks]; cbn -[Z.mul] in *;
    try (rewrite Z.mul_0_l, Z.add_0_r, (proj2 (Z.leb_le _ _) Hn) in Hb); destruct skip;
    try done; try (destruct Hk; done); lia.
Qed.

(** The timer of the two tests that count, once it runs. *)
Definition spawned (skip : bool) (now : Z) : IntervalTimer :=
  mkTimer 100 TimerState.Active skip 0 false [mkTimerLoop now skip AtFirstTick 0 0] now.

Lemma spawned_slept skip now d t :
  slept d (spawned skip now) t -> 0 <= d ->
  going t /\ now + d <= ti_now t /\ exists l, ti_loops t = [l] /\ counter t = tl_calls l /\
  (1 + extra (mkTimerLoop now skip AtFirstTick 0 0) <= tl_calls l)%nat /\
  Z.of_nat (tl_calls l) <= (ti_now t - now) / 100 + 1 + (if skip then 1 else 0).
Proof.
  intros (Hd & m & H1 & Hb & H2) H0. set (l0 := mkTimerLoop now skip AtFirstTick 0 0).
  assert (Hg0 : going (spawned skip now)) by (split_and!; [done..|by repeat constructor]).
  assert (Hok0 : timer_ok (spawned skip now)).
  { split; [done|]. repeat constructor. cbn. lia. }
  pose proof (background_all going _ _ background_going H1 Hg0) as Hgm.
  pose proof (background_all going _ _ background_going H2 Hgm) as Hgt.
  destruct (background_one _ _ l0 H1 eq_refl) as (Ei & l1 & El1 & Hs1 & Hk1 & _).
  destruct (background_one _ _ l1 H2 El1) as (Ei' & l & El & Hs2 & Hk2 & Hc2).
  destruct (timer_steps_ok _ _ (background_steps _ _ H1) Hok0) as [_ Hokm].
  destruct (timer_steps_ok _ _ (background_steps _ _ H2)) as [_ Hokt]; [by split; [rewrite Ei|]|].
  assert (Hnow : now <= ti_now m).
  { clear -H1. assert (ti_now (spawned skip now) <= ti_now m); [|done].
    induction H1 as [|?? ? H _ IH]; [done|]. apply background_step, timer_step_frame in H. lia. }
  rewrite El1 in Hokm. rewrite El in Hokt. rewrite Forall_singleton in Hokm, Hokt.
  split; [done|]. split; [done|]. exists l. split; [done|].
  split; [unfold counter; rewrite El; cbn; lia|]. cbn in Ei, Hs1, Hk1. split.
  - pose proof (blocked_called m l1 Hgm El1 Hokm Hb) as Hcalls. rewrite Ei, Hs1 in Hcalls.
    unfold extra in *. rewrite Hk1 in Hcalls. cbn. specialize (Hcalls eq_refl Hnow). lia.
  - destruct Hokt as [Ht Hc]. rewrite Ei', Ei, Hs2, Hs1 in Ht. unfold extra in Hc. rewrite Hk2, Hk1 in Hc.
    assert (Z.of_nat (tl_ticks l) - 1 <= (ti_now t - now) / 100) by (apply Z.div_le_lower_bound; lia).
    destruct (tl_pc l), skip; lia.
Qed.

(** ** Schedules *)

(** The loop of a timer runs until it waits. *)
Fixpoint settle (fuel : nat) (t : IntervalTimer) : IntervalTimer :=
  match fuel with
  | O => t
  | S fuel' =>
      match ti_loops t !! 0%nat with
      | Some l =>
          match loop_next t l with
          | Some (l', st) => settle fuel' (loop_moves 0 l' st t)
          | None => t
          end
      | None => t
      end
  end.

Lemma settle_background fuel t : rtc background t (settle fuel t).
Proof.
  revert t. induction fuel as [|fuel IH]; intros t; [done|]. cbn.
  destruct (ti_loops t !! 0%nat) as [l|] eqn:El; [|done].
  destruct (loop_next t l) as [[l' st]|] eqn:En; [|done].
  eapply rtc_l; [by eapply bg_loop|apply IH].
Qed.

(** One millisecond, and the turns it makes possible. *)
Definition elapse (t : IntervalTimer) : IntervalTimer := settle 20 (set_ti_now (ti_now t + 1) t).

(** A runtime that serves what is due at every millisecond.  In the last one the
    sleep of the test is due as well: [last] says whether the loop is served
    before it. *)
Definition prompt (last : bool) (d : Z) (t : IntervalTimer) : IntervalTimer :=
  let t := Nat.iter (Z.to_nat (d - 1)) elapse (settle 20 t) in
  let t := set_ti_now (ti_now t + 1) t in
  if last then settle 20 t else t.

Lemma later t d : 0 <= d -> rtc background t (set_ti_now (ti_now t + d) t).
Proof. intros Hd. apply rtc_once, bg_time. lia. Qed.

Lemma elapse_background n t : rtc background t (Nat.iter n elapse t).
Proof.
  induction n as [|n IH]; [done|]. etransitivity; [exact IH|]. rewrite Nat.iter_succ. unfold elapse at 2.
  etransitivity; [by apply (later _ 1)|apply settle_background].
Qed.

Lemma prompt_background last d t : rtc background (settle 20 t) (prompt last d t).
Proof.
  etransitivity; [apply (elapse_background (Z.to_nat (d - 1)))|]. unfold prompt.
  etransitivity; [by apply (later _ 1)|]. destruct last; [apply settle_background|done].
Qed.

(** The tests that only look at the state pass whatever happens while they sleep. *)
Lemma state_tests_pass (now : Z) (sleep : nat -> Sleep) :
  runs_and_stops now (sleep 0%nat) = true /\ stops_when_paused now sleep = true.
Proof. done. Qed.

(** The runtime that serves loops promptly gives the loop its turns. *)
Lemma prompt_slept last now :
  blocked (settle 20 (spawned true now)) ->
  ti_now (spawned true now) + 100 <= ti_now (prompt last 100 (spawned true now)) ->
  slept 100 (spawned true now) (prompt last 100 (spawned true now)).
Proof.
  intros Hb Hn. split; [done|]. exists (settle 20 (spawned true now)).
  split; [apply settle_background|]. split; [done|]. apply prompt_background.
Qed.

(** The test that counts callbacks is a race.  Whatever the runtime does
    while [skips_first_ticks] sleeps its 100 milliseconds, if the loop gets its
    turns and the test is woken within another 100, the callback has run two or
    three times: twice at the start, and once more if the tick that is due when the
    test wakes up is served first.  The test accepts two only; both counts occur. *)
Theorem skip_test_race (now : Z) (sleep : Sleep) :
  slept 100 (spawned true now) (sleep 100 (spawned true now)) ->
  ti_now (sleep 100 (spawned true now)) < now + 200 ->
  let calls := counter (sleep 100 (spawned true now)) in
  (calls = 2 \/ calls = 3)%nat /\ skips_first_ticks now sleep = (calls =? 2)%nat.
Proof.
  intros Hs Hn calls. destruct (spawned_slept true now 100 _ Hs) as (_ & Hd & l & El & Ec & Hlo & Hhi); [lia|].
  split; [|done]. assert ((ti_now (sleep 100 (spawned true now)) - now) / 100 < 2) by (apply Z.div_lt_upper_bound; lia).
  subst calls. rewrite Ec. cbn in Hlo. lia.
Qed.

Lemma prompt_wakes last : ti_now (prompt last 100 (spawned true 0)) = 100.
Proof. destruct last; by vm_compute. Qed.

Lemma prompt_counts last : counter (prompt last 100 (spawned true 0)) = if last then 3%nat else 2%nat.
Proof. destruct last; by vm_compute. Qed.

Lemma prompt_sleeps last : slept 100 (spawned true 0) (prompt last 100 (spawned true 0)).
Proof.
  apply prompt_slept; [apply (bool_decide_unpack _); by vm_compute|].
  rewrite prompt_wakes. cbn [spawned ti_now]. lia.
Qed.

Lemma skip_test_race_witness :
  skips_first_ticks 0 (prompt false) = true /\ skips_first_ticks 0 (prompt true) = false.
Proof.
  split.
  - destruct (skip_test_race 0 (prompt false) (prompt_sleeps false)) as [_ E]; [by rewrite prompt_wakes|].
    by rewrite prompt_counts in E.
  - destruct (skip_test_race 0 (prompt true) (prompt_sleeps true)) as [_ E]; [by rewrite prompt_wakes|].
    by rewrite prompt_counts in E.
Defined.

(** [can_pause_and_resume] passes unless the loop is served before the first sleep
    ends and after the second does: it is then not waiting when the test resumes
    the timer, and the resumption is lost. *)
Definition served (first second third : bool) (n : nat) : Sleep :=
  prompt (match n with 0%nat => first | 1%nat => second | _ => third end).

Lemma pause_test_race first second third :
  can_pause_and_resume 0 (served first second third) = negb (first && negb second).
Proof. destruct first, second, third; by vm_compute. Qed.
