(* ===== verification/Timers.v ===== *)
(** * The timer task of a queue ([src/timers/delay_queue_timer.rs])

    Every queue runs one task that promotes delayed jobs ([Promotion]), answers
    the timers the collector broadcasts and stores process metrics.  [timer_task]
    is its loop, driven by the list of what [select!] yields. *)

From S2P Require Import Prelude SkipMap Deque TimedMap Extern Schedule Job Options Events Shared Metrics InMemoryStore StoreProps StoreScored StoreRecords StoreInsert Collector Queue Promotion QueueInv QueueProps.

Definition HISTOGRAM_MAX_NS : Z := 100000000000.

Section Timers.
Context {SM SS : Type -> Type} `{OPS : !SkipMap Z SM} `{SOPS : !SkipMap string SS}
  {EXT : Extern} {CLK : Clock} {MON : Monitors} {D R P : Type}.

Abbreviation QSys := (Sys SM D R P (QueueExt SM SS D R P)).
Abbreviation Q A := (KM QSys A).

(** ** Answering a timer *)

Definition extend_job_lock (job : JobMeta D R P) : Q unit :=
  match j_id (meta_job job) with
  | Some id =>
      let* _ := extend_lock id (wo_lock_duration (meta_opts job)) (meta_token job) in m_ret tt
  | None => m_ret tt
  end.

(** [u64::try_from(x).unwrap_or_default()] on a non-negative number. *)
Definition u64_or_zero (x : Z) : Z := if x <? two64 then x else 0.

Definition mean_poll (metrics : TaskStats) : Z :=
  if 0 <? ts_total_poll_count metrics
  then u64_or_zero (ts_total_poll_duration metrics / ts_total_poll_count metrics)
  else 0.

Definition set_meta_histogram (h : Histogram) (m : JobMeta D R P) : JobMeta D R P :=
  mkJobMeta (meta_job m) (meta_token m) (meta_handle m) h (meta_opts m).

(** [tasks_per_worker.entry(worker_id)]: push to the entry or create it. *)
Fixpoint push_task (worker_id : Z) (task : TaskInfo) (opts : WorkerOpts)
    (tasks : list (Z * (list TaskInfo * WorkerOpts))) : list (Z * (list TaskInfo * WorkerOpts)) :=
  match tasks with
  | [] => [(worker_id, ([task], opts))]
  | (w, (ts, o)) :: rest =>
      if w =? worker_id then (w, (ts ++ [task], o)) :: rest
      else (w, (ts, o)) :: push_task worker_id task opts rest
  end.

(** One round of the loop over the jobs in progress; the histogram is shared
    with the map, so what is recorded stays there. *)
Definition collect_task (tasks : list (Z * (list TaskInfo * WorkerOpts)))
    (entry : Z * JobMeta D R P) : Q (list (Z * (list TaskInfo * WorkerOpts))) :=
  let '(id, meta) := entry in
  let task_id := unwrap_or id (meta_handle meta) in
  let* n := gets sy_reads in
  let metrics := cumulative n id in
  let mean_ns := u64_or_zero (mean_poll metrics) in
  let histogram :=
    if 0 <? mean_ns then hist_record (Z.min mean_ns HISTOGRAM_MAX_NS) (meta_histogram meta)
    else meta_histogram meta in
  upd_ext (fun q => set_q_jobs (sm_insert id (set_meta_histogram histogram meta) (q_jobs q)) q) ;;;
  let* now := utc_now in
  let task_info := mkTaskInfo task_id id metrics now histogram in
  m_ret (push_task (tok_worker (meta_token meta)) task_info (meta_opts meta) tasks).

(** [Queue::store_worker_metrics]. *)
Definition queue_store_worker_metrics (metrics : WorkerMetrics) (ttl_ms : Z) : Q unit :=
  let* t := instants in
  let* t' := instants in
  upd_store (store_worker_metrics (t 0) (t' 0) metrics ttl_ms).

Definition report_worker (entry : Z * (list TaskInfo * WorkerOpts)) : Q unit :=
  let '(worker_id, (tasks, opts)) := entry in
  let active_len := Z.of_nat (length tasks) in
  let ttls := wo_metrics_update_interval opts in
  let* now := utc_now in
  queue_store_worker_metrics (WorkerMetrics_new now worker_id active_len tasks ttls)
    (wo_metrics_update_interval opts).

Definition reregister (entry : Z * WorkerEntry) : Q unit :=
  let worker_id := entry.1 in
  let* states := on_ext q_states in
  match sm_get states worker_id with
  | Some WorkerState.Active | Some WorkerState.Idle => add_worker_heartbeat worker_id
  | _ => m_ret tt
  end.

(** The arms of [process_timer]; the result is [next_timer]. *)
Definition answer_timer (key : TimerType.t) : Q (option TimerType.t) :=
  match key with
  | TimerType.StalledCheck duration =>
      let* workers := on_ext q_workers in
      (match list_find (fun e => from_millis (wo_stalled_interval (we_opts e.2)) = duration)
               (sm_iter workers) with
       | Some (_, entry) =>
           let* _ := make_stalled_jobs_wait (we_opts entry.2) in m_ret tt
       | None => m_ret tt
       end) ;;;
      m_ret (Some key)
  | TimerType.ExtendLock duration =>
      let* workers := on_ext q_workers in
      let workers := (filter (fun e => from_millis (wo_lock_duration (we_opts e.2)) = duration)
                        (sm_iter workers)).*1 in
      let* jobs := on_ext q_jobs in
      for_each (filter (fun e => tok_worker (meta_token e.2) ∈ workers) (sm_iter jobs))
        (fun pair => extend_job_lock pair.2) ;;;
      m_ret (Some key)
  | TimerType.CollectMetrics duration =>
      (let* t := instants in upd_store (store_purge_expired t)) ;;;
      let* updated_metrics := queue_get_metrics in
      modify (fun s => set_sy_metrics (metrics_update updated_metrics (sy_metrics s)) s) ;;;
      (let* _ := pause_or_resume_workers updated_metrics false in m_ret tt) ;;;
      let* jobs := on_ext q_jobs in
      let* tasks_per_worker :=
        for_fold (filter (fun e => from_millis (wo_metrics_update_interval (meta_opts e.2)) = duration)
                    (sm_iter jobs)) [] collect_task in
      for_each (hash_order tasks_per_worker) report_worker ;;;
      m_ret (Some key)
  | TimerType.PromotedDelayed job_id _ =>
      upd_store (add_item CollectionSuffix.Wait job_id None true) ;;;
      m_ret None
  | TimerType.ReregisterWorker =>
      let* workers := on_ext q_workers in
      for_each (sm_iter workers) reregister ;;;
      let* id := on_ext q_id in
      upd_collector (register_queue id) ;;;
      m_ret (Some key)
  end.

Definition process_timer (key : TimerType.t) : Q unit :=
  let* next_timer := answer_timer key in
  match next_timer with
  | Some timer => timer_send timer
  | None => m_ret tt
  end.

(** ** The task *)

(** What [select!] yields: the cancellation, a broadcast command, or a change
    of the process metrics. *)
Inductive TimerInput : Type :=
| Cancelled
| RespondToTimer (timer : TimerType.t)
| ProcessMetricsChanged (metrics : option ProcessMetrics).

Definition timer_task_promote : Q unit :=
  let* date_time := utc_now in
  let* m := gets sy_metrics in
  if has_delayed m && negb (metrics_is_idle m)
  then promote_delayed_jobs date_time (cast_signed MIN_DELAY_MS_LIMIT)
  else m_ret tt.

(** The sleep at the end of a round changes no state. *)
Fixpoint timer_task (inputs : list TimerInput) : Q unit :=
  match inputs with
  | [] => m_ret tt
  | input :: inputs =>
      timer_task_promote ;;;
      match input with
      | Cancelled => m_ret tt
      | RespondToTimer timer => process_timer timer ;;; timer_task inputs
      | ProcessMetricsChanged None => timer_task inputs
      | ProcessMetricsChanged (Some metrics) =>
          (let* t := instants in
           let* t' := instants in
           upd_store (store_process_metrics (t 0) (t' 0) metrics PROCESS_METRIC_UPDATE_INTERVAL)) ;;;
          timer_task inputs
      end
  end.

(** ** What the computations keep of the queue's own state *)

Section Kept.
Context {B : Type} (g : QueueExt SM SS D R P -> B).

Definition kept : relation QSys := fun s s' => g (sy_ext s') = g (sy_ext s).

#[export] Instance kept_preorder : PreOrder kept.
Proof. split; [done|]. intros x y z H1 H2. unfold kept in *. congruence. Qed.

Lemma kept_on_store {A} (f : InMemoryStore SM D R P -> A * InMemoryStore SM D R P) :
  preserves kept (on_store f).
Proof. apply preserves_state. intros s. by destruct (f (sy_store s)). Qed.

Lemma kept_upd_store (f : InMemoryStore SM D R P -> InMemoryStore SM D R P) :
  preserves kept (upd_store f).
Proof. done. Qed.

Lemma kept_upd_ext (f : QueueExt SM SS D R P -> QueueExt SM SS D R P) :
  (forall q, g (f q) = g q) -> preserves kept (upd_ext f).
Proof. intros H s. apply H. Qed.

Lemma kept_cells (f : QSys -> QSys) :
  (forall s, sy_ext (f s) = sy_ext s) -> preserves (E := KioError) kept (modify f).
Proof. intros H s. unfold kept; cbn. by rewrite H. Qed.

Lemma kept_utc_now : preserves kept utc_now.
Proof. done. Qed.

Lemma kept_instants : preserves kept instants.
Proof. done. Qed.
Hint Resolve kept_on_store kept_upd_store kept_utc_now kept_instants : kio.

Lemma kept_timed {A} (f : Z -> InMemoryStore SM D R P -> A * InMemoryStore SM D R P) :
  preserves kept (timed f).
Proof. unfold timed. preserve. Qed.

Lemma kept_timed_upd (f : Z -> InMemoryStore SM D R P -> InMemoryStore SM D R P) :
  preserves kept (timed_upd f).
Proof. unfold timed_upd. preserve. Qed.

Lemma kept_resume m : preserves kept (resume_helper m).
Proof.
  apply kept_cells. intros s. cbn. by destruct (queue_has_work m && sy_pause_workers s).
Qed.

Lemma kept_pause_or_resume m b : preserves kept (pause_or_resume_workers m b).
Proof.
  unfold pause_or_resume_workers. preserve; [|apply kept_resume].
  apply kept_cells. intros s. by case_match.
Qed.
Hint Resolve kept_timed kept_timed_upd kept_pause_or_resume : kio.

Lemma kept_publish (event : QueueStreamEvent R P) : preserves kept (publish_event event).
Proof.
  unfold publish_event, process_each_event. preserve; by apply kept_cells.
Qed.
Hint Resolve kept_publish : kio.

Lemma kept_move_job id from to value ts bt :
  preserves kept (move_job_to_state id from to value ts bt).
Proof. unfold move_job_to_state, publish_now, is_paused. preserve. Qed.
Hint Resolve kept_move_job : kio.

Lemma kept_stalled opts : preserves kept (make_stalled_jobs_wait opts).
Proof.
  unfold make_stalled_jobs_wait, recover_stalled, mark_stalled, get_target_list, is_paused. preserve.
Qed.

Lemma kept_extend_lock id d token : preserves kept (extend_lock id d token).
Proof. unfold extend_lock. preserve. Qed.

Lemma kept_finish id ts token to r bt :
  preserves kept (move_job_to_finished_or_failed id ts token to r bt).
Proof. unfold move_job_to_finished_or_failed, queue_get_job. preserve. Qed.

Lemma kept_ignore {A} (c : Q A) : preserves kept c -> preserves kept (ignore_result c).
Proof. intros H s. unfold ignore_result. specialize (H s). by destruct (c s) as [[] ?]. Qed.
Hint Resolve kept_stalled kept_extend_lock kept_finish : kio.

Lemma kept_fail_missed ts id : preserves kept (ignore_result (fail_missed ts id)).
Proof. apply kept_ignore. unfold fail_missed. preserve. Qed.
End Kept.

(** ** Promotion *)

Context `{LAWS : !SkipMapLaws Z SM}.

Abbreviation collector s := (q_collector (sy_ext s)).

(** The timer a queue gets for a promoted job. *)
Definition promotion (now queue_id job_id : Z) : Z * (Z * TimerType.t) :=
  let d := from_millis MIN_DELAY_MS_LIMIT in
  (now + d, (d, TimerType.PromotedDelayed job_id queue_id)).

Lemma timer_send_run timer (s : QSys) :
  timer_send timer s =
  (Ok tt, set_sy_ext (set_q_collector (send (instant (sy_reads s) 0) (q_id (sy_ext s)) timer
     (collector s)) (sy_ext s)) (tick s)).
Proof. done. Qed.

Lemma timer_send_busy timer (s : QSys) :
  timer_exists timer (q_id (sy_ext s)) (collector s) = true ->
  timer_send timer s = (Ok tt, tick s).
Proof.
  intros E. rewrite timer_send_run. unfold send. rewrite E. by destruct s as [??????[]].
Qed.

Lemma sends_busy (jobs : list Z) (s : QSys) :
  timer_exists (TimerType.PromotedDelayed 0 0) (q_id (sy_ext s)) (collector s) = true ->
  exists n, for_each jobs (fun j => timer_send (TimerType.PromotedDelayed j (q_id (sy_ext s)))) s =
    (Ok tt, set_sy_reads n s).
Proof.
  revert s. induction jobs as [|j jobs IH]; intros s E; cbn [for_each].
  - exists (sy_reads s). by destruct s.
  - rewrite (run_bind _ _ s tt (tick s)) by (by apply timer_send_busy).
    destruct (IH (tick s) E) as [n Hn]. exists n. exact Hn.
Qed.

Lemma sends_first (jobs : list Z) (s : QSys) :
  exists s', for_each jobs
      (fun j => timer_send (TimerType.PromotedDelayed j (q_id (sy_ext s)))) s = (Ok tt, s') /\
    sy_store s' = sy_store s /\
    co_delay_queue (collector s') = co_delay_queue (collector s) ++
      if timer_exists (TimerType.PromotedDelayed 0 0) (q_id (sy_ext s)) (collector s) then []
      else map (promotion (instant (sy_reads s) 0) (q_id (sy_ext s))) (take 1 jobs).
Proof.
  destruct (timer_exists _ _ _) eqn:E.
  { destruct (sends_busy jobs s E) as [n Hn]. eexists; split_and!; [exact Hn|done|].
    by rewrite app_nil_r. }
  destruct jobs as [|j jobs]; cbn [for_each take map].
  { exists s. by rewrite app_nil_r. }
  rewrite (run_bind _ _ s tt _ (timer_send_run _ _)).
  set (s1 := set_sy_ext _ _).
  destruct (sends_busy jobs s1) as [n Hn].
  { apply timer_exists_subscribed, (send_subscribed _ _ (TimerType.PromotedDelayed j _)). }
  eexists; split_and!; [exact Hn|done|].
  change (co_delay_queue (send (instant (sy_reads s) 0) (q_id (sy_ext s))
    (TimerType.PromotedDelayed j (q_id (sy_ext s))) (collector s)) =
    co_delay_queue (collector s) ++ [promotion (instant (sy_reads s) 0) (q_id (sy_ext s)) j]).
  unfold send. change (timer_exists (TimerType.PromotedDelayed j _)) with
    (timer_exists (TimerType.PromotedDelayed 0 0)). by rewrite E.
Qed.

(** C16: a promotion pass takes every job due in the window out of the delayed
    set, but all their timers have the same duration, and a queue has at most
    one timer of a duration: only the first due job gets its promotion timer,
    and none does while an earlier promotion is pending.  The store is changed
    in no other way when no deadline was missed, so the other due jobs are
    left in no collection and are never promoted.  A window that ends outside the
    range of dates panics before anything has changed. *)
Theorem promotion_keeps_one (date_time : Dt) (interval_ms : Z) (s : QSys) :
  has_delayed (sy_metrics s) = true ->
  let start := timestamp_millis date_time in
  let stop := timestamp_millis (date_time + milliseconds interval_ms) in
  if decide (~ dated date_time interval_ms) then promote_jobs date_time interval_ms s = (Panic, s) else
  let '(due, missed, st') := get_delayed_at start stop (sy_store s) in
  let pending := timer_exists (TimerType.PromotedDelayed 0 0) (q_id (sy_ext s)) (collector s) in
  let s' := (promote_jobs date_time interval_ms s).2 in
  co_delay_queue (collector s') =
    co_delay_queue (collector s) ++
    (if pending then [] else map (promotion (instant (sy_reads s) 0) (q_id (sy_ext s))) (take 1 due)) /\
  (missed = [] -> (promote_jobs date_time interval_ms s).1 = Ok tt /\ sy_store s' = st').
Proof.
  intros Hd start stop. case_decide as Hdt.
  { unfold promote_jobs. rewrite (run_bind _ _ s (sy_metrics s) s) by done. rewrite Hd. cbn [negb].
    by rewrite dt_add_dated, decide_False. }
  destruct (get_delayed_at start stop (sy_store s)) as [[due missed] st'] eqn:E.
  unfold promote_jobs. rewrite (run_bind _ _ s (sy_metrics s) s) by done. rewrite Hd. cbn [negb].
  rewrite dt_add_dated, decide_True by done. rewrite (run_bind _ _ s (date_time + milliseconds interval_ms) s) by done.
  fold start stop.
  rewrite (run_bind _ _ s (due, missed) (set_sy_store st' s))
    by (unfold on_store, state; by rewrite E).
  cbv beta iota. rewrite (run_bind _ _ _ (q_id (sy_ext s)) (set_sy_store st' s)) by done.
  destruct (sends_first due (set_sy_store st' s)) as (s1 & H1 & H2 & H3).
  cbn [sy_ext set_sy_store sy_reads sy_store] in *.
  rewrite (run_bind _ _ _ tt s1 H1).
  pose proof (preserves_for_each (kept (fun q => q)) missed
    (fun job_id => ignore_result (fail_missed (timestamp_micros date_time) job_id))
    (kept_fail_missed _ _)) as Hk.
  specialize (Hk s1). unfold kept in Hk. rewrite Hk. split; [exact H3|].
  intros ->. done.
Qed.

(** ** Answering *)

Lemma returns_timed {A} (f : Z -> InMemoryStore SM D R P -> A * InMemoryStore SM D R P) :
  returns (timed f : Q _).
Proof. unfold timed, instants, on_store. return_all. Qed.

Lemma returns_timed_upd (f : Z -> InMemoryStore SM D R P -> InMemoryStore SM D R P) :
  returns (timed_upd f : Q _).
Proof. unfold timed_upd, instants, upd_store. return_all. Qed.

Hint Resolve returns_timed returns_timed_upd : kio.

(** The recovery loop only runs over an empty list. *)
Lemma returns_stalled opts : returns (make_stalled_jobs_wait opts : Q _).
Proof.
  unfold make_stalled_jobs_wait, get_target_list, is_paused, mark_stalled, upd_store.
  do 2 (apply returns_bind; [return_all|intros ?]). case_match; [return_all|].
  do 2 (apply returns_bind; [return_all|intros ?]). case_decide; [subst; apply returns_ret|return_all].
Qed.

Lemma returns_answer key : returns (answer_timer key : Q _).
Proof.
  unfold answer_timer, extend_job_lock, extend_lock, collect_task, report_worker, reregister,
    queue_store_worker_metrics, queue_get_metrics, pause_or_resume_workers, resume_helper,
    add_worker_heartbeat, register_in_collector, upd_collector, upd_ext, on_ext, upd_store,
    utc_now, instants.
  return_all; apply returns_stalled.
Qed.

Lemma kept_answer key : preserves (kept q_id) (answer_timer key).
Proof.
  unfold answer_timer, extend_job_lock, collect_task, report_worker, reregister,
    queue_store_worker_metrics, queue_get_metrics, add_worker_heartbeat, register_in_collector,
    upd_collector, on_ext.
  preserve; auto using kept_stalled, kept_extend_lock, kept_upd_ext, kept_cells,
    kept_pause_or_resume, kept_instants, kept_utc_now, kept_upd_store.
Qed.

(** What [answer_timer] asks to be re-armed. *)
Lemma answer_next key (s : QSys) a s' :
  answer_timer key s = (Ok a, s') ->
  a = match key with TimerType.PromotedDelayed _ _ => None | _ => Some key end.
Proof.
  intros H. unfold answer_timer in H. destruct key; unfold m_bind in H;
    repeat match type of H with
           | context [match ?c with _ => _ end] => destruct c as [[?|?|] ?]; try discriminate H
           end; by injection H.
Qed.

(** The timers of the collector: subscriptions and the delay queue. *)
Definition timers_of (q : QueueExt SM SS D R P) := (co_global_timers (q_collector q), co_delay_queue (q_collector q)).

Lemma kept_timers_answer key : preserves (kept timers_of) (answer_timer key).
Proof.
  unfold answer_timer, extend_job_lock, collect_task, report_worker, reregister,
    queue_store_worker_metrics, queue_get_metrics, add_worker_heartbeat, register_in_collector,
    upd_collector, on_ext.
  preserve; auto using kept_stalled, kept_extend_lock, kept_upd_ext, kept_cells,
    kept_pause_or_resume, kept_instants, kept_utc_now, kept_upd_store.
  all: apply kept_upd_ext; intros q; unfold timers_of, register_worker, register_queue; cbn; by repeat case_match.
Qed.

(** C23: answering a timer never fails.  A promotion puts the job on the waiting
    list and asks for nothing.  Every other timer is re-armed: the delay queue gets
    the same timer again, for its whole duration from then on, unless the queue is
    already subscribed to that duration, through a timer of whatever kind; then the
    timer is dropped.  Either way the queue is subscribed to the duration. *)
Theorem timer_answered (key : TimerType.t) (s : QSys) :
  exists s', process_timer key s = (Ok tt, s') /\
  match key with
  | TimerType.PromotedDelayed job_id _ =>
      sy_store s' = add_item CollectionSuffix.Wait job_id None true (sy_store s) /\
      sy_ext s' = sy_ext s
  | _ =>
      let d := next_duration key in
      subscribed (collector s') d (q_id (sy_ext s)) /\
      exists n, co_delay_queue (collector s') = co_delay_queue (collector s) ++
        if timer_exists key (q_id (sy_ext s)) (collector s) then [] else [(instant n 0 + d, (d, key))]
  end.
Proof.
  destruct (returns_answer key s) as (a & s1 & E).
  pose proof (kept_answer key s) as Hid. rewrite E in Hid. unfold kept in Hid; cbn in Hid.
  pose proof (kept_timers_answer key s) as Ht. rewrite E in Ht. unfold kept, timers_of in Ht. cbn in Ht.
  injection Ht as Hg Hd. pose proof (answer_next key s a s1 E) as Ha.
  assert (Hex : timer_exists key (q_id (sy_ext s)) (collector s) = timer_exists key (q_id (sy_ext s1)) (collector s1))
    by (unfold timer_exists; by rewrite Hg, Hid).
  unfold process_timer. rewrite (run_bind _ _ _ _ _ E), Hex, <- Hid, <- Hd.
  destruct key; subst a; try (rewrite timer_send_run; eexists; (split; [done|]); (split; [apply send_subscribed|]);
    exists (sy_reads s1); cbn [sy_ext set_sy_ext q_collector set_q_collector]; unfold send;
    case_match; [by rewrite app_nil_r|done]).
  exists s1. injection E as <-. done.
Qed.
End Timers.

(** ** Witnesses *)

Section Witnesses.
#[local] Existing Instance sample_extern.
#[local] Existing Instance sample_clock.

Definition sample_monitors : Monitors := {|
  cumulative _ _ := mkTaskStats 2 0 10 0 0;
  hist_record _ h := h;
  hist_new := tt;
  hash_order _ l := l;
  new_v4 n := Z.of_nat n;
|}.
#[local] Existing Instance sample_monitors.

(** Two jobs delayed to the same window. *)
Definition due_queue : Sys ZMap Z Z Z (QueueExt ZMap StrMap Z Z Z) :=
  queue_new 77 None collector_new
    (add_item CollectionSuffix.Delayed 5 (Some 150) false
       (add_item CollectionSuffix.Delayed 4 (Some 149) false sample_store)).

Lemma promotion_keeps_one_witness :
  let s' := (promote_jobs (milliseconds 149) 50 due_queue).2 in
  co_delay_queue (q_collector (sy_ext s')) = [promotion 0 77 4] /\
  sm_iter (st_delayed (sy_store s')) = [] /\ wait_list (sy_store s') = [].
Proof.
  intros s'. pose proof (promotion_keeps_one (milliseconds 149) 50 due_queue) as H.
  cbv zeta in H. rewrite decide_False in H by (intros Hn; apply Hn; unfold dated, milliseconds; cbn; lia). destruct (get_delayed_at _ _ _) as [[due missed] st'] eqn:E.
  vm_compute in E. injection E as <- <- <-.
  destruct H as [H1 H2]; [vm_compute; reflexivity|].
  destruct (H2 eq_refl) as [_ H3]. unfold s'. rewrite H1, H3.
  split_and!; vm_compute; reflexivity.
Defined.

Lemma timer_answered_witness :
  exists s', process_timer (TimerType.ExtendLock (from_millis 30000)) active_queue = (Ok tt, s') /\
  subscribed (q_collector (sy_ext s')) (from_millis 30000) 77.
Proof.
  destruct (timer_answered (TimerType.ExtendLock (from_millis 30000)) active_queue) as (s' & E & H & _).
  exists s'. split; [exact E|exact H].
Defined.
End Witnesses.
