(* ===== verification/Worker.v ===== *)
(** * Workers ([src/worker/mod.rs], [process_job], [get_next_job] and
    [main_loop] of [src/utils/mod.rs])

    A worker owns a cancellation token, a task tracker and, for every
    successful [run], one main loop with its own semaphore.  [WSys] pairs it
    with the queue.  A main loop is a small program with a counter; every
    definition below is one stretch of it between two points where other tasks
    may run, and [worker_step] is the relation that lets the loops, the job
    tasks, the callers and the rest of the system take turns. *)

From S2P Require Import Prelude SkipMap Deque TimedMap Extern Schedule Job Options Events Shared Metrics InMemoryStore StoreProps StoreScored StoreRecords StoreInsert Collector Queue QueueInv QueueProps Promotion Timers Catcher.

(** Where a main loop is.  [Sleeping n] waits for a notification sent after
    the [n] first ones. *)
Inductive LoopPc : Type :=
| Starting
| Top
| Pausing
| Sleeping (seen : Z)
| Ready
| Fetching (token : JobToken)
| Storing (id : Z)
| Draining
| Finished (failed : bool).

Record Loop : Type := mkLoop {
  l_pc : LoopPc;
  l_permits : Z;
}.

Section WorkerState.
Context {EXT : Extern} {D R P : Type}.

(** A spawned job task: the loop whose permit it holds, its job and token. *)
Record JobTask : Type := mkJobTask {
  jt_loop : nat;
  jt_job : Job D R P;
  jt_token : JobToken;
}.

Record Worker : Type := mkWorker {
  w_id : Z;
  w_opts : WorkerOpts;
  w_created_at : Dt;
  w_cancelled : bool;
  w_tracker_closed : bool;
  w_tasks : list JobTask;
  w_active_job_count : Z;
  w_loops : list Loop;
  w_main : option nat;
  w_closing : bool;
}.

Definition set_w_cancelled (x : bool) (r : Worker) : Worker :=
  mkWorker (w_id r) (w_opts r) (w_created_at r) x (w_tracker_closed r) (w_tasks r)
    (w_active_job_count r) (w_loops r) (w_main r) (w_closing r).
Definition set_w_tracker_closed (x : bool) (r : Worker) : Worker :=
  mkWorker (w_id r) (w_opts r) (w_created_at r) (w_cancelled r) x (w_tasks r)
    (w_active_job_count r) (w_loops r) (w_main r) (w_closing r).
Definition set_w_tasks (x : list JobTask) (r : Worker) : Worker :=
  mkWorker (w_id r) (w_opts r) (w_created_at r) (w_cancelled r) (w_tracker_closed r) x
    (w_active_job_count r) (w_loops r) (w_main r) (w_closing r).
Definition set_w_active_job_count (x : Z) (r : Worker) : Worker :=
  mkWorker (w_id r) (w_opts r) (w_created_at r) (w_cancelled r) (w_tracker_closed r) (w_tasks r)
    x (w_loops r) (w_main r) (w_closing r).
Definition set_w_loops (x : list Loop) (r : Worker) : Worker :=
  mkWorker (w_id r) (w_opts r) (w_created_at r) (w_cancelled r) (w_tracker_closed r) (w_tasks r)
    (w_active_job_count r) x (w_main r) (w_closing r).
Definition set_w_main (x : option nat) (r : Worker) : Worker :=
  mkWorker (w_id r) (w_opts r) (w_created_at r) (w_cancelled r) (w_tracker_closed r) (w_tasks r)
    (w_active_job_count r) (w_loops r) x (w_closing r).
Definition set_w_closing (x : bool) (r : Worker) : Worker :=
  mkWorker (w_id r) (w_opts r) (w_created_at r) (w_cancelled r) (w_tracker_closed r) (w_tasks r)
    (w_active_job_count r) (w_loops r) (w_main r) x.
End WorkerState.

Arguments JobTask {EXT} D R P.
Arguments Worker {EXT} D R P.

Section Worker.
Context {SM SS : Type -> Type} `{OPS : !SkipMap Z SM} `{SOPS : !SkipMap string SS}
  {EXT : Extern} {CLK : Clock} {MON : Monitors} {D R P : Type}.

Abbreviation QSys := (Sys SM D R P (QueueExt SM SS D R P)).
Abbreviation Q A := (KM QSys A).

(** The worker and the queue it is attached to. *)
Record WSys : Type := mkWSys {
  ws_worker : Worker D R P;
  ws_queue : QSys;
}.
Abbreviation W A := (KM WSys A).

Definition on_queue {A} (c : Q A) : W A :=
  fun s => let '(r, q) := c (ws_queue s) in (r, mkWSys (ws_worker s) q).

Definition on_worker {A} (f : Worker D R P -> A) : W A := gets (fun s => f (ws_worker s)).

Definition upd_worker (f : Worker D R P -> Worker D R P) : W unit :=
  modify (fun s => mkWSys (f (ws_worker s)) (ws_queue s)).

(** The state cell, shared with the registries. *)
Definition load_state : W WorkerState.t :=
  let* w := on_worker w_id in
  let* states := on_queue (on_ext q_states) in
  m_ret (unwrap_or WorkerState.default (sm_get states w)).

Definition store_state (x : WorkerState.t) : W unit :=
  let* w := on_worker w_id in
  on_queue (upd_ext (fun q => set_q_states (sm_insert w x (q_states q)) q)).

(** ** Life cycle *)

Definition is_running : W bool :=
  let* state := load_state in
  let* cancelled := on_worker w_cancelled in
  m_ret (bool_decide (state = WorkerState.Active) && negb cancelled).

Definition is_idle : W bool :=
  let* state := load_state in m_ret (bool_decide (state = WorkerState.Idle)).

Definition closed : W bool :=
  let* cancelled := on_worker w_cancelled in
  let* state := load_state in
  m_ret (cancelled || bool_decide (state = WorkerState.Closed)).

(** [tokio::spawn(main_loop(..))] and the swap of [main_task]. *)
Definition spawn_main : W unit :=
  upd_worker (fun w =>
    set_w_main (Some (length (w_loops w)))
      (set_w_loops (w_loops w ++ [mkLoop Starting (wo_concurrency (w_opts w))]) w)).

Definition run : W unit :=
  let* current := load_state in
  let* cancelled := on_worker w_cancelled in
  let* id := on_worker w_id in
  if decide (current = WorkerState.Idle) then store_state WorkerState.Active ;;; spawn_main
  else if bool_decide (current = WorkerState.Active) && negb cancelled then
    throw (KWorkerError (WorkerAlreadyRunningWithId id))
  else if bool_decide (current = WorkerState.Closed) || cancelled then
    throw (KWorkerError (WorkerAlreadyClosed id))
  else spawn_main.

(** [Worker::new]; [id] is the fresh [Uuid]. *)
Definition worker_new (id : Z) (num_cpus : Z) (worker_opts : option WorkerOpts) (q : QSys) :
    outcome KioError unit * WSys :=
  let opts := unwrap_or (WorkerOpts_default num_cpus) worker_opts in
  let create :=
    let* created_at := on_queue utc_now in
    upd_worker (fun _ => mkWorker id opts created_at false false [] 0 [] None false) ;;;
    store_state WorkerState.default ;;;
    on_queue (add_worker id opts created_at) ;;;
    if wo_autorun opts then run else m_ret tt in
  create (mkWSys (mkWorker id opts 0 false false [] 0 [] None false) q).

(** [close] up to the busy wait for the main task; [close_finish] is what
    follows it. *)
Definition close : W unit :=
  let* running := is_running in
  if negb running then m_ret tt
  else
    upd_worker (set_w_tracker_closed true) ;;;
    on_queue resume_workers ;;;
    on_queue (modify (fun s => set_sy_notified (sy_notified s + 1) s)) ;;;
    on_queue (modify (set_sy_pause_workers false)) ;;;
    upd_worker (set_w_cancelled true) ;;;
    upd_worker (set_w_closing true).

Definition is_finished (l : Loop) : bool :=
  match l_pc l with Finished _ => true | _ => false end.

Definition main_finished (w : Worker D R P) : bool :=
  match w_main w with
  | None => true
  | Some i => match w_loops w !! i with Some l => is_finished l | None => true end
  end.

Definition close_finish : W unit :=
  let* id := on_worker w_id in
  on_queue (remove_worker id) ;;;
  upd_worker (set_w_closing false).

(** ** Processing one job *)

(** The user's processor, with what [BacktraceCatcher::catch] reports; it may
    use the store. *)
Context (processor : Job D R P -> InMemoryStore SM D R P -> Caught R * InMemoryStore SM D R P).

Definition set_attempt (attempt : Z) (m : JobMetrics) : JobMetrics :=
  mkJobMetrics (jm_ran_for m) (jm_delayed_for m) attempt (jm_delay m) (jm_id m).

Definition timed_metrics (job_id : Z) (job_added_at now : Dt) (processed_on : option Dt)
    (m : JobMetrics) : JobMetrics :=
  match processed_on with
  | Some processed_at =>
      let delayed_for := to_std_or_default (processed_at - job_added_at) in
      let ran_for := to_std_or_default (now - processed_at) in
      mkJobMetrics ran_for delayed_for (jm_attempt m) (jm_delay m) job_id
  | None => m
  end.

(** [jobs_in_progress.remove]. *)
Definition take_in_progress (job_id : Z) : Q (option (JobMeta D R P)) :=
  let* jobs := on_ext q_jobs in
  upd_ext (fun q => set_q_jobs (sm_remove job_id (q_jobs q)) q) ;;;
  m_ret (sm_get jobs job_id).

(** What follows the removal of the entry: repetition or retention. *)
Definition settle_success (job_id : Z) (completed : Job D R P) (meta : JobMeta D R P) :
    Q (option (Z * JobState.t)) :=
  let opts := j_opts (meta_job meta) in
  (if j_attempts_made completed <? jo_attempts opts then
     match jo_repeat (j_opts completed) with
     | Some repeat_opts =>
         retry_job job_id (retry_of_repeat repeat_opts)
           (wrapping_sub_u64 (j_attempts_made completed) 1)
     | None => m_ret tt
     end
   else clean_up_job job_id (jo_remove_on_complete opts)) ;;;
  m_ret (match meta_handle meta with
         | Some _ => Some (job_id, JobState.Completed)
         | None => None
         end).

(** The [Ok] arm; the result is [task_queue]. *)
Definition on_success (job : Job D R P) (token : JobToken) (metrics : JobMetrics) (result : R) :
    Q (option (Z * JobState.t)) :=
  let job_id := unwrap_or 0 (j_id job) in
  let* now := utc_now in
  let ts := timestamp_micros now in
  let move_to_state := JobState.Completed in
  let metrics := timed_metrics job_id (j_ts job) now (j_processed_on job) metrics in
  let* completed := move_job_to_finished_or_failed job_id ts token move_to_state
                      (PSuccess result metrics) None in
  let* entry := take_in_progress job_id in
  match entry with
  | None => m_ret None
  | Some meta => settle_success job_id completed meta
  end.

(** What follows the removal of the entry: retry, and retention when the
    attempts are exhausted. *)
Definition settle_failure (job_id : Z) (failed_job : Job D R P) (meta : JobMeta D R P) :
    Q (option (Z * JobState.t)) :=
  let opts := j_opts (meta_job meta) in
  (if j_attempts_made failed_job <? jo_attempts opts then
     match jo_backoff opts with
     | Some backoff_job_opts =>
         retry_job job_id (retry_of_back_off backoff_job_opts)
           (wrapping_sub_u64 (j_attempts_made failed_job) 1)
     | None => m_ret tt
     end
   else m_ret tt) ;;;
  (if j_attempts_made failed_job =? jo_attempts opts
   then clean_up_job job_id (jo_remove_on_fail opts) else m_ret tt) ;;;
  m_ret (match meta_handle meta with
         | Some _ => Some (job_id, JobState.Failed)
         | None => None
         end).

(** The [Err] arm. *)
Definition on_failure (job : Job D R P) (token : JobToken) (attempts_made : Z)
    (reason : string) (backtrace : option (list string)) : Q (option (Z * JobState.t)) :=
  let job_id := unwrap_or 0 (j_id job) in
  let frames := (fun frames => mkTrace attempts_made reason frames) <$> backtrace in
  let failed_reason := mkFailedDetails attempts_made reason in
  let* now := utc_now in
  let ts := timestamp_micros now in
  let move_to_state := JobState.Failed in
  let* failed_job := move_job_to_finished_or_failed job_id ts token move_to_state
                       (PFailed failed_reason) frames in
  let* entry := take_in_progress job_id in
  match entry with
  | None => m_ret None
  | Some meta => settle_failure job_id failed_job meta
  end.

Definition process_job (job : Job D R P) (token : JobToken) : W unit :=
  let attempts_made := wrapping_add_u64 (j_attempts_made job) 1 in
  let* metrics := expect (get_metrics job) in
  let metrics := set_attempt attempts_made metrics in
  let* returned := on_queue (on_store (processor job)) in
  let* task_queue :=
    on_queue (match returned with
              | Returned result => on_success job token metrics result
              | CaughtPanic payload backtrace => on_failure job token attempts_made payload backtrace
              | CaughtError error backtrace => on_failure job token attempts_made error backtrace
              | CaughtJoinError error => on_failure job token attempts_made error None
              end) in
  match task_queue with
  | Some (job_id, state) =>
      upd_worker (fun w => set_w_active_job_count (wrapping_sub_u64 (w_active_job_count w) 1) w) ;;;
      let* worker_id := on_worker w_id in
      let* _ := on_queue (update_processing_count false worker_id job_id state) in
      m_ret tt
  | None => m_ret tt
  end.

Definition get_next_job (token : JobToken) (_block_delay : Z) (closed : bool) (opts : WorkerOpts)
    (passed_id : option Z) : Q (option (Job D R P)) :=
  if closed then m_ret None
  else
    match passed_id with
    | Some job_id =>
        let* now := utc_now in
        let ts := cast_unsigned (timestamp_micros now) in
        let* job := prepare_job_for_processing token job_id ts opts JobState.Wait in
        m_ret (Some job)
    | None =>
        let* moved := move_to_active token opts in
        match moved with
        | ProcessJob job => m_ret (Some job)
        | _ => m_ret None
        end
    end.

(** ** The main loop *)

Definition set_loop (i : nat) (l : Loop) : W unit :=
  upd_worker (fun w => set_w_loops (<[i := l]> (w_loops w)) w).

Definition goto (i : nat) (l : Loop) (pc : LoopPc) : W unit := set_loop i (mkLoop pc (l_permits l)).

(** The value or the error of a call the loop inspects itself. *)
Definition attempt {A} (c : Q A) : W (outcome KioError A) :=
  fun s => let '(r, q) := c (ws_queue s) in (Ok r, mkWSys (ws_worker s) q).

Definition loop_start (i : nat) (l : Loop) : W unit :=
  let* opts := on_worker w_opts in
  on_queue (register_worker_timers opts) ;;;
  goto i l Top.

(** The loop condition and the load of the pause signal. *)
Definition loop_top (i : nat) (l : Loop) : W unit :=
  let* cancelled := on_worker w_cancelled in
  if cancelled then goto i l Draining
  else
    let* paused := on_queue (gets sy_pause_workers) in
    if paused then goto i l Pausing else goto i l Ready.

(** The state is published and [notified()] is created. *)
Definition loop_pause (i : nat) (l : Loop) : W unit :=
  store_state WorkerState.Idle ;;;
  let* seen := on_queue (gets sy_notified) in
  goto i l (Sleeping seen).

Definition loop_wake (i : nat) (l : Loop) : W unit :=
  store_state WorkerState.Active ;;;
  goto i l Ready.

(** The concurrency check and the acquisition of a permit, which is available
    at once: only this loop takes permits of its semaphore. *)
Definition loop_acquire (i : nat) (l : Loop) : W unit :=
  let* opts := on_worker w_opts in
  let* tasks := on_worker w_tasks in
  if (l_permits l =? 0) || (wo_concurrency opts <=? Z.of_nat (length tasks)) then goto i l Top
  else
    let* token_prefix := on_worker w_active_job_count in
    let* id := on_worker w_id in
    let* n := on_queue (gets sy_reads) in
    let token := mkToken id (new_v4 n) token_prefix in
    set_loop i (mkLoop (Fetching token) (l_permits l - 1)).

Definition release (i : nat) (l : Loop) (pc : LoopPc) : W unit :=
  set_loop i (mkLoop pc (l_permits l + 1)).

(** From [get_next_job] to the next suspension point.  The handle of the
    spawned task is stored by [loop_store_handle]. *)
Definition loop_fetch (i : nat) (l : Loop) (token : JobToken) : W unit :=
  let* cancelled := on_worker w_cancelled in
  let* opts := on_worker w_opts in
  let* next_job_result := attempt (get_next_job token 0 cancelled opts None) in
  match next_job_result with
  | Ok (Some job) =>
      match j_id job with
      | Some id =>
          let* worker_id := on_worker w_id in
          let* counted := attempt (update_processing_count true worker_id id (j_state job)) in
          match counted with
          | Ok _ =>
              on_queue (upd_ext (fun q => set_q_jobs
                (sm_insert id (mkJobMeta job token None hist_new opts) (q_jobs q)) q)) ;;;
              upd_worker (fun w => set_w_tasks (w_tasks w ++ [mkJobTask i job token]) w) ;;;
              goto i l (Storing id)
          | _ => release i l (Finished true)
          end
      | None => release i l Top
      end
  | Ok None | Err _ => release i l Top
  | Panic => release i l (Finished true)
  end.

Definition set_meta_handle (h : option Z) (m : JobMeta D R P) : JobMeta D R P :=
  mkJobMeta (meta_job m) (meta_token m) h (meta_histogram m) (meta_opts m).

(** [stored_handle.swap(Some(task))]; [task_id] is the runtime's number of the
    spawned task. *)
Definition loop_store_handle (i : nat) (l : Loop) (id task_id : Z) : W unit :=
  let* jobs := on_queue (on_ext q_jobs) in
  (match sm_get jobs id with
   | Some meta =>
       on_queue (upd_ext (fun q =>
         set_q_jobs (sm_insert id (set_meta_handle (Some task_id) meta) (q_jobs q)) q))
   | None => m_ret tt
   end) ;;;
  goto i l Top.

(** After [processing.wait()]. *)
Definition loop_close (i : nat) (l : Loop) : W unit :=
  store_state WorkerState.Closed ;;;
  goto i l (Finished false).

(** A spawned task runs its job; whatever comes of it, the tracker forgets the
    task and its permit goes back to the semaphore. *)
Definition give_back (i : nat) (loops : list Loop) : list Loop :=
  alter (fun l => mkLoop (l_pc l) (l_permits l + 1)) i loops.

Definition run_task (k : nat) (t : JobTask D R P) : WSys -> WSys :=
  fun s =>
    let s1 := (process_job (jt_job t) (jt_token t) s).2 in
    let w := ws_worker s1 in
    mkWSys (set_w_loops (give_back (jt_loop t) (w_loops w))
              (set_w_tasks (delete k (w_tasks w)) w)) (ws_queue s1).

(** ** The worker among the other tasks *)

Definition loop_at (s : WSys) (i : nat) (l : Loop) (pc : LoopPc) : Prop :=
  w_loops (ws_worker s) !! i = Some l /\ l_pc l = pc.

(** What the worker does by itself: its main loops and its job tasks. *)
Inductive own_step : relation WSys :=
| w_start s i l : loop_at s i l Starting -> own_step s (loop_start i l s).2
| w_top s i l : loop_at s i l Top -> own_step s (loop_top i l s).2
| w_pause s i l : loop_at s i l Pausing -> own_step s (loop_pause i l s).2
| w_wake s i l seen :
    loop_at s i l (Sleeping seen) -> seen < sy_notified (ws_queue s) ->
    own_step s (loop_wake i l s).2
| w_wake_cancelled s i l seen :
    loop_at s i l (Sleeping seen) -> w_cancelled (ws_worker s) = true ->
    own_step s (goto i l Draining s).2
| w_acquire s i l : loop_at s i l Ready -> own_step s (loop_acquire i l s).2
| w_fetch s i l token : loop_at s i l (Fetching token) -> own_step s (loop_fetch i l token s).2
| w_store_handle s i l id task_id :
    loop_at s i l (Storing id) -> own_step s (loop_store_handle i l id task_id s).2
| w_loop_close s i l :
    loop_at s i l Draining -> w_tracker_closed (ws_worker s) = true ->
    w_tasks (ws_worker s) = [] -> own_step s (loop_close i l s).2
| w_task s k t : w_tasks (ws_worker s) !! k = Some t -> own_step s (run_task k t s).

(** The worker together with its callers and the other users of the queue. *)
Inductive worker_step : relation WSys :=
| w_own s s' : own_step s s' -> worker_step s s'
| w_run s : worker_step s (run s).2
| w_close s : worker_step s (close s).2
| w_close_finish s :
    w_closing (ws_worker s) = true -> main_finished (ws_worker s) = true ->
    worker_step s (close_finish s).2
| w_queue {A} (c : Q A) s : queue_op c -> worker_step s (on_queue c s).2
| w_timer input s : worker_step s (on_queue (timer_task [input]) s).2.

(** ** The concurrency limit *)

Definition takes_slot (l : Loop) : nat :=
  match l_pc l with Fetching _ => 1%nat | _ => 0%nat end.

Definition fetching (loops : list Loop) : nat := sum_list_with takes_slot loops.

(** Jobs running or about to be fetched. *)
Definition occupied (w : Worker D R P) : Z :=
  Z.of_nat (length (w_tasks w) + fetching (w_loops w)).

Definition slots_ok (w : Worker D R P) : Prop :=
  occupied w <= match w_loops w with
                | [] => 0
                | _ => wo_concurrency (w_opts w) + Z.of_nat (length (w_loops w)) - 1
                end.

(** A step keeps the options and the limit. *)
Definition within : relation WSys := fun s s' =>
  w_opts (ws_worker s') = w_opts (ws_worker s) /\
  (0 <= wo_concurrency (w_opts (ws_worker s)) -> slots_ok (ws_worker s) -> slots_ok (ws_worker s')).

#[export] Instance within_preorder : PreOrder within.
Proof.
  split; [by split|]. intros x y z [H1 H2] [H3 H4]. split; [congruence|].
  intros Hc Hx. apply H4; [by rewrite H1|auto].
Qed.

Lemma fetching_le loops : (fetching loops <= length loops)%nat.
Proof.
  induction loops as [|[pc n] loops IH]; [done|].
  change (fetching _) with (takes_slot (mkLoop pc n) + fetching loops)%nat.
  cbn [length]. assert (takes_slot (mkLoop pc n) <= 1)%nat by (destruct pc; cbn; lia). lia.
Qed.

Lemma fetching_app l1 l2 : fetching (l1 ++ l2) = (fetching l1 + fetching l2)%nat.
Proof. apply sum_list_with_app. Qed.

Lemma fetching_insert i l l' loops :
  loops !! i = Some l -> (fetching (<[i := l']> loops) + takes_slot l = fetching loops + takes_slot l')%nat.
Proof.
  intros Hi. pose proof (lookup_lt_Some _ _ _ Hi).
  rewrite insert_take_drop by done. rewrite <- (take_drop_middle loops i l Hi) at 3.
  rewrite !fetching_app. unfold fetching; cbn. lia.
Qed.

Lemma fetching_insert_free i l' loops :
  takes_slot l' = 0%nat -> (fetching (<[i := l']> loops) <= fetching loops)%nat.
Proof.
  intros H0. destruct (loops !! i) as [l|] eqn:Hi.
  - pose proof (fetching_insert i l l' loops Hi). lia.
  - by rewrite list_insert_ge by (by apply lookup_ge_None).
Qed.

Lemma fetching_give_back i loops : fetching (give_back i loops) = fetching loops.
Proof.
  unfold give_back. revert i. induction loops as [|l loops IH]; intros [|i]; cbn; [done..|].
  unfold fetching in *. cbn. by rewrite IH.
Qed.

(** An update that frees slots and leaves the number of loops. *)
Lemma slots_shrink (w w' : Worker D R P) :
  w_opts w' = w_opts w -> length (w_loops w') = length (w_loops w) -> occupied w' <= occupied w ->
  slots_ok w -> slots_ok w'.
Proof.
  unfold slots_ok. intros -> Hl Ho. destruct (w_loops w), (w_loops w'); cbn in *; lia.
Qed.

Lemma within_shrink (f : Worker D R P -> Worker D R P) :
  (forall w, w_opts (f w) = w_opts w /\ length (w_loops (f w)) = length (w_loops w) /\
             occupied (f w) <= occupied w) ->
  preserves within (upd_worker f).
Proof.
  intros H s. destruct (H (ws_worker s)) as (H1 & H2 & H3). split; [done|].
  intros _. by apply slots_shrink.
Qed.

Lemma within_queue {A} (c : Q A) : preserves within (on_queue c).
Proof. intros s. unfold on_queue. by destruct (c (ws_queue s)). Qed.

Lemma within_attempt {A} (c : Q A) : preserves within (attempt c).
Proof. intros s. unfold attempt. by destruct (c (ws_queue s)). Qed.

Lemma within_goto i l pc : takes_slot (mkLoop pc 0) = 0%nat -> preserves within (goto i l pc).
Proof.
  intros H. apply within_shrink. intros w. unfold occupied; cbn [set_w_loops w_opts w_tasks w_loops]. rewrite length_insert.
  split_and!; [done..|]. pose proof (fetching_insert_free i (mkLoop pc (l_permits l)) (w_loops w) H). lia.
Qed.

Lemma within_release i l pc : takes_slot (mkLoop pc 0) = 0%nat -> preserves within (release i l pc).
Proof. intros H. by apply (within_goto i (mkLoop pc (l_permits l + 1))). Qed.

Lemma within_spawn : preserves within spawn_main.
Proof.
  intros s. split; [done|]. unfold slots_ok, occupied.
  cbn [spawn_main upd_worker modify snd ws_worker set_w_main set_w_loops w_opts w_tasks w_loops].
  rewrite fetching_app, length_app. destruct (w_loops (ws_worker s)); cbn; lia.
Qed.

Hint Resolve within_queue within_attempt within_spawn : kio.
Hint Extern 1 (preserves within (goto _ _ _)) => (apply within_goto; reflexivity) : kio.
Hint Extern 1 (preserves within (release _ _ _)) => (apply within_release; reflexivity) : kio.
Hint Extern 1 (preserves within (upd_worker _)) => (by apply within_shrink) : kio.

Lemma within_state x : preserves within (store_state x).
Proof. unfold store_state, on_worker. preserve. Qed.

Lemma within_load : preserves within load_state.
Proof. unfold load_state, on_worker. preserve. Qed.
Hint Resolve within_state within_load : kio.

Lemma within_process_job job token : preserves within (process_job job token).
Proof. unfold process_job, on_worker. preserve. Qed.

Lemma within_task k t s : w_tasks (ws_worker s) !! k = Some t -> within s (run_task k t s).
Proof.
  intros Hk. unfold run_task. etrans; [apply (within_process_job (jt_job t) (jt_token t))|].
  set (s1 := (process_job _ _ s).2). split; [done|]. intros _. apply slots_shrink; [done| |].
  - cbn. unfold give_back. by rewrite length_alter.
  - unfold occupied; cbn [ws_worker set_w_loops set_w_tasks w_tasks w_loops]. rewrite fetching_give_back.
    assert (length (delete k (w_tasks (ws_worker s1))) <= length (w_tasks (ws_worker s1)))%nat
      by (apply submseteq_length, sublist_submseteq, sublist_delete). lia.
Qed.

Lemma within_acquire i l : preserves within (loop_acquire i l).
Proof.
  intros s. unfold loop_acquire, on_worker, on_queue. cbv [m_bind gets].
  destruct ((l_permits l =? 0) || _) eqn:E; [by apply within_goto|].
  apply orb_false_iff in E as [_ E%Z.leb_gt].
  set (l' := mkLoop (Fetching _) _). split; [done|]. intros Hc Hs.
  change (slots_ok (set_w_loops (<[i := l']> (w_loops (ws_worker s))) (ws_worker s))).
  unfold slots_ok, occupied in *. cbn [set_w_loops w_opts w_tasks w_loops] in *.
  pose proof (fetching_le (<[i := l']> (w_loops (ws_worker s)))) as Hf.
  rewrite length_insert in *. destruct (w_loops (ws_worker s)) as [|l0 ls] eqn:El; [exact Hs|].
  destruct (<[i:=l']> (l0 :: ls)) as [|l1 ls1] eqn:E1; [by destruct i|].
  cbn [length] in *. lia.
Qed.

Lemma attempt_run {A} (c : Q A) s :
  exists r q, attempt c s = (Ok r, mkWSys (ws_worker s) q).
Proof. unfold attempt. destruct (c (ws_queue s)) as [r q]. by exists r, q. Qed.

(** A spawned task takes over the slot its loop was holding. *)
Lemma slots_spawn (w : Worker D R P) i l token t pc :
  w_loops w !! i = Some l -> l_pc l = Fetching token -> takes_slot pc = 0%nat ->
  slots_ok w -> slots_ok (set_w_loops (<[i := pc]> (w_loops w)) (set_w_tasks (w_tasks w ++ [t]) w)).
Proof.
  intros Hi Hl Hpc. pose proof (fetching_insert i l pc (w_loops w) Hi) as Hf.
  assert (takes_slot l = 1%nat) by (unfold takes_slot; by rewrite Hl).
  apply slots_shrink; [done|by cbn; rewrite length_insert|].
  unfold occupied. cbn [set_w_loops set_w_tasks w_tasks w_loops]. rewrite length_app; cbn [length]. lia.
Qed.

Lemma within_fetch i l token s : loop_at s i l (Fetching token) -> within s (loop_fetch i l token s).2.
Proof.
  intros [Hi Hl]. unfold loop_fetch, on_worker. cbv [m_bind gets].
  destruct (attempt_run (get_next_job token 0 (w_cancelled (ws_worker s)) (w_opts (ws_worker s)) None) s)
    as (r & q & ->).
  set (s1 := mkWSys (ws_worker s) q).
  assert (Hrel : forall pc, takes_slot (mkLoop pc 0) = 0%nat ->
    within s (release i l pc s1).2).
  { intros pc Hpc. etrans; [|by apply (within_release i l pc)]. by split. }
  destruct r as [[job|]|e|]; [|by apply Hrel..]. destruct (j_id job) as [id|]; [|by apply Hrel].
  cbn [ws_worker s1].
  destruct (attempt_run (update_processing_count true (w_id (ws_worker s)) id (j_state job)) s1)
    as (r & q2 & ->).
  assert (Hrel2 : within s
    (release i l (Finished true) (mkWSys (ws_worker s1) q2)).2).
  { etrans; [|by apply (within_release i l)]. by split. }
  destruct r as [n|e|]; [|by apply Hrel2..].
  split; [done|]. intros _.
  exact (slots_spawn (ws_worker s) i l token (mkJobTask i job token)
    (mkLoop (Storing id) (l_permits l)) Hi Hl eq_refl).
Qed.

(** A stretch that only goes through the updates above. *)
Ltac within_walk :=
  match goal with
  | |- within ?s (?c ?s).2 =>
      enough (preserves within c) by done;
      unfold run, close, close_finish, is_running, loop_start, loop_top, loop_pause, loop_wake,
        loop_store_handle, loop_close, on_worker; preserve
  end.

Lemma own_step_within s s' : own_step s s' -> within s s'.
Proof.
  intros H. destruct H; try solve [within_walk].
  - by apply within_acquire.
  - by apply within_fetch.
  - by apply within_task.
Qed.

Lemma worker_step_within s s' : worker_step s s' -> within s s'.
Proof. intros H. destruct H; [by apply own_step_within|within_walk..]. Qed.

Lemma worker_run_within s s' : rtc worker_step s s' -> within s s'.
Proof.
  intros H. induction H as [s|s1 s2 s3 H _ IH]; [done|]. etrans; [|exact IH].
  by apply worker_step_within.
Qed.

(** C10: however the main loops, the job tasks, the callers of [run] and
    [close] and the other users of the queue interleave, the number of jobs a
    worker is processing exceeds its concurrency by at most the number of
    extra main loops; a worker started once never exceeds it, and a worker
    that was not started runs nothing. *)
Theorem concurrency_limit (s0 s : WSys) :
  w_loops (ws_worker s0) = [] -> w_tasks (ws_worker s0) = [] ->
  0 <= wo_concurrency (w_opts (ws_worker s0)) ->
  rtc worker_step s0 s ->
  let running := Z.of_nat (length (w_tasks (ws_worker s))) in
  let loops := Z.of_nat (length (w_loops (ws_worker s))) in
  (loops = 0 -> running = 0) /\
  (0 < loops -> running <= wo_concurrency (w_opts (ws_worker s0)) + (loops - 1)).
Proof.
  intros Hl Ht Hc Hr%worker_run_within running loops. subst running loops.
  destruct Hr as [Ho Hs]. specialize (Hs Hc). rewrite <- Ho. clear Ho Hc.
  unfold slots_ok, occupied in Hs. rewrite Hl, Ht in Hs. cbn in Hs. specialize (Hs ltac:(lia)).
  destruct (w_loops (ws_worker s)) as [|l ls]; cbn [length] in *; [|lia].
  cbn in Hs. lia.
Qed.

(** ** Starting and closing *)

Context `{LAWS : !SkipMapLaws Z SM}.

Definition worker_state (s : WSys) : WorkerState.t :=
  unwrap_or WorkerState.default (sm_get (q_states (sy_ext (ws_queue s))) (w_id (ws_worker s))).

Lemma load_state_run s : load_state s = (Ok (worker_state s), s).
Proof. by destruct s. Qed.

Lemma store_state_run x s :
  exists q, store_state x s = (Ok tt, mkWSys (ws_worker s) q) /\
    worker_state (mkWSys (ws_worker s) q) = x /\
    sy_notified q = sy_notified (ws_queue s) /\ sy_pause_workers q = sy_pause_workers (ws_queue s).
Proof.
  eexists. split; [reflexivity|]. split; [|done]. unfold worker_state. cbn.
  by rewrite get_insert_eq.
Qed.

Lemma is_running_run s :
  is_running s = (Ok (bool_decide (worker_state s = WorkerState.Active) &&
                      negb (w_cancelled (ws_worker s))), s).
Proof. unfold is_running. by rewrite (run_bind _ _ _ _ _ (load_state_run s)). Qed.

Lemma close_noop s :
  bool_decide (worker_state s = WorkerState.Active) && negb (w_cancelled (ws_worker s)) = false ->
  close s = (Ok tt, s).
Proof. intros E. unfold close. by rewrite (run_bind _ _ _ _ _ (is_running_run s)), E. Qed.

Lemma close_running s :
  worker_state s = WorkerState.Active -> w_cancelled (ws_worker s) = false ->
  exists s', close s = (Ok tt, s') /\ w_cancelled (ws_worker s') = true /\
    w_tracker_closed (ws_worker s') = true /\ sy_pause_workers (ws_queue s') = false /\
    sy_notified (ws_queue s) < sy_notified (ws_queue s').
Proof.
  intros Hs Hc. unfold close. rewrite (run_bind _ _ _ _ _ (is_running_run s)), Hs, Hc.
  unfold resume_workers, resume_helper, upd_worker, on_queue. cbv [m_bind gets modify]. cbn.
  eexists. split; [reflexivity|]. cbn. split_and!; try done.
  destruct (queue_has_work _ && _); cbn; lia.
Qed.

Lemma loop_pause_asleep i l s :
  loop_at s i l Pausing ->
  exists s', loop_pause i l s = (Ok tt, s') /\ worker_state s' = WorkerState.Idle /\
    sy_notified (ws_queue s') = sy_notified (ws_queue s) /\
    sy_pause_workers (ws_queue s') = sy_pause_workers (ws_queue s) /\
    loop_at s' i (mkLoop (Sleeping (sy_notified (ws_queue s))) (l_permits l))
      (Sleeping (sy_notified (ws_queue s))).
Proof.
  intros [Hi Hl]. unfold loop_pause.
  destruct (store_state_run WorkerState.Idle s) as (q & E & Hq & Hn & Hp).
  rewrite (run_bind _ _ _ _ _ E). cbv [on_queue m_bind gets]. cbn [ws_queue ws_worker].
  rewrite Hn. eexists. split; [reflexivity|]. split_and!; [exact Hq|done|done|]. split; [|done].
  cbn. apply list_lookup_insert_eq. by eapply lookup_lt_Some.
Qed.

(** C14: the life cycle of a worker.  Only an idle worker can be started: then
    one more main loop is spawned and the state becomes active; starting an
    active one or a closed or cancelled one is refused with the two documented
    errors and changes nothing.  Only an active, uncancelled worker is closed;
    otherwise [close] does nothing.  A loop that goes to sleep on the pause
    signal publishes the idle state, so a worker whose loop sleeps is not
    stopped by [close] and is given a second loop by [run]. *)
Theorem run_and_close (s : WSys) :
  let w := ws_worker s in
  match worker_state s, w_cancelled w with
  | WorkerState.Idle, _ =>
      (exists s', run s = (Ok tt, s') /\ worker_state s' = WorkerState.Active /\
         w_loops (ws_worker s') = w_loops w ++ [mkLoop Starting (wo_concurrency (w_opts w))]) /\
      close s = (Ok tt, s)
  | WorkerState.Active, false =>
      run s = (Err (KWorkerError (WorkerAlreadyRunningWithId (w_id w))), s) /\
      exists s', close s = (Ok tt, s') /\ w_cancelled (ws_worker s') = true /\
        w_tracker_closed (ws_worker s') = true /\ sy_pause_workers (ws_queue s') = false /\
        sy_notified (ws_queue s) < sy_notified (ws_queue s')
  | _, _ =>
      run s = (Err (KWorkerError (WorkerAlreadyClosed (w_id w))), s) /\ close s = (Ok tt, s)
  end /\
  (forall i l, loop_at s i l Pausing ->
     worker_state (loop_pause i l s).2 = WorkerState.Idle /\
     loop_at (loop_pause i l s).2 i (mkLoop (Sleeping (sy_notified (ws_queue s))) (l_permits l))
       (Sleeping (sy_notified (ws_queue s)))).
Proof.
  intros w. subst w. split.
  - unfold run. rewrite (run_bind _ _ _ _ _ (load_state_run s)).
    destruct (worker_state s) eqn:Es, (w_cancelled (ws_worker s)) eqn:Ec;
      cbv [on_worker m_bind gets]; rewrite ?Ec; cbv iota;
      case_decide; try done;
      try (split; [done|apply close_noop; by rewrite Es, ?Ec]).
    1: split; [done|by apply close_running].
    all: split; [|apply close_noop; by rewrite Es];
      destruct (store_state_run WorkerState.Active s) as (q & E & Hq & _);
      cbv beta; rewrite E; eexists; split_and!; [reflexivity|exact Hq|done].
  - intros i l Hl. by destruct (loop_pause_asleep i l s Hl) as (s' & -> & H1 & _ & _ & H2).
Qed.

(** C15: a wake-up can be lost.  The main loop reads the pause signal and only
    then starts to listen: when an operation of the queue, such as adding a
    job, clears the signal and notifies in between, the loop falls asleep with
    the signal clear and no notification left to wake it; and while the signal
    is clear, resuming the workers sends no further notification. *)
Theorem lost_wakeup (s : WSys) (i : nat) (l : Loop) {A} (c : Q A) :
  loop_at s i l Pausing -> queue_op c -> sy_pause_workers (c (ws_queue s)).2 = false ->
  exists s' l', rtc worker_step s s' /\
    loop_at s' i l' (Sleeping (sy_notified (ws_queue s'))) /\
    worker_state s' = WorkerState.Idle /\ sy_pause_workers (ws_queue s') = false /\
    resume_workers (ws_queue s') = (Ok tt, ws_queue s').
Proof.
  intros Hl Hc Hp. set (s1 := (on_queue c s).2).
  assert (Hs1 : ws_worker s1 = ws_worker s /\ ws_queue s1 = (c (ws_queue s)).2)
    by (unfold s1, on_queue; by destruct (c (ws_queue s))).
  destruct Hs1 as [Hw Hq]. rewrite <- Hq in Hp.
  assert (Hl1 : loop_at s1 i l Pausing) by (unfold loop_at; by rewrite Hw).
  destruct (loop_pause_asleep i l s1 Hl1) as (s2 & E & H1 & H2 & H3 & H4).
  exists s2, (mkLoop (Sleeping (sy_notified (ws_queue s1))) (l_permits l)).
  rewrite H2, H3. split_and!; [|exact H4|exact H1|exact Hp|].
  - refine (rtc_l _ _ _ _ (w_queue c s Hc) (rtc_once _ _ _)). fold s1.
    replace s2 with (loop_pause i l s1).2 by (by rewrite E). by apply w_own, w_pause.
  - unfold resume_workers, resume_helper. cbv [m_bind gets modify].
    by rewrite H3, Hp, andb_false_r.
Qed.
End Worker.

(** ** Witnesses *)

Section Witnesses.
#[local] Existing Instance sample_extern.
#[local] Existing Instance sample_clock.
#[local] Existing Instance sample_monitors.

Abbreviation SampleW := (WSys (SM := ZMap) (SS := StrMap) (D := Z) (R := Z) (P := Z)).

Definition one_at_a_time : WorkerOpts := mkWorkerOpts 30000 30000 15000 1 1 false 100.

Definition sample_processor (job : Job Z Z Z) (st : InMemoryStore ZMap Z Z Z) :
    Caught Z * InMemoryStore ZMap Z Z Z := (Returned 42, st).

Abbreviation sample_step := (worker_step (SM := ZMap) (SS := StrMap) sample_processor).

Definition new_worker : SampleW := (worker_new 9 4 (Some one_at_a_time) waiting_queue).2.
Definition spawned_worker : SampleW := (run new_worker).2.
Definition started_worker : SampleW := (loop_start 0 (mkLoop Starting 1) spawned_worker).2.
Definition ready_worker : SampleW := (loop_top 0 (mkLoop Top 1) started_worker).2.
Definition token_of (s : SampleW) : JobToken := mkToken 9 (new_v4 (sy_reads (ws_queue s))) 0.
Definition fetching_worker : SampleW := (loop_acquire 0 (mkLoop Ready 1) ready_worker).2.
Definition busy_worker : SampleW :=
  (loop_fetch 0 (mkLoop (Fetching (token_of ready_worker)) 0) (token_of ready_worker)
     fetching_worker).2.

Lemma spawned_step : sample_step new_worker spawned_worker.
Proof. unfold spawned_worker. exact (w_run sample_processor new_worker). Qed.

Lemma started_step : sample_step spawned_worker started_worker.
Proof. unfold started_worker. apply w_own, (w_start sample_processor spawned_worker 0 (mkLoop Starting 1)). by vm_compute. Qed.

Lemma ready_step : sample_step started_worker ready_worker.
Proof. unfold ready_worker. apply w_own, (w_top sample_processor started_worker 0 (mkLoop Top 1)). by vm_compute. Qed.

Lemma fetching_step : sample_step ready_worker fetching_worker.
Proof. unfold fetching_worker. apply w_own, (w_acquire sample_processor ready_worker 0 (mkLoop Ready 1)). by vm_compute. Qed.

Lemma busy_step : sample_step fetching_worker busy_worker.
Proof.
  unfold busy_worker. apply w_own, (w_fetch sample_processor fetching_worker 0
    (mkLoop (Fetching (token_of ready_worker)) 0) (token_of ready_worker)). by vm_compute.
Qed.

Lemma busy_worker_run : rtc sample_step new_worker busy_worker.
Proof.
  exact (rtc_l _ _ _ _ spawned_step (rtc_l _ _ _ _ started_step (rtc_l _ _ _ _ ready_step
    (rtc_l _ _ _ _ fetching_step (rtc_once _ _ busy_step))))).
Qed.

Lemma concurrency_limit_witness :
  Z.of_nat (length (w_tasks (ws_worker busy_worker))) = 1 /\
  Z.of_nat (length (w_tasks (ws_worker busy_worker))) <= 1.
Proof.
  split; [vm_compute; reflexivity|].
  destruct (concurrency_limit sample_processor new_worker busy_worker) as [_ H].
  - vm_compute; reflexivity.
  - vm_compute; reflexivity.
  - vm_compute; discriminate.
  - exact busy_worker_run.
  - assert (E : Z.of_nat (length (w_loops (ws_worker busy_worker))) = 1) by (vm_compute; reflexivity).
    rewrite E in H. specialize (H ltac:(lia)).
    change (wo_concurrency (w_opts (ws_worker new_worker))) with 1 in H. lia.
Defined.

(** A worker whose loop went to sleep on the pause signal. *)
Definition sleeping_worker : SampleW :=
  (loop_pause 0 (mkLoop Pausing 1)
     (loop_top 0 (mkLoop Top 1) (on_queue pause_active_workers started_worker).2).2).2.

Lemma run_and_close_witness :
  close sleeping_worker = (Ok tt, sleeping_worker) /\
  exists s', run sleeping_worker = (Ok tt, s') /\ length (w_loops (ws_worker s')) = 2%nat.
Proof.
  destruct (run_and_close sleeping_worker) as [H _]. cbv zeta in H.
  assert (E : worker_state sleeping_worker = WorkerState.Idle) by (vm_compute; reflexivity).
  rewrite E in H. destruct H as [(s' & H1 & _ & H2) H3].
  split; [exact H3|]. exists s'. split; [exact H1|]. rewrite H2. vm_compute. reflexivity.
Defined.

(** A worker that saw the pause signal and is about to sleep. *)
Definition pausing_worker : SampleW :=
  (loop_top 0 (mkLoop Top 1) (on_queue pause_active_workers started_worker).2).2.

Lemma lost_wakeup_witness :
  exists s' : SampleW, sy_pause_workers (ws_queue s') = false /\
  exists l', loop_at s' 0 l' (Sleeping (sy_notified (ws_queue s'))).
Proof.
  destruct (lost_wakeup sample_processor pausing_worker 0 (mkLoop Pausing 1) (add_job "b" 6 None))
    as (s' & l' & _ & H1 & _ & H2 & _).
  - split; vm_compute; reflexivity.
  - apply op_add_job.
  - vm_compute. reflexivity.
  - exists s'. split; [exact H2|]. exists l'. exact H1.
Defined.
End Witnesses.
