(* ===== verification/Callbacks.v ===== *)
(** * Processors ([src/utils/processor_types.rs], the call in [process_job] of
    [src/utils/mod.rs], [new_sync] and [new_async] of [src/worker/mod.rs])

    The user gives a worker a function, asynchronous or blocking, with an error
    type of its own.  [Callback] is what the worker keeps; [returned] is how
    [process_job] runs it under the catcher, and what it makes of the end. *)

From S2P Require Import Prelude SkipMap TimedMap Extern Schedule Job Options Events Shared Metrics InMemoryStore Collector Queue Names Catcher Worker.

#[local] Open Scope string_scope.

(** ** The text of errors ([src/error/mod.rs]) *)

Section Text.
Context (uuid_text : Z -> string).

Definition worker_error_text (e : WorkerError) : string :=
  match e with
  | WorkerAlreadyRunningWithId id | WorkerAlreadyClosed id => uuid_text id
  | FailedToCheckStalledJobs => "FailedToCheckStalledJobs"
  end.

Definition queue_error_text (e : QueueError) : string :=
  match e with
  | UnKnownEventMode => "UnKnownEventMode"
  | FailedToObliterate => "FailedToObliterate"
  | CantObliterateWhileJobsActive => "CantObliterateWhileJobsActive"
  | CantOperateWhenPaused => "CantOperateWhenPaused"
  | DelayBelowAllowedLimit limit_ms current_ms =>
      "DelayBelowAllowedLimit {limit:" ++ show limit_ms ++ ", current: " ++ show current_ms ++ "}"
  end.

Definition error_text (e : KioError) : string :=
  match e with
  | RedisError e | RedisParsingError e | DealPoolError e | DealPoolConfig e | JsonError e
  | SerdeDeserializeError e | IoError e | ParseIntError e | GeneralError e | SystemTimeError e
  | JoinError e | CronerError e | InMemoryError e => e
  | FmtError => "an error occurred when formatting an argument"
  | KQueueError e => queue_error_text e
  | ConversionError from to => "Failed to Convert: from " ++ from ++ " to " ++ to
  | EmitterError e => "Emitter: " ++ e
  | KWorkerError e => worker_error_text e
  | KJobError e => job_error_message e
  end.
End Text.

(** ** Callbacks *)

(** How a run of a function ends; a panic comes with what the hook is given and
    with the backtrace at that point. *)
Inductive Ran (R E : Type) : Type :=
| RanOk (result : R)
| RanErr (error : E)
| RanPanic (info : PanicHookInfo) (backtrace : Backtrace).
Arguments RanOk {R E} result.
Arguments RanErr {R E} error.
Arguments RanPanic {R E} info backtrace.

Definition map_err {R E E'} (into : E -> E') (r : Ran R E) : Ran R E' :=
  match r with
  | RanOk result => RanOk result
  | RanErr error => RanErr (into error)
  | RanPanic info backtrace => RanPanic info backtrace
  end.

Section Callbacks.
Context {EXT : Extern} {S D R P : Type}.

(** A processor may change the store it is handed.  For an asynchronous one this
    is the future it returns. *)
Definition Processor (E : Type) : Type := S -> Job D R P -> Ran R E * S.

Inductive Callback : Type :=
| Async (f : Processor KioError)
| Sync (f : Processor KioError).

Definition converted {E} (into : E -> KioError) (f : Processor E) : Processor KioError :=
  fun store job => let '(r, store) := f store job in (map_err into r, store).

(** [From<SyncFn>] and [From<AsyncFn>]. *)
Definition from_sync {E} (into : E -> KioError) (f : Processor E) : Callback := Sync (converted into f).
Definition from_async {E} (into : E -> KioError) (f : Processor E) : Callback := Async (converted into f).

(** ** The call *)

Context (uuid_text : Z -> string).
(** The message of the [JoinError] of a task that panicked.  It is written by the
    runtime, from the number of the task and, when the payload of the panic is a
    text, that text; the catcher has no part in it. *)
Context (join_text : PanicHookInfo -> string).
(** The backtrace where [catch] and [process_job] ask for one. *)
Context (here : Backtrace).

Definition future_of (r : Ran R KioError) : Future (T := R) :=
  match r with
  | RanOk result => FValue result
  | RanErr error => FError (error_text uuid_text error) here
  | RanPanic info backtrace => FPanic info backtrace
  end.

(** What the handle of the blocking task yields: its own error is a [JoinError]. *)
Definition joined (r : Ran R KioError) : Future (T := Ran R KioError) :=
  match r with RanPanic info _ => FError (join_text info) here | _ => FValue r end.

(** The thread of the blocking task runs the hook when it panics. *)
Definition blocking_raise (r : Ran R KioError) (g : Globals) : Globals :=
  match r with RanPanic info backtrace => raise (capture_panic_info backtrace info) g | _ => g end.

(** [catch(spawn_blocking(..))]. *)
Definition catch_blocking (r : Ran R KioError) (g : Globals) : Caught (Ran R KioError) * Globals :=
  let '(old_hook, g) := take_hook g in
  let g := set_hook HCapture g in
  let g := blocking_raise r g in
  let g := finish (joined r) g in
  let g := set_hook old_hook g in
  report (joined r) g.

(** [.and_then(|e| e.map_err(..))]. *)
Definition flatten (c : Caught (Ran R KioError)) : Caught R :=
  match c with
  | Returned (RanOk result) => Returned result
  | Returned (RanErr error) => CaughtError (error_text uuid_text error) here
  | Returned (RanPanic info _) => CaughtError (join_text info) here
  | CaughtError error backtrace => CaughtError error backtrace
  | CaughtPanic payload backtrace => CaughtPanic payload backtrace
  | CaughtJoinError error => CaughtJoinError error
  end.

Definition returned (callback : Callback) (job : Job D R P) (store : S) (g : Globals) :
    Caught R * S * Globals :=
  match callback with
  | Sync cb =>
      let '(r, store) := cb store job in
      let '(c, g) := catch_blocking r g in (flatten c, store, g)
  | Async cb =>
      let '(r, store) := cb store job in
      let '(c, g) := catch (future_of r) g in (c, store, g)
  end.

(** What the worker of [Worker] is given: the verdict and the store. *)
Definition as_processor (callback : Callback) (g : Globals) (job : Job D R P) (store : S) :
    Caught R * S :=
  (returned callback job store g).1.

(** ** What the worker learns *)

(** The verdict on a run of the user's function, by kind of callback. *)
Definition verdict {E} (blocking : bool) (into : E -> KioError) (r : Ran R E) : Caught R :=
  match r with
  | RanOk result => Returned result
  | RanErr error => CaughtError (error_text uuid_text (into error)) here
  | RanPanic info backtrace =>
      if blocking then CaughtError (join_text info) here
      else let p := capture_panic_info backtrace info in CaughtPanic (cp_payload p) (cp_backtrace p)
  end.

(** C30: what a worker learns of a run of the user's function.  A result is
    returned and an error is reported by its text after the conversion, for both
    kinds of processor.  A panic of an asynchronous one is reported as a panic,
    with the payload, the place and the backtrace that the hook captured.  A panic of
    a blocking one is reported as an ordinary error, by the message of the joined
    task and the backtrace of the caller; what the hook captured stays behind in
    the static cell.  The panic hook is put back, and the store is the one the
    function left. *)
Theorem processor_verdict {E} (blocking : bool) (into : E -> KioError) (f : Processor E)
    (job : Job D R P) (store : S) (g : Globals) :
  let callback := if blocking then from_sync into f else from_async into f in
  let '(r, store') := f store job in
  exists g', returned callback job store g = (verdict blocking into r, store', g') /\
    g_hook g' = g_hook g /\
    (forall info backtrace, r = RanPanic info backtrace ->
       g_panic_info g' = if blocking then Some (capture_panic_info backtrace info) else None).
Proof.
  cbn. destruct (f store job) as [r store'] eqn:Ef. destruct blocking; cbn; unfold converted; rewrite Ef;
    destruct r as [result|error|info backtrace]; cbn; eexists; (split; [reflexivity|]);
    (split; [done|]); intros ? ? [=]; by subst.
Qed.
End Callbacks.

Arguments Callback {EXT} S D R P.

(** ** Workers *)

Section Workers.
Context {SM SS : Type -> Type} `{OPS : !SkipMap Z SM} `{SOPS : !SkipMap string SS}
  {EXT : Extern} {CLK : Clock} {D R P : Type}.
Abbreviation Store := (InMemoryStore SM D R P).
Abbreviation QSys := (Sys SM D R P (QueueExt SM SS D R P)).

(** A worker and the callback it was made with. *)
Definition new_with (callback : Callback Store D R P) (id num_cpus : Z)
    (worker_opts : option WorkerOpts) (q : QSys) :
    outcome KioError unit * (WSys (SM := SM) (SS := SS) (D := D) (R := R) (P := P) * Callback Store D R P) :=
  let '(r, w) := worker_new id num_cpus worker_opts q in (r, (w, callback)).

Definition new_sync {E} (into : E -> KioError) (processor : Processor (S := Store) E) :=
  new_with (from_sync into processor).
Definition new_async {E} (into : E -> KioError) (processor : Processor (S := Store) E) :=
  new_with (from_async into processor).
End Workers.

(** ** Evaluation on the processor of the repository's tests *)

#[local] Existing Instance sample_extern.

(** Fails for job 1 and panics for the others. *)
Definition failing_processor : Processor (S := unit) (D := Z) (R := Z) (P := Z) KioError :=
  fun store job =>
    (if bool_decide (j_id job = Some 1) then RanErr (IoError "failed here")
     else RanPanic (mkHookInfo (PStaticStr "panicked here") None) None, store).

Example sync_worker_catches :
  let call id := (returned show (fun _ => "task panicked") None (from_sync (fun e => e) failing_processor)
    (set_j_id (Some id) (job_new 0 "n" (Some 1) None None)) tt (mkGlobals HDefault None [])).1.1 in
  call 1 = CaughtError "failed here" None /\ call 2 = CaughtError "task panicked" None.
Proof. split; reflexivity. Qed.

Example async_worker_catches :
  let call id := (returned show (fun _ => "task panicked") None (from_async (fun e => e) failing_processor)
    (set_j_id (Some id) (job_new 0 "n" (Some 1) None None)) tt (mkGlobals HDefault None [])).1.1 in
  call 1 = CaughtError "failed here" None /\
  call 2 = CaughtPanic ("Panic:panicked here :" ++ newline ++ "  at 0:0") None.
Proof. split; reflexivity. Qed.
