(* ===== verification/WorkerSuite.v ===== *)
(** * The worker suite ([src/macros/worker_test_helper.rs])

    The tests that the macro [worker_store_suite!] generates, as programs over a
    queue and its worker.  Where a test waits, the main loop and the job tasks
    take turns as a scheduler picks them; the turns are steps of [own_step].  The
    tests whose outcome depends on wall-clock timers are not part of it. *)

From S2P Require Import Prelude SkipMap Deque TimedMap Extern Schedule Job Options Events Shared Metrics InMemoryStore StoreInsert Collector Queue QueueProps Suite Promotion Timers Names Catcher Worker Callbacks.

(** ** Turns *)

Section Turns.
Context {SM SS : Type -> Type} `{OPS : !SkipMap Z SM} `{SOPS : !SkipMap string SS}
  {EXT : Extern} {CLK : Clock} {MON : Monitors} {D R P : Type}.
Context (processor : Job D R P -> InMemoryStore SM D R P -> Caught R * InMemoryStore SM D R P).
Abbreviation WS := (WSys (SM := SM) (SS := SS) (D := D) (R := R) (P := P)).

(** The next stretch of a main loop, when it can go on. *)
Definition loop_turn (i : nat) (s : WS) : option WS :=
  match w_loops (ws_worker s) !! i with
  | None => None
  | Some l =>
      match l_pc l with
      | Starting => Some (loop_start i l s).2
      | Top => Some (loop_top i l s).2
      | Pausing => Some (loop_pause i l s).2
      | Sleeping seen =>
          if seen <? sy_notified (ws_queue s) then Some (loop_wake i l s).2
          else if w_cancelled (ws_worker s) then Some (goto i l Draining s).2 else None
      | Ready => Some (loop_acquire i l s).2
      | Fetching token => Some (loop_fetch i l token s).2
      | Storing id => Some (loop_store_handle i l id id s).2
      | Draining =>
          match w_tracker_closed (ws_worker s), w_tasks (ws_worker s) with
          | true, [] => Some (loop_close i l s).2
          | _, _ => None
          end
      | Finished _ => None
      end
  end.

Definition task_turn (k : nat) (s : WS) : option WS :=
  match w_tasks (ws_worker s) !! k with
  | Some t => Some (run_task processor k t s)
  | None => None
  end.

Inductive Turn : Type :=
| TLoop (i : nat)
| TTask (k : nat).

Definition turn (t : Turn) : WS -> option WS :=
  match t with TLoop i => loop_turn i | TTask k => task_turn k end.

Lemma turn_step t s s' : turn t s = Some s' -> own_step processor s s'.
Proof.
  destruct t as [i|k]; cbn; unfold loop_turn, task_turn.
  - destruct (w_loops (ws_worker s) !! i) as [l|] eqn:El; [|done].
    destruct (l_pc l) eqn:Epc; try (intros [= <-]; by econstructor).
    + destruct (Z.ltb_spec seen (sy_notified (ws_queue s))).
      * intros [= <-]. by eapply w_wake.
      * destruct (w_cancelled (ws_worker s)) eqn:Ec; [|done]. intros [= <-]. by eapply w_wake_cancelled.
    + destruct (w_tracker_closed (ws_worker s)) eqn:Ec; [|done].
      destruct (w_tasks (ws_worker s)) eqn:Et; [|done]. intros [= <-]. by eapply w_loop_close.
  - destruct (w_tasks (ws_worker s) !! k) eqn:Et; [|done]. intros [= <-]. by constructor.
Qed.

(** A scheduler picks the next turn from the state. *)
Definition Scheduler : Type := WS -> Turn.

(** Up to [fuel] turns, until [stop] holds; a turn that cannot be taken leaves
    the state as it is. *)
Fixpoint turns (sched : Scheduler) (stop : WS -> bool) (fuel : nat) (s : WS) : bool * WS :=
  if stop s then (true, s)
  else match fuel with
       | O => (false, s)
       | S fuel => turns sched stop fuel (unwrap_or s (turn (sched s) s))
       end.

Lemma turns_steps sched stop fuel s : rtc (own_step processor) s (turns sched stop fuel s).2.
Proof.
  revert s. induction fuel as [|fuel IH]; intros s; cbn; destruct (stop s); try done.
  destruct (turn (sched s) s) as [s'|] eqn:E; cbn; [|done].
  eapply rtc_l; [by eapply turn_step|done].
Qed.

Lemma turns_stop sched stop fuel s s' : turns sched stop fuel s = (true, s') -> stop s' = true.
Proof.
  revert s. induction fuel as [|fuel IH]; intros s; cbn; destruct (stop s) eqn:E; try done.
  - by intros [= <-].
  - by intros [= <-].
  - apply IH.
Qed.
End Turns.

(** ** The tests *)

Section Tests.
#[local] Existing Instance sample_extern.
Context {CLK : Clock}.
#[local] Existing Instance sample_monitors.

Abbreviation TestStore := (InMemoryStore ZMap Z Z Z).
Abbreviation TestWS := (WSys (SM := ZMap) (SS := StrMap) (D := Z) (R := Z) (P := Z)).
Abbreviation WT A := (KM TestWS A).
Abbreviation TestProcessor := (Processor (S := TestStore) (D := Z) (R := Z) (P := Z) KioError).

Definition main_pc (s : TestWS) : LoopPc :=
  match w_loops (ws_worker s) with l :: _ => l_pc l | [] => Finished false end.

(** A job task runs as soon as it is spawned and its handle is stored. *)
Definition eager : Scheduler (SM := ZMap) (SS := StrMap) (D := Z) (R := Z) (P := Z) := fun s =>
  match main_pc s with
  | Storing _ => TLoop 0
  | _ => match w_tasks (ws_worker s) with [] => TLoop 0 | _ => TTask 0 end
  end.

(** The main loop takes what there is to take, then the newest task runs. *)
Definition patient : Scheduler (SM := ZMap) (SS := StrMap) (D := Z) (R := Z) (P := Z) := fun s =>
  let tasks := w_tasks (ws_worker s) in
  let available := queue_has_work (store_get_metrics (sy_store (ws_queue s)))
    && negb (sy_pause_workers (ws_queue s))
    && (Z.of_nat (length tasks) <? wo_concurrency (w_opts (ws_worker s))) in
  match tasks, main_pc s with
  | [], _ => TLoop 0
  | _, (Starting | Pausing | Ready | Fetching _ | Storing _) => TLoop 0
  | _, Top => if available then TLoop 0 else TTask (length tasks - 1)
  | _, _ => TTask (length tasks - 1)
  end.

Section Programs.
Context (sched : Scheduler (SM := ZMap) (SS := StrMap) (D := Z) (R := Z) (P := Z)).

(** What a test runs with: the callback as [process_job] sees it, and the worker. *)
Section With.
Context (callback : Callback TestStore Z Z Z).

Definition process := as_processor show (fun _ => "task panicked"%string) None callback
  (mkGlobals HDefault None []).

(** [while !cond { yield_now().await }]; a wait that does not end hangs the test. *)
Definition wait_until (cond : TestWS -> bool) : WT unit := fun s =>
  match turns process sched cond 200 s with
  | (true, s) => (Ok tt, s)
  | (false, s) => (Panic, s)
  end.

(** [sleep(..).await]: the worker runs meanwhile. *)
Definition sleep : WT unit := fun s => (Ok tt, (turns process sched (fun _ => false) 40 s).2).

(** [Worker::close] with its wait for the main task. *)
Definition close_worker : WT unit :=
  close ;;;
  let* closing := on_worker w_closing in
  if closing then wait_until (fun s => main_finished (ws_worker s)) ;;; close_finish else m_ret tt.
End With.

(** The array of identifiers that a listener fills. *)
Definition received (select : EventParameters Z Z -> option Z) (capacity : nat) (s : TestWS) : list Z :=
  take capacity (omap select (rev (map snd (sy_emitted (ws_queue s))))).

Definition is_completed (p : EventParameters Z Z) : option Z :=
  match p with EvCompleted job_id _ _ _ _ => Some job_id | _ => None end.
Definition is_failed (p : EventParameters Z Z) : option Z :=
  match p with EvFailed _ job_id _ => Some job_id | _ => None end.
Definition is_activated (p : EventParameters Z Z) : option Z :=
  match p with EvActive job_id _ => Some job_id | _ => None end.
Definition is_ended (p : EventParameters Z Z) : option Z :=
  match p with EvCompleted job_id _ _ _ _ | EvFailed _ job_id _ => Some job_id | _ => None end.

Definition count_is (select : EventParameters Z Z -> option Z) (n : nat) (s : TestWS) : bool :=
  (n <=? length (received select n s))%nat.

Definition current (s : TestWS) : QueueMetrics := sy_metrics (ws_queue s).

(** A worker of the queue that [queue_new] makes. *)
Definition with_worker (queue_opts : QueueOpts) (callback : Callback TestStore Z Z Z)
    (before : KM (Sys ZMap Z Z Z (QueueExt ZMap StrMap Z Z Z)) unit) (test : WT unit) :
    outcome KioError unit :=
  let q := (before (started queue_opts (fresh None "suite" 77))).2 in
  match new_with callback 9 8 None q with
  | (Ok _, (s, _)) => (test s).1
  | (Err e, _) => Err e
  | (Panic, _) => Panic
  end.

Definition same_error (e : KioError) : KioError := e.

(** [Ok(job.data.unwrap())]. *)
Definition echo : TestProcessor := fun store job =>
  (match j_data job with
   | Some data => RanOk data
   | None => RanPanic (mkHookInfo (PStaticStr "unwrap") None) None
   end, store).

Definition runs_jobs_to_completion : outcome KioError unit :=
  let cb := from_async same_error echo in
  with_worker QueueOpts_default cb (m_ret tt) (
    run ;;;
    let* running := is_running in
    assert_ running ;;;
    let* jobs := on_queue (bulk_add job_iterator) in
    wait_until cb (fun s => all_jobs_completed (current s)) ;;;
    close_worker cb ;;;
    let* running := is_running in
    assert_ (negb running) ;;;
    let* metrics := on_queue queue_get_metrics in
    assert_ (qm_waiting metrics =? 0) ;;;
    assert_ (qm_completed metrics =? Z.of_nat (length jobs)) ;;;
    on_queue obliterate).

(** [matches!(err, expected)] binds a fresh variable: it holds of every error. *)
Definition errors_with_multiple_run_calls : outcome KioError unit :=
  let cb := from_async same_error echo in
  with_worker QueueOpts_default cb (m_ret tt) (
    run ;;;
    let* next_call := (fun s => (Ok (run s).1, (run s).2)) in
    assert_ (match next_call with Err _ => true | _ => false end) ;;;
    on_queue obliterate).

Definition pauses_and_resumes_when_queue_is_idle : outcome KioError unit :=
  let cb := from_async same_error echo in
  with_worker QueueOpts_default cb (m_ret tt) (
    run ;;;
    let* running := is_running in
    assert_ running ;;;
    let* _ := on_queue (bulk_add job_iterator) in
    wait_until cb (count_is is_completed 4) ;;;
    on_queue pause_active_workers ;;;
    sleep cb ;;;
    let* idle := is_idle in
    assert_ idle ;;;
    let* _ := on_queue (add_job "test" 1 None) in
    wait_until cb (count_is is_activated 5) ;;;
    let* idle := is_idle in
    assert_ (negb idle) ;;;
    let* running := is_running in
    assert_ running ;;;
    let* metrics := on_queue queue_get_metrics in
    assert_ (qm_waiting metrics =? 0) ;;;
    wait_until cb (count_is is_completed 5) ;;;
    on_queue obliterate).

Definition prioritized_iterator : list (string * option JobOptions * Z) :=
  map (fun i => (show i, Some (set_jo_priority (4 - i) JobOptions_default), i)) [0; 1; 2; 3].

Definition runs_prioritized_jobs_correctly : outcome KioError unit :=
  let cb := from_async same_error echo in
  with_worker QueueOpts_default cb (m_ret tt) (
    run ;;;
    let* jobs := on_queue (bulk_add prioritized_iterator) in
    wait_until cb (count_is is_activated 4) ;;;
    let* m := gets current in
    assert_ (qm_waiting m =? 0) ;;;
    wait_until cb (fun s => all_jobs_completed (current s)) ;;;
    let* moved_to_active := gets (received is_activated 4) in
    assert_ (bool_decide (rev (map (fun j => unwrap_or 0 (j_id j)) jobs) = moved_to_active)) ;;;
    on_queue obliterate).

Definition removal_opts : option RemoveOnCompletionOrFailure := Some (RBool true).

Definition third_panics : TestProcessor := fun store job =>
  if unwrap_or 0 (j_id job) =? 3
  then (RanPanic (mkHookInfo (PStaticStr "failed here") None) None, store) else echo store job.

Definition runs_jobs_and_respects_clean_up : outcome KioError unit :=
  let cb := from_async same_error third_panics in
  let opts := mkQueueOpts removal_opts removal_opts (qo_attempts QueueOpts_default)
    (qo_default_backoff QueueOpts_default) (Some PubSub) (qo_repeat QueueOpts_default) in
  with_worker opts cb (m_ret tt) (
    run ;;;
    let* running := is_running in
    assert_ running ;;;
    let* _ := on_queue (bulk_add job_iterator) in
    wait_until cb (count_is is_ended 4) ;;;
    close_worker cb ;;;
    sleep cb ;;;
    for_each [1; 2; 3] (fun i =>
      let* exists_ := on_queue (timed (fun t => exists_in t (CollectionSuffix.Job i) i)) in
      assert_ (negb exists_)) ;;;
    on_queue obliterate).

Definition two_jobs : list (string * option JobOptions * Z) :=
  [("0"%string, None, 0); ("1"%string, None, 1)].

(** Fails for the first job and panics for the others. *)
Definition all_fail : TestProcessor := fun store job =>
  (if unwrap_or 0 (j_id job) =? 1 then RanErr (IoError "failed here")
   else RanPanic (mkHookInfo (PStaticStr "panicked here") None) None, store).

Definition worker_catches_panics_and_errors (cb : Callback TestStore Z Z Z) : outcome KioError unit :=
  with_worker QueueOpts_default cb (bulk_add_only two_jobs) (
    run ;;;
    wait_until cb (count_is is_failed 2) ;;;
    on_queue obliterate).

Definition worker_suite : list (outcome KioError unit) :=
  [runs_jobs_to_completion; errors_with_multiple_run_calls; pauses_and_resumes_when_queue_is_idle;
   runs_prioritized_jobs_correctly; runs_jobs_and_respects_clean_up;
   worker_catches_panics_and_errors (from_sync same_error all_fail);
   worker_catches_panics_and_errors (from_async same_error all_fail)].
End Programs.
End Tests.

(** The worker suite on the in-memory store.  Under a clock that advances
    between readings, and whether a job task runs as soon as it is spawned or only
    when the main loop has nothing more to take, every wait of every test ends and
    every assertion holds: the jobs are processed, prioritized jobs in the order
    of their priorities, a panic or an error of a processor fails its job, records
    are cleaned up, an idle worker sleeps and is woken by a new job, a second
    [run] is refused. *)
Theorem worker_suite_passes (sched : Scheduler) :
  sched ∈ [eager; patient] -> worker_suite (CLK := sample_clock) sched = replicate 7 (Ok tt).
Proof. rewrite !elem_of_cons, elem_of_nil. intros [->|[->|[]]]; vm_compute; reflexivity. Qed.

Lemma worker_suite_passes_witness : worker_suite (CLK := sample_clock) patient = replicate 7 (Ok tt).
Proof. apply (worker_suite_passes patient). right. left. Defined.

(** The outcome depends on the clock: completed jobs are filed under their
    finishing time, so jobs that finish in the same microsecond are counted once,
    and the tests that wait for [all_jobs_completed] do not end. *)
Definition still_clock : Clock := {| utc _ := 1000000000; instant _ _ := 1000000000 |}.

Example still_clock_hangs :
  runs_jobs_to_completion (CLK := still_clock) eager = Panic /\
  runs_prioritized_jobs_correctly (CLK := still_clock) eager = Panic.
Proof. vm_compute. split; reflexivity. Qed.

(** Every job was completed, none is left, and one is counted. *)
Example still_clock_count :
  let cb := from_async same_error echo in
  let c := started QueueOpts_default (fresh None "suite" 77) in
  let s := (new_with (CLK := still_clock) cb 9 8 None c).2.1 in
  let s := (wait_until (CLK := still_clock) eager cb (count_is is_completed 4)
             ((run ;;; on_queue (bulk_add (CLK := still_clock) job_iterator)) s).2).2 in
  received is_completed 4 s = [1; 2; 3; 4] /\ qm_completed (current s) = 1 /\
  qm_waiting (current s) = 0 /\ qm_active (current s) = 0.
Proof. vm_compute. split_and!; reflexivity. Qed.
