(* ===== verification/Examples.v ===== *)
(** * The examples ([examples/basic.rs], [examples/video_transcoding.rs])

    [basic] is the program of the first example over the modelled queue and
    worker; the turns of the worker are those of [WorkerSuite].  [Transcoding] has
    the processor of the second one, which reports the progress of a run of
    ffmpeg, and its program: the events of the run are an argument. *)

From S2P Require Import Prelude SkipMap Deque TimedMap Extern Schedule Job Options Events Shared Metrics InMemoryStore StoreProps StoreRecords StoreInsert Collector Queue QueueProps Suite Promotion Timers Names Catcher Worker Callbacks WorkerSuite.

(** ** [examples/basic.rs] *)

Section Basic.
#[local] Existing Instance sample_extern.
Context {CLK : Clock}.
#[local] Existing Instance sample_monitors.
Abbreviation TestStore := (InMemoryStore ZMap Z Z Z).
Abbreviation TestWS := (WSys (SM := ZMap) (SS := StrMap) (D := Z) (R := Z) (P := Z)).

(** [x as i32]. *)
Definition cast_i32 (x : Z) : Z := (x + 2 ^ 31) mod 2 ^ 32 - 2 ^ 31.

Definition basic_callback : Processor (S := TestStore) (D := Z) (R := Z) (P := Z) KioError := fun store job =>
  (RanOk (cast_i32 (unwrap_or 0 (j_id job))), store).

Definition basic_remove_opts : RemoveOnCompletionOrFailure := ROpts (mkKeepJobs (Some (60 * 60)) None).

Definition basic_opts : QueueOpts :=
  mkQueueOpts (Some basic_remove_opts) (Some basic_remove_opts) 2
    (Some (BackOffOpts (mkBackOffOptions (Some "exponential"%string) (Some 200)))) (Some PubSub)
    (qo_repeat QueueOpts_default).

Definition basic_repeats : Z := 2.

Definition set_jo_attempts (x : Z) (o : JobOptions) : JobOptions :=
  mkJobOptions (jo_priority o) (jo_delay o) (jo_id o) x (jo_remove_on_complete o)
    (jo_remove_on_fail o) (jo_backoff o) (jo_repeat o).

(** [name i] is the random name of the [i]-th job. *)
Definition basic_items (name : nat -> string) (count : nat) : list (string * option JobOptions * Z) :=
  map (fun i =>
    let job_opts := JobOptions_default in
    let job_opts := if (i =? 2)%nat then set_jo_attempts (basic_repeats + 1) job_opts else job_opts in
    (name i, Some job_opts, Z.of_nat i)) (seq 0 count).

Definition basic_store : TestStore := store_new None "trial".

(** The counter of the listener: the completed jobs. *)
Definition basic_counter (s : TestWS) : nat := length (omap is_completed (map snd (sy_emitted (ws_queue s)))).

(** [main], with the busy loop as the turns that the worker takes meanwhile; a
    loop that is still waiting after [fuel] turns hangs the program.  The state at
    the end is returned, for what is left in the store. *)
Definition basic_main (sched : Scheduler) (fuel : nat) (name : nat -> string) (count : nat) :
    outcome KioError unit * TestWS :=
  let cb := from_async same_error basic_callback in
  let q := started basic_opts (fresh None "trial" 77) in
  let '(r, (s, _)) := new_with cb 9 8 None q in
  match r with
  | Ok _ =>
      (on_queue (bulk_add_only (basic_items name count)) ;;;
       run ;;;
       (fun s => match turns (process cb) sched (fun s => (count <=? basic_counter s)%nat) fuel s with
                 | (true, s) => (Ok tt, s)
                 | (false, s) => (Panic, s)
                 end) ;;;
       close_worker sched cb ;;;
       let* is_closed := closed in
       if is_closed then on_queue obliterate else m_ret tt) s
  | Err e => (Err e, s)
  | Panic => (Panic, s)
  end.
End Basic.

(** With a dozen jobs, whether tasks run at once or late: the loop of the program
    ends, nothing fails, and the queue is wiped. *)
Lemma basic_ends (sched : Scheduler) :
  sched ∈ [eager; patient] ->
  let r := basic_main (CLK := sample_clock) sched 290 (fun i => show (Z.of_nat i)) 12 in
  r.1 = Ok tt /\ collections (sy_store (ws_queue r.2)) = collections basic_store.
Proof. rewrite !elem_of_cons, elem_of_nil. intros [->|[->|[]]]; vm_compute; split; reflexivity. Qed.

(** ** [examples/video_transcoding.rs] *)

(** Floating-point numbers and paths, as far as the example uses them. *)
Class Media := {
  F64 : Type;
  f64_zero : F64;
  f64_one : F64;
  f64_hundred : F64;
  f64_div : F64 -> F64 -> F64;
  f64_mul : F64 -> F64 -> F64;
  f64_round : F64 -> F64;
  f64_is_sign_positive : F64 -> bool;
  MF32 : Type;
  mf32_zero : MF32;
  PathBuf : Type;
  path_empty : PathBuf;
  path_of : string -> PathBuf;
  path_to_str : PathBuf -> option string;
  (** [ffmpeg_sidecar::log_parser::parse_time_str]. *)
  parse_time_str : string -> option F64;
}.

Section Transcoding.
Context {MED : Media} {SM : Type -> Type} `{OPS : !SkipMap Z SM} {EXT : Extern}.

Record Size : Type := mkSize { sz_width : Z; sz_height : Z }.
Record ProcessData : Type := mkProcessData { pd_path : PathBuf; pd_size : Size }.
Record ReturnData : Type := mkReturnData { rd_output_path : PathBuf; rd_processed_size : Size }.
Record Progress : Type := mkProgress {
  pg_percentage : F64;
  pg_current_duration : option F64;
  pg_size_kb : Z;
  pg_fps : MF32;
  pg_bitrate_kbps : MF32;
}.

Definition ProcessData_default : ProcessData := mkProcessData path_empty (mkSize 0 0).
Definition Progress_default : Progress := mkProgress f64_zero None 0 mf32_zero mf32_zero.

(** The fields of [FfmpegProgress] that are read. *)
Record FfmpegProgress : Type := mkFfmpegProgress { fp_time : string; fp_size_kb : Z; fp_bitrate_kbps : MF32 }.

Inductive LogLevel : Type := LError | LFatal | LOther.

(** The events that the processor tells apart. *)
Inductive FfmpegEvent : Type :=
| FfProgress (progress : FfmpegProgress)
| FfLog (log_level : LogLevel) (msg : string)
| FfError (failed_reason : string)
| FfParsedDuration (duration : F64)
| FfLogEOF
| FfOther.

(** A run of ffmpeg: it may not start, its output may not be readable, or it
    gives its events. *)
Inductive Ffmpeg : Type :=
| SpawnFailed (e : string)
| IterFailed (e : string)
| Events (events : list FfmpegEvent).

Abbreviation VideoStore := (InMemoryStore SM ProcessData ReturnData Progress).
Abbreviation VideoJob := (Job ProcessData ReturnData Progress).
Abbreviation VideoRan := (Ran ReturnData KioError).
Implicit Types st : VideoStore.

Definition current_progress (total_duration : F64) (progress : FfmpegProgress) : Progress :=
  let parsed_duration := parse_time_str (fp_time progress) in
  let p := mkProgress f64_zero None (fp_size_kb progress) mf32_zero (fp_bitrate_kbps progress) in
  match parsed_duration with
  | Some time =>
      let percent := f64_mul (f64_div time total_duration) f64_hundred in
      if f64_is_sign_positive percent
      then mkProgress (f64_round percent) parsed_duration (pg_size_kb p) (pg_fps p) (pg_bitrate_kbps p)
      else p
  | None => p
  end.

(** The loop over the events; [now i] is the reading of the clock for the event
    [i]. *)
Fixpoint watch (result : ReturnData) (total_duration : F64) (events : list FfmpegEvent) (now : nat -> Z)
    (job : VideoJob) (store : VideoStore) : VideoRan * VideoStore :=
  match events with
  | [] => (RanErr (IoError "failed to process video"), store)
  | event :: events =>
      let next := fun i => now (S i) in
      match event with
      | FfProgress progress =>
          let '(job, store) :=
            update_job_progress (now 0%nat) job (current_progress total_duration progress) store in
          watch result total_duration events next job store
      | FfLog log_level msg =>
          match log_level with
          | LError | LFatal => (RanErr (IoError msg), store)
          | LOther => watch result total_duration events next job store
          end
      | FfError failed_reason =>
          if bool_decide (failed_reason <> "No streams found"%string)
          then (RanErr (IoError failed_reason), store)
          else watch result total_duration events next job store
      | FfParsedDuration duration => watch result duration events next job store
      | FfLogEOF => (RanOk result, store)
      | FfOther => watch result total_duration events next job store
      end
  end.

(** [process_callback]; [random] is the text of the fresh identifier, [spawn] what
    the command line runs. *)
Definition process_callback (random : string) (spawn : string -> Size -> string -> Ffmpeg) (now : nat -> Z) :
    Processor (S := VideoStore) (D := ProcessData) (R := ReturnData) (P := Progress) KioError :=
  fun store job =>
    let data := unwrap_or ProcessData_default (j_data job) in
    match path_to_str (pd_path data) with
    | None => (RanPanic (mkHookInfo (PStaticStr "failed to extract") None) None, store)
    | Some input_path =>
        let size := pd_size data in
        let output_path :=
          ("compressed/" ++ show (sz_height size) ++ "x" ++ show (sz_width size) ++ "-" ++ random ++ "-output.mp4")%string in
        match spawn input_path size output_path with
        | SpawnFailed e => (RanErr (IoError e), store)
        | IterFailed e => (RanErr (GeneralError e), store)
        | Events events => watch (mkReturnData (path_of output_path) size) f64_one events now job store
        end
    end.

(** The jobs that [main] adds: the pairs are read as height and width. *)
Definition video_items (input_path : PathBuf) : list (string * option JobOptions * ProcessData) :=
  map (fun '(height, width) => (show height, None, mkProcessData input_path (mkSize width height)))
    [(1280, 720); (640, 480); (1920, 1080); (3840, 2160)].

(** ** What the processor reports *)

(** The event ends the run with this verdict. *)
Definition decides (result : ReturnData) (event : FfmpegEvent) : option VideoRan :=
  match event with
  | FfLog LError msg | FfLog LFatal msg => Some (RanErr (IoError msg))
  | FfError reason => if bool_decide (reason <> "No streams found"%string) then Some (RanErr (IoError reason)) else None
  | FfLogEOF => Some (RanOk result)
  | _ => None
  end.

Definition progress_of (event : FfmpegEvent) : option FfmpegProgress :=
  match event with FfProgress p => Some p | _ => None end.
Definition duration_of (event : FfmpegEvent) : option F64 :=
  match event with FfParsedDuration d => Some d | _ => None end.

(** The duration in force after some events. *)
Definition duration_after (d : F64) (events : list FfmpegEvent) : F64 := default d (last (omap duration_of events)).

(** The progress of the last report among some events. *)
Fixpoint last_report (d : F64) (events : list FfmpegEvent) : option Progress :=
  match events with
  | [] => None
  | e :: events =>
      match last_report (duration_after d [e]) events with
      | Some p => Some p
      | None => current_progress d <$> progress_of e
      end
  end.

Context `{LAWS : !SkipMapLaws Z SM}.

Definition with_progress (p : option Progress) (job : VideoJob) : VideoJob :=
  match p with Some v => set_j_progress (Some v) job | None => job end.

Lemma watch_spec result before d now id job stored st rest :
  Forall (fun e => decides result e = None) before ->
  match rest with [] => True | e :: _ => is_Some (decides result e) end ->
  j_id job = Some id -> has_record st id stored ->
  exists st', watch result d (before ++ rest) now job st =
      (default (RanErr (IoError "failed to process video")) (head rest ≫= decides result), st') /\
    has_record st' id (with_progress (last_report d before) stored) /\
    forall k, k <> job_tag id -> entry (st_jobs st') k = entry (st_jobs st) k.
Proof.
  intros Hb. revert d now job stored st.
  induction Hb as [|e before He Hb IH]; intros d now job stored st Hrest Hid Hrec.
  - exists st. split; [|done]. destruct rest as [|e rest]; [done|]. destruct Hrest as [r Hr]. cbn.
    rewrite Hr. destruct e as [| [] | | | |]; cbn in *; simplify_eq; try done. by case_bool_decide; simplify_eq.
  - cbn [app]. assert (Hskip : progress_of e = None ->
      watch result d (e :: before ++ rest) now job st =
      watch result (duration_after d [e]) (before ++ rest) (fun i => now (S i)) job st).
    { intros Hp. destruct e as [| [] | | | |]; cbn in He; try done. cbn. by case_bool_decide. }
    destruct (progress_of e) as [p|] eqn:Hp.
    + destruct e; try done. injection Hp as ->. cbn [watch]. unfold update_job_progress. rewrite Hid.
      set (v := current_progress d p).
      destruct (IH d (fun i => now (S i)) (set_j_progress (Some v) job) (set_j_progress (Some v) stored)
        (set_st_jobs (timed_write (now 0%nat) (job_tag id) (set_j_progress (Some v)) (st_jobs st)) st))
        as (st' & E & Hr & Hf); [done|done| |].
      { unfold has_record in *. cbn [st_jobs set_st_jobs]. by rewrite entry_write, decide_True, Hrec by done. }
      exists st'. split; [exact E|]. split.
      * cbn [last_report progress_of]. change (duration_after d [FfProgress p]) with d.
        by destruct (last_report d before).
      * intros k Hk. rewrite Hf by done. cbn [st_jobs set_st_jobs]. by rewrite entry_write, decide_False.
    + rewrite Hskip by done.
      destruct (IH (duration_after d [e]) (fun i => now (S i)) job stored st Hrest Hid Hrec) as (st' & E & Hr & Hf).
      exists st'. split; [exact E|]. split; [|done]. cbn [last_report]. rewrite Hp.
      by destruct (last_report (duration_after d [e]) before).
Qed.

(** A run of the processor on a stored job.  It is decided by the first event that
    decides, and fails when there is none; the record then holds the progress of
    the last report before that event, computed with the duration that was known
    by then, and no other record has changed.  A run that does not start is an
    error and reports nothing. *)
Theorem transcode_reports random spawn now st (job stored : VideoJob) id input_path data ended :
  j_id job = Some id -> has_record st id stored -> j_data job = Some data ->
  path_to_str (pd_path data) = Some input_path ->
  let size := pd_size data in
  let output_path :=
    ("compressed/" ++ show (sz_height size) ++ "x" ++ show (sz_width size) ++ "-" ++ random ++ "-output.mp4")%string in
  let result := mkReturnData (path_of output_path) size in
  spawn input_path size output_path = ended ->
  let r := process_callback random spawn now st job in
  match ended with
  | SpawnFailed e => r = (RanErr (IoError e), st)
  | IterFailed e => r = (RanErr (GeneralError e), st)
  | Events events => forall before rest, events = (before ++ rest)%list ->
      Forall (fun e => decides result e = None) before ->
      match rest with [] => True | e :: _ => is_Some (decides result e) end ->
      r.1 = default (RanErr (IoError "failed to process video")) (head rest ≫= decides result) /\
      has_record r.2 id (with_progress (last_report f64_one before) stored) /\
      forall k, k <> job_tag id -> entry (st_jobs r.2) k = entry (st_jobs st) k
  end.
Proof.
  intros Hid Hrec Hd Hp size output_path result Hs r. subst r. unfold process_callback.
  rewrite Hd. cbn [unwrap_or]. rewrite Hp. fold size output_path. rewrite Hs.
  destruct ended as [e|e|events]; [done|done|]. intros before rest -> Hb Hrest.
  destruct (watch_spec result before f64_one now id job stored st rest Hb Hrest Hid Hrec) as (st' & E & H).
  fold result. by rewrite E.
Qed.

Definition video_opts (num_cpus : Z) : WorkerOpts :=
  let d := WorkerOpts_default num_cpus in
  mkWorkerOpts 120000 120000 (wo_lock_renew_time d) (wo_max_stalled_count d) 4 (wo_autorun d)
    (wo_metrics_update_interval d).

(** [main], once the source video and the directories are there: the busy loop is
    the turns that the worker takes meanwhile, and the wait of [close] too; a wait
    that has not ended after [fuel] turns hangs the program.  [uuid] is the text of
    an identifier, [join] the text of a panic. *)
Section Main.
Context {SS : Type -> Type} `{SOPS : !SkipMap string SS} {CLK : Clock} {MON : Monitors}.
Context (uuid : Z -> string) (join : PanicHookInfo -> string).
Abbreviation VideoWS := (WSys (SM := SM) (SS := SS) (D := ProcessData) (R := ReturnData) (P := Progress)).

Definition video_main (random : string) (spawn : string -> Size -> string -> Ffmpeg) (now : nat -> Z)
    (num_cpus : Z) (sched : Scheduler) (fuel : nat) : outcome KioError unit * VideoWS :=
  let cb := from_sync same_error (process_callback random spawn now) in
  let processor := as_processor uuid join None cb (mkGlobals HDefault None []) in
  let wait (cond : VideoWS -> bool) : KM VideoWS unit := fun s =>
    match turns processor sched cond fuel s with
    | (true, s) => (Ok tt, s)
    | (false, s) => (Panic, s)
    end in
  let queue := queue_new 77 None collector_new (store_new None "video-processing") in
  let '(r, (s, _)) := new_with cb 9 num_cpus (Some (video_opts num_cpus)) queue in
  match r with
  | Ok _ =>
      (on_queue (bulk_add_only (video_items (path_of "sampleFHD.mp4"))) ;;;
       run ;;;
       wait (fun s => all_jobs_completed (sy_metrics (ws_queue s)) ||
                      negb (unwrap_or false (match (is_running s).1 with Ok b => Some b | _ => None end))) ;;;
       close ;;;
       let* closing := on_worker w_closing in
       (if closing then wait (fun s => main_finished (ws_worker s)) ;;; close_finish else m_ret tt) ;;;
       let* is_closed := closed in
       if is_closed then on_queue obliterate else m_ret tt) s
  | Err e => (Err e, s)
  | Panic => (Panic, s)
  end.
End Main.
End Transcoding.

(** ** Witness *)

(** Integers for the numbers, strings for the paths. *)
Definition sample_media : Media := {|
  F64 := Z; f64_zero := 0; f64_one := 1; f64_hundred := 100; f64_div a b := a / b; f64_mul := Z.mul;
  f64_round x := x; f64_is_sign_positive x := 0 <=? x; MF32 := Z; mf32_zero := 0;
  PathBuf := string; path_empty := ""%string; path_of s := s; path_to_str := Some;
  parse_time_str s := match s with "00:00:15"%string => Some 15 | "00:00:30"%string => Some 30 | _ => None end;
|}.

#[local] Existing Instance sample_extern.
#[local] Existing Instance sample_media.

Definition sample_data : ProcessData := mkProcessData (MED := sample_media) "in.mp4"%string (mkSize 720 1280).
Definition video_job : Job ProcessData ReturnData Progress :=
  set_j_id (Some 1) (job_new 0 "720" (Some sample_data) None None).
Definition video_store : InMemoryStore ZMap ProcessData ReturnData Progress :=
  set_st_jobs (insert_constant (job_tag 1) video_job timed_new) (store_new None "video-processing").

Lemma video_recorded : has_record video_store 1 video_job.
Proof. vm_compute. reflexivity. Qed.

Definition first_events : list FfmpegEvent :=
  [FfProgress (mkFfmpegProgress (MED := sample_media) "00:00:15" 10 5); FfParsedDuration (MED := sample_media) 30; FfError "No streams found";
   FfProgress (mkFfmpegProgress (MED := sample_media) "00:00:30" 20 5)].

Lemma transcode_reports_witness :
  let r := process_callback "x" (fun _ _ _ => Events (first_events ++ [FfLogEOF; FfError "late"]))
    (fun _ => 0) video_store video_job in
  r.1 = RanOk (mkReturnData (MED := sample_media) "compressed/1280x720-x-output.mp4"%string (mkSize 720 1280)) /\
  has_record r.2 1 (set_j_progress (Some (mkProgress (MED := sample_media) 100 (Some 30) 20 0 5)) video_job).
Proof.
  destruct (transcode_reports "x" (fun _ _ _ => Events (first_events ++ [FfLogEOF; FfError "late"]))
    (fun _ => 0) video_store video_job video_job 1 "in.mp4" sample_data
    (Events (first_events ++ [FfLogEOF; FfError "late"])) eq_refl video_recorded eq_refl eq_refl eq_refl
    first_events [FfLogEOF; FfError "late"%string] eq_refl) as (H1 & H2 & _); [by repeat constructor|by eexists|].
  split; [exact H1|exact H2].
Defined.

(** A whole run of the program: tasks run as soon as their handles are stored. *)
#[local] Existing Instance sample_monitors.
#[local] Existing Instance sample_clock.

Definition video_turn : Scheduler (SM := ZMap) (SS := StrMap) (D := ProcessData) (R := ReturnData) (P := Progress) :=
  fun s =>
    match l_pc <$> head (w_loops (ws_worker s)), w_tasks (ws_worker s) with
    | Some (Storing _), _ | _, [] => TLoop 0
    | _, _ => TTask 0
    end.

Definition video_run (events : list FfmpegEvent) :=
  video_main (SM := ZMap) (SS := StrMap) show (fun _ => "task panicked"%string) "x"
    (fun _ _ _ => Events events) (fun _ => 0) 8 video_turn 100.

(** When the four videos are transcoded the worker is closed and the queue wiped.
    When they all fail, the loop of the program ends only because the worker has
    gone to sleep; [close] then does nothing, and the failed jobs stay. *)
Lemma video_ends :
  (let r := video_run (first_events ++ [FfLogEOF]) in
   r.1 = Ok tt /\ w_cancelled (ws_worker r.2) = true /\ sm_iter (inner (st_jobs (sy_store (ws_queue r.2)))) = []) /\
  (let r := video_run [FfLog LError "no such file"] in
   r.1 = Ok tt /\ w_cancelled (ws_worker r.2) = false /\
   (sm_iter (st_failed (sy_store (ws_queue r.2)))).*2 = [1; 2; 3; 4]).
Proof. vm_compute. split_and!; reflexivity. Qed.
