(* ===== verification/WorkerProps.v ===== *)
(** * Accounting of job tasks

    What [process_job] leaves behind: the entry of the job in the map of jobs
    in progress, the worker's count and the store's processing counter, on the
    success, failure and error paths. *)

From S2P Require Import Prelude SkipMap Deque TimedMap Extern Schedule Job Options Events Shared Metrics InMemoryStore StoreProps StoreScored StoreRecords StoreInsert Collector Queue QueueInv QueueProps Promotion Timers Catcher Worker.

Section WorkerProps.
Context {SM SS : Type -> Type} `{OPS : !SkipMap Z SM} `{SOPS : !SkipMap string SS}
  {EXT : Extern} {CLK : Clock} {MON : Monitors} {D R P : Type} `{LAWS : !SkipMapLaws Z SM}.

Abbreviation QSys := (Sys SM D R P (QueueExt SM SS D R P)).
Abbreviation Q A := (KM QSys A).
Implicit Types st : InMemoryStore SM D R P.

(** ** Computations that leave the processing counter alone *)

Definition same_processing : relation QSys := fun s s' =>
  st_processing (sy_store s') = st_processing (sy_store s).

#[export] Instance same_processing_preorder : PreOrder same_processing.
Proof. split; [done|]. intros x y z H1 H2. unfold same_processing in *. congruence. Qed.

Lemma processing_upd (f : InMemoryStore SM D R P -> InMemoryStore SM D R P) :
  (forall st, st_processing (f st) = st_processing st) -> preserves same_processing (upd_store f).
Proof. intros H s. apply H. Qed.

Lemma processing_timed {A} (f : Z -> InMemoryStore SM D R P -> A * InMemoryStore SM D R P) :
  (forall t st, st_processing (f t st).2 = st_processing st) ->
  preserves same_processing (timed f).
Proof. intros H s. rewrite run_timed. apply H. Qed.

Lemma processing_timed_upd (f : Z -> InMemoryStore SM D R P -> InMemoryStore SM D R P) :
  (forall t st, st_processing (f t st) = st_processing st) ->
  preserves same_processing (timed_upd f).
Proof. intros H s. apply H. Qed.

Lemma processing_cells (f : QSys -> QSys) :
  (forall s, sy_store (f s) = sy_store s) -> preserves (E := KioError) same_processing (modify f).
Proof. intros H s. unfold same_processing; cbn. by rewrite H. Qed.

Lemma processing_utc : preserves same_processing utc_now.
Proof. done. Qed.

(** The store operations of these paths. *)
Lemma processing_remove_item col item st : st_processing (remove_item col item st) = st_processing st.
Proof. by destruct col. Qed.

Lemma processing_add_item col item score b st :
  st_processing (add_item col item score b st) = st_processing st.
Proof. by destruct col. Qed.

Lemma processing_remove col st : st_processing (remove col st) = st_processing st.
Proof. by destruct col. Qed.

Lemma processing_incr t id d h st :
  st_processing (incr t (CollectionSuffix.Job id) d h st).2 = st_processing st.
Proof. unfold incr. by repeat case_match. Qed.

Lemma processing_exists t col item st : st_processing (exists_in t col item st).2 = st_processing st.
Proof. unfold exists_in. by repeat case_match. Qed.

Lemma processing_get_state t id st : st_processing (get_state t id st).2 = st_processing st.
Proof. unfold get_state. by repeat case_match. Qed.

Lemma processing_get_job t id st : st_processing (get_job t id st).2 = st_processing st.
Proof. unfold get_job. by repeat case_match. Qed.

Lemma processing_expire t col secs st : st_processing (expire t col secs st) = st_processing st.
Proof. unfold expire. by repeat case_match. Qed.

Hint Resolve processing_upd processing_timed processing_timed_upd processing_utc
  processing_remove_item processing_add_item processing_remove processing_incr
  processing_exists processing_get_state processing_get_job processing_expire : kio.

Lemma processing_publish (event : QueueStreamEvent R P) :
  preserves same_processing (publish_event event).
Proof.
  unfold publish_event, process_each_event, pause_or_resume_workers, resume_helper. preserve.
  all: apply processing_cells; intros s; by repeat case_match.
Qed.
Hint Resolve processing_publish : kio.

Lemma processing_finish id ts token to r bt :
  preserves same_processing (move_job_to_finished_or_failed id ts token to r bt).
Proof.
  unfold move_job_to_finished_or_failed, move_job_to_state, queue_get_job, publish_now, is_paused,
    job_exists.
  preserve.
Qed.

Lemma processing_retry id opts n : preserves same_processing (retry_job id opts n).
Proof. unfold retry_job, retry_failed, on_ext. preserve. Qed.

Lemma processing_clean_up id ro : preserves same_processing (clean_up_job id ro).
Proof. unfold clean_up_job. preserve. Qed.

(** ** Settling a finished job *)

Lemma kept_retry {B} (g : QueueExt SM SS D R P -> B) id opts n :
  preserves (kept g) (retry_job id opts n).
Proof.
  unfold retry_job, retry_failed, on_ext. preserve; auto using kept_utc_now, kept_upd_store.
Qed.

Lemma kept_clean_up {B} (g : QueueExt SM SS D R P -> B) id ro :
  preserves (kept g) (clean_up_job id ro).
Proof. unfold clean_up_job. preserve; auto using kept_upd_store, kept_timed_upd. Qed.

(** The policy gives a time that is outside the range of dates. *)
Definition undated (now : Dt) (opts : RetryOptions) (backoff : BackOff SS) (attempts : Z) : Prop :=
  match opts with
  | RetryFailed b =>
      exists d, calculate_next_delay_ms backoff b (cast_signed attempts) = Some d /\ ~ dated now d
  | WithRepeat repeat => next_occurrence now repeat backoff attempts = None
  end.

Lemma retry_outcome id opts n (s : QSys) :
  (retry_job id opts n s).1 = Ok tt \/
  ((retry_job id opts n s).1 = Panic /\ undated (utc (sy_reads s)) opts (q_backoff (sy_ext s)) n).
Proof.
  unfold retry_job, retry_failed. destruct opts as [b|rp];
    rewrite !(run_bind _ _ s (utc (sy_reads s)) (tick s)) by done;
    rewrite !(run_bind _ _ (tick s) (q_backoff (sy_ext s)) (tick s)) by done; cbn [undated].
  - destruct (calculate_next_delay_ms _ _ _) as [d|]; [|by left]. rewrite dt_add_dated.
    case_decide; [by left|right]. by split; [|exists d].
  - destruct (next_occurrence _ _ _ _) as [[due|]|]; [|by left|by right]. left.
    destruct (Z.eqb_spec due 0) as [->|Hne]; cbv [m_bind expect m_ret]; [done|].
    by rewrite (proj2 (Z.eqb_neq due 0) Hne).
Qed.

Lemma returns_clean_up id ro : returns (clean_up_job id ro : Q _).
Proof. unfold clean_up_job, upd_store. return_all; apply returns_timed_upd. Qed.

(** [c] returns [a], or panics under the strategies that are [bad]; neither the jobs
    in progress nor the counter change. *)
Definition settles {A} (c : Q A) (a : A) (bad : BackOff SS -> Prop) : Prop := forall s, exists r s',
  c s = (r, s') /\ kept q_jobs s s' /\ kept q_backoff s s' /\ same_processing s s' /\
  (r = Ok a \/ (r = Panic /\ bad (q_backoff (sy_ext s)))).

Lemma settles_ret {A} (a : A) bad : settles (m_ret a) a bad.
Proof. intros s. exists (Ok a), s. split_and!; [done..|by left]. Qed.

Lemma settles_then {A} (c : Q unit) (k : Q A) a bad :
  settles c tt bad -> settles k a bad -> settles (c ;;; k) a bad.
Proof.
  intros Hc Hk s. destruct (Hc s) as (r1 & s1 & E1 & K1 & B1 & P1 & [->|[-> Hbad]]).
  - destruct (Hk s1) as (r2 & s2 & E2 & K2 & B2 & P2 & H2). exists r2, s2.
    rewrite (run_bind _ _ _ _ _ E1). unfold kept in B1. rewrite B1 in H2. split_and!; [done|by etrans..|done].
  - exists Panic, s1. unfold m_bind. rewrite E1. split_and!; [done..|by right].
Qed.

Lemma settles_retry id opts n (bad : BackOff SS -> Prop) :
  (forall k b, undated (utc k) opts b n -> bad b) -> settles (retry_job id opts n) tt bad.
Proof.
  intros Hbad s. pose proof (kept_retry q_jobs id opts n s). pose proof (kept_retry q_backoff id opts n s).
  pose proof (processing_retry id opts n s). pose proof (retry_outcome id opts n s) as Hr.
  destruct (retry_job id opts n s) as [r s']. exists r, s'. split_and!; [done..|]. naive_solver.
Qed.

Lemma settles_clean_up id ro bad : settles (clean_up_job id ro) tt bad.
Proof.
  intros s. pose proof (kept_clean_up q_jobs id ro s). pose proof (kept_clean_up q_backoff id ro s).
  pose proof (processing_clean_up id ro s). destruct (returns_clean_up id ro s) as ([] & s' & E).
  rewrite E in *. exists (Ok tt), s'. split_and!; [done..|by left].
Qed.

Lemma settle_run {A X} (id : Z) (fin : Q A) (rest : A -> JobMeta D R P -> Q (option X))
    (h : JobMeta D R P -> option X) (bad : JobMeta D R P -> BackOff SS -> Prop) (s : QSys) a s1 :
  fin s = (Ok a, s1) -> kept q_jobs s s1 -> kept q_backoff s s1 -> same_processing s s1 ->
  (forall meta, settles (rest a meta) (h meta) (bad meta)) ->
  exists r s', (let* a := fin in
              let* entry := take_in_progress id in
              match entry with None => m_ret None | Some meta => rest a meta end) s = (r, s') /\
    q_jobs (sy_ext s') = sm_remove id (q_jobs (sy_ext s)) /\ same_processing s s' /\
    (r = Ok (sm_get (q_jobs (sy_ext s)) id ≫= h) \/
     (r = Panic /\ exists meta, sm_get (q_jobs (sy_ext s)) id = Some meta /\ bad meta (q_backoff (sy_ext s)))).
Proof.
  intros E K1 B1 P1 Hr. rewrite (run_bind _ _ _ _ _ E).
  set (s2 := set_sy_ext (set_q_jobs (sm_remove id (q_jobs (sy_ext s1))) (sy_ext s1)) s1).
  rewrite (run_bind _ _ s1 (sm_get (q_jobs (sy_ext s1)) id) s2) by done.
  assert (P2 : same_processing s s2) by done. unfold kept in K1, B1.
  assert (K2 : q_jobs (sy_ext s2) = sm_remove id (q_jobs (sy_ext s))) by (cbn; by rewrite K1).
  rewrite K1. destruct (sm_get (q_jobs (sy_ext s)) id) as [meta|]; [|exists (Ok None), s2; split_and!; [done..|by left]].
  destruct (Hr meta s2) as (r & s3 & E3 & K3 & _ & P3 & H3). exists r, s3. unfold kept in K3.
  change (q_backoff (sy_ext s2)) with (q_backoff (sy_ext s1)) in H3. rewrite B1 in H3.
  split_and!; [exact E3|by rewrite K3|by etrans|]. destruct H3 as [?|[? ?]]; [by left|right]. eauto.
Qed.

(** The call that finishes the job, with what it keeps. *)
Lemma finish_outcome id ts token to value bt (s : QSys) :
  qm_is_paused (sy_metrics s) = false -> is_terminal to = true -> result_fits to value ->
  (forall job, has_record (sy_store s) id job -> exists job' s',
     move_job_to_finished_or_failed id ts token to value bt s = (Ok job', s') /\ j_opts job' = j_opts job) /\
  (entry (st_jobs (sy_store s)) (job_tag id) = None -> exists s',
     move_job_to_finished_or_failed id ts token to value bt s = (Err (KJobError JobNotFound), s')).
Proof.
  intros Hp Ht Hfit. unfold move_job_to_finished_or_failed. split.
  - intros job Hj.
    rewrite (run_bind _ _ s (Some (j_state job)) (tick s)) by (by apply run_timed_same, get_state_record).
    destruct (move_terminal id (j_state job) to value ts bt (tick s) job Hp Hj Ht Hfit)
      as (s' & E & Hr & _). cbn [unwrap_or]. rewrite (run_bind _ _ _ _ _ E).
    rewrite (run_bind _ _ s' (Some (finished to value ts bt job)) (tick s'))
      by (by apply run_timed_same, get_job_record). eexists _, _. split; [reflexivity|].
    unfold finished, state_fields. by destruct bt, value.
  - intros Hn. rewrite (run_bind _ _ s None (tick s)) by (by apply run_timed_same, get_state_missing).
    rewrite (run_bind_err _ _ (tick s) (KJobError JobNotFound) (tick (tick s)))
      by (by apply move_missing). by eexists.
Qed.

Definition reported (id : Z) (to : JobState.t) (meta : JobMeta D R P) : option (Z * JobState.t) :=
  match meta_handle meta with Some _ => Some (id, to) | None => None end.

(** One of the policies of the job, applied at some reading of the clock, is
    undated. *)
Definition overdue (job : Job D R P) (meta : JobMeta D R P) (backoff : BackOff SS) : Prop :=
  exists opts attempts k,
    ((retry_of_repeat <$> jo_repeat (j_opts job)) = Some opts \/
     (retry_of_back_off <$> jo_backoff (j_opts (meta_job meta))) = Some opts) /\
    undated (utc k) opts backoff attempts.

(** The ways an arm of [process_job] can end. *)
Definition arm_ends (id : Z) (to : JobState.t) (c : Q (option (Z * JobState.t))) (s : QSys) : Prop :=
  (forall job, has_record (sy_store s) id job -> exists r s', c s = (r, s') /\
     q_jobs (sy_ext s') = sm_remove id (q_jobs (sy_ext s)) /\ same_processing s s' /\
     (r = Ok (sm_get (q_jobs (sy_ext s)) id ≫= reported id to) \/
      (r = Panic /\ exists meta, sm_get (q_jobs (sy_ext s)) id = Some meta /\ overdue job meta (q_backoff (sy_ext s))))) /\
  (entry (st_jobs (sy_store s)) (job_tag id) = None -> exists s',
     c s = (Err (KJobError JobNotFound), s') /\ kept q_jobs s s' /\ same_processing s s').

Lemma arm_run id to ts token value bt (rest : Job D R P -> JobMeta D R P -> Q _) s :
  qm_is_paused (sy_metrics s) = false -> is_terminal to = true -> result_fits to value ->
  (forall job meta, settles (rest job meta) (reported id to meta) (overdue job meta)) ->
  arm_ends id to
    (let* job := move_job_to_finished_or_failed id ts token to value bt in
     let* entry := take_in_progress id in
     match entry with None => m_ret None | Some meta => rest job meta end) s.
Proof.
  intros Hp Ht Hfit Hr.
  destruct (finish_outcome id ts token to value bt s Hp Ht Hfit) as [H1 H2].
  pose proof (kept_finish q_jobs id ts token to value bt s) as Hk.
  pose proof (kept_finish q_backoff id ts token to value bt s) as Hb.
  pose proof (processing_finish id ts token to value bt s) as Hs. split.
  - intros job Hj. destruct (H1 job Hj) as (job' & s1 & E & Ho). rewrite E in Hk, Hb, Hs.
    apply (settle_run id _ rest (reported id to) (overdue job) s job' s1); [done..|].
    intros meta. specialize (Hr job' meta). unfold overdue in *. by rewrite Ho in Hr.
  - intros Hn. destruct (H2 Hn) as [s1 E]. rewrite E in Hk, Hs. exists s1.
    by rewrite (run_bind_err _ _ _ _ _ E).
Qed.

Lemma settles_success id completed meta :
  settles (settle_success id completed meta) (reported id JobState.Completed meta) (overdue completed meta).
Proof.
  unfold settle_success. apply settles_then; [|apply settles_ret].
  case_match; [|apply settles_clean_up]. case_match eqn:Hr; [|apply settles_ret].
  apply settles_retry. intros k bk Hu. eexists _, _, k. split; [left; by rewrite Hr|exact Hu].
Qed.

Lemma settles_failure id failed meta :
  settles (settle_failure id failed meta) (reported id JobState.Failed meta) (overdue failed meta).
Proof.
  unfold settle_failure. apply settles_then; [|apply settles_then; [|apply settles_ret]].
  - case_match; [|apply settles_ret]. case_match eqn:Hr; [|apply settles_ret].
    apply settles_retry. intros k bk Hu. eexists _, _, k. split; [right; by rewrite Hr|exact Hu].
  - case_match; [apply settles_clean_up|apply settles_ret].
Qed.

Lemma on_success_ends job token metrics result id s :
  j_id job = Some id -> qm_is_paused (sy_metrics s) = false ->
  arm_ends id JobState.Completed (on_success job token metrics result) (s : QSys).
Proof.
  intros Hid Hp. unfold on_success. rewrite Hid. cbn [unwrap_or].
  exact (arm_run id JobState.Completed (timestamp_micros (utc (sy_reads s))) token
    (PSuccess result (timed_metrics id (j_ts job) (utc (sy_reads s)) (j_processed_on job) metrics))
    None (settle_success id) (tick s) Hp eq_refl I (settles_success id)).
Qed.

Lemma on_failure_ends job token attempts reason bt id s :
  j_id job = Some id -> qm_is_paused (sy_metrics s) = false ->
  arm_ends id JobState.Failed (on_failure job token attempts reason bt) (s : QSys).
Proof.
  intros Hid Hp. unfold on_failure. rewrite Hid. cbn [unwrap_or].
  exact (arm_run id JobState.Failed (timestamp_micros (utc (sy_reads s))) token
    (PFailed (mkFailedDetails attempts reason))
    ((fun frames => mkTrace attempts reason frames) <$> bt)
    (settle_failure id) (tick s) Hp eq_refl I (settles_failure id)).
Qed.

Lemma update_processing_run b w id state (s : QSys) :
  exists n s', update_processing_count b w id state s = (Ok n, s') /\ kept q_jobs s s' /\
    st_processing (sy_store s') = handle_counter (if b then 1 else -1) (st_processing (sy_store s)).
Proof.
  unfold update_processing_count.
  erewrite run_bind by (erewrite run_bind by apply run_timed; done).
  match goal with |- context [m_bind (publish_now ?f) _ ?t] =>
    destruct (publish_now_frame f t) as (b' & s' & E & Hs & Hx & _) end; [by intros now|].
  rewrite (run_bind _ _ _ _ _ E). erewrite run_bind by apply run_timed.
  eexists _, _. split; [done|]. unfold kept.
  cbn [sy_ext sy_store with_store tick set_sy_store set_sy_reads get_counter fst snd]. rewrite Hs.
  split; [exact (f_equal q_jobs Hx)|done].
Qed.

(** ** The whole task *)

Context (processor : Job D R P -> InMemoryStore SM D R P -> Caught R * InMemoryStore SM D R P).

(** The main loop has stored the handle of the job's task. *)
Definition handle_stored (s : QSys) (id : Z) : bool :=
  match sm_get (q_jobs (sy_ext s)) id with
  | Some meta => bool_decide (is_Some (meta_handle meta))
  | None => false
  end.

Lemma handle_stored_reported (s : QSys) id to :
  sm_get (q_jobs (sy_ext s)) id ≫= reported id to =
  if handle_stored s id then Some (id, to) else None.
Proof.
  unfold handle_stored. destruct (sm_get (q_jobs (sy_ext s)) id) as [meta|]; [|done]. cbn.
  unfold reported. by destruct (meta_handle meta).
Qed.

Lemma on_queue_run {A} (c : Q A) (s : WSys) r q :
  c (ws_queue s) = (r, q) -> on_queue c s = (r, mkWSys (ws_worker s) q).
Proof. unfold on_queue. by intros ->. Qed.

(** The queue after the processor ran. *)
Definition after_processor (job : Job D R P) (s : WSys) : QSys :=
  set_sy_store (processor job (sy_store (ws_queue s))).2 (ws_queue s).

Lemma process_job_arm job token id (s : WSys) :
  j_id job = Some id -> is_Some (get_metrics job) ->
  qm_is_paused (sy_metrics (ws_queue s)) = false ->
  exists to arm, arm_ends id to arm (after_processor job s) /\
    process_job processor job token s =
    (let* task_queue := on_queue arm in
     match task_queue with
     | Some (job_id, state) =>
         upd_worker (fun w => set_w_active_job_count (wrapping_sub_u64 (w_active_job_count w) 1) w) ;;;
         let* worker_id := on_worker w_id in
         let* _ := on_queue (update_processing_count false worker_id job_id state) in
         m_ret tt
     | None => m_ret tt
     end) (mkWSys (ws_worker s) (after_processor job s)).
Proof.
  intros Hid [metrics Hm] Hp. unfold process_job. rewrite Hm.
  assert (E : on_queue (on_store (processor job)) s =
    (Ok (processor job (sy_store (ws_queue s))).1, mkWSys (ws_worker s) (after_processor job s))).
  { apply on_queue_run. unfold on_store, state, after_processor.
    by destruct (processor job (sy_store (ws_queue s))). }
  rewrite (run_bind _ _ s metrics s) by done. rewrite (run_bind _ _ _ _ _ E).
  set (attempts := wrapping_add_u64 (j_attempts_made job) 1).
  destruct (processor job (sy_store (ws_queue s))).1 as [result|e bt|e bt|e].
  - exists JobState.Completed, (on_success job token (set_attempt attempts metrics) result).
    split; [exact (on_success_ends _ _ _ _ _ (after_processor job s) Hid Hp)|reflexivity].
  - exists JobState.Failed, (on_failure job token attempts e bt).
    split; [exact (on_failure_ends _ _ _ _ _ _ (after_processor job s) Hid Hp)|reflexivity].
  - exists JobState.Failed, (on_failure job token attempts e bt).
    split; [exact (on_failure_ends _ _ _ _ _ _ (after_processor job s) Hid Hp)|reflexivity].
  - exists JobState.Failed, (on_failure job token attempts e None).
    split; [exact (on_failure_ends _ _ _ _ _ _ (after_processor job s) Hid Hp)|reflexivity].
Qed.

(** C24: what a job task leaves behind, whatever the processor returned.  When
    the job's record still exists the job leaves the map of jobs in progress; the
    task ends well, and the store's processing counter and the worker's count go
    down by one, provided the main loop had already stored the handle of the
    task; if the task was faster than that, neither counter is touched.  The task
    panics only when a policy of the job, its repetition or its backoff, gives a
    time outside the range of dates; then no counter is touched either.  When the
    record is gone the task fails with "job not found", the job stays in the map
    and both counters keep counting it. *)
Theorem process_job_accounting (job : Job D R P) (token : JobToken) (id : Z) (s : WSys) :
  j_id job = Some id -> is_Some (get_metrics job) ->
  qm_is_paused (sy_metrics (ws_queue s)) = false ->
  let st := (processor job (sy_store (ws_queue s))).2 in
  let counted := handle_stored (ws_queue s) id in
  let jobs := q_jobs (sy_ext (ws_queue s)) in
  (forall rec, has_record st id rec ->
     exists r s', process_job processor job token s = (r, s') /\
       q_jobs (sy_ext (ws_queue s')) = sm_remove id jobs /\
       ((r = Ok tt /\
         w_active_job_count (ws_worker s') =
           (if counted then wrapping_sub_u64 (w_active_job_count (ws_worker s)) 1
            else w_active_job_count (ws_worker s)) /\
         st_processing (sy_store (ws_queue s')) =
           (if counted then handle_counter (-1) (st_processing st) else st_processing st)) \/
        (r = Panic /\ ws_worker s' = ws_worker s /\ st_processing (sy_store (ws_queue s')) = st_processing st /\
         exists meta, sm_get jobs id = Some meta /\ overdue rec meta (q_backoff (sy_ext (ws_queue s)))))) /\
  (entry (st_jobs st) (job_tag id) = None ->
     exists s', process_job processor job token s = (Err (KJobError JobNotFound), s') /\
       q_jobs (sy_ext (ws_queue s')) = jobs /\ ws_worker s' = ws_worker s /\
       st_processing (sy_store (ws_queue s')) = st_processing st).
Proof.
  intros Hid Hm Hp st counted jobs.
  destruct (process_job_arm job token id s Hid Hm Hp) as (to & arm & [H1 H2] & ->). split.
  - intros rec Hr. destruct (H1 rec Hr) as (r & q1 & E1 & K1 & P1 & [->|[-> Hbad]]).
    2: { exists Panic, (mkWSys (ws_worker s) q1). split; [|split; [exact K1|right; by split_and!]].
      unfold m_bind at 1. by rewrite (on_queue_run _ (mkWSys _ (after_processor job s)) _ _ E1). }
    rewrite (run_bind _ _ _ _ _ (on_queue_run _ (mkWSys _ (after_processor job s)) _ _ E1)).
    rewrite handle_stored_reported. change (handle_stored (after_processor job s) id) with counted.
    exists (Ok tt). destruct counted; [|eexists; (split; [reflexivity|]); (split; [exact K1|]); left; by split_and!].
    destruct (update_processing_run false (w_id (ws_worker s)) id to q1) as (n & q2 & E2 & K2 & P2).
    cbv [upd_worker on_worker m_bind modify gets on_queue]. cbn [ws_queue ws_worker].
    change (w_id (set_w_active_job_count _ _)) with (w_id (ws_worker s)). rewrite E2.
    eexists. split; [reflexivity|]. split; [exact (eq_trans K2 K1)|]. left. split_and!; [done|done|].
    cbn [ws_queue]. by rewrite P2, P1.
  - intros Hn. destruct (H2 Hn) as (q1 & E1 & K1 & P1).
    rewrite (run_bind_err _ _ _ _ _ (on_queue_run _ (mkWSys _ (after_processor job s)) _ _ E1)).
    by eexists.
Qed.
End WorkerProps.

(** ** Witnesses *)

Section Witnesses.
#[local] Existing Instance sample_extern.
#[local] Existing Instance sample_clock.
#[local] Existing Instance sample_monitors.

(** The task of the busy worker, run before and after its handle is stored. *)
Definition stored_worker : WSys (SM := ZMap) (SS := StrMap) (D := Z) (R := Z) (P := Z) :=
  (loop_store_handle 0 (mkLoop (Storing 1) 0) 1 55 busy_worker).2.

Definition running_job (s : WSys (SM := ZMap) (SS := StrMap) (D := Z) (R := Z) (P := Z)) : Job Z Z Z :=
  match w_tasks (ws_worker s) with
  | t :: _ => jt_job t
  | [] => job_new 0 "none" None None None
  end.

(** The jobs of these workers are neither repeated nor retried. *)
Lemma no_policy s rec meta :
  entry (st_jobs (sy_store (ws_queue s))) (job_tag 1) = Some (Constant rec) ->
  sm_get (q_jobs (sy_ext (ws_queue s))) 1 = Some meta ->
  forall b, overdue rec meta b -> s = stored_worker \/ s = busy_worker -> False.
Proof.
  intros He Hm b (opts & n & k & Hopts & _) Hs.
  assert (jo_repeat (j_opts rec) = None /\ jo_backoff (j_opts (meta_job meta)) = None) as [H1 H2].
  { destruct Hs as [->| ->];
      vm_compute in He, Hm; injection He as <-; injection Hm as <-; done. }
  rewrite H1, H2 in Hopts. by destruct Hopts.
Qed.

Lemma process_job_accounting_witness :
  (exists s', process_job sample_processor (running_job stored_worker) sample_token stored_worker =
     (Ok tt, s') /\ st_processing (sy_store (ws_queue s')) = 0) /\
  (exists s', process_job sample_processor (running_job busy_worker) sample_token busy_worker =
     (Ok tt, s') /\ st_processing (sy_store (ws_queue s')) = 1).
Proof.
  split.
  - destruct (process_job_accounting sample_processor (running_job stored_worker) sample_token 1
      stored_worker) as [H _]; [vm_compute; reflexivity|vm_compute; eauto|vm_compute; reflexivity|].
    destruct (entry (st_jobs (sy_store (ws_queue stored_worker))) (job_tag 1)) as [e|] eqn:He;
      [|vm_compute in He; discriminate He].
    destruct e as [rec|rec d]; [|vm_compute in He; discriminate He].
    destruct (H rec He) as (r & s' & E & _ & [(-> & _ & Hp)|(_ & _ & _ & meta & Hmeta & Hbad)]);
      [exists s'; split; [exact E|rewrite Hp; vm_compute; reflexivity]|].
    exfalso. apply (no_policy stored_worker rec meta He Hmeta _ Hbad). left. reflexivity.
  - destruct (process_job_accounting sample_processor (running_job busy_worker) sample_token 1
      busy_worker) as [H _]; [vm_compute; reflexivity|vm_compute; eauto|vm_compute; reflexivity|].
    destruct (entry (st_jobs (sy_store (ws_queue busy_worker))) (job_tag 1)) as [e|] eqn:He;
      [|vm_compute in He; discriminate He].
    destruct e as [rec|rec d]; [|vm_compute in He; discriminate He].
    destruct (H rec He) as (r & s' & E & _ & [(-> & _ & Hp)|(_ & _ & _ & meta & Hmeta & Hbad)]);
      [exists s'; split; [exact E|rewrite Hp; vm_compute; reflexivity]|].
    exfalso. apply (no_policy busy_worker rec meta He Hmeta _ Hbad). right. reflexivity.
Defined.
End Witnesses.
