(* ===== verification/WorkerDrain.v ===== *)
(** * A closed worker stops

    Once the cancellation token of a worker is cancelled and its task tracker
    closed, every stretch of its loops and tasks brings it nearer to the end:
    [remaining] bounds the number of stretches left, and as long as a loop has
    not finished some stretch can run. *)

From S2P Require Import Prelude SkipMap Deque TimedMap Extern Schedule Job Options Events Shared Metrics InMemoryStore StoreProps StoreScored StoreRecords StoreInsert Collector Queue QueueInv QueueProps Promotion Timers Catcher Worker.

Section Drain.
Context {SM SS : Type -> Type} `{OPS : !SkipMap Z SM} `{SOPS : !SkipMap string SS}
  {EXT : Extern} {CLK : Clock} {MON : Monitors} {D R P : Type}
  (processor : Job D R P -> InMemoryStore SM D R P -> Caught R * InMemoryStore SM D R P).

Abbreviation WS := (WSys (SM := SM) (SS := SS) (D := D) (R := R) (P := P)).
Abbreviation QSys := (Sys SM D R P (QueueExt SM SS D R P)).
Abbreviation Q A := (KM QSys A).

(** How many stretches of a loop are left after the cancellation, at most. *)
Definition rank (l : Loop) : nat :=
  match l_pc l with
  | Finished _ => 0
  | Draining => 1
  | Top => 2
  | Starting | Storing _ | Fetching _ => 3
  | Ready => 4
  | Sleeping _ => 5
  | Pausing => 6
  end.

Definition remaining (w : Worker D R P) : nat :=
  (length (w_tasks w) + sum_list_with rank (w_loops w))%nat.

Definition cancelled (s : WS) : Prop :=
  w_cancelled (ws_worker s) = true /\ w_tracker_closed (ws_worker s) = true.

(** One stretch nearer to the end. *)
Definition nearer (s s' : WS) : Prop :=
  cancelled s' /\ (remaining (ws_worker s') < remaining (ws_worker s))%nat.

Lemma rank_insert i l l' loops :
  loops !! i = Some l -> (rank l' < rank l)%nat ->
  (sum_list_with rank (<[i := l']> loops) < sum_list_with rank loops)%nat.
Proof.
  intros Hi Hr. pose proof (lookup_lt_Some _ _ _ Hi).
  rewrite insert_take_drop by done. rewrite <- (take_drop_middle loops i l Hi) at 3.
  rewrite !sum_list_with_app. cbn. lia.
Qed.

(** A loop that moves to a later place. *)
Lemma nearer_loop (s s' : WS) i l l' pc :
  cancelled s -> loop_at s i l pc -> (rank l' < rank l)%nat ->
  ws_worker s' = set_w_loops (<[i := l']> (w_loops (ws_worker s))) (ws_worker s) -> nearer s s'.
Proof.
  intros Hc [Hi _] Hr E. unfold nearer, cancelled, remaining in *. rewrite E.
  split; [done|]. cbn [set_w_loops w_tasks w_loops].
  pose proof (rank_insert i l l' _ Hi Hr). lia.
Qed.

(** The queue calls leave the worker alone. *)
Lemma ws_on_queue {A} (c : Q A) (s : WS) :
  exists r q, on_queue c s = (r, mkWSys (ws_worker s) q).
Proof. unfold on_queue. destruct (c (ws_queue s)) as [r q]. by exists r, q. Qed.

Lemma ws_store_state x (s : WS) : exists q, store_state x s = (Ok tt, mkWSys (ws_worker s) q).
Proof. by eexists. Qed.

Lemma loop_start_moves i l (s : WS) : loop_at s i l Starting ->
  ws_worker (loop_start i l s).2 =
    set_w_loops (<[i := mkLoop Top (l_permits l)]> (w_loops (ws_worker s))) (ws_worker s).
Proof.
  intros _. unfold loop_start. rewrite (run_bind _ _ s (w_opts (ws_worker s)) s) by done.
  assert (Hr : returns (register_worker_timers (w_opts (ws_worker s)) : Q unit)).
  { unfold register_worker_timers, on_ext, upd_collector, upd_ext, instants. return_all. }
  destruct (Hr (ws_queue s)) as ([] & q & E).
  rewrite (run_bind _ _ s tt (mkWSys (ws_worker s) q)); [done|]. unfold on_queue. by rewrite E.
Qed.

Lemma loop_fetch_cancelled i l token (s : WS) :
  w_cancelled (ws_worker s) = true ->
  loop_fetch i l token s = release i l Top s.
Proof.
  intros Hc. unfold loop_fetch, on_worker. cbv [m_bind gets]. rewrite Hc. cbn.
  unfold attempt. cbn. by destruct s.
Qed.

Lemma ws_process_job job token (s : WS) :
  w_cancelled (ws_worker (process_job processor job token s).2) = w_cancelled (ws_worker s) /\
  w_tracker_closed (ws_worker (process_job processor job token s).2) =
    w_tracker_closed (ws_worker s) /\
  w_tasks (ws_worker (process_job processor job token s).2) = w_tasks (ws_worker s) /\
  w_loops (ws_worker (process_job processor job token s).2) = w_loops (ws_worker s).
Proof.
  set (I := fun s s' : WS => w_cancelled (ws_worker s') = w_cancelled (ws_worker s) /\
    w_tracker_closed (ws_worker s') = w_tracker_closed (ws_worker s) /\
    w_tasks (ws_worker s') = w_tasks (ws_worker s) /\
    w_loops (ws_worker s') = w_loops (ws_worker s)).
  assert (HI : PreOrder I).
  { split; [by intros x|]. unfold I. intros x y z (?&?&?&?) (?&?&?&?). split_and!; congruence. }
  assert (Hq : forall {A} (c : Q A), preserves I (on_queue c)).
  { intros A c s0. destruct (ws_on_queue c s0) as (r & q & ->). by repeat split. }
  assert (Hp : preserves I (process_job processor job token)); [|apply Hp].
  unfold process_job, on_worker, upd_worker. preserve; apply preserves_modify; by repeat split.
Qed.

Lemma nearer_task k t (s : WS) :
  cancelled s -> w_tasks (ws_worker s) !! k = Some t -> nearer s (run_task processor k t s).
Proof.
  intros [Hc Ht] Hk. unfold run_task, nearer, cancelled, remaining.
  destruct (ws_process_job (jt_job t) (jt_token t) s) as (H1 & H2 & H3 & H4).
  cbn [ws_worker set_w_loops set_w_tasks w_cancelled w_tracker_closed w_tasks w_loops].
  rewrite H1, H2, H3, H4. split; [done|].
  assert (Hg : forall i loops, sum_list_with rank (give_back i loops) = sum_list_with rank loops).
  { unfold give_back. induction i as [|i IH]; intros [|l loops]; cbn; [done..|]. by rewrite IH. }
  rewrite Hg. rewrite length_delete by (by eexists). apply lookup_lt_Some in Hk. lia.
Qed.

(** Compares the place a loop goes to with the one it is at. *)
Ltac ranks :=
  match goal with
  | H : l_pc ?l = _ |- (rank _ < rank ?l)%nat => unfold rank; rewrite H; cbn; lia
  end.

Lemma own_step_nearer (s s' : WS) : cancelled s -> own_step processor s s' -> nearer s s'.
Proof.
  intros Hc Hs. destruct Hs as [s i l H|s i l H|s i l H|s i l n H Hn|s i l n H Hn|s i l H|
    s i l tok H|s i l id t H|s i l H H1 H2|s k t H]; try (pose proof H as [Hi Hpc]).
  - eapply nearer_loop; [done..| |by apply loop_start_moves]. ranks.
  - eapply (nearer_loop s _ i l (mkLoop Draining (l_permits l))); [done..| |].
    + ranks.
    + unfold loop_top, on_worker. cbv [m_bind gets]. by rewrite (proj1 Hc).
  - eapply (nearer_loop s _ i l (mkLoop (Sleeping _) (l_permits l))); [done..| |reflexivity].
    ranks.
  - eapply (nearer_loop s _ i l (mkLoop Ready (l_permits l))); [done..| |reflexivity].
    ranks.
  - eapply (nearer_loop s _ i l (mkLoop Draining (l_permits l))); [done..| |reflexivity].
    ranks.
  - unfold loop_acquire, on_worker, on_queue. cbv [m_bind gets]. destruct (_ || _).
    + eapply (nearer_loop s _ i l (mkLoop Top (l_permits l))); [done..| |reflexivity].
      ranks.
    + eapply (nearer_loop s _ i l (mkLoop (Fetching _) (l_permits l - 1))); [done..| |reflexivity].
      ranks.
  - rewrite loop_fetch_cancelled by apply Hc.
    eapply (nearer_loop s _ i l (mkLoop Top (l_permits l + 1))); [done..| |reflexivity].
    ranks.
  - eapply (nearer_loop s _ i l (mkLoop Top (l_permits l))); [done..| |].
    + ranks.
    + unfold loop_store_handle. cbv [m_bind on_queue on_ext gets]. by destruct (sm_get _ id).
  - eapply (nearer_loop s _ i l (mkLoop (Finished false) (l_permits l))); [done..| |reflexivity].
    ranks.
  - by apply nearer_task.
Qed.

Lemma own_step_enabled (s : WS) i l :
  cancelled s -> w_loops (ws_worker s) !! i = Some l -> is_finished l = false ->
  exists s', own_step processor s s'.
Proof.
  intros [Hc Ht] Hi Hf. destruct (w_tasks (ws_worker s)) as [|t ts] eqn:Et.
  2: { eexists. eapply (w_task _ s 0). by rewrite Et. }
  unfold is_finished in Hf. destruct (l_pc l) eqn:Hpc; try done;
    pose proof (conj Hi Hpc : loop_at s i l _) as HL; eexists;
    first [by eapply w_start|by eapply w_top|by eapply w_pause|by eapply w_wake_cancelled
          |by eapply w_acquire|by eapply w_fetch|by eapply w_loop_close
          |by eapply (w_store_handle _ _ _ _ _ 0)].
Qed.

Lemma own_steps_bounded n (s s' : WS) :
  cancelled s -> nsteps (own_step processor) n s s' ->
  cancelled s' /\ (n + remaining (ws_worker s') <= remaining (ws_worker s))%nat.
Proof.
  intros Hc Hn. induction Hn as [s|n s1 s2 s3 H _ IH]; [by split; [|lia]|].
  destruct (own_step_nearer s1 s2 Hc H) as [Hc2 Hr]. destruct (IH Hc2). split; [done|lia].
Qed.

(** Every loop has returned and no job is running. *)
Definition stopped (s : WS) : Prop :=
  Forall (fun l => is_finished l = true) (w_loops (ws_worker s)) /\ w_tasks (ws_worker s) = [].

Lemma own_step_or_stopped (s : WS) :
  cancelled s -> stopped s \/ exists s', own_step processor s s'.
Proof.
  intros Hc. destruct (w_tasks (ws_worker s)) as [|t ts] eqn:Et.
  2: { right. eexists. eapply (w_task _ s 0). by rewrite Et. }
  destruct (decide (Forall (fun l => is_finished l = true) (w_loops (ws_worker s)))) as [H|H];
    [by left|]. right.
  apply not_Forall_Exists, Exists_exists in H as (l & [i Hi]%list_elem_of_lookup & Hl);
    [|intros l; apply (decide (is_finished l = true))].
  apply (own_step_enabled s i l Hc Hi). by apply not_true_is_false.
Qed.

(** C11: closing a worker terminates.  Once its token is cancelled and its
    tracker closed, its loops and tasks can take only a bounded number of
    further stretches, in whatever order they run; the worker never gets stuck
    before every main loop has returned and every job has ended; and that state
    is reached. *)
Theorem closing_terminates (s : WS) :
  cancelled s ->
  (forall n s', nsteps (own_step processor) n s s' -> (n <= remaining (ws_worker s))%nat) /\
  (forall s', rtc (own_step processor) s s' -> (forall s'', ~ own_step processor s' s'') -> stopped s') /\
  (exists s', rtc (own_step processor) s s' /\ stopped s').
Proof.
  intros Hc. split_and!.
  - intros n s' Hn. destruct (own_steps_bounded n s s' Hc Hn). lia.
  - intros s' [n Hn]%rtc_nsteps Hs.
    destruct (own_steps_bounded n s s' Hc Hn) as [Hc' _].
    destruct (own_step_or_stopped s' Hc') as [H|[s'' H]]; [done|by destruct (Hs s'')].
  - remember (remaining (ws_worker s)) as m eqn:Hm. revert s Hc Hm.
    induction (lt_wf m) as [m _ IH]. intros s Hc ->.
    destruct (own_step_or_stopped s Hc) as [H|[s1 H1]]; [by exists s|].
    destruct (own_step_nearer s s1 Hc H1) as [Hc1 Hr].
    destruct (IH _ Hr s1 Hc1 eq_refl) as (s' & H2 & H3). exists s'.
    split; [by eapply rtc_l|done].
Qed.
End Drain.

(** ** Witnesses *)

Section Witnesses.
#[local] Existing Instance sample_extern.
#[local] Existing Instance sample_clock.
#[local] Existing Instance sample_monitors.

(** The busy worker, after [close] was called. *)
Definition closing_worker : WSys (SM := ZMap) (SS := StrMap) (D := Z) (R := Z) (P := Z) :=
  (close busy_worker).2.

Lemma closing_terminates_witness :
  remaining (ws_worker closing_worker) = 4%nat /\
  exists s', rtc (own_step sample_processor) closing_worker s' /\ stopped s'.
Proof.
  split; [vm_compute; reflexivity|].
  destruct (closing_terminates sample_processor closing_worker) as (_ & _ & H).
  - split; vm_compute; reflexivity.
  - exact H.
Defined.
End Witnesses.
