(* ===== verification/RedisServer.v ===== *)
(** * The Redis server

    The server is not part of the repository: [RedisServer] is the interface
    the store uses (connect, execute a command), and [RedisLaws] states the
    behaviour documented for each command the store sends, as [respond], a
    function on the keys and their values.  Sorted-set scores are
    double-precision numbers, so a server rounds them ([double]); integers up to
    [2 ^ 53] are exact. *)

From S2P Require Import Prelude SkipMap TimedMap Extern Schedule Job Options Names.

Open Scope string_scope.
Open Scope Z_scope.

(** ** Data *)

(** A hash field may have a deadline of its own. *)
Abbreviation Hash := (gmap string (string * option Z)).

(** Members with their scores, in ascending order. *)
Abbreviation Zset := (list (Z * string)).

(** Entries with their identifiers, oldest first, and for each consumer group
    the number of entries it was given. *)
Record StreamLog : Type := mkStream {
  sx_entries : list (Z * Z * list (string * string));
  sx_groups : gmap string nat;
}.

Inductive Value : Type :=
| VString (s : string)
| VList (l : list string)
| VSet (x : gset string)
| VZset (z : Zset)
| VHash (h : Hash)
| VStream (x : StreamLog).

Record Entry : Type := mkEntry { en_value : Value; en_deadline : option Z }.

(** The keys, and the messages published so far, newest last. *)
Record Keyspace : Type := mkKeyspace {
  ks_keys : gmap string Entry;
  ks_published : list (string * string);
}.

(** ** Commands and replies *)

Inductive ScoreBound : Type :=
| NegInf
| Incl (score : Z)
| Excl (score : Z).

Inductive Cmd : Type :=
| Del (key : string)
| Exists (key : string)
| Rename (key newkey : string)
| Expire (key : string) (secs : Z)
| Pexpire (key : string) (ms : Z)
| Get (key : string)
| Psetex (key value : string) (ms : Z)
| Incrby (key : string) (delta : Z)
| Lpush (key item : string)
| Rpush (key item : string)
| Rpoplpush (src dst : string)
| Lrem (key : string) (count : nat) (item : string)
| Lpos (key item : string)
| Llen (key : string)
| Lrange (key : string) (start stop : Z)
| Sadd (key item : string)
| Srem (key item : string)
| Sismember (key item : string)
| Smembers (key : string)
| Scard (key : string)
| Zadd (key member : string) (score : Z)
| Zrem (key member : string)
| Zscore (key member : string)
| Zcard (key : string)
| Zrange (key : string) (start stop : Z)
| Zrangebyscore (key : string) (min max : ScoreBound)
| Zremrangebyscore (key : string) (min max : ScoreBound)
| Zpopmin (key : string)
| Zpopmax (key : string)
| Hset (key : string) (fields : list (string * string))
| Hsetex (key : string) (ms : Z) (fields : list (string * string))
| Hget (key field : string)
| Hexists (key field : string)
| Hdel (key field : string)
| Hgetall (key : string)
| Hvals (key : string)
| Hincrby (key field : string) (delta : Z)
| Xadd (key : string) (items : list (string * string))
| Xgroup_create (key group : string)
| Xreadgroup (group key : string)
| Publish (channel message : string)
| Info.

Inductive Reply : Type :=
| RNil
| RStatus
| RInt (n : Z)
| RBulk (s : string)
| RArray (l : list string)
| RPairs (l : list (string * string))
| RStream (l : list (Z * Z * list (string * string)))
| RError (e : string).

Definition wrong_type : Reply := RError "WRONGTYPE".
Definition not_integer : Reply := RError "ERR value is not an integer or out of range".
Definition would_overflow : Reply := RError "ERR increment or decrement would overflow".
Definition no_such_key : Reply := RError "ERR no such key".
Definition wrong_arity : Reply := RError "ERR wrong number of arguments".
Definition bad_expire : Reply := RError "ERR invalid expire time".

(** ** Values of keys *)

Definition passed (now : Z) (deadline : option Z) : bool :=
  match deadline with Some t => t <=? now | None => false end.

(** A key past its deadline is as good as absent. *)
Definition lookup_live (now : Z) (k : string) (m : gmap string Entry) : option Entry :=
  match m !! k with
  | Some e => if passed now (en_deadline e) then None else Some e
  | None => None
  end.

Definition string_at (now : Z) (k : string) (m : gmap string Entry) : option (option string) :=
  match en_value <$> lookup_live now k m with
  | None => Some None
  | Some (VString s) => Some (Some s)
  | Some _ => None
  end.

Definition list_at (now : Z) (k : string) (m : gmap string Entry) : option (list string) :=
  match en_value <$> lookup_live now k m with
  | None => Some []
  | Some (VList l) => Some l
  | Some _ => None
  end.

Definition set_at (now : Z) (k : string) (m : gmap string Entry) : option (gset string) :=
  match en_value <$> lookup_live now k m with
  | None => Some ∅
  | Some (VSet x) => Some x
  | Some _ => None
  end.

Definition zset_at (now : Z) (k : string) (m : gmap string Entry) : option Zset :=
  match en_value <$> lookup_live now k m with
  | None => Some []
  | Some (VZset z) => Some z
  | Some _ => None
  end.

Definition hash_at (now : Z) (k : string) (m : gmap string Entry) : option Hash :=
  match en_value <$> lookup_live now k m with
  | None => Some ∅
  | Some (VHash h) => Some (filter (fun p => passed now p.2.2 = false) h)
  | Some _ => None
  end.

Definition stream_at (now : Z) (k : string) (m : gmap string Entry) : option StreamLog :=
  match en_value <$> lookup_live now k m with
  | None => Some (mkStream [] ∅)
  | Some (VStream x) => Some x
  | Some _ => None
  end.

(** A key whose collection became empty is removed. *)
Definition is_empty_value (v : Value) : bool :=
  match v with
  | VList [] | VZset [] => true
  | VSet x => bool_decide (x = ∅)
  | VHash h => bool_decide (h = ∅)
  | _ => false
  end.

(** Changing a value keeps the deadline of its key. *)
Definition put (now : Z) (k : string) (v : Value) (m : gmap string Entry) : gmap string Entry :=
  if is_empty_value v then delete k m
  else <[k := mkEntry v (lookup_live now k m ≫= en_deadline)]> m.

(** ** Lists *)

Fixpoint remove_first (count : nat) (x : string) (l : list string) : list string :=
  match count, l with
  | S count', y :: l' =>
      if decide (x = y) then remove_first count' x l' else y :: remove_first count x l'
  | _, _ => l
  end.

Fixpoint position (x : string) (l : list string) : option Z :=
  match l with
  | [] => None
  | y :: l' => if decide (x = y) then Some 0 else Z.succ <$> position x l'
  end.

(** The elements from index [start] to index [stop], both included; negative
    indexes count from the end, indexes out of range are clamped. *)
Definition slice {A} (start stop : Z) (l : list A) : list A :=
  let n := Z.of_nat (length l) in
  let start := Z.max 0 (if start <? 0 then n + start else start) in
  let stop := Z.min (n - 1) (if stop <? 0 then n + stop else stop) in
  take (Z.to_nat (stop - start + 1)) (drop (Z.to_nat start) l).

(** ** Sorted sets *)

Definition zbefore (p q : Z * string) : bool :=
  (p.1 <? q.1) || ((p.1 =? q.1) && String.leb p.2 q.2).

Fixpoint zinsert (p : Z * string) (z : Zset) : Zset :=
  match z with
  | [] => [p]
  | q :: z' => if zbefore p q then p :: z else q :: zinsert p z'
  end.

Definition zremove (member : string) (z : Zset) : Zset := filter (fun p => p.2 <> member) z.

Definition zadd (member : string) (score : Z) (z : Zset) : Zset :=
  zinsert (score, member) (zremove member z).

Definition zscore (member : string) (z : Zset) : option Z :=
  fst <$> head (filter (fun p => p.2 = member) z).

Definition score_above (b : ScoreBound) (score : Z) : bool :=
  match b with NegInf => true | Incl x => x <=? score | Excl x => x <? score end.

Definition score_below (b : ScoreBound) (score : Z) : bool :=
  match b with NegInf => false | Incl x => score <=? x | Excl x => score <? x end.

Definition within (min max : ScoreBound) (p : Z * string) : bool := score_above min p.1 && score_below max p.1.

(** ** Streams *)

(** The identifier of a new entry: the time, or the last identifier's successor
    when the clock has not moved past it. *)
Definition next_entry_id (now : Z) (x : StreamLog) : Z * Z :=
  match last (sx_entries x) with
  | Some (ms, seq, _) => if ms <? now then (now, 0) else (ms, seq + 1)
  | None => (now, 0)
  end.

(** ** The interface *)

Class RedisServer := {
  DB : Type;
  (** Whether the server can be reached. *)
  up : DB -> bool;
  (** The score the server keeps for an integer. *)
  double : Z -> Z;
  (** The text of [INFO server]. *)
  server_info : string;
  (** Executes a command at a time of the server's clock. *)
  exec : Z -> Cmd -> DB -> Reply * DB;
}.

Section Respond.
Context {SRV : RedisServer}.

(** Sets the deadline of a key; a deadline already passed removes it. *)
Definition set_deadline (now deadline : Z) (k : string) (m : gmap string Entry) :
    Reply * gmap string Entry :=
  match lookup_live now k m with
  | None => (RInt 0, m)
  | Some e =>
      if deadline <=? now then (RInt 1, delete k m)
      else (RInt 1, <[k := mkEntry (en_value e) (Some deadline)]> m)
  end.

(** [INCRBY] and [HINCRBY] on the text of the old value. *)
Definition add_text (old : option string) (delta : Z) : Reply + Z :=
  match old with
  | Some s =>
      match parse_i64 s with
      | Some n =>
          if bool_decide (i64_ok delta) then
            if bool_decide (i64_ok (n + delta)) then inr (n + delta) else inl would_overflow
          else inl not_integer
      | None => inl not_integer
      end
  | None => if bool_decide (i64_ok delta) then inr delta else inl not_integer
  end.

Definition bool_reply (b : bool) : Reply := RInt (if b then 1 else 0).
Definition bulk_or_nil (o : option string) : Reply :=
  match o with Some s => RBulk s | None => RNil end.
Definition field_text (p : string * option Z) : string := p.1.
Definition scored_pairs (l : Zset) : list (string * string) :=
  (fun p => (p.2, show p.1)) <$> l.

(** The commands on keys and strings. *)
Definition respond_keys (now : Z) (c : Cmd) (m : gmap string Entry) :
    option (Reply * gmap string Entry) :=
  match c with
  | Del k => Some (bool_reply (bool_decide (is_Some (lookup_live now k m))), delete k m)
  | Exists k => Some (bool_reply (bool_decide (is_Some (lookup_live now k m))), m)
  | Rename k k' =>
      Some (match lookup_live now k m with
            | Some e => (RStatus, <[k' := e]> (delete k m))
            | None => (no_such_key, m)
            end)
  | Expire k secs => Some (set_deadline now (now + secs * 1000) k m)
  | Pexpire k ms => Some (set_deadline now (now + ms) k m)
  | Info => Some (RBulk server_info, m)
  | Get k =>
      Some (match string_at now k m with
            | Some o => (bulk_or_nil o, m)
            | None => (wrong_type, m)
            end)
  | Psetex k v ms =>
      Some (if 0 <? ms then (RStatus, <[k := mkEntry (VString v) (Some (now + ms))]> m)
            else (bad_expire, m))
  | Incrby k delta =>
      Some (match string_at now k m with
            | Some o =>
                match add_text o delta with
                | inr n => (RInt n, put now k (VString (show n)) m)
                | inl e => (e, m)
                end
            | None => (wrong_type, m)
            end)
  | _ => None
  end.

(** The commands on lists. *)
Definition respond_lists (now : Z) (c : Cmd) (m : gmap string Entry) :
    option (Reply * gmap string Entry) :=
  let on k (f : list string -> Reply * gmap string Entry) :=
    Some (match list_at now k m with Some l => f l | None => (wrong_type, m) end) in
  let len l := RInt (Z.of_nat (length l)) in
  match c with
  | Lpush k x => on k (fun l => (len (x :: l), put now k (VList (x :: l)) m))
  | Rpush k x => on k (fun l => (len (l ++ [x])%list, put now k (VList (l ++ [x])%list) m))
  | Rpoplpush src dst =>
      on src (fun l =>
        match last l with
        | None => (RNil, m)
        | Some x =>
            let m' := put now src (VList (take (length l - 1) l)) m in
            match list_at now dst m' with
            | Some l' => (RBulk x, put now dst (VList (x :: l')) m')
            | None => (wrong_type, m)
            end
        end)
  | Lrem k count x =>
      on k (fun l =>
        let l' := remove_first count x l in
        (RInt (Z.of_nat (length l - length l')), put now k (VList l') m))
  | Lpos k x =>
      on k (fun l => (match position x l with Some i => RInt i | None => RNil end, m))
  | Llen k => on k (fun l => (len l, m))
  | Lrange k start stop => on k (fun l => (RArray (slice start stop l), m))
  | _ => None
  end.

(** The commands on sets and sorted sets. *)
Definition respond_sets (now : Z) (c : Cmd) (m : gmap string Entry) :
    option (Reply * gmap string Entry) :=
  let on_set k (f : gset string -> Reply * gmap string Entry) :=
    Some (match set_at now k m with Some x => f x | None => (wrong_type, m) end) in
  let on_zset k (f : Zset -> Reply * gmap string Entry) :=
    Some (match zset_at now k m with Some z => f z | None => (wrong_type, m) end) in
  let zput k z := put now k (VZset z) m in
  match c with
  | Sadd k x =>
      on_set k (fun s => (bool_reply (bool_decide (x ∉ s)), put now k (VSet ({[x]} ∪ s)) m))
  | Srem k x =>
      on_set k (fun s => (bool_reply (bool_decide (x ∈ s)), put now k (VSet (s ∖ {[x]})) m))
  | Sismember k x => on_set k (fun s => (bool_reply (bool_decide (x ∈ s)), m))
  | Smembers k => on_set k (fun s => (RArray (elements s), m))
  | Scard k => on_set k (fun s => (RInt (Z.of_nat (size s)), m))
  | Zadd k x score =>
      on_zset k (fun z =>
        (bool_reply (bool_decide (zscore x z = None)), zput k (zadd x (double score) z)))
  | Zrem k x =>
      on_zset k (fun z =>
        (bool_reply (bool_decide (zscore x z <> None)), zput k (zremove x z)))
  | Zscore k x => on_zset k (fun z => (bulk_or_nil (show <$> zscore x z), m))
  | Zcard k => on_zset k (fun z => (RInt (Z.of_nat (length z)), m))
  | Zrange k start stop => on_zset k (fun z => (RArray (slice start stop z).*2, m))
  | Zrangebyscore k lo hi =>
      on_zset k (fun z => (RArray (filter (fun p => within lo hi p = true) z).*2, m))
  | Zremrangebyscore k lo hi =>
      on_zset k (fun z =>
        let z' := filter (fun p => within lo hi p = false) z in
        (RInt (Z.of_nat (length z - length z')), zput k z'))
  | Zpopmin k =>
      on_zset k (fun z =>
        match z with
        | p :: z' => (RPairs (scored_pairs [p]), zput k z')
        | [] => (RPairs [], m)
        end)
  | Zpopmax k =>
      on_zset k (fun z =>
        match last z with
        | Some p => (RPairs (scored_pairs [p]), zput k (take (length z - 1) z))
        | None => (RPairs [], m)
        end)
  | _ => None
  end.

(** The commands on hashes.  [HSETEX] is answered as the releases answer that have
    it; the store sends it to every server from 7.4.0 on. *)
Definition respond_hashes (now : Z) (c : Cmd) (m : gmap string Entry) :
    option (Reply * gmap string Entry) :=
  let on k (f : Hash -> Reply * gmap string Entry) :=
    Some (match hash_at now k m with Some h => f h | None => (wrong_type, m) end) in
  let set_all deadline (fields : list (string * string)) (h : Hash) : Hash :=
    foldl (fun h p => <[p.1 := (p.2, deadline)]> h) h fields in
  match c with
  | Hset k [] => Some (wrong_arity, m)
  | Hset k fields =>
      on k (fun h =>
        let h' := set_all None fields h in
        (RInt (Z.of_nat (size h' - size h)), put now k (VHash h') m))
  | Hsetex k ms fields =>
      on k (fun h =>
        if forallb (fun p => bool_decide (h !! p.1 = None)) fields
        then (RInt 1, put now k (VHash (set_all (Some (now + ms)) fields h)) m)
        else (RInt 0, m))
  | Hget k f => on k (fun h => (bulk_or_nil (field_text <$> h !! f), m))
  | Hexists k f => on k (fun h => (bool_reply (bool_decide (is_Some (h !! f))), m))
  | Hdel k f =>
      on k (fun h =>
        (bool_reply (bool_decide (is_Some (h !! f))), put now k (VHash (delete f h)) m))
  | Hgetall k =>
      on k (fun h => (RPairs ((fun p => (p.1, field_text p.2)) <$> map_to_list h), m))
  | Hvals k => on k (fun h => (RArray ((fun p => field_text p.2) <$> map_to_list h), m))
  | Hincrby k f delta =>
      on k (fun h =>
        match add_text (field_text <$> h !! f) delta with
        | inr n => (RInt n, put now k (VHash (<[f := (show n, h !! f ≫= snd)]> h)) m)
        | inl e => (e, m)
        end)
  | _ => None
  end.

(** The commands on streams; a consumer group created with ["$"] is given the
    entries added from then on, each once. *)
Definition respond_streams (now : Z) (c : Cmd) (m : gmap string Entry) :
    option (Reply * gmap string Entry) :=
  let on k (f : StreamLog -> Reply * gmap string Entry) :=
    Some (match stream_at now k m with Some x => f x | None => (wrong_type, m) end) in
  match c with
  | Xadd k [] => Some (wrong_arity, m)
  | Xadd k items =>
      on k (fun x =>
        let '(ms, seq) := next_entry_id now x in
        (RBulk (show ms ++ "-" ++ show seq),
         put now k (VStream (mkStream (sx_entries x ++ [(ms, seq, items)])%list (sx_groups x))) m))
  | Xgroup_create k group =>
      on k (fun x =>
        match sx_groups x !! group with
        | Some _ => (RError "BUSYGROUP Consumer Group name already exists", m)
        | None =>
            (RStatus, put now k (VStream (mkStream (sx_entries x)
                        (<[group := length (sx_entries x)]> (sx_groups x)))) m)
        end)
  | Xreadgroup group k =>
      on k (fun x =>
        match sx_groups x !! group with
        | None => (RError "NOGROUP No such key or consumer group", m)
        | Some seen =>
            match drop seen (sx_entries x) with
            | [] => (RNil, m)
            | fresh =>
                (RStream fresh, put now k (VStream (mkStream (sx_entries x)
                   (<[group := length (sx_entries x)]> (sx_groups x)))) m)
            end
        end)
  | _ => None
  end.

Definition or_else {A} (o o' : option A) : option A := match o with Some _ => o | None => o' end.

(** The documented answer to a command and its effect on the keys. *)
Definition respond (now : Z) (c : Cmd) (s : Keyspace) : Reply * Keyspace :=
  match c with
  | Publish channel message =>
      (RInt 1, mkKeyspace (ks_keys s) (ks_published s ++ [(channel, message)])%list)
  | _ =>
      let m := ks_keys s in
      match or_else (respond_keys now c m) (or_else (respond_lists now c m)
        (or_else (respond_sets now c m) (or_else (respond_hashes now c m)
          (respond_streams now c m)))) with
      | Some (r, m') => (r, mkKeyspace m' (ks_published s))
      | None => (RStatus, s)
      end
  end.
End Respond.

(** What is documented: a server that is reached answers as [respond] says; one
    that is not answers nothing and keeps its data.  Integers below [2 ^ 53] are
    scores of their own. *)
Class RedisLaws `{SRV : RedisServer} := {
  contents : DB -> Keyspace;
  exec_up now c d : up d = true ->
    up (exec now c d).2 = true /\ (exec now c d).1 = (respond now c (contents d)).1 /\
    contents (exec now c d).2 = (respond now c (contents d)).2;
  exec_down now c d : up d = false -> exists e, exec now c d = (RError e, d);
  double_exact n : - 2 ^ 53 <= n <= 2 ^ 53 -> double n = n;
}.

(** ** A server for the witnesses *)

Definition sample_double (n : Z) : Z := if Z.abs n <=? 2 ^ 53 then n else n / 2048 * 2048.

Definition sample_info : string :=
  "redis_version:7.2.4" ++ String (Ascii.ascii_of_nat 13) (String (Ascii.ascii_of_nat 10) "").

(** [respond] only uses the rounding and the report of the interface. *)
Definition rounding_server : RedisServer := {|
  DB := unit; up _ := true; double := sample_double; server_info := sample_info; exec _ _ d := (RNil, d)
|}.

Definition sample_server : RedisServer := {|
  DB := bool * Keyspace;
  up d := d.1;
  double := sample_double;
  server_info := sample_info;
  exec now c d :=
    if d.1 then let '(r, s) := respond (SRV := rounding_server) now c d.2 in (r, (true, s))
    else (RError "connection refused", d);
|}.

Definition sample_laws : RedisLaws (SRV := sample_server).
Proof.
  refine {| contents (d : DB (RedisServer := sample_server)) := snd d |}.
  - intros now c [b s] Hb. cbn in *. subst b.
    destruct (respond (SRV := rounding_server) now c s) eqn:E. cbn.
    change (respond (SRV := sample_server)) with (respond (SRV := rounding_server)). by rewrite E.
  - intros now c [b s] Hb. cbn in *. subst b. by eexists.
  - intros n Hn. cbn. unfold sample_double. destruct (Z.leb_spec (Z.abs n) (2 ^ 53)); lia.
Defined.
