(* ===== verification/RedisCodec.v ===== *)
(** * Text kept in Redis ([src/job/mod.rs], [src/events/redis_events.rs],
    [serialize_into_pairs] of [src/utils/mod.rs])

    How jobs become the fields of a hash and events the message of a channel or
    the items of a stream, and how they are read back.  The JSON package is a
    parameter: [Json] has one writer and one reader per type the program
    serializes, and [JsonLaws] says what is documented: what is written is read
    back, a number is its decimal text, an absent value is [null] and a present
    one is written as itself, so that a value whose text is [null] reads back as
    an absent one. *)

From S2P Require Import Prelude SkipMap TimedMap Extern Schedule Job Options Events Shared Metrics Names.

Open Scope string_scope.
Open Scope Z_scope.

(** ** The JSON package *)

(** The types the program serializes. *)
Inductive JTy : Type :=
| JU64
| JText
| JState
| JOptions
| JData
| JResult
| JProgress
| JTraces
| JFailed
| JToken
| JLogs
| JUuid
| JMetrics
| JEventId
| JWorkerMetrics
| JProcessMetrics
| JOpt (t : JTy).

Section Codec.
Context {EXT : Extern} {D R P : Type}.

Fixpoint jty (t : JTy) : Type :=
  match t with
  | JU64 | JUuid => Z
  | JText => string
  | JState => JobState.t
  | JOptions => JobOptions
  | JData => D
  | JResult => R
  | JProgress => P
  | JTraces => list Trace
  | JFailed => FailedDetails
  | JToken => JobToken
  | JLogs => list string
  | JMetrics => JobMetrics
  | JEventId => Dt * Z
  | JWorkerMetrics => WorkerMetrics
  | JProcessMetrics => ProcessMetrics
  | JOpt t => option (jty t)
  end.

(** [to_json] is [None] when a [Serialize] implementation of the user fails,
    [from_json] when the text does not describe a value of the type. *)
Class Json := {
  to_json : forall t, jty t -> option string;
  from_json : forall t, string -> option (jty t);
  to_object : list (string * string) -> string;
  from_object : string -> option (list (string * string));
}.

Definition quote : string := String (Ascii.ascii_of_nat 34) "".

(** A unit variant is its name, in camel case, between quotes. *)
Definition state_json (st : JobState.t) : string := quote ++ state_arg st ++ quote.

(** What the program writes is in range. *)
Definition json_ok (t : JTy) : jty t -> Prop :=
  match t return jty t -> Prop with JU64 => u64_ok | _ => fun _ => True end.

Definition is_opt (t : JTy) : bool := match t with JOpt _ => true | _ => false end.

(** The payload types are the user's: their text may be [null]. *)
Definition is_user (t : JTy) : bool :=
  match t with JData | JResult | JProgress => true | _ => false end.

Class JsonLaws {JS : Json} := {
  json_read t x s : is_opt t = false -> json_ok t x ->
    to_json t x = Some s -> from_json t s = Some x;
  json_not_null t x s : is_opt t = false -> is_user t = false ->
    to_json t x = Some s -> s <> "null";
  json_u64 n : to_json JU64 n = Some (show n);
  json_state st : to_json JState st = Some (state_json st);
  json_some t x : to_json (JOpt t) (Some x) = to_json t x;
  json_none t : to_json (JOpt t) None = Some "null";
  json_opt t x s : to_json (JOpt t) x = Some s ->
    from_json (JOpt t) s = if decide (s = "null") then Some None else Some <$> from_json t s;
  json_object l : NoDup l.*1 -> from_object (to_object l) = Some l;
}.

Context {JS : Json}.

(** ** Writing *)

(** [serialize_into_pairs]: nothing at all when a field fails. *)
Definition serialize_into_pairs (fields : list (string * option string)) :
    list (string * string) :=
  match mapM (fun p => pair p.1 <$> p.2) fields with
  | Some pairs => pairs
  | None => []
  end.

(** [Serialize for Job]: the fields under their camel-case names, dates in
    microseconds. *)
Definition job_fields (job : Job D R P) : list (string * option string) :=
  [ ("id", to_json (JOpt JU64) (j_id job));
    ("timestamp", to_json JU64 (timestamp_micros (j_ts job)));
    ("name", to_json JText (j_name job));
    ("state", to_json JState (j_state job));
    ("progress", to_json (JOpt JProgress) (j_progress job));
    ("attemptsMade", to_json JU64 (j_attempts_made job));
    ("opts", to_json JOptions (j_opts job));
    ("delay", to_json JU64 (j_delay job));
    ("data", to_json (JOpt JData) (j_data job));
    ("returnedValue", to_json (JOpt JResult) (j_returned_value job));
    ("stackTrace", to_json JTraces (j_stack_trace job));
    ("failedReason", to_json (JOpt JFailed) (j_failed_reason job));
    ("processedOn", to_json (JOpt JU64) (timestamp_micros <$> j_processed_on job));
    ("finishedOn", to_json (JOpt JU64) (timestamp_micros <$> j_finished_on job));
    ("queueName", to_json (JOpt JText) (j_queue_name job));
    ("token", to_json (JOpt JToken) (j_token job));
    ("stalledCounter", to_json JU64 (j_stalled_counter job));
    ("logs", to_json JLogs (j_logs job));
    ("priority", to_json JU64 (j_priority job)) ].

(** [Serialize for QueueStreamEvent]. *)
Definition event_fields (e : QueueStreamEvent R P) : list (string * option string) :=
  [ ("id", to_json JEventId (qe_id e));
    ("priority", to_json (JOpt JU64) (qe_priority e));
    ("event", to_json JState (qe_event e));
    ("delay", to_json (JOpt JU64) (qe_delay e));
    ("prev", to_json (JOpt JState) (qe_prev e));
    ("job_id", to_json JU64 (qe_job_id e));
    ("returned_value", to_json (JOpt JResult) (qe_returned_value e));
    ("failed_reason", to_json (JOpt JFailed) (qe_failed_reason e));
    ("data", to_json (JOpt JProgress) (qe_progress_data e));
    ("name", to_json (JOpt JText) (qe_name e));
    ("worker_id", to_json (JOpt JUuid) (qe_worker_id e));
    ("metrics", to_json (JOpt JMetrics) (qe_metrics e)) ].

(** [ToRedisArgs for QueueStreamEvent]: the message of a channel; empty when
    the event does not serialize. *)
Definition event_arg (e : QueueStreamEvent R P) : string :=
  match mapM (fun p => pair p.1 <$> p.2) (event_fields e) with
  | Some pairs => to_object pairs
  | None => ""
  end.

(** ** Reading *)

(** [derive(FromStr)] ignores the case of the variant's name. *)
Definition all_states : list JobState.t :=
  [JobState.Wait; JobState.Prioritized; JobState.Stalled; JobState.Active; JobState.Paused;
   JobState.Resumed; JobState.Completed; JobState.Failed; JobState.Delayed; JobState.Progress;
   JobState.Obliterated; JobState.Processing].

Definition state_from_str (s : string) : option JobState.t :=
  find (fun st => bool_decide (to_lowercase (display_state st) = to_lowercase s)) all_states.

(** [FromRedisValue for JobState]. *)
Definition state_from_redis (s : string) : option JobState.t :=
  match state_from_str s with
  | Some st => Some st
  | None => from_json JState s
  end.

(** [simd_json::from_slice::<Option<u64>>(..)] and the conversion of the date. *)
Definition date_from_json (s : string) : option (option Dt) :=
  (fun t => t ≫= (fun t => from_timestamp_micros (cast_signed t))) <$> from_json (JOpt JU64) s.

(** One field of [FromRedisValue for Job]; a field of another name is ignored. *)
Definition read_field (field : string * string) (job : Job D R P) : option (Job D R P) :=
  let '(key, bytes) := field in
  match key with
  | "id" => (fun x => set_j_id x job) <$> from_json (JOpt JU64) bytes
  | "timestamp" => (fun x => set_j_ts (dt_or_epoch x) job) <$> date_from_json bytes
  | "opts" => (fun x => set_j_opts x job) <$> from_json JOptions bytes
  | "name" => (fun x => set_j_name x job) <$> from_json JText bytes
  | "queuename" | "queueName" =>
      (fun x => set_j_queue_name x job) <$> from_json (JOpt JText) bytes
  | "state" => (fun x => set_j_state x job) <$> state_from_redis bytes
  | "token" => Some (set_j_token (unwrap_or None (from_json (JOpt JToken) bytes)) job)
  | "progress" => (fun x => set_j_progress x job) <$> from_json (JOpt JProgress) bytes
  | "attemptsmade" | "attemptsMade" =>
      (fun x => set_j_attempts_made x job) <$> from_json JU64 bytes
  | "delay" => (fun x => set_j_delay x job) <$> from_json JU64 bytes
  | "priority" => (fun x => set_j_priority x job) <$> from_json JU64 bytes
  | "data" => (fun x => set_j_data x job) <$> from_json (JOpt JData) bytes
  | "returnedvalue" | "returnedValue" =>
      (fun x => set_j_returned_value x job) <$> from_json (JOpt JResult) bytes
  | "stacktrace" | "stackTrace" => (fun x => set_j_stack_trace x job) <$> from_json JTraces bytes
  | "logs" => (fun x => set_j_logs x job) <$> from_json JLogs bytes
  | "failedreason" | "failedReason" =>
      (fun x => set_j_failed_reason x job) <$> from_json (JOpt JFailed) bytes
  | "processedon" | "processedOn" => (fun x => set_j_processed_on x job) <$> date_from_json bytes
  | "finishedon" | "finishedOn" => (fun x => set_j_finished_on x job) <$> date_from_json bytes
  | "stalledcounter" | "stalledCounter" =>
      (fun x => set_j_stalled_counter x job) <$> from_json JU64 bytes
  | _ => Some job
  end.

(** [FromRedisValue for Job], on the fields of a hash in whatever order the
    server lists them; [now] is the date of the blank job. *)
Definition job_from_redis (now : Dt) (fields : list (string * string)) : option (Job D R P) :=
  foldl (fun job field => job ≫= read_field field) (Some (job_new now "" None None None)) fields.

Fixpoint assoc (key : string) (l : list (string * string)) : option string :=
  match l with
  | [] => None
  | (k, v) :: l' => if decide (k = key) then Some v else assoc key l'
  end.

(** A field of a JSON object; a missing one is only accepted for an [Option]. *)
Definition required (t : JTy) (key : string) (l : list (string * string)) : option (jty t) :=
  assoc key l ≫= from_json t.
Definition optional (t : JTy) (key : string) (l : list (string * string)) :
    option (option (jty t)) :=
  match assoc key l with Some s => from_json (JOpt t) s | None => Some None end.

(** [FromRedisValue for QueueStreamEvent]: the message of a channel. *)
Definition event_from_redis (message : string) : option (QueueStreamEvent R P) :=
  l ← from_object message;
  id ← required JEventId "id" l;
  priority ← optional JU64 "priority" l;
  event ← required JState "event" l;
  delay ← optional JU64 "delay" l;
  prev ← optional JState "prev" l;
  job_id ← required JU64 "job_id" l;
  returned_value ← optional JResult "returned_value" l;
  failed_reason ← optional JFailed "failed_reason" l;
  progress_data ← optional JProgress "data" l;
  name ← optional JText "name" l;
  worker_id ← optional JUuid "worker_id" l;
  metrics ← optional JMetrics "metrics" l;
  Some (mkEvent id priority event delay prev job_id returned_value failed_reason progress_data
          name worker_id metrics).

(** One item of [TryFrom<&mut StreamId> for QueueStreamEvent]: numbers and names
    are taken as they are, the rest is JSON. *)
Definition read_item (item : string * string) (e : QueueStreamEvent R P) :
    option (QueueStreamEvent R P) :=
  let '(key, bytes) := item in
  match to_lowercase key with
  | "job_id" | "jobid" => (fun x => set_qe_job_id x e) <$> parse_u64 bytes
  | "name" => Some (set_qe_name (Some bytes) e)
  | "delay" => (fun x => set_qe_delay (Some x) e) <$> parse_u64 bytes
  | "worker_id" | "workerid" => (fun x => set_qe_worker_id x e) <$> from_json (JOpt JUuid) bytes
  | "priority" => (fun x => set_qe_priority (Some x) e) <$> parse_u64 bytes
  | "data" => (fun x => set_qe_progress_data x e) <$> from_json (JOpt JProgress) bytes
  | "returnedvalue" | "returned_value" =>
      (fun x => set_qe_returned_value x e) <$> from_json (JOpt JResult) bytes
  | "failedreason" | "failed_reason" =>
      (fun x => set_qe_failed_reason x e) <$> from_json (JOpt JFailed) bytes
  | "event" => (fun x => set_qe_event x e) <$> state_from_redis bytes
  | "prev" => (fun x => set_qe_prev (Some x) e) <$> state_from_redis bytes
  | "metrics" => (fun x => set_qe_metrics x e) <$> from_json (JOpt JMetrics) bytes
  | _ => Some e
  end.

(** The identifier of an entry is its time in milliseconds and a number.  The client
    keeps the items in a hash map, whose order the list stands for; [RedisEvents]
    shows that it does not matter. *)
Definition event_from_stream (now : Dt) (entry : Z * Z * list (string * string)) :
    option (QueueStreamEvent R P) :=
  let '(ms, seq, items) := entry in
  dt ← from_timestamp_micros (ms * 1000);
  foldl (fun e item => e ≫= read_item item) (Some (set_qe_id (dt, seq) (event_default now))) items.

(** [from_stream_read_reply]: entries that do not convert are dropped. *)
Definition from_stream_read_reply (now : Dt) (entries : list (Z * Z * list (string * string))) :
    list (QueueStreamEvent R P) :=
  omap (event_from_stream now) entries.
End Codec.

Arguments Json {EXT} D R P.
Arguments JsonLaws {EXT} D R P {JS}.
