(* ===== verification/RedisVersion.v ===== *)
(** * Redis versions ([RedisVersion] of [src/stores/redis_store.rs])

    Parsing the version out of the text of [INFO server], and comparing it with
    a version a feature needs. *)

From S2P Require Import Prelude SkipMap TimedMap Extern Schedule Job Options Names.
From Stdlib Require Import Ascii.

Open Scope string_scope.
Open Scope Z_scope.

(** ** Strings *)

Definition newline : ascii := ascii_of_nat 10.
Definition carriage_return : ascii := ascii_of_nat 13.

(** [str::split_once] on a character. *)
Fixpoint split_once (c : ascii) (s : string) : option (string * string) :=
  match s with
  | EmptyString => None
  | String d s' =>
      if decide (c = d) then Some ("", s')
      else (fun p => (String d p.1, p.2)) <$> split_once c s'
  end.

(** [str::splitn]: at most [n] parts, the last one with all that is left. *)
Fixpoint splitn (n : nat) (c : ascii) (s : string) : list string :=
  match n with
  | O => []
  | S O => [s]
  | S n' =>
      match split_once c s with
      | Some (p, rest) => p :: splitn n' c rest
      | None => [s]
      end
  end.

Fixpoint strip_cr (s : string) : string :=
  match s with
  | EmptyString => ""
  | String c "" => if decide (c = carriage_return) then "" else s
  | String c s' => String c (strip_cr s')
  end.

(** [str::lines]; a line end at the very end does not start another line. *)
Fixpoint lines_from (line : string) (s : string) : list string :=
  match s with
  | EmptyString => match line with EmptyString => [] | _ => [line] end
  | String c s' =>
      if decide (c = newline) then strip_cr line :: lines_from "" s'
      else lines_from (line ++ String c "") s'
  end.
Definition lines (s : string) : list string := lines_from "" s.

(** [str::trim] on ASCII text. *)
Definition is_space (c : ascii) : bool :=
  let n := nat_of_ascii c in (n =? 32)%nat || ((9 <=? n)%nat && (n <=? 13)%nat).

Fixpoint trim_start (s : string) : string :=
  match s with String c s' => if is_space c then trim_start s' else s | EmptyString => "" end.

Fixpoint trim_end (s : string) : string :=
  match s with
  | EmptyString => ""
  | String c s' =>
      match trim_end s' with
      | EmptyString => if is_space c then "" else String c ""
      | t => String c t
      end
  end.
Definition trim (s : string) : string := trim_end (trim_start s).

(** ** Versions *)

Record RedisVersion : Type := mkVersion { major : Z; minor : Z; patch : Z }.

(** The three components of a dotted version; the last one defaults to zero. *)
Definition version_parts (s : string) : option RedisVersion :=
  let parts := splitn 3 "."%char s in
  ma ← parts !! 0%nat ≫= parse_u32;
  mi ← parts !! 1%nat ≫= parse_u32;
  pa ← parse_u32 (unwrap_or "0" (parts !! 2%nat));
  Some (mkVersion ma mi pa).

Definition parse (raw : string) : option RedisVersion :=
  line ← find (starts_with "redis_version:") (lines raw);
  p ← split_once ":"%char line;
  version_parts (trim p.2).

(** The derived order compares the components from left to right. *)
Definition version_ge (v w : RedisVersion) : bool :=
  (major w <? major v) ||
  ((major w =? major v) &&
   ((minor w <? minor v) || ((minor w =? minor v) && (patch w <=? patch v)))).

Definition is_at_least (v : RedisVersion) (version : string) : option bool :=
  version_ge v <$> version_parts version.

Definition feature_hsetex : string := "7.4.0".

(** ** Printing and parsing *)

(** The text of a version, as a server prints it. *)
Definition show_version (v : RedisVersion) : string :=
  show (major v) ++ "." ++ show (minor v) ++ "." ++ show (patch v).

Definition version_ok (v : RedisVersion) : Prop :=
  0 <= major v < 2 ^ 32 /\ 0 <= minor v < 2 ^ 32 /\ 0 <= patch v < 2 ^ 32.

(** No character of the text satisfies the test. *)
Fixpoint avoids (f : ascii -> bool) (s : string) : bool :=
  match s with EmptyString => true | String c s' => negb (f c) && avoids f s' end.

Lemma avoids_app f s t : avoids f (s ++ t) = avoids f s && avoids f t.
Proof.
  induction s as [|c s IH]; [done|].
  change (negb (f c) && avoids f (s ++ t) = negb (f c) && avoids f s && avoids f t).
  by rewrite IH, andb_assoc.
Qed.

Lemma avoids_digits f acc s v :
  (forall c d, digit_value c = Some d -> f c = false) -> span acc s = (v, "") -> avoids f s = true.
Proof.
  intros Hf. revert acc. induction s as [|c s IH]; intros acc H; [done|]. cbn in *.
  destruct (digit_value c) eqn:E; [|done]. rewrite (Hf c z E). cbn. by eapply IH.
Qed.

Lemma avoids_show f n :
  (forall c d, digit_value c = Some d -> f c = false) -> 0 <= n -> avoids f (show n) = true.
Proof.
  intros Hf Hn. pose proof (span_show n "" Hn I) as E. rewrite string_app_nil_r in E.
  by eapply avoids_digits.
Qed.

Lemma split_once_avoids c s t :
  avoids (fun d => bool_decide (c = d)) s = true -> split_once c (s ++ String c t) = Some (s, t).
Proof.
  induction s as [|d s IH]; intros H.
  - change (split_once c (String c t) = Some ("", t)). cbn [split_once]. by rewrite decide_True.
  - cbn in H. apply andb_true_iff in H as [H1 H2]. 
    change (split_once c (String d (s ++ String c t)) = Some (String d s, t)). cbn [split_once].
    case_decide as Hc; [by rewrite bool_decide_true in H1|]. by rewrite IH.
Qed.

Lemma version_parts_show v : version_ok v -> version_parts (show_version v) = Some v.
Proof.
  destruct v as [ma mi pa]. intros (Hma & Hmi & Hpa). unfold version_parts, show_version. cbn in *.
  assert (Hdot : forall n, 0 <= n -> avoids (fun d => bool_decide ("."%char = d)) (show n) = true).
  { intros n Hn. apply avoids_show; [|done]. intros c d Hc. by apply bool_decide_false; intros <-. }
  change (show ma ++ "." ++ show mi ++ "." ++ show pa) with
    (show ma ++ String "."%char (show mi ++ String "."%char (show pa))). cbn [splitn].
  rewrite (split_once_avoids "."%char (show ma)) by (apply Hdot; lia).
  rewrite (split_once_avoids "."%char (show mi)) by (apply Hdot; lia). cbn -[parse_u32].
  unfold parse_u32. by rewrite !parse_show.
Qed.

(** ** Finding the line *)

Definition is_line_end (c : ascii) : bool := bool_decide (c = newline).

Lemma lines_from_app line s rest :
  avoids is_line_end s = true ->
  lines_from line (s ++ String newline rest) = strip_cr (line ++ s) :: lines rest.
Proof.
  revert line. induction s as [|c s IH]; intros line H.
  - change (lines_from line (String newline rest) = strip_cr (line ++ "") :: lines rest).
    rewrite string_app_nil_r. done.
  - cbn in H. apply andb_true_iff in H as [H1 H2].
    change (lines_from line (String c (s ++ String newline rest)) =
            strip_cr (line ++ String c s) :: lines rest). cbn [lines_from].
    case_decide as Hc; [subst; done|].
    rewrite IH by done. by rewrite string_app_assoc.
Qed.

Lemma strip_cr_last s : strip_cr (s ++ String carriage_return "") = s.
Proof.
  induction s as [|c s IH]; [done|].
  change (strip_cr (String c (s ++ String carriage_return "")) = String c s).
  destruct s as [|d s]; [done|]. cbn [strip_cr]. by rewrite IH.
Qed.

(** Spaces are not digits, dots are not spaces. *)
Lemma trim_start_id s : avoids is_space s = true -> trim_start s = s.
Proof. destruct s as [|c s]; [done|]. cbn. by destruct (is_space c). Qed.

Lemma trim_end_id s : avoids is_space s = true -> trim_end s = s.
Proof.
  induction s as [|c s IH]; [done|]. cbn. intros [H1 H2]%andb_true_iff. rewrite IH by done.
  destruct s; [|done]. by destruct (is_space c).
Qed.

Lemma trim_id s : avoids is_space s = true -> trim s = s.
Proof. intros H. unfold trim. by rewrite trim_start_id, trim_end_id. Qed.

Lemma show_version_avoids f v :
  (forall c d, digit_value c = Some d -> f c = false) -> f "."%char = false ->
  version_ok v -> avoids f (show_version v) = true.
Proof.
  intros Hf Hd ([H1 _] & [H2 _] & [H3 _]). unfold show_version.
  rewrite !avoids_app, !(avoids_show f) by done. cbn. by rewrite Hd.
Qed.

Lemma space_not_digit c d : digit_value c = Some d -> is_space c = false.
Proof. destruct c as [[] [] [] [] [] [] [] []]; done. Qed.

Lemma line_end_not_digit c d : digit_value c = Some d -> is_line_end c = false.
Proof. destruct c as [[] [] [] [] [] [] [] []]; done. Qed.

Lemma starts_with_app p s : starts_with p (p ++ s) = true.
Proof.
  induction p as [|c p IH]; [done|].
  change (bool_decide (c = c) && starts_with p (p ++ s) = true). by rewrite bool_decide_true, IH.
Qed.

Definition line_end : string := String carriage_return (String newline "").

Lemma parse_line v rest :
  version_ok v -> parse ("redis_version:" ++ show_version v ++ line_end ++ rest) = Some v.
Proof.
  intros Hv. unfold parse, lines.
  assert (E : lines_from "" ("redis_version:" ++ show_version v ++ line_end ++ rest) =
    ("redis_version:" ++ show_version v) :: lines rest).
  { replace ("redis_version:" ++ show_version v ++ line_end ++ rest) with
      (("redis_version:" ++ show_version v ++ String carriage_return "") ++ String newline rest)
      by (by rewrite !string_app_assoc).
    rewrite lines_from_app.
    - change (?a :: ?l = ?b :: ?l) with (a :: l = b :: l). f_equal.
      change ("" ++ ?t) with t. by rewrite <- string_app_assoc, strip_cr_last.
    - rewrite !avoids_app, show_version_avoids; [done|apply line_end_not_digit|done|done]. }
  rewrite E. cbn [find]. rewrite starts_with_app. cbn [mbind option_bind].
  change ("redis_version:" ++ show_version v) with
    ("redis_version" ++ String ":"%char (show_version v)).
  rewrite split_once_avoids by done. cbn [mbind option_bind snd]. rewrite trim_id.
  - by apply version_parts_show.
  - by apply show_version_avoids; [apply space_not_digit|..].
Qed.

Lemma parse_skip_line line rest :
  avoids is_line_end line = true -> starts_with "redis_version:" (strip_cr line) = false ->
  parse (line ++ String newline rest) = parse rest.
Proof.
  intros Hl Hs. unfold parse, lines. rewrite lines_from_app by done.
  change ("" ++ line) with line. cbn [find]. by rewrite Hs.
Qed.

(** ** The theorem *)

(** Lines of the report before the version's own. *)
Definition header_ok (line : string) : Prop :=
  avoids is_line_end line = true /\ starts_with "redis_version:" (strip_cr line) = false.

Definition report (header : list string) (v : RedisVersion) (rest : string) : string :=
  foldr (fun line text => line ++ String newline text)
    ("redis_version:" ++ show_version v ++ line_end ++ rest) header.

(** A version as one number. *)
Definition version_code (v : RedisVersion) : Z := major v * 2 ^ 64 + minor v * 2 ^ 32 + patch v.

Lemma version_ge_code v w :
  version_ok v -> version_ok w -> version_ge v w = (version_code w <=? version_code v).
Proof.
  intros (H1 & H2 & H3) (K1 & K2 & K3). unfold version_ge, version_code.
  destruct (Z.ltb_spec (major w) (major v)), (Z.eqb_spec (major w) (major v)),
    (Z.ltb_spec (minor w) (minor v)), (Z.eqb_spec (minor w) (minor v)),
    (Z.leb_spec (patch w) (patch v)); cbn; symmetry; (apply Z.leb_le || apply Z.leb_gt); lia.
Qed.

(** The version is read back from the server's report, whatever lines come
    before and after it, and comparing it with a textual version is comparing
    numbers, component by component. *)
Theorem version_roundtrip (header : list string) (v w : RedisVersion) (rest : string) :
  Forall header_ok header -> version_ok v -> version_ok w ->
  parse (report header v rest) = Some v /\
  is_at_least v (show_version w) = Some (version_code w <=? version_code v).
Proof.
  intros Hh Hv Hw. split.
  - induction Hh as [|line header [Hl Hs] _ IH]; [by apply parse_line|].
    cbn [report foldr]. by rewrite parse_skip_line.
  - unfold is_at_least. rewrite version_parts_show by done. cbn. by rewrite version_ge_code.
Qed.

Lemma version_roundtrip_witness :
  parse (report ["# Server" ++ String carriage_return ""] (mkVersion 7 2 4) "os:Linux") =
    Some (mkVersion 7 2 4) /\
  is_at_least (mkVersion 7 2 4) (show_version (mkVersion 7 4 0)) = Some false.
Proof.
  destruct (version_roundtrip ["# Server" ++ String carriage_return ""] (mkVersion 7 2 4)
    (mkVersion 7 4 0) "os:Linux") as [H1 H2].
  - repeat constructor.
  - unfold version_ok; cbn; lia.
  - unfold version_ok; cbn; lia.
  - split; [exact H1|exact H2].
Defined.
