(* ===== verification/RedisStore.v ===== *)
(** * The Redis store ([src/stores/redis_store.rs], [prepare_for_insert],
    [query_all_batched], [get_queue_metrics] and the listener of
    [src/utils/mod.rs])

    One definition per operation of the [Store] trait, as the commands it sends
    and what it makes of the replies.  The server's data is reached through
    [rd_db]; every command takes a reading of the server's clock.  A pipeline
    sends all its commands and fails afterwards when a reply is an error, atomic
    or not; where other clients can come between its commands, the theorems
    take the commands one by one. *)

From S2P Require Import Prelude SkipMap TimedMap Extern Schedule Job Options Events Shared Metrics InMemoryStore Names RedisServer RedisCodec RedisVersion.

Open Scope string_scope.
Open Scope Z_scope.

(** The text of a [Uuid]. *)
Class Uuids := { uuid_text : Z -> string }.

Section Redis.
Context {SRV : RedisServer} {EXT : Extern} {UID : Uuids} {D R P : Type} {JS : Json D R P}.

(** The connections all lead to the same server, whose data is [rd_db]. *)
Record RedisStore : Type := mkRedisStore {
  rd_prefix : string;
  rd_name : string;
  rd_consumer_group : string;
  rd_consumer_name : string;
  rd_stream_key : string;
  rd_subscribed : bool;
  rd_version : RedisVersion;
  rd_db : DB;
}.

Definition set_rd_subscribed (x : bool) (r : RedisStore) : RedisStore :=
  mkRedisStore (rd_prefix r) (rd_name r) (rd_consumer_group r) (rd_consumer_name r)
    (rd_stream_key r) x (rd_version r) (rd_db r).

Definition set_rd_db (x : DB) (r : RedisStore) : RedisStore :=
  mkRedisStore (rd_prefix r) (rd_name r) (rd_consumer_group r) (rd_consumer_name r)
    (rd_stream_key r) (rd_subscribed r) (rd_version r) x.

Section Monadic.
Context {CLK : Clock} {X : Type}.
Abbreviation Sys := (SysOf RedisStore R P X).
Abbreviation RM A := (KM Sys A).

(** ** Commands *)

Definition pool_error : KioError := DealPoolError "connection refused".

(** [get_connection]. *)
Definition get_connection : RM unit :=
  let* st := gets sy_store in
  if up (rd_db st) then m_ret tt else throw pool_error.

(** [redis_client.get_connection]. *)
Definition client_connection : RM unit :=
  let* st := gets sy_store in
  if up (rd_db st) then m_ret tt else throw (RedisError "connection refused").

Definition send_cmd (c : Cmd) : RM Reply :=
  timed (fun t st => let '(r, d) := exec t c (rd_db st) in (r, set_rd_db d st)).

Definition is_error (r : Reply) : option string :=
  match r with RError e => Some e | _ => None end.

(** A single command: an error reply is an error of the client. *)
Definition command (c : Cmd) : RM Reply :=
  let* r := send_cmd c in
  match is_error r with Some e => throw (RedisError e) | None => m_ret r end.

(** [Pipeline::query_async]. *)
Definition query (cmds : list Cmd) : RM (list Reply) :=
  let* rs := for_collect cmds send_cmd in
  match list_find (fun r => is_error r <> None) rs with
  | Some (_, RError e) => throw (RedisError e)
  | _ => m_ret rs
  end.

(** ** Replies *)

Definition parsing_error {A} : RM A := throw (RedisError "Response type not convertible").

Definition parsed {A} (o : option A) : RM A :=
  match o with Some a => m_ret a | None => parsing_error end.

(** [FromRedisValue] for [u64], [Option<u64>], [bool] and [Vec<u64>]. *)
Definition as_u64 (r : Reply) : option Z :=
  match r with
  | RInt n => Some (cast_unsigned n)
  | RBulk s => parse_u64 s
  | _ => None
  end.

Definition as_opt_u64 (r : Reply) : option (option Z) :=
  match r with RNil => Some None | _ => Some <$> as_u64 r end.

Definition as_bool (r : Reply) : option bool :=
  match r with RInt n => Some (negb (n =? 0)) | _ => None end.

Definition as_ids (r : Reply) : option (list Z) :=
  match r with RArray l => mapM parse_u64 l | RNil => Some [] | _ => None end.

Definition as_pairs (r : Reply) : option (list (Z * Z)) :=
  match r with
  | RPairs l => mapM (fun p => a ← parse_u64 p.1; b ← parse_u64 p.2; Some (a, b)) l
  | RNil => Some []
  | _ => None
  end.

(** The bytes of a reply; none for a missing value. *)
Definition as_bytes (r : Reply) : option string :=
  match r with RBulk s => Some s | RNil => Some "" | _ => None end.

(** [FromRedisValue for JobToken]. *)
Definition as_token (r : Reply) : option JobToken :=
  s ← as_bytes r; if decide (s = "null") then None else from_json JToken s.

(** [FromRedisValue for QueueEventMode], on a value that may be missing. *)
Definition as_event_mode (r : Reply) : option QueueEventMode :=
  let mode v := match QueueEventMode_try_from v with
                | inr m => m
                | inl _ => QueueEventMode_default
                end in
  match r with
  | RNil => Some (mode 0)
  | RBulk s => mode <$> parse_uint 256 s
  | RInt n => Some (mode (n mod 256))
  | _ => None
  end.

Definition event_mode_arg (m : QueueEventMode) : string :=
  match m with PubSub => "1" | Stream => "0" end.

(** The key of a collection of this queue. *)
Definition key_of (c : CollectionSuffix.t) (st : RedisStore) : string :=
  to_collection_name c (rd_prefix st) (rd_name st).

Definition key (c : CollectionSuffix.t) : RM string := gets (fun s => key_of c (sy_store s)).

(** ** Lists, sets and sorted sets *)

Definition redis_exists_in (col : CollectionSuffix.t) (item : Z) : RM bool :=
  get_connection ;;;
  let* k := key col in
  match col with
  | CollectionSuffix.Completed | CollectionSuffix.Delayed | CollectionSuffix.Failed
  | CollectionSuffix.Prioritized =>
      let* r := command (Zscore k (show item)) in
      let* score := parsed (as_opt_u64 r) in
      m_ret (match score with Some _ => true | None => false end)
  | CollectionSuffix.Stalled =>
      let* r := command (Sismember k (show item)) in parsed (as_bool r)
  | CollectionSuffix.Active | CollectionSuffix.Wait =>
      let* r := command (Lpos k (show item)) in
      m_ret (match r with RNil => false | _ => true end)
  | _ => let* r := command (Exists k) in parsed (as_bool r)
  end.

Definition redis_add_item (col : CollectionSuffix.t) (item : Z) (score : option Z) (append : bool) :
    RM unit :=
  get_connection ;;;
  let* k := key col in
  let pipeline :=
    match col with
    | CollectionSuffix.Completed | CollectionSuffix.Delayed | CollectionSuffix.Failed
    | CollectionSuffix.Prioritized => [Zadd k (show item) (unwrap_or 0 score)]
    | CollectionSuffix.Stalled => [Sadd k (show item)]
    | CollectionSuffix.Active | CollectionSuffix.Wait | CollectionSuffix.Paused =>
        [if append then Lpush k (show item) else Rpush k (show item)]
    | _ => []
    end in
  query pipeline ;;; m_ret tt.

Definition redis_remove_item (col : CollectionSuffix.t) (item : Z) : RM unit :=
  get_connection ;;;
  let* k := key col in
  let pipeline :=
    match col with
    | CollectionSuffix.Completed | CollectionSuffix.Delayed | CollectionSuffix.Failed
    | CollectionSuffix.Prioritized => [Zrem k (show item)]
    | CollectionSuffix.Stalled => [Srem k (show item)]
    | CollectionSuffix.Active | CollectionSuffix.Wait | CollectionSuffix.Paused =>
        [Lrem k 1 (show item)]
    | _ => []
    end in
  query pipeline ;;; m_ret tt.

(** The result is [None] when the list is empty and when the call fails. *)
Definition redis_pop_back_push_front (src dst : CollectionSuffix.t) : RM (option Z) :=
  let* src := key src in
  let* dst := key dst in
  attempt (get_connection ;;; let* r := command (Rpoplpush src dst) in parsed (as_u64 r)).

Definition redis_pop_set (col : CollectionSuffix.t) (min : bool) : RM (list (Z * Z)) :=
  let* k := key col in
  get_connection ;;;
  let* r := command (if min then Zpopmin k else Zpopmax k) in parsed (as_pairs r).

Definition redis_get_delayed_at (start stop : Z) : RM (list Z * list Z) :=
  let* k := key CollectionSuffix.Delayed in
  get_connection ;;;
  let* rs := query [Zrangebyscore k (Incl start) (Incl stop);
                    Zrangebyscore k NegInf (Excl start);
                    Zremrangebyscore k (Incl start) (Incl stop);
                    Zremrangebyscore k NegInf (Incl start)] in
  match rs with
  | [jobs; missed; _; _] =>
      let* jobs := parsed (as_ids jobs) in
      let* missed := parsed (as_ids missed) in
      m_ret (jobs, missed)
  | _ => parsing_error
  end.
Definition redis_get_job_ids_in_state (state : JobState.t) (start end_ : option nat) :
    RM (list Z) :=
  get_connection ;;;
  let start := unwrap_or 0%nat start in
  let* k := key (CollectionSuffix.from_state state) in
  let last len := match end_ with Some e => Z.of_nat e + 1 | None => len end in
  match state with
  | JobState.Prioritized | JobState.Completed | JobState.Failed | JobState.Delayed =>
      let* r := command (Zcard k) in
      let* len := parsed (as_u64 r) in
      if 0 <? len then
        let* r := command (Zrange k (Z.of_nat start) (last len)) in parsed (as_ids r)
      else m_ret []
  | JobState.Stalled =>
      let* r := command (Smembers k) in
      let* set := parsed (as_ids r) in
      match set with
      | [] => m_ret []
      | _ => expect (inclusive_range start (unwrap_or (length set) end_) set)
      end
  | JobState.Active | JobState.Wait | JobState.Paused =>
      let* r := command (Llen k) in
      let* len := parsed (as_u64 r) in
      if 0 <? len then
        let* r := command (Lrange k (Z.of_nat start) (last len)) in parsed (as_ids r)
      else m_ret []
  | _ => m_ret []
  end.

(** ** Keys, counters and locks *)

Definition redis_remove (c : CollectionSuffix.t) : RM unit :=
  let* k := key c in get_connection ;;; command (Del k) ;;; m_ret tt.

Definition redis_expire (col : CollectionSuffix.t) (secs : Z) : RM unit :=
  get_connection ;;; let* k := key col in command (Expire k secs) ;;; m_ret tt.

Definition redis_metadata_field_exists (field : string) : RM bool :=
  get_connection ;;;
  let* k := key CollectionSuffix.Meta in
  let* r := command (Hexists k field) in parsed (as_bool r).

Definition redis_set_event_mode (event_mode : QueueEventMode) : RM unit :=
  get_connection ;;;
  let* k := key CollectionSuffix.Meta in
  command (Hset k [("event_mode", event_mode_arg event_mode)]) ;;; m_ret tt.

Definition redis_incr (c : CollectionSuffix.t) (delta : Z) (hash_key : option string) : RM Z :=
  get_connection ;;;
  let* k := key c in
  let* r := command (match hash_key with
                     | Some field_key => Hincrby k field_key delta
                     | None => Incrby k delta
                     end) in
  parsed (as_u64 r).

(** The errors of the three queries below are dropped. *)
Definition redis_get_counter (c : CollectionSuffix.t) (hash_key : option string) : RM (option Z) :=
  attempt (get_connection ;;;
    let* k := key c in
    let* r := command (match hash_key with Some field => Hget k field | None => Get k end) in
    parsed (as_u64 r)).

Definition redis_get_state (id : Z) : RM (option JobState.t) :=
  attempt (get_connection ;;;
    let* k := key (CollectionSuffix.Job id) in
    let* r := command (Hget k "state") in
    parsed (as_bytes r ≫= state_from_redis)).

(** The lock first; when that has no token, the token of the job's record. *)
Definition redis_get_token (id : Z) : RM (option JobToken) :=
  attempt (get_connection ;;;
    let* lock_key := key (CollectionSuffix.Lock id) in
    let* held := attempt (let* r := command (Get lock_key) in parsed (as_token r)) in
    match held with
    | Some token => m_ret token
    | None =>
        let* k := key (CollectionSuffix.Job id) in
        let* r := command (Hget k "token") in parsed (as_token r)
    end).

Definition token_arg (token : JobToken) : string := unwrap_or "" (to_json JToken token).

Definition redis_set_lock (col : CollectionSuffix.t) (token : option JobToken) (lock_duration : Z) :
    RM unit :=
  get_connection ;;;
  let* k := key col in
  match col with
  | CollectionSuffix.Lock _ =>
      match token with
      | Some token => command (Psetex k (token_arg token) lock_duration) ;;; m_ret tt
      | None => m_ret tt
      end
  | CollectionSuffix.StalledCheck =>
      let* now := utc_now in
      command (Psetex k (show (timestamp_micros now)) lock_duration) ;;; m_ret tt
  | _ => m_ret tt
  end.

(** ** Records *)

Definition json_error : KioError := JsonError "serialization failed".

(** The record under an identifier; a missing key reads as a blank job. *)
Definition as_job (r : Reply) : RM (Job D R P) :=
  match r with
  | RPairs fields => let* now := utc_now in parsed (job_from_redis now fields)
  | _ => parsing_error
  end.

Definition redis_get_job (id : Z) : RM (option (Job D R P)) :=
  let* k := key (CollectionSuffix.Job id) in
  attempt (get_connection ;;; let* r := command (Hgetall k) in as_job r).

Definition redis_job_exists (id : Z) : RM bool :=
  let* st := gets sy_store in
  if up (rd_db st) then
    let* k := key (CollectionSuffix.Job id) in
    let* found := attempt (let* r := command (Exists k) in parsed (as_bool r)) in
    m_ret (unwrap_or false found)
  else panic.

Definition redis_fetch_jobs (ids : list Z) : RM (list (Job D R P)) :=
  match ids with
  | [] => m_ret []
  | _ =>
      get_connection ;;;
      let* st := gets sy_store in
      let* rs := query (map (fun id => Hgetall (key_of (CollectionSuffix.Job id) st)) ids) in
      for_collect rs as_job
  end.

(** The name and the text of a field; a trace is appended to those stored. *)
Definition field_pair (k : string) (field : JobField R) : RM (string * string) :=
  let name := field_name field in
  let* text :=
    match field with
    | FPayload (PSuccess result _) => m_ret (to_json JResult result)
    | FBackTrace trace =>
        let* raw := attempt (let* r := command (Hget k "stackTrace") in parsed (as_bytes r)) in
        let raw := unwrap_or "" raw in
        let previous := if decide (raw = "") then [] else unwrap_or [] (from_json JTraces raw) in
        m_ret (to_json JTraces (previous ++ [trace])%list)
    | FPayload (PFailed failed) => m_ret (to_json JFailed failed)
    | FToken token => m_ret (to_json JToken token)
    | FProcessedOn ts | FFinishedOn ts => m_ret (to_json JU64 ts)
    | FState state => m_ret (to_json JState state)
    end in
  match text with Some text => m_ret (name, text) | None => throw json_error end.

Definition redis_set_fields (job_id : Z) (fields : list (JobField R)) : RM unit :=
  get_connection ;;;
  let* k := key (CollectionSuffix.Job job_id) in
  let* next_fields := for_collect fields (field_pair k) in
  command (Hset k next_fields) ;;; m_ret tt.

(** [update_job_progress] and [update_job_progress_sync] differ in the connection
    they take: one of the pool, or one of the client. *)
Definition update_progress (connect : RM unit) (job : Job D R P) (value : P) : RM (Job D R P) :=
  connect ;;;
  match j_id job with
  | None => m_ret job
  | Some id =>
      let* st := gets sy_store in
      let job_key := key_of (CollectionSuffix.Job id) st in
      let events_key := key_of CollectionSuffix.Events st in
      match to_json JProgress value with
      | None => throw json_error
      | Some text =>
          let* r := command (Hget (key_of CollectionSuffix.Meta st) "event_mode") in
          let* event_mode := parsed (as_event_mode r) in
          let* event :=
            match event_mode with
            | PubSub =>
                let* now := utc_now in
                m_ret (Publish events_key (event_arg
                  (set_qe_progress_data (Some value) (set_qe_name (Some (rd_name st))
                    (set_qe_event JobState.Progress (set_qe_job_id id (event_default now)))))))
            | Stream =>
                m_ret (Xadd events_key
                  [("event", state_arg JobState.Progress); ("job_id", show id);
                   ("data", text); ("name", rd_name st)])
            end in
          query [Hset job_key [("progress", text)]; event] ;;;
          m_ret (set_j_progress (Some value) job)
      end
  end.

Definition redis_update_job_progress (job : Job D R P) (value : P) : RM (Job D R P) :=
  update_progress get_connection job value.

Definition redis_update_job_progress_sync (job : Job D R P) (value : P) : RM (Job D R P) :=
  update_progress client_connection job value.

(** ** The whole queue *)

Definition cleared : list CollectionSuffix.t :=
  [CollectionSuffix.Delayed; CollectionSuffix.Wait; CollectionSuffix.Active;
   CollectionSuffix.Completed; CollectionSuffix.Failed; CollectionSuffix.Events;
   CollectionSuffix.Id; CollectionSuffix.Events; CollectionSuffix.Stalled;
   CollectionSuffix.Marker; CollectionSuffix.Prioritized; CollectionSuffix.PriorityCounter;
   CollectionSuffix.Meta; CollectionSuffix.Paused].

Definition redis_clear_collections : RM unit :=
  get_connection ;;;
  let* st := gets sy_store in
  query (map (fun c => Del (key_of c st)) cleared) ;;; m_ret tt.

Definition redis_clear_jobs (last_id : Z) : RM unit :=
  get_connection ;;;
  let* st := gets sy_store in
  query (map (fun id => Del (key_of (CollectionSuffix.Job id) st)) (seqZ 1 last_id)) ;;; m_ret tt.

Definition redis_pause (pause_ : bool) : RM unit :=
  let* wait_key := key CollectionSuffix.Wait in
  let* meta_key := key CollectionSuffix.Meta in
  let* paused_key := key CollectionSuffix.Paused in
  get_connection ;;;
  let src := if pause_ then wait_key else paused_key in
  let dst := if pause_ then paused_key else wait_key in
  let* found := attempt (let* r := command (Exists src) in parsed (as_bool r)) in
  let renaming := if unwrap_or false found then [Rename src dst] else [] in
  let flag := if pause_ then Hset meta_key [(suffix_arg CollectionSuffix.Paused, "1")]
              else Hdel meta_key (suffix_arg CollectionSuffix.Paused) in
  query (renaming ++ [flag])%list ;;; m_ret tt.

(** [get_queue_metrics] ([src/utils/mod.rs]), one pipeline. *)
Definition redis_get_metrics : RM QueueMetrics :=
  get_connection ;;;
  let* st := gets sy_store in
  let k c := key_of c st in
  let* rs := query [Zcard (k CollectionSuffix.Completed); Zcard (k CollectionSuffix.Failed);
                    Zcard (k CollectionSuffix.Prioritized); Llen (k CollectionSuffix.Active);
                    Scard (k CollectionSuffix.Stalled); Zcard (k CollectionSuffix.Delayed);
                    Llen (k CollectionSuffix.Wait); Llen (k CollectionSuffix.Paused);
                    Get (k CollectionSuffix.Id); Hget (k CollectionSuffix.Meta) "processing";
                    Hget (k CollectionSuffix.Meta) "event_mode";
                    Hexists (k CollectionSuffix.Meta) (state_arg JobState.Paused)] in
  match rs with
  | [completed; failed; prioritized; active; stalled; delayed; waiting; paused; last_id;
     processing; event_mode; is_paused] =>
      let count r := let* n := parsed (as_opt_u64 r) in m_ret (unwrap_or 0 n) in
      let* completed := count completed in
      let* failed := count failed in
      let* prioritized := count prioritized in
      let* active := count active in
      let* stalled := count stalled in
      let* delayed := count delayed in
      let* waiting := count waiting in
      let* paused := count paused in
      let* last_id := count last_id in
      let* processing := count processing in
      let* event_mode := parsed (as_event_mode event_mode) in
      let* is_paused := parsed (as_bool is_paused) in
      m_ret (QueueMetrics_new last_id processing active stalled completed delayed prioritized
               paused failed waiting is_paused event_mode)
  | _ => parsing_error
  end.

(** ** Events *)

Definition redis_publish_event (event_mode : QueueEventMode) (event : QueueStreamEvent R P) :
    RM unit :=
  get_connection ;;;
  let* k := key CollectionSuffix.Events in
  let cmd :=
    match event_mode with
    | PubSub => Publish k (event_arg event)
    | Stream =>
        let items := serialize_into_pairs (event_fields event) in
        let items := filter (fun p => p.1 <> "id") items in
        let items := filter (fun p => contains "null" p.2 = false) items in
        Xadd k items
    end in
  query [cmd] ;;; m_ret tt.

(** What [listen_to_events] does with the messages of the channel or with one
    reading of the stream.  With a channel the call goes on for as long as the
    connection lasts; [messages] is what arrives in that time. *)
Definition listen_to_events (event_mode : QueueEventMode) (messages : list string) : RM unit :=
  let* st := gets sy_store in
  (if rd_subscribed st then m_ret tt
   else if up (rd_db st) then upd_store (set_rd_subscribed true)
   else throw (RedisError "connection refused")) ;;;
  match event_mode with
  | PubSub =>
      for_each messages (fun msg =>
        let* event := parsed (event_from_redis msg) in
        process_each_event redis_get_metrics event)
  | Stream =>
      get_connection ;;;
      let* r := command (Xreadgroup (rd_consumer_group st) (rd_stream_key st)) in
      let* now := utc_now in
      let events := match r with RStream entries => from_stream_read_reply now entries | _ => [] end in
      for_each events (process_each_event redis_get_metrics)
  end.

Definition process_queue_events (event_mode : QueueEventMode) (messages : list string) : RM unit :=
  listen_to_events event_mode messages.

(** One round of the loop of [create_listener_handle]; returns the next value of
    its [is_inital] cell. *)
Definition listener_round (event_mode : QueueEventMode) (messages : list string) (is_inital : bool) :
    RM bool :=
  process_queue_events event_mode messages ;;;
  let* metrics := gets sy_metrics in
  pause_or_resume_workers metrics is_inital.

Fixpoint listener (event_mode : QueueEventMode) (rounds : list (list string)) (is_inital : bool) :
    RM unit :=
  match rounds with
  | [] => m_ret tt
  | messages :: rounds' =>
      let* is_inital := listener_round event_mode messages is_inital in
      listener event_mode rounds' is_inital
  end.

Definition create_listener_handle (event_mode : QueueEventMode) (rounds : list (list string)) : RM unit :=
  listener event_mode rounds true.

Definition redis_create_stream_listener (event_mode : QueueEventMode) (rounds : list (list string)) :
    RM unit :=
  create_listener_handle event_mode rounds.

(** ** Insertion *)

(** [prepare_for_insert] ([src/utils/mod.rs]): the job as it leaves it, and the
    commands it adds to the pipeline or its error. *)
Definition prepare_for_insert (queue_name : string) (event_mode : QueueEventMode) (is_paused : bool)
    (id prior_counter : Z) (opts : JobOptions) (job : Job D R P) (name : string) :
    RM (Job D R P * (KioError + list Cmd)) :=
  let priority := jo_priority opts in
  let* dt := utc_now in
  let* ts := utc_now in
  let* expected_dt_ts := expect (next_occurrance_timestamp_ms ts (jo_delay opts)) in
  let* diff := expect (as_diff_ms (jo_delay opts) dt) in
  let delay := cast_unsigned diff in
  let* job := expect (add_opts opts job) in
  if (0 <? delay) && (delay <? MIN_DELAY_MS_LIMIT) then
    m_ret (job, inl (KQueueError (DelayBelowAllowedLimit MIN_DELAY_MS_LIMIT delay)))
  else
    let job_key := queue_name ++ ":" ++ show id in
    let events_key := queue_name ++ ":events" in
    let waiting_or_paused := if is_paused then CollectionSuffix.Paused else CollectionSuffix.Wait in
    let to_delay := 0 <? delay in
    let to_priorize := (0 <? priority) && negb to_delay in
    let waiting_key := to_lowercase (queue_name ++ ":" ++ display waiting_or_paused) in
    let '(placing, job) :=
      if to_delay then
        match expected_dt_ts with
        | Some expected_active_time =>
            ([Zadd (queue_name ++ ":delayed") (show id) expected_active_time],
             set_j_state JobState.Delayed job)
        | None => ([], job)
        end
      else if to_priorize then
        ([Zadd (to_lowercase (queue_name ++ ":" ++ display CollectionSuffix.Prioritized)) (show id)
            (calculate_next_priority_score priority prior_counter)],
         set_j_state JobState.Prioritized job)
      else ([Lpush waiting_key (show id)], job) in
    let job := set_j_id (Some id) job in
    let fields := serialize_into_pairs (job_fields job) in
    let event := if to_delay then JobState.Delayed
                 else if to_priorize then JobState.Prioritized else JobState.Wait in
    let* publishing :=
      match event_mode with
      | PubSub =>
          let* now := utc_now in
          let ev := set_qe_name (Some name) (set_qe_event event (set_qe_job_id id (event_default now))) in
          let ev := if to_delay then set_qe_delay (Some delay) ev else ev in
          let ev := if to_priorize then set_qe_priority (Some priority) ev else ev in
          m_ret (Publish events_key (event_arg ev))
      | Stream =>
          m_ret (Xadd events_key
            ([("event", state_arg event); ("job_id", show id); ("name", name)] ++
             (if to_delay then [("delay", show delay)] else []) ++
             (if to_priorize then [("priority", show priority)] else []))%list)
      end in
    m_ret (job, inr (placing ++ [Hset job_key fields; publishing])%list).

(** [split_pipeline]: the commands in chunks, each a pipeline of its own. *)
Fixpoint chunks {A} (fuel : nat) (chunk_size : nat) (l : list A) : list (list A) :=
  match fuel, l with
  | S fuel', _ :: _ => take chunk_size l :: chunks fuel' chunk_size (drop chunk_size l)
  | _, _ => []
  end.

Definition split_pipeline (cmds : list Cmd) (chunk_size : nat) : list (list Cmd) :=
  chunks (length cmds) chunk_size cmds.

Definition chunk_size : nat := N.to_nat 10000.

(** [query_all_batched]: the chunks one after the other, until one fails. *)
Definition query_all_batched (cmds : list Cmd) : RM unit :=
  for_each (split_pipeline cmds chunk_size) (fun p => query p ;;; m_ret tt).

(** The counters and the pipeline that the loop of [add] carries along. *)
Record AddState : Type := mkAdd {
  ad_id : Z;
  ad_pc : Z;
  ad_to_priorize : bool;
  ad_pipeline : list Cmd;
  ad_jobs : list (Job D R P);
}.

Definition add_item_of (queue_opts : QueueOpts) (event_mode : QueueEventMode) (is_paused : bool)
    (acc : AddState) (item : string * option JobOptions * D) : RM AddState :=
  let '(name, opts, d) := item in
  let opts := update_job_opts queue_opts (unwrap_or JobOptions_default opts) in
  let* st := gets sy_store in
  let queue_name := rd_prefix st ++ ":" ++ rd_name st in
  let id := ad_id acc in
  let prioritized := 0 <? jo_priority opts in
  let* now := utc_now in
  let job := job_new now name (Some d) (jo_id opts) (Some queue_name) in
  let* prepared := prepare_for_insert queue_name event_mode is_paused id (ad_pc acc) opts job name in
  let '(job, cmds) := prepared in
  m_ret (mkAdd (wrapping_add_u64 id 1)
           (if prioritized then wrapping_add_u64 (ad_pc acc) 1 else ad_pc acc)
           (ad_to_priorize acc || prioritized)
           (ad_pipeline acc ++ match cmds with inr cmds => cmds | inl _ => [] end)%list
           (ad_jobs acc ++ [set_j_id (Some id) job])%list).

(** [RedisStore::add], with the body of its transaction.  The keys are watched,
    but the commands are sent outside of a [MULTI] block, so that a change of
    the keys in between goes unnoticed. *)
Definition add (iter : list (string * option JobOptions * D)) (queue_opts : QueueOpts)
    (event_mode : QueueEventMode) (is_paused return_jobs : bool) : RM (list (Job D R P)) :=
  get_connection ;;;
  let* id_key := key CollectionSuffix.Id in
  let* pc_key := key CollectionSuffix.PriorityCounter in
  let* r := command (Get id_key) in
  let* id := parsed (as_opt_u64 r) in
  let* r := command (Get pc_key) in
  let* prior_counter := parsed (as_opt_u64 r) in
  let start := mkAdd (wrapping_add_u64 (unwrap_or 0 id) 1)
                 (wrapping_add_u64 (unwrap_or 0 prior_counter) 1) false [] [] in
  let* acc := for_fold iter start (add_item_of queue_opts event_mode is_paused) in
  query_all_batched
    (ad_pipeline acc ++ [Incrby id_key (Z.max 0 (ad_id acc - 1))] ++
     (if ad_to_priorize acc then [Incrby pc_key (Z.max 0 (ad_pc acc - 1))] else []))%list ;;;
  m_ret (if return_jobs then ad_jobs acc else []).

Definition redis_add_bulk (iter : list (string * option JobOptions * D)) (queue_opts : QueueOpts)
    (event_mode : QueueEventMode) (is_paused : bool) : RM (list (Job D R P)) :=
  add iter queue_opts event_mode is_paused true.

Definition redis_add_bulk_only (iter : list (string * option JobOptions * D))
    (queue_opts : QueueOpts) (event_mode : QueueEventMode) (is_paused : bool) : RM unit :=
  add iter queue_opts event_mode is_paused false ;;; m_ret tt.
(** ** Metrics *)

Inductive MetricsType : Type :=
| Process (metrics : ProcessMetrics)
| WorkerOf (metrics : WorkerMetrics).

Definition get_collection_suffix (m : MetricsType) : CollectionSuffix.t :=
  match m with
  | Process _ => CollectionSuffix.ProcessMetrics
  | WorkerOf _ => CollectionSuffix.WorkerMetrics
  end.

Definition saturating_mul (x y : Z) : Z := Z.min (two64 - 1) (x * y).

(** A server that knows field deadlines keeps the first value of a field until
    its deadline; an older one replaces the field and lets the whole hash expire. *)
Definition store_metrics (metrics : MetricsType) (ttl_ms : Z) : RM unit :=
  let* k := key (get_collection_suffix metrics) in
  get_connection ;;;
  let '(field_key, text) :=
    match metrics with
    | Process m => (pm_hostname m ++ "-Pid(" ++ show (pm_pid m) ++ ")", to_json JProcessMetrics m)
    | WorkerOf m => (uuid_text (wk_worker_id m), to_json JWorkerMetrics m)
    end in
  match text with
  | None => throw json_error
  | Some text =>
      let* st := gets sy_store in
      if unwrap_or false (is_at_least (rd_version st) feature_hsetex) then
        command (Hsetex k ttl_ms [(field_key, text)]) ;;; m_ret tt
      else
        query [Hset k [(field_key, text)];
               Pexpire k (cast_signed (saturating_mul ttl_ms 100))] ;;; m_ret tt
  end.

Definition redis_store_worker_metrics (metrics : WorkerMetrics) (ttl_ms : Z) : RM unit :=
  store_metrics (WorkerOf metrics) ttl_ms.

Definition redis_store_process_metrics (metrics : ProcessMetrics) (ttl_ms : Z) : RM unit :=
  store_metrics (Process metrics) ttl_ms.

(** The values of a hash, each read as JSON; one bad value fails the call. *)
Definition hash_values (c : CollectionSuffix.t) (t : JTy) : RM (list (jty (D := D) (R := R) (P := P) t)) :=
  get_connection ;;;
  let* k := key c in
  let* r := command (Hvals k) in
  match r with
  | RArray l => parsed (mapM (from_json t) l)
  | RNil => m_ret []
  | _ => parsing_error
  end.

(** A worker is dropped when its last report is older than its lease. *)
Definition redis_fetch_worker_metrics : RM (gmap Z WorkerMetrics) :=
  let* results := hash_values CollectionSuffix.WorkerMetrics JWorkerMetrics in
  for_fold results ∅ (fun acc metrics =>
    let* now := utc_now in
    if num_milliseconds (now - wk_last_updated metrics) <=?
       wrapping_add_i64 (cast_signed (wk_ttl_ms metrics)) 20
    then m_ret (<[wk_worker_id metrics := metrics]> acc) else m_ret acc).

Definition redis_fetch_process_metrics : RM (gmap Z ProcessMetrics) :=
  let* results := hash_values CollectionSuffix.ProcessMetrics JProcessMetrics in
  m_ret (foldl (fun acc metrics => <[pm_pid metrics := metrics]> acc) ∅ results).
End Monadic.

(** [RedisStore::new], with the fresh [Uuid] it draws. *)
Definition redis_new (now : Z) (prefix : option string) (name : string) (id : Z) (db : DB) :
    KioError + RedisStore :=
  let prefix := unwrap_or "{kio}" prefix in
  let consumer_group := prefix ++ "-" ++ prefix ++ "-group-" ++ uuid_text id in
  let consumer_name := "consumer-" ++ uuid_text id in
  let stream_key := to_collection_name CollectionSuffix.Events prefix name in
  if up db then
    let '(r, db) := exec now (Xgroup_create stream_key consumer_group) db in
    match is_error r with
    | Some e => inl (RedisError e)
    | None =>
        let '(r, db) := exec now Info db in
        match r with
        | RBulk raw =>
            match parse raw with
            | Some version =>
                inr (mkRedisStore prefix name consumer_group consumer_name stream_key false
                       version db)
            | None => inl (IoError "failed to fetch redis-version info ")
            end
        | RError e => inl (RedisError e)
        | _ => inl (RedisError "Response type not convertible")
        end
    end
  else inl pool_error.
End Redis.
