(* ===== verification/RedisFacts.v ===== *)
(** * Commands against a server that answers

    How a command, a pipeline and a reply behave under [RedisLaws], and what the
    documented commands do to a key that holds a value without a deadline.  The
    theorems on the Redis store and its backend instance are built on these. *)

From S2P Require Import Prelude SkipMap TimedMap Extern Schedule Job Options Events Shared Metrics InMemoryStore Names RedisServer RedisCodec RedisVersion RedisStore.

Open Scope string_scope.
Open Scope Z_scope.

(** ** Keys without deadlines *)

(** The key holds the value; an empty collection is no key at all. *)
Definition holds (m : gmap string Entry) (k : string) (v : Value) : Prop :=
  m !! k = if is_empty_value v then None else Some (mkEntry v None).

Lemma lookup_live_holds now m k v :
  holds m k v -> lookup_live now k m = if is_empty_value v then None else Some (mkEntry v None).
Proof. intros H. unfold lookup_live. rewrite H. by destruct (is_empty_value v). Qed.

Lemma list_at_holds now m k l : holds m k (VList l) -> list_at now k m = Some l.
Proof. intros H. unfold list_at. rewrite (lookup_live_holds now m k _ H). by destruct l. Qed.

Lemma zset_at_holds now m k z : holds m k (VZset z) -> zset_at now k m = Some z.
Proof. intros H. unfold zset_at. rewrite (lookup_live_holds now m k _ H). by destruct z. Qed.

Lemma string_at_holds now m k x : holds m k (VString x) -> string_at now k m = Some (Some x).
Proof. intros H. unfold string_at. by rewrite (lookup_live_holds now m k _ H). Qed.

(** Putting a value under a key that has no deadline. *)
Definition put_plain (k : string) (v : Value) (m : gmap string Entry) : gmap string Entry :=
  if is_empty_value v then delete k m else <[k := mkEntry v None]> m.

Lemma put_plain_eq now m k v v0 : holds m k v0 -> put now k v m = put_plain k v m.
Proof.
  intros H. unfold put, put_plain. destruct (is_empty_value v); [done|].
  rewrite (lookup_live_holds now m k v0 H). by destruct (is_empty_value v0).
Qed.

Lemma put_holds m k v : holds (put_plain k v m) k v.
Proof.
  unfold put_plain, holds. destruct (is_empty_value v); [by rewrite lookup_delete_eq|].
  by rewrite lookup_insert_eq.
Qed.

Lemma put_ne m k k' v : k <> k' -> put_plain k v m !! k' = m !! k'.
Proof.
  intros Hk. unfold put_plain. destruct (is_empty_value v); [by rewrite lookup_delete_ne|].
  by rewrite lookup_insert_ne.
Qed.

Lemma holds_put_ne m k k' v v' : k <> k' -> holds m k' v' -> holds (put_plain k v m) k' v'.
Proof. intros Hk H. unfold holds. by rewrite put_ne. Qed.

Lemma put_plain_twice k v v' m : put_plain k v (put_plain k v' m) = put_plain k v m.
Proof.
  unfold put_plain. apply map_eq. intros k'. destruct (decide (k = k')) as [<-|Hne];
    destruct (is_empty_value v), (is_empty_value v');
    by rewrite ?lookup_delete_eq, ?lookup_insert_eq, ?lookup_delete_ne, ?lookup_insert_ne,
      ?lookup_delete_ne, ?lookup_insert_ne by done.
Qed.

Definition with_key (k : string) (v : Value) (ks : Keyspace) : Keyspace :=
  mkKeyspace (put_plain k v (ks_keys ks)) (ks_published ks).

(** ** What the commands do to such keys *)

Section Respond.
Context {SRV : RedisServer}.
Implicit Types ks : Keyspace.

Ltac respond H :=
  unfold respond; cbn [or_else respond_keys respond_lists respond_sets];
  rewrite ?(list_at_holds _ _ _ _ H), ?(zset_at_holds _ _ _ _ H), ?(put_plain_eq _ _ _ _ _ H);
  try (match goal with ks : Keyspace |- _ => by destruct ks end).

Lemma respond_push now k x ks l (append : bool) :
  holds (ks_keys ks) k (VList l) ->
  respond now (if append then Lpush k x else Rpush k x) ks =
  (RInt (Z.of_nat (S (length l))), with_key k (VList (if append then x :: l else l ++ [x])%list) ks).
Proof. intros H. destruct append; respond H. by rewrite length_app, Nat.add_comm. Qed.

Lemma respond_lrem now k n x ks l :
  holds (ks_keys ks) k (VList l) ->
  respond now (Lrem k n x) ks =
  (RInt (Z.of_nat (length l - length (remove_first n x l))),
   with_key k (VList (remove_first n x l)) ks).
Proof. intros H. respond H. Qed.

Lemma respond_lpos now k x ks l :
  holds (ks_keys ks) k (VList l) ->
  respond now (Lpos k x) ks = (match position x l with Some i => RInt i | None => RNil end, ks).
Proof. intros H. respond H. Qed.

Lemma respond_rpoplpush now k k' ks l l' :
  k <> k' -> holds (ks_keys ks) k (VList l) -> holds (ks_keys ks) k' (VList l') ->
  respond now (Rpoplpush k k') ks =
  match last l with
  | None => (RNil, ks)
  | Some x => (RBulk x, with_key k' (VList (x :: l')) (with_key k (VList (removelast l)) ks))
  end.
Proof.
  intros Hk H H'. respond H. destruct (last l) as [x|] eqn:E; [|by destruct ks].
  apply last_snoc_inv in E as [l0 ->]. rewrite length_app, removelast_last. cbn [length].
  replace (length l0 + 1 - 1)%nat with (length l0) by lia. rewrite take_app_length.
  rewrite ?(put_plain_eq _ _ _ _ _ H).
  assert (Hh : holds (put_plain k (VList l0) (ks_keys ks)) k' (VList l')) by (by apply holds_put_ne).
  by rewrite (list_at_holds _ _ _ _ Hh), (put_plain_eq _ _ _ _ _ Hh).
Qed.

Lemma respond_zadd now k x score ks z :
  holds (ks_keys ks) k (VZset z) ->
  respond now (Zadd k x score) ks =
  (bool_reply (bool_decide (zscore x z = None)), with_key k (VZset (zadd x (double score) z)) ks).
Proof. intros H. respond H. Qed.

Lemma respond_zrem now k x ks z :
  holds (ks_keys ks) k (VZset z) ->
  respond now (Zrem k x) ks =
  (bool_reply (bool_decide (zscore x z <> None)), with_key k (VZset (zremove x z)) ks).
Proof. intros H. respond H. Qed.

Lemma respond_zscore now k x ks z :
  holds (ks_keys ks) k (VZset z) ->
  respond now (Zscore k x) ks = (bulk_or_nil (show <$> zscore x z), ks).
Proof. intros H. respond H. Qed.

Lemma respond_zpop now k ks z (min : bool) :
  holds (ks_keys ks) k (VZset z) ->
  respond now (if min then Zpopmin k else Zpopmax k) ks =
  match (if min then head z else last z) with
  | Some p => (RPairs (scored_pairs [p]),
               with_key k (VZset (if min then tail z else removelast z)) ks)
  | None => (RPairs [], ks)
  end.
Proof.
  intros H. destruct min; respond H.
  - destruct z as [|p z]; cbn; [by destruct ks|]. by rewrite ?(put_plain_eq _ _ _ _ _ H).
  - destruct (last z) as [p|] eqn:E; [|by destruct ks].
    apply last_snoc_inv in E as [z0 ->]. rewrite length_app, removelast_last. cbn [length].
    replace (length z0 + 1 - 1)%nat with (length z0) by lia. rewrite take_app_length.
    by rewrite ?(put_plain_eq _ _ _ _ _ H).
Qed.

Lemma respond_zrangebyscore now k lo hi ks z :
  holds (ks_keys ks) k (VZset z) ->
  respond now (Zrangebyscore k lo hi) ks =
  (RArray (filter (fun p => within lo hi p = true) z).*2, ks).
Proof. intros H. respond H. Qed.

Lemma respond_zremrangebyscore now k lo hi ks z :
  holds (ks_keys ks) k (VZset z) ->
  respond now (Zremrangebyscore k lo hi) ks =
  (RInt (Z.of_nat (length z - length (filter (fun p => within lo hi p = false) z))),
   with_key k (VZset (filter (fun p => within lo hi p = false) z)) ks).
Proof. intros H. respond H. Qed.
(** The fields of the hash have no deadlines. *)
Definition lasting (h : Hash) : Prop := map_Forall (fun _ p => p.2 = None) h.

Lemma hash_at_holds now m k h : lasting h -> holds m k (VHash h) -> hash_at now k m = Some h.
Proof.
  intros Hl H. unfold hash_at. rewrite (lookup_live_holds now _ _ _ H). cbn [is_empty_value].
  destruct (bool_decide_reflect (h = ∅)) as [->|Hh]; [done|]. cbn. f_equal. apply map_filter_id.
  intros f p Hf. specialize (Hl f p Hf). cbn in *. by rewrite Hl.
Qed.

(** The hash that a record is written to. *)
Definition hash_of (fields : list (string * string)) : Hash :=
  foldl (fun h p => <[p.1 := (p.2, None)]> h) ∅ fields.

Lemma hash_of_snoc fields p : hash_of (fields ++ [p])%list = <[p.1 := (p.2, None)]> (hash_of fields).
Proof. unfold hash_of. by rewrite foldl_app. Qed.

Lemma fields_nonempty fields : fields <> [] -> hash_of fields <> ∅.
Proof.
  intros H. destruct (exists_last H) as (l & p & ->). rewrite hash_of_snoc. apply insert_non_empty.
Qed.

Lemma hash_of_lasting fields : lasting (hash_of fields).
Proof.
  induction fields as [|p fields IH] using rev_ind; [by apply map_Forall_empty|].
  rewrite hash_of_snoc. by apply map_Forall_insert_2.
Qed.

Lemma hash_of_lookup fields k : (k ∉ fields.*1) -> hash_of fields !! k = None.
Proof.
  induction fields as [|p fields IH] using rev_ind; [done|]. rewrite hash_of_snoc, fmap_app.
  intros H. rewrite lookup_insert_ne by set_solver. apply IH. set_solver.
Qed.

(** The server lists the fields of a record in an order of its own. *)
Lemma hash_of_list fields :
  NoDup fields.*1 -> (fun p => (p.1, field_text p.2)) <$> map_to_list (hash_of fields) ≡ₚ fields.
Proof.
  induction fields as [|[k v] fields IH] using rev_ind; [done|]. rewrite hash_of_snoc, fmap_app.
  intros (H1 & H2 & _)%NoDup_app. rewrite map_to_list_insert.
  - cbn. rewrite IH by done. apply Permutation_cons_append.
  - apply hash_of_lookup. intros Hin. apply (H2 k Hin). cbn. set_solver.
Qed.

Lemma respond_record k fields ks :
  fields <> [] -> ks_keys ks !! k = None ->
  exists r, forall now, respond now (Hset k fields) ks = (RInt r, with_key k (VHash (hash_of fields)) ks).
Proof.
  intros Hf Hk. eexists. intros now. unfold respond.
  cbn [or_else respond_keys respond_lists respond_sets]. destruct fields as [|p fields]; [done|].
  unfold respond_hashes, hash_at. unfold lookup_live at 1. rewrite Hk. cbn [fmap option_fmap option_map].
  rewrite (put_plain_eq now (ks_keys ks) k _ (VList [])) by done. reflexivity.
Qed.

Lemma respond_hgetall now k ks h :
  lasting h -> holds (ks_keys ks) k (VHash h) ->
  respond now (Hgetall k) ks = (RPairs ((fun p => (p.1, field_text p.2)) <$> map_to_list h), ks).
Proof.
  intros Hl H. unfold respond. cbn [or_else respond_keys respond_lists respond_sets].
  unfold respond_hashes. rewrite (hash_at_holds now _ _ _ Hl H). by destruct ks.
Qed.
End Respond.

(** ** Commands *)

Section Facts.
Context {SRV : RedisServer} {LAWS : RedisLaws} {EXT : Extern} {UID : Uuids} {D R P X : Type}
  {JS : Json D R P} {CLK : Clock}.
Abbreviation Sys := (SysOf RedisStore R P X).
Implicit Types s : Sys.

Definition online s : Prop := up (rd_db (sy_store s)) = true.
Definition space s : Keyspace := contents (rd_db (sy_store s)).
Definition keys s : gmap string Entry := ks_keys (space s).

(** The next reading of the server's clock. *)
Definition server_time s : Z := instant (sy_reads s) 0.

(** Only the server's data and the count of readings changed. *)
Definition frame (s s' : Sys) : Prop :=
  exists d n, s' = set_sy_reads n (set_sy_store (set_rd_db d (sy_store s)) s).

Lemma frame_refl s : frame s s.
Proof. exists (rd_db (sy_store s)), (sy_reads s). by destruct s as [[] ? ? ? ? ? ?]. Qed.

Lemma frame_trans s1 s2 s3 : frame s1 s2 -> frame s2 s3 -> frame s1 s3.
Proof. intros (d & n & ->) (d' & n' & ->). by exists d', n'. Qed.

Lemma frame_key c s s' : frame s s' -> key_of c (sy_store s') = key_of c (sy_store s).
Proof. by intros (d & n & ->). Qed.

Lemma send_up c s :
  online s -> exists s', send_cmd c s = (Ok (respond (server_time s) c (space s)).1, s') /\
    space s' = (respond (server_time s) c (space s)).2 /\ online s' /\ frame s s'.
Proof.
  intros Hu. destruct (exec_up (server_time s) c (rd_db (sy_store s)) Hu) as (H1 & H2 & H3).
  unfold send_cmd, timed, instants, on_store. cbv [m_bind state].
  change (instant (sy_reads s) 0) with (server_time s).
  destruct (exec (server_time s) c (rd_db (sy_store s))) as [r d] eqn:E. cbn [fst snd] in *.
  eexists. cbn. rewrite E. split; [by rewrite H2|]. split_and!; [done|done|].
  by exists d, (S (sy_reads s)).
Qed.

Lemma command_up c s r ks :
  online s -> (forall now, respond now c (space s) = (r, ks)) -> is_error r = None ->
  exists s', command c s = (Ok r, s') /\ space s' = ks /\ online s' /\ frame s s'.
Proof.
  intros Hu E He. destruct (send_up c s Hu) as (s' & H1 & H2 & H3 & H4). rewrite E in *.
  exists s'. unfold command. rewrite (run_bind _ _ _ _ _ H1). cbn [fst]. by rewrite He.
Qed.

(** A pipeline whose replies do not depend on the time. *)
Inductive answers : list Cmd -> Keyspace -> list Reply -> Keyspace -> Prop :=
| answers_nil ks : answers [] ks [] ks
| answers_cons c cs ks r ks1 rs ks2 :
    (forall now, respond now c ks = (r, ks1)) -> is_error r = None ->
    answers cs ks1 rs ks2 -> answers (c :: cs) ks (r :: rs) ks2.

Lemma answers_app cs cs' ks rs rs' ks1 ks2 :
  answers cs ks rs ks1 -> answers cs' ks1 rs' ks2 -> answers (cs ++ cs')%list ks (rs ++ rs')%list ks2.
Proof. induction 1; [done|]. intros. cbn. econstructor; eauto. Qed.

Lemma send_all cmds s rs ks :
  online s -> answers cmds (space s) rs ks ->
  exists s', for_collect cmds send_cmd s = (Ok rs, s') /\ Forall (fun r => is_error r = None) rs /\
    space s' = ks /\ online s' /\ frame s s'.
Proof.
  intros Hu Ha. remember (space s) as ks0 eqn:Hs. revert s Hu Hs.
  induction Ha as [ks|c cs ks r ks1 rs ks2 Hr He Ha IH]; intros s Hu Hs.
  { exists s. split_and!; [done|constructor|done|done|apply frame_refl]. }
  destruct (send_up c s Hu) as (s1 & H1 & H2 & H3 & H4). rewrite <- Hs, Hr in *. cbn [fst snd] in *.
  destruct (IH s1 H3) as (s2 & K1 & K2 & K3 & K4 & K5); [done|].
  exists s2. cbn [for_collect]. rewrite (run_bind _ _ _ _ _ H1), (run_bind _ _ _ _ _ K1).
  split_and!; [done|by constructor|done|done|by eapply frame_trans].
Qed.

Lemma query_up cmds s rs ks :
  online s -> answers cmds (space s) rs ks ->
  exists s', query cmds s = (Ok rs, s') /\ space s' = ks /\ online s' /\ frame s s'.
Proof.
  intros Hu Ha. destruct (send_all cmds s rs ks Hu Ha) as (s' & H1 & H2 & H3).
  exists s'. unfold query. rewrite (run_bind _ _ _ _ _ H1). split; [|done].
  destruct (list_find _ rs) as [[i r]|] eqn:E; [|done].
  apply list_find_Some in E as (E1 & E2 & _). rewrite Forall_lookup in H2. by rewrite (H2 i r) in E2.
Qed.

(** ** Pipelines, by pre- and postconditions on the data *)

Definition cmd_ok (P0 : Keyspace -> Prop) (c : Cmd) (Q : Keyspace -> Prop) : Prop :=
  forall now ks, P0 ks -> is_error (respond now c ks).1 = None /\ Q (respond now c ks).2.

Inductive pipeline_ok : (Keyspace -> Prop) -> list Cmd -> (Keyspace -> Prop) -> Prop :=
| pipeline_nil P0 : pipeline_ok P0 [] P0
| pipeline_cons P0 c P1 cs Q :
    cmd_ok P0 c P1 -> pipeline_ok P1 cs Q -> pipeline_ok P0 (c :: cs) Q.

Lemma pipeline_app P0 cs P1 cs' Q :
  pipeline_ok P0 cs P1 -> pipeline_ok P1 cs' Q -> pipeline_ok P0 (cs ++ cs')%list Q.
Proof. induction 1; [done|]. intros. cbn. econstructor; eauto. Qed.

Lemma pipeline_split P0 cs cs' Q :
  pipeline_ok P0 (cs ++ cs')%list Q -> exists P1, pipeline_ok P0 cs P1 /\ pipeline_ok P1 cs' Q.
Proof.
  revert P0. induction cs as [|c cs IH]; intros P0 H; [eexists; by split; [constructor|]|].
  inversion H as [|? ? P1 ? ? Hc Hcs]; subst. destruct (IH _ Hcs) as (P2 & H1 & H2).
  exists P2. split; [by econstructor|done].
Qed.

Lemma send_pipeline P0 cs Q s :
  pipeline_ok P0 cs Q -> online s -> P0 (space s) ->
  exists rs s', for_collect cs send_cmd s = (Ok rs, s') /\ Forall (fun r => is_error r = None) rs /\
    Q (space s') /\ online s' /\ frame s s'.
Proof.
  intros H. revert s. induction H as [P0|P0 c P1 cs Q Hc Hcs IH]; intros s Hu Hp.
  { exists [], s. split_and!; [done|constructor|done|done|apply frame_refl]. }
  destruct (send_up c s Hu) as (s1 & H1 & H2 & H3 & H4).
  destruct (Hc (server_time s) (space s) Hp) as [He Hq]. rewrite <- H2 in Hq.
  destruct (IH s1 H3 Hq) as (rs & s2 & K1 & K2 & K3 & K4 & K5).
  eexists (_ :: rs), s2. cbn [for_collect].
  rewrite (run_bind _ _ _ _ _ H1), (run_bind _ _ _ _ _ K1).
  split_and!; [done|by constructor|done|done|by eapply frame_trans].
Qed.

Lemma no_error_found rs :
  Forall (fun r => is_error r = None) rs -> list_find (fun r => is_error r <> None) rs = None.
Proof.
  intros H. destruct (list_find _ rs) as [[i r]|] eqn:E; [|done].
  apply list_find_Some in E as (E1 & E2 & _). rewrite Forall_lookup in H. by rewrite (H i r) in E2.
Qed.

Lemma query_ok P0 cs Q s :
  pipeline_ok P0 cs Q -> online s -> P0 (space s) ->
  exists rs s', query cs s = (Ok rs, s') /\ Q (space s') /\ online s' /\ frame s s'.
Proof.
  intros H Hu Hp. destruct (send_pipeline P0 cs Q s H Hu Hp) as (rs & s' & H1 & H2 & H3).
  exists rs, s'. unfold query. rewrite (run_bind _ _ _ _ _ H1), no_error_found by done. done.
Qed.

(** The last command of a pipeline fails: the others have been executed. *)
Lemma query_last_fails P0 cs Q c e s :
  pipeline_ok P0 cs Q -> (forall now ks, Q ks -> respond now c ks = (RError e, ks)) ->
  online s -> P0 (space s) ->
  exists s', query (cs ++ [c])%list s = (Err (RedisError e), s') /\ Q (space s') /\ online s' /\
    frame s s'.
Proof.
  intros H Hc Hu Hp. destruct (send_pipeline P0 cs Q s H Hu Hp) as (rs & s1 & H1 & H2 & H3 & H4 & H5).
  destruct (send_up c s1 H4) as (s2 & K1 & K2 & K3 & K4). rewrite Hc in K1, K2 by done.
  exists s2. cbn [fst snd] in *. split_and!; [|by rewrite K2|done|by eapply frame_trans].
  assert (for_collect [c] send_cmd s1 = (Ok [RError e], s2)) as E.
  { cbn [for_collect]. by rewrite (run_bind _ _ _ _ _ K1). }
  unfold query. rewrite (run_bind _ _ _ _ _ (for_collect_app _ _ _ _ _ _ _ _ H1 E)).
  by rewrite (list_find_app_r _ _ _ (no_error_found rs H2)).
Qed.

Lemma get_connection_up s : online s -> get_connection s = (Ok tt, s).
Proof. intros Hu. unfold get_connection. cbv [m_bind gets]. by rewrite Hu. Qed.

Lemma get_connection_down s : ~ online s -> get_connection s = (Err pool_error, s).
Proof.
  intros Hu. unfold get_connection, online in *. cbv [m_bind gets].
  by destruct (up (rd_db (sy_store s))).
Qed.

Lemma run_key c s : key c s = (Ok (key_of c (sy_store s)), s).
Proof. done. Qed.

Lemma key_ne c c' st : suffix_ok c -> suffix_ok c' -> c <> c' -> key_of c st <> key_of c' st.
Proof. intros H H' Hne He. by apply Hne, (collection_name_inj (rd_prefix st) (rd_name st)). Qed.

(** ** Numbers as text *)

Lemma parse_show_u64 n : u64_ok n -> parse_u64 (show n) = Some n.
Proof. intros H. by apply parse_show. Qed.

Lemma mapM_show l : Forall u64_ok l -> mapM parse_u64 (show <$> l) = Some l.
Proof.
  induction 1 as [|n l Hn Hl IH]; [done|]. cbn. rewrite parse_show_u64 by done. cbn.
  by rewrite IH.
Qed.
End Facts.
