(* ===== verification/RedisSample.v ===== *)
(** * A JSON package, a clock and a store for the witnesses

    [sample_json] satisfies [JsonLaws] for payloads that are numbers.  It refuses
    to serialize what no witness needs, which the laws allow. *)

From S2P Require Import Prelude SkipMap TimedMap Extern Schedule Job Options Events Shared Metrics InMemoryStore Names RedisServer RedisCodec RedisVersion RedisStore RedisFacts.
From Stdlib Require Import Ascii.

Open Scope string_scope.
Open Scope Z_scope.

#[local] Existing Instance sample_extern.

Abbreviation jt := (jty (EXT := sample_extern) (D := Z) (R := Z) (P := Z)).

(** A non-negative number. *)
Definition number (n : Z) : option string := if 0 <=? n then Some (show n) else None.
Definition read_number (s : string) : option Z :=
  match s with
  | "" => None
  | _ => match span 0 s with (n, "") => Some n | _ => None end
  end.

(** A tuple of three numbers. *)
Definition triple (a b c : Z) : option string :=
  if (0 <=? a) && (0 <=? b) && (0 <=? c)
  then Some ("[" ++ show a ++ "," ++ show b ++ "," ++ show c) else None.
Definition read_triple (s : string) : option (Z * Z * Z) :=
  match s with
  | String "["%char s1 =>
      match span 0 s1 with
      | (a, String ","%char s2) =>
          match span 0 s2 with
          | (b, String ","%char s3) =>
              match span 0 s3 with (c, "") => Some (a, b, c) | _ => None end
          | _ => None
          end
      | _ => None
      end
  | _ => None
  end.

Fixpoint sample_to_json (t : JTy) : jt t -> option string :=
  match t return jt t -> option string with
  | JU64 => fun n => Some (show n)
  | JUuid | JData | JResult | JProgress => number
  | JText => fun s => Some (quote ++ s)
  | JState => fun st => Some (state_json st)
  | JOptions => fun o =>
      match o with
      | mkJobOptions 0 (TimeMilis 0) None n None None None None => number n
      | _ => None
      end
  | JTraces => fun l => match l with [] => Some "[]" | _ => None end
  | JLogs => fun l => match l with [] => Some "[]" | _ => None end
  | JFailed => fun f => match f with mkFailedDetails 0 "" => Some "{}" | _ => None end
  | JToken => fun tok => triple (tok_worker tok) (tok_id tok) (tok_prefix tok)
  | JMetrics => fun m => match m with mkJobMetrics 0 0 0 0 0 => Some "{}" | _ => None end
  | JEventId => fun p => triple p.1 p.2 0
  | JWorkerMetrics => fun _ => None
  | JProcessMetrics => fun _ => None
  | JOpt t => fun o => match o with Some x => sample_to_json t x | None => Some "null" end
  end.

Fixpoint sample_from_json (t : JTy) (s : string) : option (jt t) :=
  match t return option (jt t) with
  | JU64 => parse_u64 s
  | JUuid | JData | JResult | JProgress => read_number s
  | JText => match s with String c s' => if decide (String c "" = quote) then Some s' else None | _ => None end
  | JState => find (fun st => bool_decide (state_json st = s)) all_states
  | JOptions => (fun n => mkJobOptions 0 (TimeMilis 0) None n None None None None) <$> read_number s
  | JTraces => if decide (s = "[]") then Some [] else None
  | JLogs => if decide (s = "[]") then Some [] else None
  | JFailed => if decide (s = "{}") then Some FailedDetails_default else None
  | JToken => (fun p => mkToken p.1.1 p.1.2 p.2) <$> read_triple s
  | JMetrics => if decide (s = "{}") then Some JobMetrics_default else None
  | JEventId => (fun p => p.1) <$> read_triple s
  | JWorkerMetrics => None
  | JProcessMetrics => None
  | JOpt t => if decide (s = "null") then Some None else Some <$> sample_from_json t s
  end.

(** An object is the number that encodes its fields. *)
Definition sample_to_object (l : list (string * string)) : string := show (Z.pos (encode l)).
Definition sample_from_object (s : string) : option (list (string * string)) :=
  match span 0 s with (Z.pos p, "") => decode p | _ => None end.

Definition sample_json : Json (EXT := sample_extern) Z Z Z := {|
  to_json := sample_to_json;
  from_json := sample_from_json;
  to_object := sample_to_object;
  from_object := sample_from_object;
|}.

Lemma span_show_end n : 0 <= n -> span 0 (show n) = (n, "").
Proof. intros Hn. rewrite <- (string_app_nil_r (show n)). by apply span_show. Qed.

Lemma read_number_show n : 0 <= n -> read_number (show n) = Some n.
Proof.
  intros Hn. unfold read_number. rewrite span_show_end by done.
  destruct (show_cons n Hn) as (c & s & d & -> & _). done.
Qed.

Lemma number_read n s : number n = Some s -> read_number s = Some n.
Proof.
  unfold number. destruct (Z.leb_spec 0 n); [|done]. intros [= <-]. by apply read_number_show.
Qed.

Lemma triple_read a b c s : triple a b c = Some s -> read_triple s = Some (a, b, c).
Proof.
  unfold triple. destruct (Z.leb_spec 0 a), (Z.leb_spec 0 b), (Z.leb_spec 0 c); try done.
  intros [= <-].
  change ("[" ++ show a ++ "," ++ show b ++ "," ++ show c) with
    (String "["%char (show a ++ String ","%char (show b ++ String ","%char (show c)))).
  cbn [read_triple]. by rewrite !span_show, span_show_end.
Qed.

Lemma show_not_null n : show n <> "null".
Proof.
  destruct n as [|p|p]; [done| |done]. intros E.
  pose proof (read_number_show (Z.pos p) ltac:(lia)) as H. by rewrite E in H.
Qed.

Lemma triple_not_null a b c s : triple a b c = Some s -> s <> "null".
Proof. intros H%triple_read ->. done. Qed.

Lemma number_not_null n s : number n = Some s -> s <> "null".
Proof. intros H%number_read ->. done. Qed.

Lemma sample_not_null t x s :
  is_opt t = false -> is_user t = false -> sample_to_json t x = Some s -> s <> "null".
Proof.
  intros Ho Hu. destruct t; cbn in *; try done; try (by apply triple_not_null);
    try (by apply number_not_null).
  - intros [= <-]. apply show_not_null.
  - intros [= <-]. done.
  - intros [= <-]. by destruct x.
  - repeat case_match; try done. by apply number_not_null.
  - repeat case_match; try done. by intros [= <-].
  - repeat case_match; try done. by intros [= <-].
  - repeat case_match; try done. by intros [= <-].
  - repeat case_match; try done. by intros [= <-].
Qed.

Lemma sample_read t x s :
  is_opt t = false -> json_ok (EXT := sample_extern) (D := Z) (R := Z) (P := Z) t x ->
  sample_to_json t x = Some s -> sample_from_json t s = Some x.
Proof.
  intros Ho Hok. destruct t; cbn in *; try done; try (by apply number_read).
  - intros [= <-]. by apply parse_show.
  - intros [= <-]. done.
  - intros [= <-]. by destruct x.
  - repeat case_match; try done; subst. intros H%number_read. by rewrite H.
  - repeat case_match; try done; subst. by intros [= <-].
  - repeat case_match; try done; subst. by intros [= <-].
  - destruct x. intros H%triple_read. cbn in H. by rewrite H.
  - repeat case_match; try done; subst. by intros [= <-].
  - repeat case_match; try done; subst. by intros [= <-].
  - destruct x. intros H%triple_read. cbn in H. by rewrite H.
Qed.

Definition sample_json_laws : JsonLaws (EXT := sample_extern) Z Z Z (JS := sample_json).
Proof.
  split; try done.
  - apply sample_read.
  - apply sample_not_null.
  - intros l _. change (sample_from_object (sample_to_object l) = Some l).
    unfold sample_to_object, sample_from_object.
    rewrite span_show_end by lia. apply decode_encode.
Qed.

Definition sample_uuids : Uuids := {| uuid_text := show |}.

(** Every reading is one second after the previous one, up to the year 2286. *)
Definition ticking_clock : Clock := {|
  utc n := Z.min (1700000000 + Z.of_nat n) 10000000000 * 1000000000;
  instant n _ := Z.of_nat n * 1000;
|}.

(** An empty server and a store connected to it. *)
Definition empty_server : DB (RedisServer := sample_server) := (true, mkKeyspace ∅ []).

#[local] Existing Instance sample_server.

Definition sample_redis (prefix name : string) : RedisStore :=
  mkRedisStore prefix name "group" "consumer"
    (to_collection_name CollectionSuffix.Events prefix name) false (mkVersion 7 2 4) empty_server.

Definition sample_redis_sys (prefix name : string) : SysOf RedisStore Z Z unit :=
  mkSys (sample_redis prefix name) QueueMetrics_default false 0 [] 0 tt.
