(* ===== verification/RedisProps.v ===== *)
(** * What the Redis store does without a server, and when it is paused

    [offline]: what every operation of [RedisStore] returns while the server
    cannot be reached, and that none of them changes anything.  [redis_pause_moves]: the
    lists before and after [pause]. *)

From S2P Require Import Prelude SkipMap TimedMap Extern Schedule Job Options Events Shared Metrics InMemoryStore Names RedisServer RedisCodec RedisVersion RedisStore RedisFacts RedisSample.

Open Scope string_scope.
Open Scope Z_scope.

Section Props.
Context {SRV : RedisServer} {LAWS : RedisLaws} {EXT : Extern} {UID : Uuids} {D R P X : Type}
  {JS : Json D R P} {CLK : Clock}.
Abbreviation Sys := (SysOf RedisStore R P X).
Abbreviation RM A := (KM Sys A).
Implicit Types s : Sys.

(** ** Without a server *)

(** The call returns the error of the pool, and nothing has changed. *)
Definition refused {A} (c : RM A) s : Prop := c s = (Err pool_error, s).

(** The call returns nothing, without an error. *)
Definition silent {A} (c : RM (option A)) s : Prop := c s = (Ok None, s).

Lemma refused_bind {A B} (c : RM A) (f : A -> RM B) s : refused c s -> refused (let* x := c in f x) s.
Proof. apply run_bind_err. Qed.

Lemma refused_after {A B} (c : RM A) (f : A -> RM B) a s :
  c s = (Ok a, s) -> refused (f a) s -> refused (let* x := c in f x) s.
Proof. intros H Hf. unfold refused. by rewrite (run_bind _ _ _ _ _ H). Qed.

Lemma refused_connect {A} (c : RM A) s : ~ online s -> refused (get_connection ;;; c) s.
Proof. intros H. by apply refused_bind, get_connection_down. Qed.

Lemma silent_attempt {A} (c : RM A) s : refused c s -> silent (attempt c) s.
Proof. intros H. unfold silent, attempt. by rewrite H. Qed.

Lemma silent_after {A B} (c : RM A) (f : A -> RM (option B)) a s :
  c s = (Ok a, s) -> silent (f a) s -> silent (let* x := c in f x) s.
Proof. intros H Hf. unfold silent. by rewrite (run_bind _ _ _ _ _ H). Qed.

Ltac offline :=
  repeat first
    [ by apply refused_connect
    | apply silent_attempt
    | eapply refused_after; [reflexivity|]
    | eapply silent_after; [reflexivity|]
    | apply refused_bind ].

(** The error of a connection that is not one of the pool. *)
Definition client_error : KioError := RedisError "connection refused".

Lemma client_connection_down {A} (c : RM A) s :
  ~ online s -> (client_connection ;;; c) s = (Err client_error, s).
Proof.
  unfold online, client_connection. intros H. mrun. by destruct (up (rd_db (sy_store s))).
Qed.

(** The call that listens: it subscribes first, and a stream is read over a
    connection of the pool.  Nothing arrives on a channel. *)
Lemma listen_offline mode s :
  ~ online s ->
  listen_to_events (D := D) mode [] s =
    (if rd_subscribed (sy_store s)
     then match mode with PubSub => Ok tt | Stream => Err pool_error end
     else Err client_error, s).
Proof.
  intros H. unfold listen_to_events. rewrite (run_bind _ _ s (sy_store s) s) by done.
  destruct (rd_subscribed (sy_store s)).
  - rewrite run_ret_bind. destruct mode; [done|]. by apply refused_connect.
  - eapply run_bind_err. unfold online in H. by destruct (up (rd_db (sy_store s))).
Qed.

Lemma listener_offline mode s rounds :
  ~ online s -> rd_subscribed (sy_store s) = false ->
  redis_create_stream_listener (D := D) mode ([] :: rounds) s = (Err client_error, s).
Proof.
  intros H Hsub. unfold redis_create_stream_listener, create_listener_handle. cbn [listener].
  do 2 eapply run_bind_err. unfold process_queue_events. by rewrite listen_offline, Hsub.
Qed.

(** C20: the constructor, and every operation of the store that uses the server
    (all but [queue_name], [queue_prefix] and [purge_expired]), while the server
    cannot be reached.  None of them changes anything.  The constructor and every
    operation that returns a [KioResult] return the error of the connection pool,
    with these exceptions: [update_job_progress_sync] returns the error of the
    client, [fetch_jobs] of no identifiers returns no jobs, and [listen_to_events]
    returns the error of the client unless the store has subscribed before, in which
    case only the reading of a stream fails.  The five operations that return an
    option return [None], and [job_exists] panics. *)
Theorem offline (s : Sys) :
  ~ online s ->
  (* the constructor *)
  (forall now prefix name id, redis_new now prefix name id (rd_db (sy_store s)) = inl pool_error) /\
  (* the collections *)
  (forall col item, refused (redis_exists_in col item) s /\ refused (redis_remove_item col item) s) /\
  (forall col item score append, refused (redis_add_item col item score append) s) /\
  (forall col min, refused (redis_pop_set col min) s) /\
  (forall start stop, refused (redis_get_delayed_at start stop) s) /\
  (forall state start end_, refused (redis_get_job_ids_in_state state start end_) s) /\
  (forall src dst, silent (redis_pop_back_push_front src dst) s) /\
  (* keys, counters, locks and metadata *)
  (forall col secs, refused (redis_remove col) s /\ refused (redis_expire col secs) s) /\
  (forall field mode, refused (redis_metadata_field_exists field) s /\
     refused (redis_set_event_mode mode) s) /\
  (forall col delta hash_key, refused (redis_incr col delta hash_key) s /\
     silent (redis_get_counter col hash_key) s) /\
  (forall col token ttl, refused (redis_set_lock col token ttl) s) /\
  (* the records *)
  (forall id, silent (redis_get_job id) s /\ silent (redis_get_state id) s /\
     silent (redis_get_token id) s /\ redis_job_exists id s = (Panic, s)) /\
  (forall ids, redis_fetch_jobs ids s = (if decide (ids = []) then Ok [] else Err pool_error, s)) /\
  (forall id fields, refused (redis_set_fields id fields) s) /\
  (forall job value, refused (redis_update_job_progress job value) s /\
     redis_update_job_progress_sync job value s = (Err client_error, s)) /\
  (forall items qo mode paused, refused (redis_add_bulk items qo mode paused) s /\
     refused (redis_add_bulk_only items qo mode paused) s) /\
  (* the whole queue *)
  (forall last_id, refused redis_clear_collections s /\ refused (redis_clear_jobs last_id) s) /\
  (forall pause_, refused (redis_pause pause_) s /\ refused redis_get_metrics s) /\
  (forall m m' ttl, refused (redis_store_worker_metrics m ttl) s /\
     refused (redis_store_process_metrics m' ttl) s /\
     refused redis_fetch_worker_metrics s /\ refused redis_fetch_process_metrics s) /\
  (* events *)
  (forall mode event, refused (redis_publish_event mode event) s) /\
  (forall mode, listen_to_events mode [] s =
     (if rd_subscribed (sy_store s)
      then match mode with PubSub => Ok tt | Stream => Err pool_error end
      else Err client_error, s)) /\
  (forall mode rounds, rd_subscribed (sy_store s) = false ->
     redis_create_stream_listener mode ([] :: rounds) s = (Err client_error, s)).
Proof.
  intros H. split_and!; intros; split_and?; try offline.
  - unfold redis_new. unfold online in H. by destruct (up (rd_db (sy_store s))).
  - unfold redis_job_exists, online in *. mrun. by destruct (up (rd_db (sy_store s))).
  - destruct ids; [done|]. by apply refused_connect.
  - by apply client_connection_down.
  - by apply listen_offline.
  - by apply listener_offline.
Qed.

(** ** Pausing *)

Lemma lists_exist now m k l :
  holds m k (VList l) -> lookup_live now k m = if decide (l = []) then None else Some (mkEntry (VList l) None).
Proof. intros H. rewrite (lookup_live_holds now m k _ H). by destruct l. Qed.

Lemma found_list k l s :
  online s -> holds (keys s) k (VList l) ->
  exists s', attempt (let* r := command (Exists k) in parsed (as_bool r)) s =
      (Ok (Some (negb (bool_decide (l = [])))), s') /\
    space s' = space s /\ online s' /\ frame s s'.
Proof.
  intros Hu Hk.
  destruct (command_up (Exists k) s (bool_reply (negb (bool_decide (l = [])))) (space s) Hu)
    as (s' & E & S & U & F).
  - intros now. unfold respond, respond_keys. cbn [or_else]. change (ks_keys (space s)) with (keys s).
    rewrite (lists_exist now _ _ _ Hk). unfold keys. destruct (space s).
    by destruct (decide (l = [])) as [->|?]; [|rewrite (bool_decide_eq_false_2 (l = []))].
  - done.
  - exists s'. split; [|done]. unfold attempt. rewrite (run_bind _ _ _ _ _ E).
    by destruct (negb _).
Qed.

(** Renaming a list puts it in the place of the other one. *)
Lemma respond_rename now k k' ks l :
  k <> k' -> l <> [] -> holds (ks_keys ks) k (VList l) ->
  respond now (Rename k k') ks = (RStatus, with_key k' (VList l) (with_key k (VList []) ks)).
Proof.
  intros Hk Hl H. unfold respond, respond_keys. cbn [or_else].
  rewrite (lists_exist now _ _ _ H), decide_False by done. unfold with_key, put_plain.
  by destruct l; [|cbn].
Qed.

(** What the flag becomes. *)
Definition flagged (pause_ : bool) (h : Hash) : Hash :=
  if pause_ then <["paused" := ("1", None)]> h else delete "paused" h.

Lemma respond_flag k ks h (pause_ : bool) :
  lasting h -> holds (ks_keys ks) k (VHash h) ->
  exists n, forall now, respond now (if pause_ then Hset k [("paused", "1")] else Hdel k "paused") ks =
    (RInt n, with_key k (VHash (flagged pause_ h)) ks).
Proof.
  intros Hl H. pose proof (fun now => hash_at_holds now _ _ _ Hl H) as E. unfold respond.
  destruct pause_; cbn [or_else respond_keys respond_lists respond_sets]; eexists; intros now;
    unfold respond_hashes; rewrite E; cbn -[put put_plain];
    rewrite (put_plain_eq now (ks_keys ks) k _ _ H); reflexivity.
Qed.

(** The commands of [pause] and what they leave. *)
Lemma pause_answers (pause_ : bool) src dst meta lsrc h ks :
  src <> dst -> src <> meta -> dst <> meta -> lasting h ->
  holds (ks_keys ks) src (VList lsrc) -> holds (ks_keys ks) meta (VHash h) ->
  exists rs, answers
    ((if negb (bool_decide (lsrc = [])) then [Rename src dst] else []) ++
     [if pause_ then Hset meta [("paused", "1")] else Hdel meta "paused"]) ks rs
    (with_key meta (VHash (flagged pause_ h))
       (if decide (lsrc = []) then ks else with_key dst (VList lsrc) (with_key src (VList []) ks))).
Proof.
  intros N1 N2 N3 Hl Hs Hm. destruct (decide (lsrc = [])) as [->|Hn].
  - destruct (respond_flag meta ks h pause_ Hl Hm) as [n E].
    exists [RInt n]. by repeat econstructor.
  - rewrite bool_decide_eq_false_2 by done.
    destruct (respond_flag meta (with_key dst (VList lsrc) (with_key src (VList []) ks)) h pause_ Hl)
      as [n E]; [by apply holds_put_ne, holds_put_ne|].
    exists [RStatus; RInt n]. eapply answers_cons; [|done|by repeat econstructor].
    intros now. by apply respond_rename.
Qed.

(** C19: what [pause] does to the lists.  The list of waiting jobs, when it has
    jobs, takes the place of the list of paused jobs, and the other way round when
    the queue is resumed: what was in that place is lost.  An empty list leaves
    the other one as it is.  The flag in the metadata is set or removed, and no
    other key is touched. *)
Theorem redis_pause_moves (pause_ : bool) (s : Sys) (lsrc ldst : list string) (h : Hash) :
  let st := sy_store s in
  let src := key_of (if pause_ then CollectionSuffix.Wait else CollectionSuffix.Paused) st in
  let dst := key_of (if pause_ then CollectionSuffix.Paused else CollectionSuffix.Wait) st in
  let meta := key_of CollectionSuffix.Meta st in
  online s -> lasting h ->
  holds (keys s) src (VList lsrc) -> holds (keys s) dst (VList ldst) ->
  holds (keys s) meta (VHash h) ->
  exists s', redis_pause pause_ s = (Ok tt, s') /\ frame s s' /\
    holds (keys s') src (VList []) /\
    holds (keys s') dst (VList (if decide (lsrc = []) then ldst else lsrc)) /\
    holds (keys s') meta (VHash (flagged pause_ h)) /\
    (forall k, k <> src -> k <> dst -> k <> meta -> keys s' !! k = keys s !! k).
Proof.
  intros st src dst meta Hu Hl Hs Hd Hm. unfold redis_pause.
  assert (src <> dst /\ src <> meta /\ dst <> meta) as (N1 & N2 & N3).
  { unfold src, dst, meta. destruct pause_; split_and!; by apply key_ne. }
  rewrite !(run_bind _ _ _ _ _ (run_key _ s)), (run_bind _ _ _ _ _ (get_connection_up s Hu)).
  destruct (found_list src lsrc s Hu Hs) as (s1 & E1 & S1 & U1 & F1).
  destruct (pause_answers pause_ src dst meta lsrc h (space s1)) as [rs A];
    [done..|by rewrite S1|by rewrite S1|].
  destruct (query_up _ s1 rs _ U1 A) as (s2 & E2 & S2 & U2 & F2).
  exists s2. split.
  { transitivity ((query ((if negb (bool_decide (lsrc = [])) then [Rename src dst] else []) ++
      [if pause_ then Hset meta [("paused", "1")] else Hdel meta "paused"])%list ;;; m_ret tt) s1);
      [|by rewrite (run_bind _ _ _ _ _ E2)].
    unfold src, dst in *. destruct pause_; by rewrite (run_bind _ _ _ _ _ E1). }
  split; [by eapply frame_trans|]. unfold keys. rewrite S2, S1. unfold with_key. cbn [ks_keys].
  destruct (decide (lsrc = [])) as [->|Hn]; cbn [ks_keys].
  - split_and!; [by apply holds_put_ne..|apply put_holds|]. intros k _ _ Hk. by apply put_ne.
  - split_and!; [| |apply put_holds|].
    + do 2 (apply holds_put_ne; [done|]). apply put_holds.
    + apply holds_put_ne; [done|]. apply put_holds.
    + intros k K1 K2 K3. by rewrite !put_ne.
Qed.
End Props.

(** ** Witnesses *)

#[local] Existing Instance sample_extern.
#[local] Existing Instance ticking_clock.
#[local] Existing Instance sample_server.
#[local] Existing Instance sample_laws.
#[local] Existing Instance sample_json.
#[local] Existing Instance sample_uuids.

(** The sample queue on a server with the given data. *)
Definition served (reachable : bool) (ks : Keyspace) : SysOf RedisStore Z Z unit :=
  set_sy_store (set_rd_db (reachable, ks) (sample_redis "kio" "demo")) (sample_redis_sys "kio" "demo").

Definition two_lists : Keyspace :=
  mkKeyspace {[ "kio:demo:wait" := mkEntry (VList ["2"; "1"]) None;
                "kio:demo:paused" := mkEntry (VList ["9"]) None ]} [].

Lemma offline_witness :
  redis_new 0 None "demo" 7 (false, two_lists) = inl pool_error /\
  refused (redis_exists_in CollectionSuffix.Wait 2) (served false two_lists) /\
  silent (redis_get_job (D := Z) 1) (served false two_lists) /\
  redis_job_exists 1 (served false two_lists) = (Panic, served false two_lists).
Proof.
  destruct (offline (D := Z) (served false two_lists))
    as (Hnew & Hcol & _ & _ & _ & _ & _ & _ & _ & _ & _ & Hjob & _); [done|].
  destruct (Hjob 1) as (H1 & _ & _ & H2). split_and!; [apply Hnew|apply Hcol|exact H1|exact H2].
Defined.

Lemma redis_pause_moves_witness :
  exists s', redis_pause true (served true two_lists) = (Ok tt, s') /\
    holds (keys s') "kio:demo:wait" (VList []) /\ holds (keys s') "kio:demo:paused" (VList ["2"; "1"]).
Proof.
  destruct (redis_pause_moves true (served true two_lists) ["2"; "1"] ["9"] ∅)
    as (s' & H1 & _ & H2 & H3 & _); [done|by intros ? ? ?%lookup_empty_Some|done|done|done|].
  by exists s'.
Defined.
