(* ===== verification/RedisRecords.v ===== *)
(** * Records of jobs in Redis

    A job is written as the fields of a hash and read back from the fields in
    whatever order the server lists them. *)

From S2P Require Import Prelude SkipMap TimedMap Extern Schedule Job Options Events Shared Metrics InMemoryStore Names RedisServer RedisCodec RedisVersion RedisStore RedisFacts RedisSample.

Open Scope string_scope.
Open Scope Z_scope.

Section Records.
Context {EXT : Extern} {D R P : Type} {JS : Json D R P} {LAWS : JsonLaws D R P}.
Implicit Types job : Job D R P.

(** The names under which [Job] is serialized. *)
Definition field_names : list string :=
  ["id"; "timestamp"; "name"; "state"; "progress"; "attemptsMade"; "opts"; "delay"; "data";
   "returnedValue"; "stackTrace"; "failedReason"; "processedOn"; "finishedOn"; "queueName";
   "token"; "stalledCounter"; "logs"; "priority"].

Definition then_read (job : option (Job D R P)) (field : string * string) : option (Job D R P) :=
  job ≫= read_field field.

(** Two fields of different names are read in any order. *)
Lemma read_comm k k' b b' job :
  k ∈ field_names -> k' ∈ field_names -> k <> k' ->
  read_field (k, b) job ≫= read_field (k', b') = read_field (k', b') job ≫= read_field (k, b).
Proof.
  intros Hk Hk' Hne. unfold field_names in *.
  repeat (apply elem_of_cons in Hk as [->|Hk]); try (by apply elem_of_nil in Hk).
  all: repeat (apply elem_of_cons in Hk' as [->|Hk']); try (by apply elem_of_nil in Hk'); try done.
  all: unfold read_field; cbv beta iota;
    repeat match goal with
      | |- context [from_json ?t ?x] => generalize (from_json t x); intros []
      | |- context [date_from_json ?x] => generalize (date_from_json x); intros []
      | |- context [state_from_redis ?x] => generalize (state_from_redis x); intros []
      end; reflexivity.
Qed.

Lemma read_perm l l' oj :
  l ≡ₚ l' -> NoDup l.*1 -> Forall (fun p => p.1 ∈ field_names) l ->
  foldl then_read oj l = foldl then_read oj l'.
Proof.
  intros H. apply (foldl_bind_perm read_field (.∈ field_names)); [|done]. intros *. apply read_comm.
Qed.

(** ** What is read back *)

(** A value of the user whose text is [null] reads back as an absent one. *)
Definition seen (t : JTy) (x : option (jty t)) : option (jty t) :=
  match x with
  | Some v => if decide (to_json t v = Some "null") then None else Some v
  | None => None
  end.

(** Dates are kept to the microsecond. *)
Definition stored_date (dt : Dt) : option Dt := from_timestamp_micros (timestamp_micros dt).

Definition as_stored (job : Job D R P) : Job D R P :=
  mkJob (j_id job) (dt_or_epoch (stored_date (j_ts job))) (j_name job) (j_state job)
    (seen JProgress (j_progress job)) (j_attempts_made job) (j_opts job) (j_delay job)
    (seen JData (j_data job)) (seen JResult (j_returned_value job)) (j_stack_trace job)
    (j_failed_reason job) (j_processed_on job ≫= stored_date) (j_finished_on job ≫= stored_date)
    (j_queue_name job) (j_token job) (j_stalled_counter job) (j_logs job) (j_priority job).

Definition date_ok (dt : Dt) : Prop := 0 <= timestamp_micros dt < two63.
Definition for_some {A} (Q : A -> Prop) (x : option A) : Prop :=
  match x with Some a => Q a | None => True end.

(** The counters are unsigned 64-bit numbers, the dates after the epoch. *)
Definition job_ok (job : Job D R P) : Prop :=
  for_some u64_ok (j_id job) /\ u64_ok (j_attempts_made job) /\ u64_ok (j_delay job) /\
  u64_ok (j_stalled_counter job) /\ u64_ok (j_priority job) /\
  date_ok (j_ts job) /\ for_some date_ok (j_processed_on job) /\ for_some date_ok (j_finished_on job).

Lemma read_opt t (x : option (jty t)) s :
  is_opt t = false -> for_some (json_ok t) x -> to_json (JOpt t) x = Some s ->
  from_json (JOpt t) s = Some (seen t x).
Proof.
  intros Ho Hx E. rewrite (json_opt t x s E). destruct x as [v|]; cbn [seen].
  - pose proof (eq_trans (eq_sym (json_some t v)) E) as Es. rewrite Es. destruct (decide (s = "null")) as [->|Hs].
    + by rewrite decide_True.
    + rewrite decide_False by congruence. by rewrite (json_read t v s).
  - pose proof (eq_trans (eq_sym (json_none t)) E) as Es. injection Es as <-. by rewrite decide_True.
Qed.

Lemma seen_own t (x : option (jty t)) : is_opt t = false -> is_user t = false -> seen t x = x.
Proof.
  intros Ho Hu. destruct x as [v|]; [|done]. cbn. case_decide as E; [|done].
  by apply json_not_null in E.
Qed.

Lemma ok_any t (x : option (jty (D := D) (R := R) (P := P) t)) : t <> JU64 -> for_some (json_ok t) x.
Proof. by destruct x, t. Qed.

Lemma read_own t (x : option (jty t)) s :
  is_opt t = false -> is_user t = false -> for_some (json_ok t) x -> to_json (JOpt t) x = Some s ->
  from_json (JOpt t) s = Some x.
Proof. intros Ho Hu Hx E. rewrite (read_opt t x s) by done. by rewrite seen_own. Qed.

Lemma read_date (x : option Dt) s :
  for_some date_ok x -> to_json (JOpt JU64) (timestamp_micros <$> x) = Some s ->
  date_from_json s = Some (x ≫= stored_date).
Proof.
  intros Hx E. unfold date_from_json.
  rewrite (read_own JU64 (timestamp_micros <$> x) s); [|done|done| |done].
  - destruct x as [dt|]; [|done]. cbn in *. unfold stored_date. by rewrite cast_signed_small.
  - destruct x as [dt|]; [|done]. cbn in *. unfold date_ok, u64_ok, two63, two64 in *. lia.
Qed.

Lemma read_state st s : to_json JState st = Some s -> state_from_redis s = Some st.
Proof.
  intros E. unfold state_from_redis. replace (state_from_str s) with (@None JobState.t).
  - by apply (json_read JState st).
  - rewrite json_state in E. injection E as <-. by destruct st.
Qed.

Definition text_of (p : string * option string) (q : string * string) : Prop :=
  exists s, p.2 = Some s /\ q = (p.1, s).

Lemma serialized_pairs fields pairs :
  serialize_into_pairs fields = pairs -> pairs <> [] -> Forall2 text_of fields pairs.
Proof.
  unfold serialize_into_pairs. intros E Hn. destruct (mapM _ _) as [l|] eqn:Em; [|by subst].
  subst l. apply mapM_Some in Em. eapply Forall2_impl; [done|].
  intros [k o] q (s & Es & ->)%fmap_Some. by exists s.
Qed.

(** The fields of a job that serializes. *)
Definition texts (job : Job D R P) (pairs : list (string * string)) : Prop :=
  Forall2 text_of (job_fields job) pairs.

Lemma serialized job pairs :
  serialize_into_pairs (job_fields job) = pairs -> pairs <> [] -> texts job pairs.
Proof. apply serialized_pairs. Qed.

Lemma texts_names job pairs : texts job pairs -> pairs.*1 = field_names.
Proof.
  intros H. transitivity ((job_fields job).*1); [|done]. unfold texts in H. revert H.
  generalize (job_fields job). induction 1 as [|p q l l' (s & _ & ->) _ IH]; [done|].
  cbn. by rewrite IH.
Qed.

Lemma text_cons k o l pairs :
  Forall2 text_of ((k, o) :: l) pairs ->
  exists s pairs', o = Some s /\ pairs = (k, s) :: pairs' /\
    Forall2 text_of l pairs'.
Proof. intros (q & pairs' & (s & E & ->) & H & ->)%Forall2_cons_inv_l. by exists s, pairs'. Qed.

Lemma names_nodup job pairs : texts job pairs -> NoDup pairs.*1.
Proof. intros H. rewrite (texts_names job pairs H). apply (bool_decide_unpack _). by vm_compute. Qed.

Lemma read_texts now job pairs :
  job_ok job -> texts job pairs ->
  foldl then_read (Some (job_new now "" None None None)) pairs = Some (as_stored job).
Proof.
  intros (O1 & O2 & O3 & O4 & O5 & O6 & O7 & O8) H. unfold texts, job_fields in H.
  do 19 (apply text_cons in H as (? & ? & ? & -> & H)).
  apply Forall2_nil_inv_l in H as ->. cbn [fst snd] in *.
  repeat match goal with
    | H : to_json (JOpt JU64) (j_id job) = _ |- _ => apply (read_own JU64) in H; [|done..]
    | H : to_json (JOpt JU64) (_ <$> _) = _ |- _ => apply read_date in H; [|done]
    | H : to_json JU64 (timestamp_micros ?dt) = _ |- _ =>
        apply (fun E => read_date (Some dt) _ O6 (eq_trans (json_some JU64 _) E)) in H
    | H : to_json JState _ = _ |- _ => apply read_state in H
    | H : to_json (JOpt ?t) _ = _ |- _ =>
        first [ apply (read_own t) in H; [|done|done|by apply ok_any]
              | apply (read_opt t) in H; [|done|by apply ok_any] ]
    | H : to_json ?t _ = _ |- _ => apply (json_read t) in H; [|done..]
    end.
  cbn [foldl]. unfold then_read, read_field. cbv beta iota.
  repeat match goal with
    | H : ?x = Some _ |- context [?x] => rewrite H; cbn [fmap option_fmap option_map mbind option_bind unwrap_or]
    end.
  reflexivity.
Qed.
End Records.

(** ** Through the server *)

Section Stored.
Context {SRV : RedisServer} {RLAWS : RedisLaws} {EXT : Extern} {D R P X : Type} {JS : Json D R P}
  {JLAWS : JsonLaws D R P} {CLK : Clock}.
Abbreviation Sys := (SysOf RedisStore R P X).

Lemma job_from_texts now (job : Job D R P) pairs fields :
  job_ok job -> texts job pairs -> fields ≡ₚ pairs -> job_from_redis now fields = Some (as_stored job).
Proof.
  intros Hok Ht Hp. rewrite <- (read_texts now job pairs Hok Ht). symmetry. apply read_perm; [done| |].
  - by eapply names_nodup.
  - apply Forall_forall. intros p Hin. rewrite <- (texts_names job pairs Ht).
    by apply list_elem_of_fmap_2.
Qed.

(** A record that does not exist reads as a blank job, not as an absent one. *)
Lemma redis_missing_job (s : Sys) (id : Z) :
  online s -> keys s !! key_of (CollectionSuffix.Job id) (sy_store s) = None ->
  exists now s', redis_get_job (D := D) id s = (Ok (Some (job_new now "" None None None)), s').
Proof.
  intros Hu Hk. assert (Hh : holds (ks_keys (space s)) (key_of (CollectionSuffix.Job id) (sy_store s)) (VHash ∅)).
  { unfold holds. cbn [is_empty_value]. by rewrite bool_decide_eq_true_2. }
  destruct (command_up (Hgetall (key_of (CollectionSuffix.Job id) (sy_store s))) s _ _ Hu
    (fun now => respond_hgetall now _ _ _ (map_Forall_empty _) Hh)) as (s' & E & _); [done|].
  eexists _, _. unfold redis_get_job. rewrite (run_bind _ _ _ _ _ (run_key _ s)).
  unfold attempt. rewrite (run_bind _ _ _ _ _ (get_connection_up s Hu)), (run_bind _ _ _ _ _ E).
  cbn [as_job]. unfold utc_now, state, m_bind. rewrite map_to_list_empty. reflexivity.
Qed.

(** C18: a record is read back as it was written.  The job is written as a hash,
    which the server lists in an order of its own; what [get_job] reads from it is
    the job, with its dates cut to the microsecond, and with a value of the user
    whose text is [null] read as an absent one. *)
Theorem redis_record_roundtrip (s : Sys) (id : Z) (job : Job D R P) :
  let key := key_of (CollectionSuffix.Job id) (sy_store s) in
  let fields := serialize_into_pairs (job_fields job) in
  online s -> keys s !! key = None -> job_ok job -> fields <> [] ->
  exists r s1 s2, command (Hset key fields) s = (Ok r, s1) /\
    redis_get_job id s1 = (Ok (Some (as_stored job)), s2) /\ space s2 = space s1.
Proof.
  intros key fields Hu Hk Hok Hn.
  destruct (respond_record key fields (space s) Hn Hk) as [r Hr].
  destruct (command_up _ s _ _ Hu Hr) as (s1 & E1 & S1 & U1 & F1); [done|].
  assert (Ht : texts job fields) by (by apply serialized).
  assert (Hh : holds (ks_keys (space s1)) key (VHash (hash_of fields))) by (rewrite S1; apply put_holds).
  destruct (command_up (Hgetall key) s1 _ _ U1
    (fun now => respond_hgetall now _ _ _ (hash_of_lasting fields) Hh)) as (s2 & E2 & S2 & U2 & F2); [done|].
  exists (RInt r), s1, (set_sy_reads (S (sy_reads s2)) s2). split_and!; [done| |done].
  unfold redis_get_job. rewrite (run_bind _ _ _ _ _ (run_key _ s1)), (frame_key _ s s1 F1).
  unfold attempt. rewrite (run_bind _ _ _ _ _ (get_connection_up s1 U1)), (run_bind _ _ _ _ _ E2).
  cbn [as_job]. unfold utc_now, state, m_bind.
  by rewrite (job_from_texts _ job fields _ Hok Ht (hash_of_list fields (names_nodup job fields Ht))).
Qed.
End Stored.

(** ** Witness *)

#[local] Existing Instance sample_extern.
#[local] Existing Instance ticking_clock.
#[local] Existing Instance sample_server.
#[local] Existing Instance sample_laws.
#[local] Existing Instance sample_json.
#[local] Existing Instance sample_json_laws.

(** A date with nanoseconds; the record keeps the microseconds. *)
Definition mail_job : Job Z Z Z :=
  set_j_state JobState.Prioritized
    (job_new 1700000000123456789 "mail" (Some 5) (Some 7) (Some "kio:demo")).

Lemma redis_record_roundtrip_witness :
  exists r s1 s2,
    command (Hset "kio:demo:7" (serialize_into_pairs (job_fields mail_job)))
      (sample_redis_sys "kio" "demo") = (Ok r, s1) /\
    redis_get_job 7 s1 = (Ok (Some (set_j_ts 1700000000123456000 mail_job)), s2).
Proof.
  destruct (redis_record_roundtrip (sample_redis_sys "kio" "demo") 7 mail_job)
    as (r & s1 & s2 & H1 & H2 & _);
    [done|done|by vm_compute|done|].
  by exists r, s1, s2.
Defined.
