(* ===== verification/RedisInsert.v ===== *)
(** * Adding jobs to a Redis queue ([RedisStore::add], [prepare_for_insert])

    What [add] does to the waiting list, the records and the counter, for jobs
    that are to run at once and for jobs whose delay is refused, with the error
    that ends it. *)

From S2P Require Import Prelude SkipMap TimedMap Extern Schedule Job Options Events Shared Metrics InMemoryStore Names RedisServer RedisCodec RedisVersion RedisStore RedisFacts RedisSample.

Open Scope string_scope.
Open Scope Z_scope.

(** ** Batches *)

Section Batches.
Context {SRV : RedisServer} {LAWS : RedisLaws} {R P X : Type} {CLK : Clock}.
Abbreviation Sys := (SysOf RedisStore R P X).
Implicit Types s : Sys.

Lemma batched_chunks P0 fuel n cs Q s :
  (0 < n)%nat -> (length cs <= fuel)%nat -> pipeline_ok P0 cs Q -> online s -> P0 (space s) ->
  exists s', for_each (chunks fuel n cs) (fun p => query p ;;; m_ret tt) s = (Ok tt, s') /\
    Q (space s') /\ online s' /\ frame s s'.
Proof.
  intros Hn. revert P0 cs s. induction fuel as [|fuel IH]; intros P0 cs s Hl H Hu Hp.
  { destruct cs; [|cbn in Hl; lia]. inversion H; subst.
    exists s. split_and!; [done..|apply frame_refl]. }
  destruct cs as [|c cs]; cbn [chunks].
  { inversion H; subst. exists s. split_and!; [done..|apply frame_refl]. }
  set (l := c :: cs) in *. rewrite <- (take_drop n l) in H.
  apply pipeline_split in H as (P1 & H1 & H2).
  destruct (query_ok P0 (take n l) P1 s H1 Hu Hp) as (rs & s1 & K1 & K2 & K3 & K4).
  destruct (IH P1 (drop n l) s1) as (s2 & J1 & J2 & J3 & J4); [|done..|].
  { rewrite length_drop. unfold l in *. cbn [length] in *. lia. }
  exists s2. cbn [for_each]. rewrite (run_bind _ _ s tt s1) by (by rewrite (run_bind _ _ _ _ _ K1)).
  split_and!; [done..|by eapply frame_trans].
Qed.

Lemma batched_ok P0 cs Q s :
  pipeline_ok P0 cs Q -> online s -> P0 (space s) ->
  exists s', query_all_batched cs s = (Ok tt, s') /\ Q (space s') /\ online s' /\ frame s s'.
Proof. intros H Hu Hp. by eapply batched_chunks; [unfold chunk_size; lia|reflexivity|..]. Qed.

Lemma batched_chunks_fails P0 fuel n cs Q c e s :
  (0 < n)%nat -> (length cs < fuel)%nat -> pipeline_ok P0 cs Q ->
  (forall now ks, Q ks -> respond now c ks = (RError e, ks)) -> online s -> P0 (space s) ->
  exists s', for_each (chunks fuel n (cs ++ [c])%list) (fun p => query p ;;; m_ret tt) s =
      (Err (RedisError e), s') /\ Q (space s') /\ online s' /\ frame s s'.
Proof.
  intros Hn. revert P0 cs s. induction fuel as [|fuel IH]; intros P0 cs s Hl H Hc Hu Hp; [lia|].
  assert (exists x l, (cs ++ [c])%list = x :: l) as (x & l & E) by (destruct cs; eauto).
  cbn [chunks]. rewrite E, <- E. cbn [for_each].
  destruct (decide (length cs < n)%nat) as [Hlt|Hge].
  - rewrite take_ge by (rewrite length_app; cbn; lia).
    destruct (query_last_fails P0 cs Q c e s H Hc Hu Hp) as (s' & K1 & K2).
    exists s'. rewrite (run_bind_err _ _ s (RedisError e) s') by (by rewrite (run_bind_err _ _ _ _ _ K1)).
    done.
  - rewrite take_app_le, drop_app_le by lia. rewrite <- (take_drop n cs) in H.
    apply pipeline_split in H as (P1 & H1 & H2).
    destruct (query_ok P0 (take n cs) P1 s H1 Hu Hp) as (rs & s1 & K1 & K2 & K3 & K4).
    destruct (IH P1 (drop n cs) s1) as (s2 & J1 & J2 & J3 & J4); [|done..|].
    { rewrite length_drop. lia. }
    exists s2. rewrite (run_bind _ _ s tt s1) by (by rewrite (run_bind _ _ _ _ _ K1)).
    split_and!; [done..|by eapply frame_trans].
Qed.

Lemma batched_fails P0 cs Q c e s :
  pipeline_ok P0 cs Q -> (forall now ks, Q ks -> respond now c ks = (RError e, ks)) ->
  online s -> P0 (space s) ->
  exists s', query_all_batched (cs ++ [c])%list s = (Err (RedisError e), s') /\ Q (space s') /\
    online s' /\ frame s s'.
Proof.
  intros H Hc Hu Hp. eapply batched_chunks_fails; try done; [unfold chunk_size; lia|].
  rewrite length_app. cbn. lia.
Qed.
End Batches.

(** ** What the loop of [add] prepares *)

Section Insert.
Context {SRV : RedisServer} {LAWS : RedisLaws} {EXT : Extern} {UID : Uuids} {D R P X : Type}
  {JS : Json D R P} {CLK : Clock}.
Abbreviation Sys := (SysOf RedisStore R P X).
Abbreviation Item := (string * option JobOptions * D)%type.
Implicit Types s : Sys.

Definition opts_of (qo : QueueOpts) (item : Item) : JobOptions :=
  update_job_opts qo (unwrap_or JobOptions_default item.1.2).

(** The job is to run at once; or its delay is below the limit. *)
Definition at_once (qo : QueueOpts) (item : Item) : bool :=
  match jo_delay (opts_of qo item) with TimeMilis ms => ms =? 0 | FromCron _ => false end.
Definition too_soon (qo : QueueOpts) (item : Item) : bool :=
  match jo_delay (opts_of qo item) with
  | TimeMilis ms => (0 <? ms) && (ms <? MIN_DELAY_MS_LIMIT)
  | FromCron _ => false
  end.

(** The record that is written for a job that runs at once. *)
Definition ready_job (qo : QueueOpts) (queue_name : string) (now : Dt) (id : Z) (item : Item) :
    Job D R P :=
  set_j_id (Some id)
    (set_j_opts (opts_of qo item) (set_j_delay 0 (set_j_priority 0
      (job_new now item.1.1 (Some item.2) (jo_id (opts_of qo item)) (Some queue_name))))).

(** A delay that ends at a date whenever it begins. *)
Definition ends_dated (qo : QueueOpts) (item : Item) : Prop :=
  forall ms n, jo_delay (opts_of qo item) = TimeMilis ms -> dated (utc n) ms.

(** The item is handled by the theorems: no priority, and a record that can be
    written, or a delay that is refused. *)
Definition item_fit (qo : QueueOpts) (item : Item) : Prop :=
  jo_priority (opts_of qo item) = 0 /\
  (too_soon qo item = true /\ ends_dated qo item \/
   at_once qo item = true /\
   forall queue_name now id, serialize_into_pairs (job_fields (ready_job qo queue_name now id item)) <> []).

Definition event_cmd (k : string) (c : Cmd) : Prop :=
  (exists msg, c = Publish k msg) \/ (exists items, items <> [] /\ c = Xadd k items).

Definition queue_name_of (st : RedisStore) : string := rd_prefix st ++ ":" ++ rd_name st.

(** The commands that a list of items adds to the pipeline. *)
Inductive prepared (st : RedisStore) (qo : QueueOpts) : Z -> list Item -> list Cmd -> Prop :=
| prepared_nil id : prepared st qo id [] []
| prepared_ready id item items fields ev cmds :
    at_once qo item = true -> fields <> [] -> event_cmd (queue_name_of st ++ ":events") ev ->
    prepared st qo (id + 1) items cmds ->
    prepared st qo id (item :: items)
      (Lpush (to_lowercase (queue_name_of st ++ ":Wait")) (show id) ::
       Hset (queue_name_of st ++ ":" ++ show id) fields :: ev :: cmds)
| prepared_refused id item items cmds :
    at_once qo item = false -> prepared st qo (id + 1) items cmds ->
    prepared st qo id (item :: items) cmds.

Lemma prepare_at_once queue_name mode id pc opts (job : Job D R P) name s :
  jo_delay opts = TimeMilis 0 -> jo_priority opts = 0 ->
  exists ev n, prepare_for_insert queue_name mode false id pc opts job name s =
    (Ok (set_j_id (Some id) (set_j_opts opts (set_j_delay 0 (set_j_priority 0 job))),
         inr [Lpush (to_lowercase (queue_name ++ ":Wait")) (show id);
              Hset (queue_name ++ ":" ++ show id) (serialize_into_pairs (job_fields
                (set_j_id (Some id) (set_j_opts opts (set_j_delay 0 (set_j_priority 0 job))))));
              ev]),
     set_sy_reads n s) /\ event_cmd (queue_name ++ ":events") ev.
Proof.
  intros Hd Hp. unfold prepare_for_insert, utc_now, add_opts. rewrite Hd, Hp.
  cbv [m_bind state expect m_ret as_diff_ms]. cbn [fst snd sy_reads set_sy_reads].
  change (cast_unsigned 0) with 0. cbn [Z.ltb andb negb].
  destruct mode; eexists _, _; (split; [reflexivity|]).
  - left. by eexists.
  - right. eexists. split; [|reflexivity]. done.
Qed.

Lemma prepare_refused queue_name mode id pc opts (job : Job D R P) name s ms :
  jo_delay opts = TimeMilis ms -> 0 < ms < MIN_DELAY_MS_LIMIT -> (forall n, dated (utc n) ms) ->
  exists job' e n, prepare_for_insert queue_name mode false id pc opts job name s =
    (Ok (job', inl e), set_sy_reads n s).
Proof.
  intros Hd Hms Hdt. unfold prepare_for_insert, utc_now, add_opts. rewrite Hd.
  cbv [m_bind state]. cbn [fst snd sy_reads set_sy_reads]. rewrite (next_occurrance_dated _ ms) by done.
  cbv [expect m_ret as_diff_ms].
  rewrite cast_unsigned_small by (unfold u64_ok, two64, MIN_DELAY_MS_LIMIT in *; lia).
  destruct (Z.ltb_spec 0 ms), (Z.ltb_spec ms MIN_DELAY_MS_LIMIT); try lia. cbn [andb].
  by eexists _, _, _.
Qed.

Lemma wrapping_succ id : 0 <= id -> id + 1 < two64 -> wrapping_add_u64 id 1 = id + 1.
Proof. intros. apply cast_unsigned_small. unfold u64_ok. lia. Qed.

(** One round of the loop. *)
Lemma round_prepared qo mode acc item s :
  item_fit qo item -> 0 <= ad_id acc -> ad_id acc + 1 < two64 ->
  exists acc' cmds n, add_item_of qo mode false acc item s = (Ok acc', set_sy_reads n s) /\
    (forall items rest, prepared (sy_store s) qo (ad_id acc + 1) items rest ->
       prepared (sy_store s) qo (ad_id acc) (item :: items) (cmds ++ rest)%list) /\
    ad_pipeline acc' = (ad_pipeline acc ++ cmds)%list /\ ad_id acc' = ad_id acc + 1 /\
    ad_to_priorize acc' = ad_to_priorize acc /\
    j_id <$> ad_jobs acc' = ((j_id <$> ad_jobs acc) ++ [Some (ad_id acc)])%list.
Proof.
  destruct item as [[name opts] d]. intros [Hp Hfit] Hid Hlt. unfold add_item_of.
  set (o := update_job_opts qo (unwrap_or JobOptions_default opts)).
  change (opts_of qo (name, opts, d)) with o in *.
  cbv [utc_now state m_bind gets]. cbn [sy_store sy_reads set_sy_reads].
  change (rd_prefix (sy_store s) ++ ":" ++ rd_name (sy_store s)) with (queue_name_of (sy_store s)).
  set (job := job_new _ _ _ _ _). set (s0 := set_sy_reads _ s).
  destruct Hfit as [[Hs Hdt]|[Ho Hw]].
  - unfold too_soon in Hs. change (opts_of qo (name, opts, d)) with o in Hs.
    destruct (jo_delay o) as [ms|] eqn:Ed; [|done]. apply andb_true_iff in Hs as [H1 H2].
    apply Z.ltb_lt in H1, H2.
    destruct (prepare_refused (queue_name_of (sy_store s)) mode (ad_id acc) (ad_pc acc) o job name
      s0 ms Ed) as (job' & e & n & E); [done|by intros k; apply Hdt|]. rewrite E.
    eexists _, [], n. split; [reflexivity|]. cbn [ad_pipeline ad_id ad_to_priorize ad_jobs].
    rewrite Hp, wrapping_succ, orb_false_r, fmap_app by done. split_and!; try done.
    intros items rest Hr. apply prepared_refused; [|done].
    unfold at_once. change (opts_of qo (name, opts, d)) with o. rewrite Ed. apply Z.eqb_neq. lia.
  - pose proof Ho as Ho'. unfold at_once in Ho'. change (opts_of qo (name, opts, d)) with o in Ho'.
    destruct (jo_delay o) as [ms|] eqn:Ed; [|done]. apply Z.eqb_eq in Ho'. subst ms.
    destruct (prepare_at_once (queue_name_of (sy_store s)) mode (ad_id acc) (ad_pc acc) o job name
      s0 Ed Hp) as (ev & n & E & Hev). rewrite E.
    eexists _, _, n. split; [reflexivity|]. cbn [ad_pipeline ad_id ad_to_priorize ad_jobs].
    rewrite Hp, wrapping_succ, orb_false_r, fmap_app by done. split_and!; try done.
    intros items rest Hr. apply prepared_ready; [done|apply Hw|done|done].
Qed.

(** Identifiers the items of a batch get when they are queued at once. *)
Fixpoint queued_ids (qo : QueueOpts) (id : Z) (items : list Item) : list Z :=
  match items with
  | [] => []
  | item :: items' =>
      (if at_once qo item then [id] else []) ++ queued_ids qo (id + 1) items'
  end%list.

Lemma fold_prepared qo mode items acc s :
  Forall (item_fit qo) items -> 0 <= ad_id acc -> ad_id acc + Z.of_nat (length items) < two64 ->
  exists acc' cmds n, for_fold items acc (add_item_of qo mode false) s = (Ok acc', set_sy_reads n s) /\
    prepared (sy_store s) qo (ad_id acc) items cmds /\
    ad_pipeline acc' = (ad_pipeline acc ++ cmds)%list /\
    ad_id acc' = ad_id acc + Z.of_nat (length items) /\
    ad_to_priorize acc' = ad_to_priorize acc /\
    j_id <$> ad_jobs acc' =
      ((j_id <$> ad_jobs acc) ++ (Some <$> seqZ (ad_id acc) (Z.of_nat (length items))))%list.
Proof.
  intros Hfit. revert acc s. induction Hfit as [|item items Hi Hfit IH]; intros acc s Hid Hlt.
  { exists acc, [], (sy_reads s). cbn. rewrite !List.app_nil_r, Z.add_0_r.
    split_and!; [by destruct s|constructor|done..]. }
  cbn [length] in *.
  destruct (round_prepared qo mode acc item s Hi Hid) as (acc1 & c1 & n1 & E1 & P1 & L1 & I1 & T1 & J1);
    [lia|].
  destruct (IH acc1 (set_sy_reads n1 s)) as (acc2 & c2 & n2 & E2 & P2 & L2 & I2 & T2 & J2); [lia|lia|].
  rewrite I1 in *. exists acc2, (c1 ++ c2)%list, n2. cbn [for_fold].
  rewrite (run_bind _ _ _ _ _ E1), E2. split_and!.
  - done.
  - by apply P1.
  - by rewrite L2, L1, app_assoc.
  - lia.
  - by rewrite T2.
  - rewrite J2, J1, <- app_assoc. f_equal. rewrite (seqZ_cons (ad_id acc)) by lia. cbn.
    do 3 f_equal; lia.
Qed.

(** ** What the pipeline does *)

Definition stream_like (m : gmap string Entry) (k : string) : Prop :=
  m !! k = None \/ exists x, m !! k = Some (mkEntry (VStream x) None).

(** Collections that adding jobs from [id0] on leaves alone. *)
Definition untouched (id0 : Z) (c : CollectionSuffix.t) : Prop :=
  match c with
  | CollectionSuffix.Wait | CollectionSuffix.Events => False
  | CollectionSuffix.Job j => j < id0
  | _ => True
  end.

(** The data once the identifiers [q] are queued and the records [rec] written. *)
Definition added (st : RedisStore) (ks0 : Keyspace) (id0 : Z) (l0 : list string) (q rec : list Z)
    (ks : Keyspace) : Prop :=
  holds (ks_keys ks) (key_of CollectionSuffix.Wait st) (VList (rev (show <$> q) ++ l0)) /\
  stream_like (ks_keys ks) (key_of CollectionSuffix.Events st) /\
  (forall j, 0 <= j -> id0 <= j -> is_Some (ks_keys ks !! key_of (CollectionSuffix.Job j) st) <-> j ∈ rec) /\
  (forall c, suffix_ok c -> untouched id0 c -> ks_keys ks !! key_of c st = ks_keys ks0 !! key_of c st).

Lemma added_push st ks0 id0 l0 q rec id :
  cmd_ok (added st ks0 id0 l0 q rec) (Lpush (key_of CollectionSuffix.Wait st) (show id))
    (added st ks0 id0 l0 (q ++ [id]) rec).
Proof.
  intros now ks (Hw & Hev & Hj & Hc). rewrite (respond_push now _ _ _ _ true Hw). split; [done|].
  unfold with_key, added. cbn [snd ks_keys]. split_and!.
  - rewrite fmap_app, rev_app_distr. apply put_holds.
  - unfold stream_like in *. by rewrite put_ne by (by apply key_ne).
  - intros j H0 H1. rewrite put_ne by (by apply key_ne). by apply Hj.
  - intros c Ho Hu. rewrite put_ne; [by apply Hc|]. apply key_ne; [done|done|]. by intros <-.
Qed.

Lemma added_record st ks0 id0 l0 q rec id fields :
  fields <> [] -> 0 <= id -> id0 <= id -> id ∉ rec ->
  cmd_ok (added st ks0 id0 l0 q rec) (Hset (key_of (CollectionSuffix.Job id) st) fields)
    (added st ks0 id0 l0 q (rec ++ [id])).
Proof.
  intros Hf H0 Hid Hn now ks (Hw & Hev & Hj & Hc).
  destruct (respond_record (key_of (CollectionSuffix.Job id) st) fields ks Hf) as [r Hr].
  { destruct (ks_keys ks !! key_of (CollectionSuffix.Job id) st) eqn:E; [|done].
    exfalso. apply Hn, Hj; [done|done|]. by rewrite E. }
  rewrite Hr. split; [done|]. unfold with_key, added. cbn [snd ks_keys]. split_and!.
  - apply holds_put_ne; [by apply key_ne|done].
  - unfold stream_like in *. by rewrite put_ne by (by apply key_ne).
  - intros j Hj0 Hj1. rewrite elem_of_app, list_elem_of_singleton. destruct (decide (j = id)) as [->|Hne].
    + unfold put_plain. cbn [is_empty_value]. rewrite bool_decide_eq_false_2, lookup_insert_eq by (by apply fields_nonempty).
      split; [by right|by eexists].
    + rewrite put_ne by (apply key_ne; [done|done|congruence]). rewrite Hj by done.
      split; [by left|by intros [?|?]].
  - intros c Ho Hu. rewrite put_ne; [by apply Hc|]. apply key_ne; [done|done|].
    intros <-. cbn in Hu. lia.
Qed.

Lemma respond_entry now k items ks :
  items <> [] -> stream_like (ks_keys ks) k ->
  exists r x, respond now (Xadd k items) ks = (RBulk r, with_key k (VStream x) ks).
Proof.
  intros Hi Hs. unfold respond. cbn [or_else respond_keys respond_lists respond_sets respond_hashes].
  destruct items as [|i items]; [done|]. unfold respond_streams, stream_at, put, lookup_live, with_key, put_plain.
  destruct Hs as [Hs|(x & Hs)]; rewrite Hs; cbn.
  - eexists _, _. reflexivity.
  - destruct (next_entry_id now x) as [ms seq]. eexists _, _. reflexivity.
Qed.

Lemma added_event st ks0 id0 l0 q rec ev :
  event_cmd (key_of CollectionSuffix.Events st) ev ->
  cmd_ok (added st ks0 id0 l0 q rec) ev (added st ks0 id0 l0 q rec).
Proof.
  intros [[msg ->]|(items & Hi & ->)] now ks Ha; [done|].
  destruct Ha as (Hw & Hev & Hj & Hc).
  destruct (respond_entry now _ items ks Hi Hev) as (r & x & ->).
  split; [done|]. unfold with_key, added. cbn [snd ks_keys]. split_and!.
  - apply holds_put_ne; [by apply key_ne|done].
  - right. exists x. apply (put_holds _ _ (VStream x)).
  - intros j H0 H1. rewrite put_ne by (by apply key_ne). by apply Hj.
  - intros c Ho Hu. rewrite put_ne; [by apply Hc|]. apply key_ne; [done|done|]. by intros <-.
Qed.

(** Names that are written in lower case already. *)
Definition lower_named (st : RedisStore) : Prop :=
  to_lowercase (queue_name_of st) = queue_name_of st.

Lemma key_of_split c st :
  key_of c st = to_lowercase (queue_name_of st) ++ ":" ++ to_lowercase (display c).
Proof.
  unfold key_of, to_collection_name, queue_name_of. rewrite !to_lowercase_app, !string_app_assoc. done.
Qed.

Lemma lower_key c st :
  lower_named st -> key_of c st = queue_name_of st ++ ":" ++ to_lowercase (display c).
Proof. intros H. by rewrite key_of_split, H. Qed.

Lemma prepared_pipeline st ks0 id0 l0 qo id items cmds q rec :
  lower_named st -> 0 <= id -> id0 <= id -> Forall (fun j => j < id) rec -> prepared st qo id items cmds ->
  pipeline_ok (added st ks0 id0 l0 q rec) cmds
    (added st ks0 id0 l0 (q ++ queued_ids qo id items) (rec ++ queued_ids qo id items)).
Proof.
  intros Hlow H0 Hid Hrec Hp. revert q rec H0 Hid Hrec.
  induction Hp as [id|id item items fields ev cmds Ho Hf Hev Hp IH|id item items cmds Ho Hp IH];
    intros q rec H0 Hid Hrec; cbn [queued_ids].
  - rewrite !List.app_nil_r. constructor.
  - rewrite Ho, !(assoc_L (++)). replace (to_lowercase (queue_name_of st ++ ":Wait"))
      with (key_of CollectionSuffix.Wait st) by (by rewrite key_of_split, to_lowercase_app).
    replace (queue_name_of st ++ ":" ++ show id) with (key_of (CollectionSuffix.Job id) st)
      by (rewrite lower_key by done; cbn [display]; by rewrite lower_show).
    eapply pipeline_cons; [apply added_push|]. eapply pipeline_cons.
    { apply added_record; [done..|]. intros Hin. rewrite Forall_forall in Hrec.
      specialize (Hrec id Hin). lia. }
    eapply pipeline_cons; [apply added_event; by rewrite lower_key|]. apply IH; [lia|lia|].
    apply Forall_app. split; [|by constructor; [lia|]]. eapply Forall_impl; [done|]. cbn. lia.
  - rewrite Ho. apply IH; [lia|lia|]. eapply Forall_impl; [done|]. cbn. lia.
Qed.

(** ** Counters *)

(** The text of a number, or no key at all when it was never set. *)
Definition counter_at (m : gmap string Entry) (k : string) (c : Z) : Prop :=
  m !! k = None /\ c = 0 \/ m !! k = Some (mkEntry (VString (show c)) None).

Lemma read_counter k c s :
  online s -> counter_at (keys s) k c -> 0 <= c < two64 ->
  exists r o s', command (Get k) s = (Ok r, s') /\ as_opt_u64 r = Some o /\ unwrap_or 0 o = c /\
    space s' = space s /\ online s' /\ frame s s'.
Proof.
  intros Hu Hk Hc.
  assert (exists r o, (forall now, respond now (Get k) (space s) = (r, space s)) /\
            is_error r = None /\ as_opt_u64 r = Some o /\ unwrap_or 0 o = c) as (r & o & H1 & H2 & H3 & H4).
  { unfold respond, respond_keys, string_at, lookup_live. cbn [or_else].
    change (ks_keys (space s)) with (keys s). destruct (space s) as [m p] eqn:E.
    assert (keys s = m) as Ek by (unfold keys; by rewrite E). rewrite Ek in *.
    destruct Hk as [[Hk ->]|Hk]; rewrite Hk; cbn.
    - by exists RNil, None.
    - exists (RBulk (show c)), (Some c). split_and!; [done..| |done]. cbn. by rewrite parse_show_u64. }
  destruct (command_up (Get k) s r (space s) Hu H1 H2) as (s' & K1 & K2 & K3 & K4).
  by exists r, o, s'.
Qed.

Lemma respond_incrby now k c delta ks :
  counter_at (ks_keys ks) k c -> 0 <= c < two63 -> 0 <= delta < two63 ->
  respond now (Incrby k delta) ks =
  if c + delta <? two63 then (RInt (c + delta), with_key k (VString (show (c + delta))) ks)
  else (would_overflow, ks).
Proof.
  intros Hk Hc Hd. unfold respond, respond_keys, string_at, add_text, put, lookup_live, with_key, put_plain.
  cbn [or_else is_empty_value]. rewrite !bool_decide_eq_true_2 by (unfold i64_ok, two63 in *; lia).
  destruct Hk as [[-> ->]|Hk]; [|rewrite Hk]; cbn -[two63 Z.ltb Z.add].
  - rewrite Z.add_0_l. destruct (Z.ltb_spec delta two63); [done|lia].
  - rewrite parse_i64_show by done. destruct (Z.ltb_spec (c + delta) two63).
    + by rewrite bool_decide_eq_true_2 by (unfold i64_ok, two63 in *; lia).
    + rewrite bool_decide_eq_false_2 by (unfold i64_ok, two63 in *; lia). by destruct ks.
Qed.

(** ** The theorem *)

(** The identifiers [q] are queued in front of [l0] and have records, the counter
    is [c'], and the other collections are as in [ks0]. *)
Definition inserted (st : RedisStore) (ks0 : Keyspace) (c : Z) (l0 : list string) (q : list Z)
    (c' : Z) (ks : Keyspace) : Prop :=
  holds (ks_keys ks) (key_of CollectionSuffix.Wait st) (VList (rev (show <$> q) ++ l0)) /\
  (forall j, c < j -> is_Some (ks_keys ks !! key_of (CollectionSuffix.Job j) st) <-> j ∈ q) /\
  counter_at (ks_keys ks) (key_of CollectionSuffix.Id st) c' /\
  (forall x, suffix_ok x -> untouched (c + 1) x -> x <> CollectionSuffix.Id ->
     ks_keys ks !! key_of x st = ks_keys ks0 !! key_of x st).

Lemma added_inserted st ks0 c l0 q ks :
  0 <= c -> counter_at (ks_keys ks0) (key_of CollectionSuffix.Id st) c ->
  added st ks0 (c + 1) l0 q q ks -> inserted st ks0 c l0 q c ks.
Proof.
  intros Hc Hk (Hw & _ & Hj & Hx). split_and!; [done| | |].
  - intros j Hlt. apply Hj; lia.
  - unfold counter_at. by rewrite Hx.
  - intros x Ho Hu _. by apply Hx.
Qed.

Lemma added_counted st ks0 c l0 q delta :
  0 <= c -> 0 <= delta -> c + delta < two63 ->
  counter_at (ks_keys ks0) (key_of CollectionSuffix.Id st) c ->
  cmd_ok (added st ks0 (c + 1) l0 q q) (Incrby (key_of CollectionSuffix.Id st) delta)
    (inserted st ks0 c l0 q (c + delta)).
Proof.
  intros Hc Hd Hlt Hk now ks Ha.
  apply added_inserted in Ha as (Hw & Hj & Hi & Hx); [|done..].
  rewrite (respond_incrby now _ c) by (done || lia).
  destruct (Z.ltb_spec (c + delta) two63); [|lia]. split; [done|].
  unfold with_key, inserted. cbn [snd ks_keys]. split_and!.
  - apply holds_put_ne; [by apply key_ne|done].
  - intros j Hlt'. rewrite put_ne by (apply key_ne; cbn; [done|lia|done]). by apply Hj.
  - right. apply (put_holds _ _ (VString _)).
  - intros x Ho Hu Hne. rewrite put_ne by (by apply key_ne). by apply Hx.
Qed.

Definition overflow_error : KioError := RedisError "ERR increment or decrement would overflow".

(** The pipeline, with the increment that ends it. *)
Lemma pipeline_counted qo items cmds s c l0 delta :
  let q := queued_ids qo (c + 1) items in
  online s -> lower_named (sy_store s) -> 0 <= c < two63 -> 0 <= delta < two63 ->
  prepared (sy_store s) qo (c + 1) items cmds ->
  counter_at (keys s) (key_of CollectionSuffix.Id (sy_store s)) c ->
  added (sy_store s) (space s) (c + 1) l0 [] [] (space s) ->
  exists s', query_all_batched (cmds ++ [Incrby (key_of CollectionSuffix.Id (sy_store s)) delta]) s =
      (if c + delta <? two63 then Ok tt else Err overflow_error, s') /\
    inserted (sy_store s) (space s) c l0 q (if c + delta <? two63 then c + delta else c) (space s') /\
    frame s s'.
Proof.
  intros q Hu Hlow Hc Hd Hp Hk Ha.
  assert (Hpipe : pipeline_ok (added (sy_store s) (space s) (c + 1) l0 [] []) cmds
            (added (sy_store s) (space s) (c + 1) l0 q q)).
  { apply (prepared_pipeline _ (space s) (c + 1) l0 qo (c + 1) items cmds [] []); try done; lia. }
  destruct (Z.ltb_spec (c + delta) two63) as [Hlt|Hge].
  - destruct (batched_ok _ (cmds ++ [Incrby (key_of CollectionSuffix.Id (sy_store s)) delta]) _ s
      (pipeline_app _ _ _ _ _ Hpipe (pipeline_cons _ _ _ _ _ (added_counted _ _ c l0 q delta
        (proj1 Hc) (proj1 Hd) Hlt Hk) (pipeline_nil _))) Hu Ha) as (s' & E & Hi & _ & F).
    by exists s'.
  - destruct (batched_fails _ cmds _ (Incrby (key_of CollectionSuffix.Id (sy_store s)) delta)
      "ERR increment or decrement would overflow" s Hpipe) as (s' & E & Hi & _ & F); [|done|done|].
    { intros now ks (_ & _ & _ & Hx). rewrite (respond_incrby now _ c); [|by unfold counter_at; rewrite Hx|done..].
      destruct (Z.ltb_spec (c + delta) two63); [lia|done]. }
    exists s'. split_and!; [done|apply added_inserted; [lia|done..]|done].
Qed.

(** [add] up to the last read, with the keys it has made, and the rest of it. *)
Definition add_reads : KM Sys (string * string * AddState (D := D) (R := R) (P := P)) :=
  get_connection ;;;
  let* id_key := key CollectionSuffix.Id in
  let* pc_key := key CollectionSuffix.PriorityCounter in
  let* r := command (Get id_key) in
  let* id := parsed (as_opt_u64 r) in
  let* r := command (Get pc_key) in
  let* prior_counter := parsed (as_opt_u64 r) in
  m_ret (id_key, pc_key, mkAdd (wrapping_add_u64 (unwrap_or 0 id) 1)
                           (wrapping_add_u64 (unwrap_or 0 prior_counter) 1) false [] []).

Definition add_writes (items : list Item) (qo : QueueOpts) (mode : QueueEventMode)
    (is_paused return_jobs : bool) (start : string * string * AddState (D := D) (R := R) (P := P)) :
    KM Sys (list (Job D R P)) :=
  let '(id_key, pc_key, start) := start in
  let* acc := for_fold items start (add_item_of qo mode is_paused) in
  query_all_batched
    (ad_pipeline acc ++ [Incrby id_key (Z.max 0 (ad_id acc - 1))] ++
     (if ad_to_priorize acc then [Incrby pc_key (Z.max 0 (ad_pc acc - 1))] else []))%list ;;;
  m_ret (if return_jobs then ad_jobs acc else []).

Lemma add_two_halves items qo mode is_paused return_jobs s :
  add items qo mode is_paused return_jobs s =
  (let* start := add_reads in add_writes items qo mode is_paused return_jobs start) s.
Proof.
  unfold add, add_reads, add_writes. cbv [m_bind]. repeat (case_match; try done); by simplify_eq.
Qed.

(** The first half reads the counters and changes nothing. *)
Lemma reads_run s c p :
  let st := sy_store s in
  online s -> 0 <= c -> c + 1 < two63 -> 0 <= p < two64 ->
  counter_at (keys s) (key_of CollectionSuffix.Id st) c ->
  counter_at (keys s) (key_of CollectionSuffix.PriorityCounter st) p ->
  exists pc s', add_reads s = (Ok (key_of CollectionSuffix.Id st, key_of CollectionSuffix.PriorityCounter st,
      mkAdd (c + 1) pc false [] []), s') /\
    space s' = space s /\ online s' /\ frame s s'.
Proof.
  intros st Hu Hc Hn Hp Hid Hpc. unfold add_reads.
  rewrite (run_bind _ _ _ _ _ (get_connection_up s Hu)).
  rewrite (run_bind _ _ _ _ _ (run_key CollectionSuffix.Id s)).
  rewrite (run_bind _ _ _ _ _ (run_key CollectionSuffix.PriorityCounter s)).
  destruct (read_counter _ c s Hu Hid) as (r1 & o1 & s1 & E1 & A1 & V1 & S1 & U1 & F1);
    [unfold two63, two64 in *; lia|].
  rewrite (run_bind _ _ _ _ _ E1), A1. cbn [parsed]. rewrite run_ret_bind.
  unfold keys in Hpc. rewrite <- S1 in Hpc.
  destruct (read_counter _ p s1 U1 Hpc Hp) as (r2 & o2 & s2 & E2 & A2 & V2 & S2 & U2 & F2).
  rewrite (run_bind _ _ _ _ _ E2), A2. cbn [parsed]. rewrite run_ret_bind, V1, V2.
  rewrite wrapping_succ by (unfold two63, two64 in *; lia).
  exists (wrapping_add_u64 p 1), s2. split_and!; [done|congruence|done|by eapply frame_trans].
Qed.
(** The counters are read first. *)
Lemma add_starts qo mode items s c p :
  online s -> 0 <= c -> c + 1 < two63 -> 0 <= p < two64 ->
  counter_at (keys s) (key_of CollectionSuffix.Id (sy_store s)) c ->
  counter_at (keys s) (key_of CollectionSuffix.PriorityCounter (sy_store s)) p ->
  exists pc s', frame s s' /\ space s' = space s /\ online s' /\
    add items qo mode false true s =
    (let* acc := for_fold items (mkAdd (c + 1) pc false [] []) (add_item_of qo mode false) in
     query_all_batched
       (ad_pipeline acc ++ [Incrby (key_of CollectionSuffix.Id (sy_store s)) (Z.max 0 (ad_id acc - 1))] ++
        (if ad_to_priorize acc
         then [Incrby (key_of CollectionSuffix.PriorityCounter (sy_store s)) (Z.max 0 (ad_pc acc - 1))]
         else []))%list ;;;
     m_ret (ad_jobs acc)) s'.
Proof.
  intros Hu Hc Hn Hp Hid Hpc. rewrite add_two_halves.
  destruct (reads_run s c p Hu Hc Hn Hp Hid Hpc) as (pc & s' & E & S & U & F).
  exists pc, s'. split_and!; [done..|]. by rewrite (run_bind _ _ _ _ _ E).
Qed.

(** C9: adding jobs to a Redis queue.  Every item gets the next identifier, also
    one whose delay is refused: its error is dropped, its job is returned, and it
    is neither queued nor recorded.  The other jobs are at the head of the
    waiting list in reverse order and have records; the other collections are as
    they were.  The counter is moved by the last identifier and not by the number
    of jobs, so that it doubles with each call; once the sum leaves the range of
    the server's integers the call fails after the jobs have been queued, and the
    next call gives out the same identifiers again. *)
Theorem redis_add (qo : QueueOpts) (mode : QueueEventMode) (items : list Item) (s : Sys)
    (c p : Z) (l0 : list string) :
  let st := sy_store s in
  let n := Z.of_nat (length items) in
  online s -> lower_named st -> Forall (item_fit qo) items ->
  0 <= c -> c + n + 1 < two63 -> 0 <= p < two64 ->
  holds (keys s) (key_of CollectionSuffix.Wait st) (VList l0) ->
  stream_like (keys s) (key_of CollectionSuffix.Events st) ->
  (forall j, c < j -> keys s !! key_of (CollectionSuffix.Job j) st = None) ->
  counter_at (keys s) (key_of CollectionSuffix.Id st) c ->
  counter_at (keys s) (key_of CollectionSuffix.PriorityCounter st) p ->
  exists jobs s', add items qo mode false true s =
      (if c + (c + n) <? two63 then Ok jobs else Err overflow_error, s') /\
    j_id <$> jobs = Some <$> seqZ (c + 1) n /\
    inserted st (space s) c l0 (queued_ids qo (c + 1) items)
      (if c + (c + n) <? two63 then c + (c + n) else c) (space s') /\
    frame s s'.
Proof.
  intros st n Hu Hlow Hfit Hc Hn Hp Hw Hev Hj Hid Hpc.
  assert (Ha : added st (space s) (c + 1) l0 [] [] (space s)).
  { split_and!; [done|done| |done]. intros j H0 H1. unfold keys in Hj. rewrite Hj by lia.
    split; [by intros []|]. by intros ?%elem_of_nil. }
  destruct (add_starts qo mode items s c p) as (pc & s2 & F & S & U & ->); [done|done|lia|done..|].
  destruct (fold_prepared qo mode items (mkAdd (c + 1) pc false [] []) s2 Hfit)
    as (acc & cmds & k & E & Hprep & Hpipe & Haid & Htp & Hjobs);
    [cbn [ad_id]; unfold two63, two64 in *; lia..|].
  rewrite (run_bind _ _ _ _ _ E), Htp, Hpipe, Haid. cbn [ad_id ad_to_priorize ad_pipeline app].
  replace (Z.max 0 (c + 1 + Z.of_nat (length items) - 1)) with (c + n) by lia.
  destruct F as (d & m & ->).
  set (s2 := set_sy_reads k _). change (space s2 = space s) in S.
  destruct (pipeline_counted qo items cmds s2 c l0 (c + n)) as (s3 & E3 & Hi & F);
    [done|done|lia|lia|done|unfold keys; by rewrite S|by rewrite S|].
  exists (ad_jobs acc), s3. split_and!; [|done|by rewrite <- S|].
  - destruct (c + (c + n) <? two63).
    + by rewrite (run_bind _ _ _ _ _ E3).
    + by rewrite (run_bind_err _ _ _ _ _ E3).
  - apply (frame_trans s s2 s3); [|done]. by exists d, k.
Qed.
End Insert.

(** ** Witness *)

#[local] Existing Instance sample_extern.
#[local] Existing Instance ticking_clock.
#[local] Existing Instance sample_server.
#[local] Existing Instance sample_laws.
#[local] Existing Instance sample_json.
#[local] Existing Instance sample_uuids.

(** Two jobs, and between them one whose delay of 5 ms is refused. *)
Definition soon : JobOptions := mkJobOptions 0 (TimeMilis 5) None 0 None None None None.
Definition sample_items : list (string * option JobOptions * Z) :=
  [("first", None, 1); ("soon", Some soon, 2); ("last", None, 3)].

Lemma sample_items_fit : Forall (item_fit (JS := sample_json) QueueOpts_default) sample_items.
Proof.
  repeat (apply Forall_cons; split); [| | |by apply Forall_nil].
  - split; [done|]. right. by split.
  - split; [done|]. left. split; [done|]. intros ms n [= <-].
    unfold dated, milliseconds. cbn. lia.
  - split; [done|]. right. by split.
Qed.

(** A queue whose counter stands at the largest value the server holds, but ten. *)
Definition worn_sys : SysOf RedisStore Z Z unit :=
  set_sy_store (set_rd_db (true, mkKeyspace {[ "kio:demo:id" := mkEntry (VString (show (two63 - 11))) None ]} [])
    (sample_redis "kio" "demo")) (sample_redis_sys "kio" "demo").

Lemma redis_add_witness :
  (exists jobs s', add sample_items QueueOpts_default PubSub false true (sample_redis_sys "kio" "demo") =
      (Ok jobs, s') /\ j_id <$> jobs = [Some 1; Some 2; Some 3] /\
    holds (keys s') "kio:demo:wait" (VList ["3"; "1"]) /\ counter_at (keys s') "kio:demo:id" 3) /\
  exists s', add sample_items QueueOpts_default PubSub false true worn_sys = (Err overflow_error, s') /\
    holds (keys s') "kio:demo:wait" (VList ["9223372036854775800"; "9223372036854775798"]).
Proof.
  pose proof sample_items_fit as Hfit.
  split.
  - destruct (redis_add QueueOpts_default PubSub sample_items (sample_redis_sys "kio" "demo") 0 0 [])
      as (jobs & s' & H1 & H2 & (H3 & _ & H4 & _) & _);
      [done|done|done|unfold two63, two64; cbn; lia..|done|by left|done|by left|by left|].
    exists jobs, s'. by split_and!.
  - destruct (redis_add QueueOpts_default PubSub sample_items worn_sys (two63 - 11) 0 [])
      as (jobs & s' & H1 & _ & (H3 & _) & _);
      [done|done|done|unfold two63, two64; cbn; lia..|done|by left| |by right|by left|].
    { intros j Hj. apply lookup_singleton_ne, (key_ne CollectionSuffix.Id (CollectionSuffix.Job j)
        (sample_redis "kio" "demo")); [done|unfold two63 in *; cbn; lia|done]. }
    exists s'. by split_and!.
Defined.
