(* ===== verification/RedisRace.v ===== *)
(** * Two callers adding jobs to one Redis queue ([RedisStore::add])

    [add] reads the counters, chooses identifiers, and writes the jobs.  The keys
    are watched, but the writes are plain pipelines, so nothing notices another
    caller in between.  Here a second caller adds its jobs between the reads and
    the writes of the first. *)

From S2P Require Import Prelude SkipMap TimedMap Extern Schedule Job Options Events Shared Metrics InMemoryStore Names RedisServer RedisCodec RedisVersion RedisStore RedisFacts RedisSample RedisInsert.

#[local] Open Scope string_scope.
#[local] Open Scope Z_scope.

Section Race.
Context {SRV : RedisServer} {LAWS : RedisLaws} {EXT : Extern} {UID : Uuids} {D R P X : Type}
  {JS : Json D R P} {CLK : Clock}.
Abbreviation Sys := (SysOf RedisStore R P X).
Abbreviation RM A := (KM Sys A).
Abbreviation Item := (string * option JobOptions * D)%type.
Implicit Types s : Sys.

(** ** What both callers keep *)

Definition hash_like (m : gmap string Entry) (k : string) : Prop := exists h, holds m k (VHash h).

(** The waiting list, the event stream, records from [id0] on that are hashes,
    and the counter. *)
Definition shared (st : RedisStore) (id0 : Z) (l : list string) (c : Z) (ks : Keyspace) : Prop :=
  holds (ks_keys ks) (key_of CollectionSuffix.Wait st) (VList l) /\
  stream_like (ks_keys ks) (key_of CollectionSuffix.Events st) /\
  (forall j, 0 <= j -> id0 <= j -> hash_like (ks_keys ks) (key_of (CollectionSuffix.Job j) st)) /\
  counter_at (ks_keys ks) (key_of CollectionSuffix.Id st) c.

(** Writing a key other than the four leaves them. *)
Lemma respond_fields now k fields ks :
  fields <> [] -> hash_like (ks_keys ks) k ->
  exists r h, respond now (Hset k fields) ks = (RInt r, with_key k (VHash h) ks).
Proof.
  intros Hf [h Hk]. unfold respond. cbn [or_else respond_keys respond_lists respond_sets].
  destruct fields as [|p fields]; [done|]. unfold respond_hashes, hash_at.
  rewrite (lookup_live_holds now _ _ _ Hk). cbn [is_empty_value].
  destruct (bool_decide (h = ∅)); cbn [fmap option_fmap option_map en_value];
    rewrite (put_plain_eq now (ks_keys ks) k _ _ Hk); eexists _, _; reflexivity.
Qed.

Lemma shared_push st id0 l c id :
  cmd_ok (shared st id0 l c) (Lpush (key_of CollectionSuffix.Wait st) (show id)) (shared st id0 (show id :: l) c).
Proof.
  intros now ks (Hw & Hev & Hj & Hc). rewrite (respond_push now _ _ _ _ true Hw). split; [done|].
  unfold with_key, shared. cbn [snd ks_keys]. split_and!.
  - apply put_holds.
  - unfold stream_like in *. by rewrite put_ne by (by apply key_ne).
  - intros j H0 Hid. destruct (Hj j H0 Hid) as [h Hh]. exists h. apply holds_put_ne; [by apply key_ne|done].
  - unfold counter_at in *. by rewrite put_ne by (by apply key_ne).
Qed.

Lemma shared_record st id0 l c id fields :
  fields <> [] -> 0 <= id -> id0 <= id ->
  cmd_ok (shared st id0 l c) (Hset (key_of (CollectionSuffix.Job id) st) fields) (shared st id0 l c).
Proof.
  intros Hf H0 Hid now ks (Hw & Hev & Hj & Hc).
  destruct (respond_fields now _ fields ks Hf (Hj id H0 Hid)) as (r & h & ->). split; [done|].
  unfold with_key, shared. cbn [snd ks_keys]. split_and!.
  - apply holds_put_ne; [by apply key_ne|done].
  - unfold stream_like in *. by rewrite put_ne by (by apply key_ne).
  - intros j Hj0 Hj1. destruct (decide (j = id)) as [->|Hne]; [exists h; apply put_holds|].
    destruct (Hj j Hj0 Hj1) as [h' Hh]. exists h'.
    apply holds_put_ne; [apply key_ne; [done|done|congruence]|done].
  - unfold counter_at in *. by rewrite put_ne by (by apply key_ne).
Qed.

Lemma shared_event st id0 l c ev :
  event_cmd (key_of CollectionSuffix.Events st) ev -> cmd_ok (shared st id0 l c) ev (shared st id0 l c).
Proof.
  intros [[msg ->]|(items & Hi & ->)] now ks Ha; [done|]. destruct Ha as (Hw & Hev & Hj & Hc).
  destruct (respond_entry now _ items ks Hi Hev) as (r & x & ->). split; [done|].
  unfold with_key, shared. cbn [snd ks_keys]. split_and!.
  - apply holds_put_ne; [by apply key_ne|done].
  - right. eexists. apply (put_holds _ _ (VStream x)).
  - intros j H0 Hid. destruct (Hj j H0 Hid) as [h Hh]. exists h. apply holds_put_ne; [by apply key_ne|done].
  - unfold counter_at in *. by rewrite put_ne by (by apply key_ne).
Qed.

(** The identifiers of a batch, in the order of the waiting list. *)
Definition pushed (qo : QueueOpts) (id : Z) (items : list Item) : list string :=
  rev (show <$> queued_ids qo id items).

Lemma shared_pipeline st id0 qo id items cmds l c :
  lower_named st -> 0 <= id -> id0 <= id -> prepared st qo id items cmds ->
  pipeline_ok (shared st id0 l c) cmds (shared st id0 (pushed qo id items ++ l)%list c).
Proof.
  intros Hlow H0 Hid Hp. revert l H0 Hid. unfold pushed.
  induction Hp as [id|id item items fields ev cmds Ho Hf Hev Hp IH|id item items cmds Ho Hp IH];
    intros l H0 Hid; cbn [queued_ids].
  - constructor.
  - rewrite Ho. replace (to_lowercase (queue_name_of st ++ ":Wait"))
      with (key_of CollectionSuffix.Wait st) by (by rewrite key_of_split, to_lowercase_app).
    replace (queue_name_of st ++ ":" ++ show id) with (key_of (CollectionSuffix.Job id) st)
      by (rewrite lower_key by done; cbn [display]; by rewrite lower_show).
    rewrite fmap_app, rev_app_distr, <- (assoc_L (++)). cbn [fmap list_fmap rev app].
    eapply pipeline_cons; [apply shared_push|]. eapply pipeline_cons; [by apply shared_record|].
    eapply pipeline_cons; [apply shared_event; by rewrite lower_key|]. apply IH; lia.
  - rewrite Ho. apply IH; lia.
Qed.

Lemma shared_counted st id0 l c delta :
  0 <= c -> 0 <= delta -> c + delta < two63 ->
  cmd_ok (shared st id0 l c) (Incrby (key_of CollectionSuffix.Id st) delta) (shared st id0 l (c + delta)).
Proof.
  intros Hc Hd Hlt now ks (Hw & Hev & Hj & Hk).
  rewrite (respond_incrby now _ c) by (done || lia).
  destruct (Z.ltb_spec (c + delta) two63); [|lia]. split; [done|].
  unfold with_key, shared. cbn [snd ks_keys]. split_and!.
  - apply holds_put_ne; [by apply key_ne|done].
  - unfold stream_like in *. by rewrite put_ne by (by apply key_ne).
  - intros j H0 Hid. destruct (Hj j H0 Hid) as [h Hh]. exists h. apply holds_put_ne; [by apply key_ne|done].
  - right. apply (put_holds _ _ (VString _)).
Qed.

(** The second half, from counters that were read as [c]; the counter may be
    elsewhere by now. *)
Lemma writes_run qo mode items pc s c c' l :
  let st := sy_store s in
  let n := Z.of_nat (length items) in
  online s -> lower_named st -> Forall (item_fit qo) items ->
  0 <= c -> c + n + 1 < two63 -> 0 <= c' -> c' + (c + n) < two63 -> shared st (c + 1) l c' (space s) ->
  exists jobs s', add_writes items qo mode false true
      (key_of CollectionSuffix.Id st, key_of CollectionSuffix.PriorityCounter st,
       mkAdd (c + 1) pc false [] []) s = (Ok jobs, s') /\
    j_id <$> jobs = Some <$> seqZ (c + 1) n /\
    shared st (c + 1) (pushed qo (c + 1) items ++ l)%list (c' + (c + n)) (space s') /\
    online s' /\ frame s s'.
Proof.
  intros st n Hu Hlow Hfit Hc Hn Hc' Hsum Hsh. unfold add_writes.
  destruct (fold_prepared qo mode items (mkAdd (c + 1) pc false [] []) s Hfit)
    as (acc & cmds & k & E & Hprep & Hpipe & Haid & Htp & Hjobs);
    [cbn [ad_id]; unfold two63, two64 in *; lia..|].
  rewrite (run_bind _ _ _ _ _ E), Htp, Hpipe, Haid. cbn [ad_id ad_to_priorize ad_pipeline app].
  replace (Z.max 0 (c + 1 + Z.of_nat (length items) - 1)) with (c + n) by lia.
  set (s2 := set_sy_reads k s).
  destruct (batched_ok _ (cmds ++ [Incrby (key_of CollectionSuffix.Id st) (c + n)])%list _ s2
    (pipeline_app _ _ _ _ _ (shared_pipeline st (c + 1) qo (c + 1) items cmds l c' Hlow
       ltac:(lia) ltac:(lia) Hprep)
     (pipeline_cons _ _ _ _ _ (shared_counted st (c + 1) _ c' (c + n) Hc' ltac:(lia) Hsum)
       (pipeline_nil _))) Hu Hsh) as (s3 & E3 & Hi & U & F).
  exists (ad_jobs acc), s3. split_and!; [|done|done|done|].
  - by rewrite (run_bind _ _ _ _ _ E3).
  - apply (frame_trans s s2 s3); [|done]. exists (rd_db (sy_store s)), k. by destruct s as [[] ? ? ? ? ? ?].
Qed.

Lemma fresh_shared st c l ks :
  holds (ks_keys ks) (key_of CollectionSuffix.Wait st) (VList l) ->
  stream_like (ks_keys ks) (key_of CollectionSuffix.Events st) ->
  (forall j, c < j -> ks_keys ks !! key_of (CollectionSuffix.Job j) st = None) ->
  counter_at (ks_keys ks) (key_of CollectionSuffix.Id st) c -> shared st (c + 1) l c ks.
Proof. intros Hw Hev Hj Hk. split_and!; try done. intros j _ Hid. exists ∅. unfold holds. rewrite Hj; [done|lia]. Qed.

(** C26: two callers add jobs to one Redis queue, and the second does so between
    the reads and the writes of the first.  Both calls succeed, and both hand out
    the same identifiers, from the counter that both have read: the waiting list
    then holds the identifiers of both batches, so a common one twice, while there
    is one record for each identifier.  The counter is moved by both sums. *)
Theorem add_race (qo : QueueOpts) (mode : QueueEventMode) (mine theirs : list Item) (s : Sys)
    (c p : Z) (l : list string) :
  let st := sy_store s in
  let n := Z.of_nat (length mine) in
  let m := Z.of_nat (length theirs) in
  online s -> lower_named st -> Forall (item_fit qo) mine -> Forall (item_fit qo) theirs ->
  0 <= c -> c + (c + m) + (c + n) + 1 < two63 -> 0 <= p < two64 ->
  holds (keys s) (key_of CollectionSuffix.Wait st) (VList l) ->
  stream_like (keys s) (key_of CollectionSuffix.Events st) ->
  (forall j, c < j -> keys s !! key_of (CollectionSuffix.Job j) st = None) ->
  counter_at (keys s) (key_of CollectionSuffix.Id st) c ->
  counter_at (keys s) (key_of CollectionSuffix.PriorityCounter st) p ->
  exists start s1 their_jobs s2 my_jobs s3,
    add_reads s = (Ok start, s1) /\
    add theirs qo mode false true s1 = (Ok their_jobs, s2) /\
    add_writes mine qo mode false true start s2 = (Ok my_jobs, s3) /\
    j_id <$> their_jobs = Some <$> seqZ (c + 1) m /\
    j_id <$> my_jobs = Some <$> seqZ (c + 1) n /\
    holds (keys s3) (key_of CollectionSuffix.Wait st)
      (VList (pushed qo (c + 1) mine ++ pushed qo (c + 1) theirs ++ l)) /\
    counter_at (keys s3) (key_of CollectionSuffix.Id st) (c + (c + m) + (c + n)).
Proof.
  intros st n m Hu Hlow Hm Ht Hc Hsum Hp Hw Hev Hj Hid Hpc.
  destruct (reads_run (D := D) s c p Hu Hc ltac:(lia) Hp Hid Hpc) as (pc & s1 & E1 & S1 & U1 & F1).
  pose proof (fresh_shared st c l (space s) Hw Hev Hj Hid) as Hsh. fold (keys s) in Hid, Hpc.
  destruct F1 as (d1 & k1 & ->). set (s1 := set_sy_reads k1 _) in *. unfold keys in Hid, Hpc.
  rewrite <- S1 in Hsh, Hid, Hpc.
  destruct (reads_run (D := D) s1 c p U1 Hc ltac:(lia) Hp Hid Hpc) as (pc' & s1' & E1' & S1' & U1' & F1').
  destruct F1' as (d1' & k1' & ->). set (s1' := set_sy_reads k1' _) in *. rewrite <- S1' in Hsh.
  destruct (writes_run qo mode theirs pc' s1' c c l U1' Hlow Ht Hc ltac:(lia) Hc ltac:(lia) Hsh)
    as (tj & s2 & E2 & J2 & Hsh2 & U2 & F2).
  destruct F2 as (d2 & k2 & ->). set (s2 := set_sy_reads k2 _) in *.
  destruct (writes_run qo mode mine pc s2 c (c + (c + m)) _ U2 Hlow Hm Hc ltac:(lia) ltac:(lia) ltac:(lia) Hsh2)
    as (mj & s3 & E3 & J3 & (Hw3 & _ & _ & Hc3) & _ & _).
  eexists _, s1, tj, s2, mj, s3. split_and!; [exact E1| |exact E3|done..].
  rewrite add_two_halves, (run_bind _ _ _ _ _ E1'). exact E2.
Qed.
End Race.

(** ** Witness *)

#[local] Existing Instance sample_extern.
#[local] Existing Instance ticking_clock.
#[local] Existing Instance sample_server.
#[local] Existing Instance sample_laws.
#[local] Existing Instance sample_json.
#[local] Existing Instance sample_uuids.

Lemma add_race_witness :
  exists s3, holds (keys s3 (X := unit) (R := Z) (P := Z)) "kio:demo:wait" (VList ["3"; "1"; "3"; "1"]) /\
    counter_at (keys s3) "kio:demo:id" 6.
Proof.
  pose proof sample_items_fit as Hfit.
  destruct (add_race QueueOpts_default PubSub sample_items sample_items (sample_redis_sys "kio" "demo") 0 0 [])
    as (start & s1 & tj & s2 & mj & s3 & _ & _ & _ & _ & _ & Hw & Hc);
    [done|done|done|done|unfold two63, two64; cbn; lia..|done|by left|done|by left|by left|].
  exists s3. split; [exact Hw|exact Hc].
Defined.
