(* ===== verification/RedisEvents.v ===== *)
(** * Events through Redis ([src/events/redis_events.rs])

    An event is published on a channel as a JSON object, or added to a stream as
    a list of items; the listeners of every process read it back. *)

From S2P Require Import Prelude SkipMap TimedMap Extern Schedule Job Options Events Shared Metrics InMemoryStore Names RedisServer RedisCodec RedisVersion RedisStore RedisFacts RedisSample RedisRecords.

#[local] Open Scope string_scope.
#[local] Open Scope Z_scope.

(** ** Identifiers of entries *)

Definition dash : Ascii.ascii := Ascii.ascii_of_nat 45.

(** [FromStr for StreamEventId]; an error of either kind is an entry that is
    dropped. *)
Definition event_id_from_str `{EXT : Extern} (id : string) : option (Dt * Z) :=
  '(ts, num) ← split_once dash id;
  ts ← parse_i64 ts;
  dt ← from_timestamp_micros (ts * 1000);
  num ← parse_u64 num;
  Some (dt, num).

Lemma split_digits acc s v t : span acc s = (v, "") -> split_once dash (s ++ "-" ++ t) = Some (s, t).
Proof.
  revert acc. induction s as [|c s IH]; intros acc H; [done|]. cbn in H.
  destruct (digit_value c) as [d|] eqn:E; [|done]. change (String c s ++ "-" ++ t) with (String c (s ++ "-" ++ t)). cbn [split_once].
  rewrite decide_False by (intros <-; done). by rewrite (IH _ H).
Qed.

Lemma digits_no_null acc s v : span acc s = (v, "") -> contains "null" s = false.
Proof.
  revert acc. induction s as [|c s IH]; intros acc H; [done|]. cbn in H.
  destruct (digit_value c) as [d|] eqn:E; [|done]. cbn [contains starts_with].
  rewrite (IH _ H), orb_false_r. by destruct c as [[] [] [] [] [] [] [] []].
Qed.

Lemma show_no_null n : 0 <= n -> contains "null" (show n) = false.
Proof. intros Hn. by eapply digits_no_null, span_show_end. Qed.

(** What the server writes is read back. *)
Lemma event_id_read `{EXT : Extern} ms seq :
  0 <= ms < two63 -> u64_ok seq ->
  event_id_from_str (show ms ++ "-" ++ show seq) = (fun dt => (dt, seq)) <$> from_timestamp_micros (ms * 1000).
Proof.
  intros Hms Hseq. unfold event_id_from_str. rewrite (split_digits 0 _ ms) by (apply span_show_end; lia).
  cbn [mbind option_bind]. rewrite parse_i64_show by done. cbn.
  destruct (from_timestamp_micros (ms * 1000)); [|done]. cbn. by rewrite (parse_show_u64 seq Hseq).
Qed.

Section Events.
Context {EXT : Extern} {D R P : Type} {JS : Json D R P} {LAWS : JsonLaws D R P}.
Implicit Types e : QueueStreamEvent R P.

(** The items of an event in a stream, as [publish_event] adds them. *)
Definition stream_items e : list (string * string) :=
  filter (fun p => contains "null" p.2 = false)
    (filter (fun p => p.1 <> "id") (serialize_into_pairs (event_fields e))).

(** A value whose text has the letters [null] in it is not sent. *)
Definition clean (t : JTy) (x : option (jty (D := D) (R := R) (P := P) t)) : option (jty t) :=
  match x with
  | Some v =>
      match to_json t v with
      | Some s => if contains "null" s then None else Some v
      | None => None
      end
  | None => None
  end.

(** The name is sent as JSON and read as plain text. *)
Definition heard_name (x : option string) : option string :=
  match x with
  | Some v =>
      match to_json (D := D) (R := R) (P := P) JText v with
      | Some s => if contains "null" s then None else Some s
      | None => None
      end
  | None => None
  end.

(** What a listener makes of an event sent through a stream, and through a
    channel. *)
Definition heard (id : Dt * Z) e : QueueStreamEvent R P :=
  mkEvent id (qe_priority e) (qe_event e) (qe_delay e) (qe_prev e) (qe_job_id e)
    (clean JResult (qe_returned_value e)) (clean JFailed (qe_failed_reason e))
    (clean JProgress (qe_progress_data e)) (heard_name (qe_name e)) (clean JUuid (qe_worker_id e))
    (clean JMetrics (qe_metrics e)).

Definition relayed e : QueueStreamEvent R P :=
  mkEvent (qe_id e) (qe_priority e) (qe_event e) (qe_delay e) (qe_prev e) (qe_job_id e)
    (seen JResult (qe_returned_value e)) (qe_failed_reason e) (seen JProgress (qe_progress_data e))
    (qe_name e) (qe_worker_id e) (qe_metrics e).

Definition event_ok e : Prop :=
  for_some u64_ok (qe_priority e) /\ for_some u64_ok (qe_delay e) /\ u64_ok (qe_job_id e).

(** ** Reading the items *)

Definition hear (item : string * string) e : option (QueueStreamEvent R P) :=
  if contains "null" item.2 then Some e else read_item item e.

Lemma hear_filter items oe :
  foldl (fun acc item => acc ≫= read_item item) oe (filter (fun p => contains "null" p.2 = false) items) =
  foldl (fun acc item => acc ≫= hear item) oe items.
Proof.
  revert oe. induction items as [|[k s] items IH]; intros oe; [done|].
  rewrite filter_cons. cbn [snd foldl]. rewrite <- IH.
  destruct (decide (contains "null" s = false)) as [E|E]; cbn [foldl]; f_equal; destruct oe; [|done|..]; cbn;
    unfold hear; cbn [snd]; [by rewrite E|by destruct (contains "null" s)|done].
Qed.

(** An optional field of JSON. *)
Lemma hear_json t (set : option (jty t) -> QueueStreamEvent R P -> QueueStreamEvent R P) k x s e :
  is_opt t = false -> t <> JU64 -> to_json (JOpt t) x = Some s ->
  (forall s, read_item (k, s) e = (fun y => set y e) <$> from_json (JOpt t) s) -> set None e = e ->
  hear (k, s) e = Some (set (clean t x) e).
Proof.
  intros Ho Ht Hx Hread Hnone. unfold hear. cbn [snd]. destruct x as [v|]; cbn [clean].
  - pose proof (eq_trans (eq_sym (json_some t v)) Hx) as E. rewrite E.
    destruct (contains "null" s) eqn:Ec; [by rewrite Hnone|]. rewrite Hread, (json_opt t (Some v) s Hx).
    destruct (decide (s = "null")) as [->|_]; [done|]. rewrite (json_read t v s); [done..|by destruct t|done].
  - pose proof (eq_trans (eq_sym (json_none t)) Hx) as [= <-]. cbn. by rewrite Hnone.
Qed.

(** An optional number. *)
Lemma hear_number (set : option Z -> QueueStreamEvent R P -> QueueStreamEvent R P) k x s e :
  for_some u64_ok x -> to_json (JOpt JU64) x = Some s ->
  (forall s, read_item (k, s) e = (fun y => set (Some y) e) <$> parse_u64 s) -> set None e = e ->
  hear (k, s) e = Some (set x e).
Proof.
  intros Hok Hx Hread Hnone. unfold hear. cbn [snd]. destruct x as [v|].
  - pose proof (eq_trans (eq_sym (json_some JU64 v)) Hx) as E. rewrite json_u64 in E. injection E as <-.
    cbn in Hok. rewrite show_no_null by apply Hok. by rewrite Hread, (parse_show_u64 v Hok).
  - pose proof (eq_trans (eq_sym (json_none JU64)) Hx) as [= <-]. cbn. by rewrite Hnone.
Qed.

Lemma state_no_null (st : JobState.t) : contains "null" (state_json st) = false.
Proof. by destruct st. Qed.

Lemma hear_event st s e : to_json JState st = Some s -> hear ("event", s) e = Some (set_qe_event st e).
Proof.
  intros E. pose proof (read_state st s E) as Hr. rewrite json_state in E. injection E as <-.
  unfold hear. cbn [snd]. rewrite state_no_null. unfold read_item. cbn. by rewrite Hr.
Qed.

Lemma hear_prev x s e :
  qe_prev e = None -> to_json (JOpt JState) x = Some s -> hear ("prev", s) e = Some (set_qe_prev x e).
Proof.
  intros Hn Hx. unfold hear. cbn [snd]. destruct x as [st|].
  - pose proof (eq_trans (eq_sym (json_some JState st)) Hx) as E. pose proof (read_state st s E) as Hr.
    rewrite json_state in E. injection E as <-. rewrite state_no_null. unfold read_item. cbn. by rewrite Hr.
  - pose proof (eq_trans (eq_sym (json_none JState)) Hx) as [= <-]. cbn. f_equal. destruct e; cbn in *. by subst.
Qed.

Lemma hear_job_id n s e :
  u64_ok n -> to_json JU64 n = Some s -> hear ("job_id", s) e = Some (set_qe_job_id n e).
Proof.
  intros Hn E. rewrite json_u64 in E. injection E as <-. unfold hear. cbn [snd].
  rewrite show_no_null by apply Hn. unfold read_item. cbn. by rewrite (parse_show_u64 n Hn).
Qed.

Lemma hear_name x s e :
  qe_name e = None -> to_json (JOpt JText) x = Some s -> hear ("name", s) e = Some (set_qe_name (heard_name x) e).
Proof.
  intros Hn Hx. unfold hear, heard_name. cbn [snd]. destruct x as [v|].
  - pose proof (eq_trans (eq_sym (json_some JText v)) Hx) as E. rewrite E.
    destruct (contains "null" s); [|done]. f_equal. destruct e; cbn in *. by subst.
  - pose proof (eq_trans (eq_sym (json_none JText)) Hx) as [= <-]. cbn. f_equal. destruct e; cbn in *. by subst.
Qed.

(** Brings the event that is being filled to its constructor. *)
Ltac event_cbn :=
  cbn [mbind option_bind];
  unfold set_qe_id, set_qe_priority, set_qe_event, set_qe_delay, set_qe_prev, set_qe_job_id,
    set_qe_returned_value, set_qe_failed_reason, set_qe_progress_data, set_qe_name, set_qe_worker_id,
    set_qe_metrics;
  cbn [qe_id qe_priority qe_event qe_delay qe_prev qe_job_id qe_returned_value qe_failed_reason
    qe_progress_data qe_name qe_worker_id qe_metrics].

(** The items in order, from a blank event. *)
Lemma hear_items e pairs (id : Dt * Z) now :
  event_ok e -> Forall2 text_of (event_fields e) pairs ->
  foldl (fun acc item => acc ≫= hear item) (Some (set_qe_id id (event_default now)))
    (filter (fun p => p.1 <> "id") pairs) = Some (heard id e).
Proof.
  intros (O1 & O2 & O3) H. unfold event_fields in H.
  do 12 (apply text_cons in H as (? & ? & ? & -> & H)).
  apply Forall2_nil_inv_l in H as ->. cbn [fst snd] in *.
  match goal with |- foldl ?f ?a (filter _ (_ :: ?l)) = _ => change (foldl f a l = Some (heard id e)) end.
  cbn [foldl mbind option_bind]. unfold event_default. event_cbn.
  rewrite (hear_number set_qe_priority "priority" _ _ _ O1 H1) by done. event_cbn.
  rewrite (hear_event _ _ _ H2). event_cbn.
  rewrite (hear_number set_qe_delay "delay" _ _ _ O2 H3) by done. event_cbn.
  rewrite (fun Hn => hear_prev _ _ _ Hn H4) by done. event_cbn.
  rewrite (hear_job_id _ _ _ O3 H5). event_cbn.
  rewrite (hear_json JResult set_qe_returned_value _ _ _ _ eq_refl ltac:(done) H6) by done. event_cbn.
  rewrite (hear_json JFailed set_qe_failed_reason _ _ _ _ eq_refl ltac:(done) H7) by done. event_cbn.
  rewrite (hear_json JProgress set_qe_progress_data _ _ _ _ eq_refl ltac:(done) H8) by done. event_cbn.
  rewrite (fun Hn => hear_name _ _ _ Hn H9) by done. event_cbn.
  rewrite (hear_json JUuid set_qe_worker_id _ _ _ _ eq_refl ltac:(done) H10) by done. event_cbn.
  rewrite (hear_json JMetrics set_qe_metrics _ _ _ _ eq_refl ltac:(done) H11) by done. event_cbn. reflexivity.
Qed.

Lemma event_texts_names l pairs : Forall2 text_of l pairs -> pairs.*1 = l.*1.
Proof. induction 1 as [|p q l l' (s & _ & ->) _ IH]; [done|]. cbn. by rewrite IH. Qed.

(** Through a channel. *)
Lemma relay e pairs : event_ok e -> Forall2 text_of (event_fields e) pairs ->
  event_from_redis (to_object pairs) = Some (relayed e).
Proof.
  intros (O1 & O2 & O3) H. unfold event_from_redis. rewrite json_object.
  2: { rewrite (event_texts_names _ _ H). apply (bool_decide_unpack _). by vm_compute. }
  unfold event_fields in H. do 12 (apply text_cons in H as (? & ? & ? & -> & H)).
  apply Forall2_nil_inv_l in H as ->. cbn [fst snd mbind option_bind] in *.
  repeat match goal with
    | H : to_json (JOpt JU64) _ = _ |- _ => apply (read_own JU64) in H; [|done..]
    | H : to_json (JOpt ?t) _ = _ |- _ =>
        first [ apply (read_own t) in H; [|done|done|by apply ok_any]
              | apply (read_opt t) in H; [|done|by apply ok_any] ]
    | H : to_json ?t _ = _ |- _ => apply (json_read t) in H; [|done..]
    end.
  unfold required, optional.
  repeat match goal with
    | |- context [assoc ?k ?l] => let r := eval vm_compute in (assoc k l) in change (assoc k l) with r
    end.
  cbn [mbind option_bind].
  repeat match goal with
    | H : ?x = Some _ |- context [?x] => rewrite H; cbn [mbind option_bind]
    end.
  reflexivity.
Qed.

(** ** The order of the items

    The client hands an entry over as a hash map, whose order is not fixed. *)

Definition item_names : list string := (event_fields (event_default (R := R) (P := P) 0)).*1.

Lemma read_item_comm k k' b b' e :
  k ∈ item_names -> k' ∈ item_names -> k <> k' ->
  read_item (k, b) e ≫= read_item (k', b') = read_item (k', b') e ≫= read_item (k, b).
Proof.
  intros Hk Hk' Hne. unfold item_names, event_fields in *. cbn [fmap list_fmap fst] in *.
  repeat (apply elem_of_cons in Hk as [->|Hk]); try (by apply elem_of_nil in Hk).
  all: repeat (apply elem_of_cons in Hk' as [->|Hk']); try (by apply elem_of_nil in Hk'); try done.
  all: unfold read_item;
    repeat match goal with
      | |- context [to_lowercase ?k] =>
          let r := eval vm_compute in (to_lowercase k) in change (to_lowercase k) with r
      end; cbv beta iota;
    repeat match goal with
      | |- context [from_json ?t ?x] => generalize (from_json t x); intros []
      | |- context [parse_u64 ?x] => generalize (parse_u64 x); intros []
      | |- context [state_from_redis ?x] => generalize (state_from_redis x); intros []
      end; reflexivity.
Qed.

Lemma stream_items_names e :
  NoDup (stream_items e).*1 /\ Forall (fun p => p.1 ∈ item_names) (stream_items e).
Proof.
  assert (Hs : stream_items e `sublist_of` serialize_into_pairs (event_fields e)).
  { unfold stream_items. etrans; [apply sublist_filter|apply sublist_filter]. }
  destruct (decide (serialize_into_pairs (event_fields e) = [])) as [E|E].
  { rewrite E in Hs. apply sublist_nil_r in Hs as ->. split; constructor. }
  assert (Hn : (serialize_into_pairs (event_fields e)).*1 = item_names).
  { by rewrite (event_texts_names _ _ (serialized_pairs _ _ eq_refl E)). }
  split.
  - eapply sublist_NoDup; [|by apply (fmap_sublist fst)]. rewrite Hn. apply (bool_decide_unpack _). by vm_compute.
  - apply Forall_forall. intros p Hp. rewrite <- Hn. apply list_elem_of_fmap_2. by eapply elem_of_sublist.
Qed.

(** C27: an event read back.  From a stream, an entry gives one event, in whatever
    order its items are handed over: the event that was published, under the server's identifier, where the fields whose text
    has the letters [null] in it are missing, also when these are part of a longer
    text, and where the name is its JSON text and not the name.  From a channel,
    the event is the one that was published, except that a value of the user whose
    text is [null] is missing. *)
Theorem event_roundtrip e (ms seq : Z) (now dt : Dt) :
  event_ok e -> serialize_into_pairs (event_fields e) <> [] -> from_timestamp_micros (ms * 1000) = Some dt ->
  (forall items, items ≡ₚ stream_items e ->
     from_stream_read_reply now [(ms, seq, items)] = [heard (dt, seq) e]) /\
  event_from_redis (event_arg e) = Some (relayed e).
Proof.
  intros Hok Hn Hdt. pose proof (serialized_pairs _ _ eq_refl Hn) as Ht.
  pose proof (relay e _ Hok Ht) as Hrelay. pose proof (hear_items e _ (dt, seq) now Hok Ht) as Hitems. split.
  - intros items Hperm. destruct (stream_items_names e) as [Hnd Hnames].
    unfold from_stream_read_reply, event_from_stream. cbn [omap list_omap]. rewrite Hdt. cbn [mbind option_bind].
    rewrite (foldl_bind_perm read_item (.∈ item_names) _ _ read_item_comm Hperm) by (by rewrite Hperm).
    unfold stream_items. by rewrite hear_filter, Hitems.
  - unfold event_arg. unfold serialize_into_pairs in *. by destruct (mapM _ _).
Qed.

(** These are the items that [publish_event] sends. *)
Lemma publish_items {SRV : RedisServer} {X : Type} {CLK : Clock} e :
  redis_publish_event (X := X) Stream e =
  (get_connection ;;; let* k := key CollectionSuffix.Events in query [Xadd k (stream_items e)] ;;; m_ret tt).
Proof. reflexivity. Qed.
End Events.

(** ** Witness *)

#[local] Existing Instance sample_extern.
#[local] Existing Instance sample_json.
#[local] Existing Instance sample_json_laws.

(** A completed job, with its result and the name of the queue. *)
Definition done_event : QueueStreamEvent Z Z :=
  mkEvent (5000, 0) None JobState.Completed (Some 3) (Some JobState.Active) 7 (Some 42) None None
    (Some "mail") None None.

Lemma event_roundtrip_witness :
  from_stream_read_reply (D := Z) (JS := sample_json) 0 [(9, 2, stream_items (JS := sample_json) done_event)] =
    [set_qe_name (Some (quote ++ "mail")) (set_qe_id (9000000, 2) done_event)] /\
  event_from_redis (JS := sample_json) (event_arg (JS := sample_json) done_event) = Some done_event.
Proof.
  destruct (event_roundtrip (JS := sample_json) done_event 9 2 0 9000000) as [H1 H2]; [|done|done|].
  { split; [done|]. split; unfold u64_ok, two64; cbn; lia. }
  split; [|exact H2]. apply H1. reflexivity.
Defined.
