(* ===== verification/RocksDb.v ===== *)
(** * The interface of RocksDB, and what is kept in it

    The database package is a parameter: column families with keys and values
    that are bytes ([RocksDb]), and the documented behaviour of the calls the
    program makes ([RocksLaws]).  The JSON package appears with the types that
    [src/stores/rocksdb_store.rs] serializes ([KvJson]).  Keys and counters are
    big-endian numbers. *)

From S2P Require Import Prelude SkipMap TimedMap Extern Schedule Job Options Events Shared Metrics.
From Stdlib Require Import Ascii.

Open Scope string_scope.
Open Scope Z_scope.

(** ** Bytes *)

(** [to_be_bytes]. *)
Fixpoint be_digits (n : nat) (x : Z) : string :=
  match n with
  | O => ""
  | S n' => String (ascii_of_N (Z.to_N (x / 256 ^ Z.of_nat n' mod 256))) (be_digits n' x)
  end.
Definition be_bytes (x : Z) : string := be_digits 8 x.

Fixpoint be_value (acc : Z) (s : string) : Z :=
  match s with
  | EmptyString => acc
  | String c s' => be_value (acc * 256 + Z.of_N (N_of_ascii c)) s'
  end.

(** [ivec_to_number]: zero for a value that is not eight bytes long. *)
Definition ivec_to_number (s : string) : Z :=
  if (String.length s =? 8)%nat then cast_signed (be_value 0 s) else 0.

(** The merge operator for counters. *)
Definition increment (old : option string) (delta : Z) : option string :=
  let number := match old with
                | Some bytes => wrapping_add_i64 (ivec_to_number bytes) delta
                | None => 0
                end in
  Some (be_bytes (cast_unsigned number)).

(** [CollectionSuffix::to_bytes]. *)
Definition to_bytes (c : CollectionSuffix.t) : string := be_bytes (CollectionSuffix.tag c).

Lemma be_digits_value n x acc :
  0 <= x -> be_value acc (be_digits n x) = acc * 256 ^ Z.of_nat n + x mod 256 ^ Z.of_nat n.
Proof.
  intros Hx. revert acc. induction n as [|n IH]; intros acc; cbn [be_digits be_value].
  { change (256 ^ Z.of_nat 0) with 1. rewrite Z.mod_1_r. lia. }
  rewrite IH, N_ascii_embedding.
  - rewrite Z2N.id by (apply Z.mod_pos_bound; lia). rewrite Nat2Z.inj_succ, Z.pow_succ_r by lia.
    rewrite (Z.mul_comm 256 (256 ^ Z.of_nat n)).
    rewrite (Z.rem_mul_r x (256 ^ Z.of_nat n) 256) by lia. lia.
  - pose proof (Z.mod_pos_bound (x / 256 ^ Z.of_nat n) 256). lia.
Qed.

Lemma be_length x : String.length (be_bytes x) = 8%nat.
Proof. done. Qed.

Lemma be_bytes_read x : u64_ok x -> be_value 0 (be_bytes x) = x.
Proof.
  intros Hx. unfold be_bytes. rewrite be_digits_value by (unfold u64_ok in Hx; lia).
  rewrite Z.mod_small; [lia|]. exact Hx.
Qed.

Lemma to_bytes_inj c c' :
  CollectionSuffix.payload_ok c -> CollectionSuffix.payload_ok c' -> to_bytes c = to_bytes c' -> c = c'.
Proof.
  intros Hc Hc' E. apply CollectionSuffix.tag_injective_ok; [done|done|].
  rewrite <- (be_bytes_read (CollectionSuffix.tag c)), <- (be_bytes_read (CollectionSuffix.tag c'))
    by (by apply CollectionSuffix.tag_range). unfold to_bytes in E. by rewrite E.
Qed.

(** ** The database *)

(** A family is reached by its name.  [cf_get] is [inl] when the read fails, the
    first component of the others is their error. *)
Class RocksDb := {
  RDB : Type;
  cf_handle : string -> RDB -> bool;
  cf_create : string -> RDB -> option KioError * RDB;
  cf_get : string -> string -> RDB -> KioError + option string;
  cf_put : string -> string -> string -> RDB -> option KioError * RDB;
  cf_delete : string -> string -> RDB -> option KioError * RDB;
  cf_write : list (string * string * string) -> RDB -> option KioError * RDB;
  cf_may_exist : string -> string -> RDB -> bool;
  cf_compact : string -> RDB -> RDB;
}.

(** A batch of writes: family, key and value. *)
Definition put_in (fs : gmap string (gmap string string)) (w : string * string * string) :
    gmap string (gmap string string) :=
  let '(f, k, v) := w in alter (fun m => <[k := v]> m) f fs.

(** What is documented, for a database whose device works ([sound]): a family
    keeps what is put under a key until it is deleted; [cf_may_exist] can be
    wrong only about a key that does not exist; compaction changes nothing. *)
Class RocksLaws `{DB : RocksDb} := {
  families : RDB -> gmap string (gmap string string);
  sound : RDB -> Prop;
  cf_handle_spec f d : cf_handle f d = bool_decide (is_Some (families d !! f));
  cf_get_spec f k d m : sound d -> families d !! f = Some m -> cf_get f k d = inr (m !! k);
  cf_put_spec f k v d m : sound d -> families d !! f = Some m ->
    exists d', cf_put f k v d = (None, d') /\ sound d' /\
      families d' = <[f := <[k := v]> m]> (families d);
  cf_delete_spec f k d m : sound d -> families d !! f = Some m ->
    exists d', cf_delete f k d = (None, d') /\ sound d' /\
      families d' = <[f := delete k m]> (families d);
  cf_write_spec ws d : sound d ->
    exists d', cf_write ws d = (None, d') /\ sound d' /\ families d' = foldl put_in (families d) ws;
  cf_may_exist_spec f k d m : families d !! f = Some m -> is_Some (m !! k) -> cf_may_exist f k d = true;
  cf_compact_spec f d : sound d -> sound (cf_compact f d) /\ families (cf_compact f d) = families d;
}.

(** ** Values *)

(** The types the store serializes. *)
Inductive KvTy : Type :=
| KIds            (* [VecDeque<u64>], [BTreeSet<u64>] *)
| KScores         (* [BTreeMap<u64, u64>], in order of its keys *)
| KNumber         (* [u64] *)
| KMeta
| KJob
| KToken.

Record Meta : Type := mkMeta { me_processing : Z; me_paused : bool }.
Definition Meta_default : Meta := mkMeta 0 false.

Section Values.
Context {EXT : Extern} {D R P : Type}.

Definition kvty (t : KvTy) : Type :=
  match t with
  | KIds => list Z
  | KScores => list (Z * Z)
  | KNumber => Z
  | KMeta => Meta
  | KJob => Job D R P
  | KToken => JobToken
  end.

Class KvJson := {
  kv_to : forall t, kvty t -> option string;
  kv_from : forall t, string -> option (kvty t);
}.

(** Identifiers and scores are unsigned 64-bit numbers, scores in order. *)
Definition ids_ok (l : list Z) : Prop := Forall u64_ok l.
Definition scores_ok (l : list (Z * Z)) : Prop :=
  Forall (fun p => u64_ok p.1 /\ u64_ok p.2) l /\ alist_sorted l.

Class KvLaws {KJ : KvJson} := {
  kv_ids l : ids_ok l -> exists s, kv_to KIds l = Some s /\ kv_from KIds s = Some l;
  kv_scores l : scores_ok l -> exists s, kv_to KScores l = Some s /\ kv_from KScores s = Some l;
  kv_meta m : u64_ok (me_processing m) -> exists s, kv_to KMeta m = Some s /\ kv_from KMeta s = Some m;
}.
End Values.

Arguments KvJson {EXT} D R P.
Arguments KvLaws {EXT} D R P {KJ}.
