(* ===== verification/RocksStore.v ===== *)
(** * The RocksDB store ([src/stores/rocksdb_store.rs])

    One definition per operation of the [Store] trait, as reads and writes of
    whole collections in two column families: the main tree, with the collections
    and the counters, and the tree of the jobs.  Locks are kept in memory. *)

From S2P Require Import Prelude SkipMap TimedMap Extern Schedule Job Options Events Shared Metrics InMemoryStore RocksDb.

Open Scope string_scope.
Open Scope Z_scope.

Section Rocks.
Context {SM : Type -> Type} `{OPS : !SkipMap Z SM} {EXT : Extern} {D R P : Type} {DBI : RocksDb}
  {KJ : KvJson D R P}.

(** The handles that [create_stream_listener] stores are cells of [SysOf];
    [rk_listening] records whether they have been stored. *)
Record RocksStore : Type := mkRocks {
  rk_db : RDB;
  rk_main_tree : string;
  rk_jobs : string;
  rk_locks : TimedMap SM Lock;
  rk_listening : bool;
  rk_is_inital : bool;
  rk_job_batch : list (string * string * string);
  rk_prefix : string;
  rk_name : string;
}.

Definition set_rk_db (x : RDB) (r : RocksStore) : RocksStore :=
  mkRocks x (rk_main_tree r) (rk_jobs r) (rk_locks r) (rk_listening r) (rk_is_inital r)
    (rk_job_batch r) (rk_prefix r) (rk_name r).
Definition set_rk_locks (x : TimedMap SM Lock) (r : RocksStore) : RocksStore :=
  mkRocks (rk_db r) (rk_main_tree r) (rk_jobs r) x (rk_listening r) (rk_is_inital r)
    (rk_job_batch r) (rk_prefix r) (rk_name r).
Definition set_rk_listening (x : bool) (r : RocksStore) : RocksStore :=
  mkRocks (rk_db r) (rk_main_tree r) (rk_jobs r) (rk_locks r) x (rk_is_inital r)
    (rk_job_batch r) (rk_prefix r) (rk_name r).
Definition set_rk_is_inital (x : bool) (r : RocksStore) : RocksStore :=
  mkRocks (rk_db r) (rk_main_tree r) (rk_jobs r) (rk_locks r) (rk_listening r) x
    (rk_job_batch r) (rk_prefix r) (rk_name r).
Definition set_rk_job_batch (x : list (string * string * string)) (r : RocksStore) : RocksStore :=
  mkRocks (rk_db r) (rk_main_tree r) (rk_jobs r) (rk_locks r) (rk_listening r) (rk_is_inital r)
    x (rk_prefix r) (rk_name r).

Section Monadic.
Context {CLK : Clock} {X : Type}.
Abbreviation Sys := (SysOf RocksStore R P X).
Abbreviation RM A := (KM Sys A).

(** ** Access to the database *)

Definition json_failed : KioError := JsonError "serialization failed".

(** A call of the database: its error becomes the error of the operation. *)
Definition on_db (f : RDB -> option KioError * RDB) : RM unit :=
  let* e := on_store (fun st => let '(e, d) := f (rk_db st) in (e, set_rk_db d st)) in
  match e with Some e => throw e | None => m_ret tt end.

Definition tree_exists (tree : RocksStore -> string) : RM bool :=
  gets (fun s => cf_handle (tree (sy_store s)) (rk_db (sy_store s))).

(** [cf_handle(..).expect(..)] and [cf_handle(..).ok_or(..)?]. *)
Definition handle_or_panic (tree : RocksStore -> string) : RM unit :=
  let* found := tree_exists tree in if found then m_ret tt else panic.
Definition handle_or_fail (tree : RocksStore -> string) (e : KioError) : RM unit :=
  let* found := tree_exists tree in if found then m_ret tt else throw e.

Definition to_vec (t : KvTy) (x : kvty (D := D) (R := R) (P := P) t) : RM string :=
  match kv_to t x with Some s => m_ret s | None => throw json_failed end.

Definition tree_of (col : CollectionSuffix.t) (st : RocksStore) : string :=
  match col with CollectionSuffix.Job _ => rk_jobs st | _ => rk_main_tree st end.

Definition put (col : CollectionSuffix.t) (value : string) : RM unit :=
  handle_or_panic rk_main_tree ;;;
  handle_or_panic rk_jobs ;;;
  let* st := gets sy_store in
  on_db (cf_put (tree_of col st) (to_bytes col) value).

(** The bytes under a key; errors read as absence. *)
Definition read (tree : string) (col : CollectionSuffix.t) (d : RDB) : option string :=
  match cf_get tree (to_bytes col) d with inr v => v | inl _ => None end.

Definition fetch (t : KvTy) (col : CollectionSuffix.t) : RM (option (kvty (D := D) (R := R) (P := P) t)) :=
  gets (fun s =>
    let st := sy_store s in
    if cf_handle (rk_main_tree st) (rk_db st) && cf_handle (rk_jobs st) (rk_db st)
    then read (tree_of col st) col (rk_db st) ≫= kv_from t else None).

(** [self.fetch(..).unwrap_or_default()]. *)
Definition fetch_list (col : CollectionSuffix.t) : RM (list Z) :=
  let* l := fetch KIds col in m_ret (unwrap_or [] l).
Definition fetch_map (col : CollectionSuffix.t) : RM (list (Z * Z)) :=
  let* l := fetch KScores col in m_ret (unwrap_or [] l).

Definition put_list (col : CollectionSuffix.t) (l : list Z) : RM unit :=
  let* v := to_vec KIds l in put col v.
Definition put_map (col : CollectionSuffix.t) (l : list (Z * Z)) : RM unit :=
  let* v := to_vec KScores l in put col v.

Definition get_collection (t : KvTy) (key : CollectionSuffix.t) (d : RDB) (tree : string) :
    option (kvty (D := D) (R := R) (P := P) t) :=
  read tree key d ≫= kv_from t.

Definition get_meta : RM (option Meta) :=
  gets (fun s =>
    let st := sy_store s in
    if cf_handle (rk_main_tree st) (rk_db st)
    then get_collection KMeta CollectionSuffix.Meta (rk_db st) (rk_main_tree st) else None).

(** ** Collections *)

(** A [BTreeSet] in order of its elements. *)
Fixpoint set_insert (x : Z) (l : list Z) : list Z :=
  match l with
  | [] => [x]
  | y :: l' => if x <? y then x :: l else if x =? y then l else y :: set_insert x l'
  end.

Definition rocks_job_exists (id : Z) : RM bool :=
  handle_or_panic rk_jobs ;;;
  gets (fun s => cf_may_exist (rk_jobs (sy_store s)) (to_bytes (CollectionSuffix.Job id)) (rk_db (sy_store s))).

Definition rocks_exists_in (col : CollectionSuffix.t) (item : Z) : RM bool :=
  match col with
  | CollectionSuffix.Active | CollectionSuffix.Wait | CollectionSuffix.Paused
  | CollectionSuffix.Stalled =>
      let* queue := fetch_list col in m_ret (bool_decide (item ∈ queue))
  | CollectionSuffix.Completed | CollectionSuffix.Delayed | CollectionSuffix.Failed
  | CollectionSuffix.Prioritized =>
      let* map := fetch_map col in m_ret (bool_decide (item ∈ map.*2))
  | CollectionSuffix.Job id => rocks_job_exists id
  | CollectionSuffix.Lock _ | CollectionSuffix.StalledCheck =>
      gets (fun s => sm_contains_key (inner (rk_locks (sy_store s))) (CollectionSuffix.tag col))
  | _ => m_ret false
  end.

Definition item_exists_in_list (col : CollectionSuffix.t) (item : Z) : RM (option bool) :=
  match col with
  | CollectionSuffix.Active | CollectionSuffix.Wait | CollectionSuffix.Paused =>
      gets (fun s =>
        let st := sy_store s in
        if cf_handle (rk_main_tree st) (rk_db st)
        then (fun queue => bool_decide (item ∈ queue)) <$>
             (read (rk_main_tree st) col (rk_db st) ≫= kv_from (D := D) (R := R) (P := P) KIds)
        else None)
  | _ => m_ret None
  end.

Definition rocks_add_item (col : CollectionSuffix.t) (item : Z) (score : option Z) (append : bool) :
    RM unit :=
  match col with
  | CollectionSuffix.Active | CollectionSuffix.Wait | CollectionSuffix.Paused =>
      let* queue := fetch_list col in
      put_list col (if append then item :: queue else queue ++ [item])%list
  | CollectionSuffix.Completed | CollectionSuffix.Delayed | CollectionSuffix.Failed
  | CollectionSuffix.Prioritized =>
      let* map := fetch_map col in
      put_map col (match score with
                   | Some score => alist_insert (cast_unsigned score) item map
                   | None => map
                   end)
  | CollectionSuffix.Stalled =>
      let* set := fetch_list col in
      put_list col (match score with Some _ => set_insert item set | None => set end)
  | _ => m_ret tt
  end.

Definition rocks_remove (key : CollectionSuffix.t) : RM unit :=
  handle_or_panic rk_main_tree ;;;
  let* st := gets sy_store in
  on_db (cf_delete (rk_main_tree st) (to_bytes key)).

Definition handle_error : KioError := IoError "failed to get cf-handle".
Definition jobs_error : KioError := IoError "failed to get cf".
Definition progress_error : KioError := IoError "failed to get handle".
Definition submit_error : KioError := IoError "failed here".

Definition rocks_remove_item (col : CollectionSuffix.t) (item : Z) : RM unit :=
  handle_or_fail rk_main_tree handle_error ;;;
  match col with
  | CollectionSuffix.Active | CollectionSuffix.Wait | CollectionSuffix.Paused =>
      let* queue := fetch KIds col in
      match queue with
      | Some queue => put_list col (filter (fun value => value <> item) queue)
      | None => m_ret tt
      end
  | CollectionSuffix.Completed | CollectionSuffix.Delayed | CollectionSuffix.Failed
  | CollectionSuffix.Prioritized =>
      let* map := fetch KScores col in
      match map with
      | Some map => put_map col (filter (fun p => p.2 <> item) map)
      | None => m_ret tt
      end
  | CollectionSuffix.Stalled =>
      let* set := fetch KIds col in
      match set with
      | Some set => put_list col (filter (fun value => value <> item) set)
      | None => m_ret tt
      end
  | _ => rocks_remove col
  end.

Definition is_list (col : CollectionSuffix.t) : bool :=
  match col with CollectionSuffix.Wait | CollectionSuffix.Active => true | _ => false end.

(** The whole body returns an option: an error on the way is [None]. *)
Definition rocks_pop_back_push_front (src dst : CollectionSuffix.t) : RM (option Z) :=
  let* found := tree_exists rk_main_tree in
  if found && is_list src && is_list dst then
    let* from := fetch_list src in
    let* to := fetch_list dst in
    match last from with
    | Some value =>
        attempt
          (let* next_src := to_vec KIds (removelast from) in
           let* next_dst := to_vec KIds (value :: to) in
           let* st := gets sy_store in
           on_db (cf_put (rk_main_tree st) (to_bytes src) next_src) ;;;
           on_db (cf_put (rk_main_tree st) (to_bytes dst) next_dst) ;;;
           m_ret value)
    | None => m_ret None
    end
  else m_ret None.

Definition rocks_pop_set (col : CollectionSuffix.t) (min : bool) : RM (list (Z * Z)) :=
  match col with
  | CollectionSuffix.Completed | CollectionSuffix.Delayed | CollectionSuffix.Failed
  | CollectionSuffix.Prioritized =>
      let* map := fetch KScores col in
      match map with
      | Some map =>
          match (if min then head map else last map) with
          | Some (score, id) =>
              put_map col (if min then tail map else removelast map) ;;;
              m_ret [(id, score)]
          | None => m_ret []
          end
      | None => m_ret []
      end
  | _ => m_ret []
  end.

(** [delayed.range(start..end)] panics when the range is reversed. *)
Definition rocks_get_delayed_at (start stop : Z) : RM (list Z * list Z) :=
  let* delayed := fetch KScores CollectionSuffix.Delayed in
  match delayed with
  | Some delayed =>
      let before := cast_unsigned (wrapping_sub_i64 start 1) in
      let end_ := cast_unsigned stop in
      let start := cast_unsigned start in
      if end_ <? start then panic
      else
        let due p := (start <=? p.1) && (p.1 <? end_) in
        let missed p := p.1 <? before in
        put_map CollectionSuffix.Delayed
          (filter (fun p => due p = false /\ missed p = false) delayed) ;;;
        m_ret ((filter (fun p => due p = true) delayed).*2, (filter (fun p => missed p = true) delayed).*2)
  | None => m_ret ([], [])
  end.

(** [map.range(lo..=hi)] between the elements at two positions; [None] is its
    panic when they are reversed. *)
Definition between (start end_ : nat) (keys : list Z) : option (option (Z * Z)) :=
  match keys !! start, keys !! end_ with
  | Some lo, Some hi => if hi <? lo then None else Some (Some (lo, hi))
  | _, _ => Some None
  end.

Definition rocks_get_job_ids_in_state (state : JobState.t) (start end_ : option nat) : RM (list Z) :=
  let start := unwrap_or 0%nat start in
  let col := CollectionSuffix.from_state state in
  match state with
  | JobState.Prioritized | JobState.Completed | JobState.Failed | JobState.Delayed =>
      let* map := fetch KScores col in
      match map with
      | Some map =>
          let* range := expect (between start (unwrap_or (length map - 1)%nat end_) map.*1) in
          match range with
          | Some (lo, hi) => m_ret (filter (fun p => lo <= p.1 <= hi) map).*2
          | None => m_ret []
          end
      | None => m_ret []
      end
  | JobState.Stalled =>
      let* set := fetch KIds col in
      match set with
      | Some set =>
          let* range := expect (between start (unwrap_or (length set - 1)%nat end_) set) in
          match range with
          | Some (lo, hi) => m_ret (filter (fun x => lo <= x <= hi) set)
          | None => m_ret []
          end
      | None => m_ret []
      end
  | JobState.Active | JobState.Wait | JobState.Paused =>
      let* queue := fetch KIds col in
      match queue with
      | Some ((_ :: _) as queue) =>
          expect (inclusive_range start (unwrap_or (length queue - 1)%nat end_) queue)
      | _ => m_ret []
      end
  | _ => m_ret []
  end.

(** ** Records and counters *)

Definition rocks_get_job (id : Z) : RM (option (Job D R P)) := fetch KJob (CollectionSuffix.Job id).

(** The token is looked up in the main tree, where no lock is ever written. *)
Definition rocks_get_token (id : Z) : RM (option JobToken) := fetch KToken (CollectionSuffix.Lock id).

Definition rocks_get_state (id : Z) : RM (option JobState.t) :=
  let* job := rocks_get_job id in m_ret (j_state <$> job).

Definition put_job (id : Z) (job : Job D R P) : RM unit :=
  let* v := to_vec KJob job in put (CollectionSuffix.Job id) v.

Definition rocks_set_fields (job_id : Z) (fields : list (JobField R)) : RM unit :=
  let* job := rocks_get_job job_id in
  match job with
  | Some job => put_job job_id (foldl (fun j f => apply_field f j) job fields)
  | None => m_ret tt
  end.

Definition rocks_fetch_jobs (ids : list Z) : RM (list (Job D R P)) :=
  match ids with
  | [] => m_ret []
  | _ =>
      handle_or_fail rk_jobs jobs_error ;;;
      let* jobs := for_collect ids rocks_get_job in
      m_ret (omap id jobs)
  end.

Definition rocks_update_job_progress (job : Job D R P) (value : P) : RM (Job D R P) :=
  handle_or_fail rk_jobs progress_error ;;;
  let id := unwrap_or 0 (j_id job) in
  let* st := gets sy_store in
  match cf_get (rk_jobs st) (to_bytes (CollectionSuffix.Job id)) (rk_db st) with
  | inl e => throw e
  | inr None => m_ret tt
  | inr (Some bytes) =>
      match kv_from KJob bytes with
      | None => throw json_failed
      | Some old =>
          let* next := to_vec KJob (set_j_progress (Some value) old) in
          on_db (cf_put (rk_jobs st) (to_bytes (CollectionSuffix.Job id)) next)
      end
  end ;;;
  m_ret (set_j_progress (Some value) job).

(** The counters of a record: each is added to itself, together with the delta. *)
Definition update_job (field : string) (delta : Z) (job : Job D R P) : Z * Job D R P :=
  let step x := cast_unsigned (wrapping_add_i64 (cast_signed (j_attempts_made job)) delta) + x in
  if is_attempts_field field then
    let n := cast_unsigned (step (j_attempts_made job)) in (n, set_j_attempts_made n job)
  else if is_stalled_field field then
    let n := cast_unsigned (step (j_stalled_counter job)) in (n, set_j_stalled_counter n job)
  else (0, job).

Definition rocks_get_counter (col : CollectionSuffix.t) (hash_key : option string) : RM (option Z) :=
  handle_or_panic rk_main_tree ;;;
  match hash_key with
  | Some field =>
      match col with
      | CollectionSuffix.Job id =>
          let* job := rocks_get_job id in
          m_ret ((fun job => if contains "attempts" (to_lowercase field)
                             then j_attempts_made job else j_stalled_counter job) <$> job)
      | _ => let* meta := get_meta in m_ret (me_processing <$> meta)
      end
  | None =>
      gets (fun s =>
        (fun bytes => cast_unsigned (ivec_to_number bytes)) <$>
        read (rk_main_tree (sy_store s)) col (rk_db (sy_store s)))
  end.

(** The part of [incr] that counts in a key of its own; a counter that was never
    written counts from one. *)
Definition incr_key (col : CollectionSuffix.t) (delta : Z) : RM Z :=
  let* current := rocks_get_counter col None in
  let current := unwrap_or 1 current in
  let next := if delta <? 0 then wrapping_sub_u64 current (Z.abs delta)
              else wrapping_add_u64 current (Z.abs delta) in
  put col (be_bytes next) ;;;
  m_ret (if current =? 0 then 1 else next).

Definition rocks_incr (col : CollectionSuffix.t) (delta : Z) (hash_key : option string) : RM Z :=
  match hash_key, col with
  | Some field, CollectionSuffix.Job id =>
      let* job := rocks_get_job id in
      match job with
      | Some job =>
          let '(next, job) := update_job field delta job in
          put_job id job ;;; m_ret next
      | None => incr_key col delta
      end
  | Some field, CollectionSuffix.Meta =>
      let* meta := fetch KMeta col in
      let meta := unwrap_or Meta_default meta in
      let next := if delta <? 0 then Z.max 0 (me_processing meta - Z.abs delta)
                  else wrapping_add_u64 (me_processing meta) (Z.abs delta) in
      let* updated := to_vec KMeta (mkMeta next (me_paused meta)) in
      put col updated ;;; m_ret next
  | _, _ => incr_key col delta
  end.

(** ** Locks *)

Definition rocks_set_lock (col : CollectionSuffix.t) (token : option JobToken) (lock_duration : Z) :
    RM unit :=
  let lock := match token with Some token => LToken token | None => StallCheck end in
  timed_upd (fun now st => set_rk_locks
    (insert_expirable now (CollectionSuffix.tag col) lock (from_millis lock_duration) (rk_locks st)) st).

Definition rocks_purge_expired : RM unit :=
  let* now := instants in
  upd_store (fun st =>
    if 0 <? len_expired (rk_locks st) then set_rk_locks (purge_expired now (rk_locks st)) st else st).

Definition rocks_expire (col : CollectionSuffix.t) (secs : Z) : RM unit := m_ret tt.
Definition rocks_set_event_mode (event_mode : QueueEventMode) : RM unit := m_ret tt.

Definition rocks_metadata_field_exists (field : string) : RM bool :=
  handle_or_panic rk_main_tree ;;;
  gets (fun s => cf_may_exist (rk_main_tree (sy_store s)) (to_bytes CollectionSuffix.Meta)
                   (rk_db (sy_store s))).

(** ** The whole queue *)

(** Only the locks are cleared: compaction keeps the data. *)
Definition rocks_clear_collections : RM unit :=
  handle_or_panic rk_main_tree ;;;
  upd_store (fun st => set_rk_db (cf_compact (rk_main_tree st) (rk_db st)) st) ;;;
  upd_store (fun st => set_rk_locks (timed_clear (rk_locks st)) st).

Definition rocks_clear_jobs (last_id : Z) : RM unit :=
  handle_or_panic rk_jobs ;;;
  upd_store (fun st => set_rk_db (cf_compact (rk_jobs st) (rk_db st)) st).

Definition rocks_pause (pause_ : bool) : RM unit :=
  let src := if pause_ then CollectionSuffix.Wait else CollectionSuffix.Paused in
  let dst := if pause_ then CollectionSuffix.Paused else CollectionSuffix.Wait in
  handle_or_panic rk_main_tree ;;;
  let* st := gets sy_store in
  (if cf_may_exist (rk_main_tree st) (to_bytes CollectionSuffix.Paused) (rk_db st) then
     match cf_get (rk_main_tree st) (to_bytes src) (rk_db st) with
     | inl e => throw e
     | inr None => m_ret tt
     | inr (Some removed) =>
         on_db (cf_delete (rk_main_tree st) (to_bytes src)) ;;; put dst removed
     end
   else m_ret tt) ;;;
  let* meta := get_meta in
  match meta with
  | Some meta =>
      let* v := to_vec KMeta (mkMeta (me_processing meta) pause_) in
      on_db (cf_put (rk_main_tree st) (to_bytes CollectionSuffix.Meta) v)
  | None => m_ret tt
  end.

(** A collection that is present has to parse. *)
Definition count_of (t : KvTy) (len : kvty (D := D) (R := R) (P := P) t -> Z) (col : CollectionSuffix.t) :
    RM Z :=
  let* v := gets (fun s => read (rk_main_tree (sy_store s)) col (rk_db (sy_store s))) in
  match v with
  | Some bytes => match kv_from t bytes with Some x => m_ret (len x) | None => throw json_failed end
  | None => m_ret 0
  end.

Definition rocks_get_metrics : RM QueueMetrics :=
  handle_or_panic rk_main_tree ;;;
  let len {A} (l : list A) := Z.of_nat (length l) in
  let* last_id := gets (fun s =>
    match read (rk_main_tree (sy_store s)) CollectionSuffix.Id (rk_db (sy_store s)) with
    | Some bytes => cast_unsigned (ivec_to_number bytes)
    | None => 0
    end) in
  let* stalled := count_of KIds len CollectionSuffix.Stalled in
  let* active := count_of KIds len CollectionSuffix.Active in
  let* completed := count_of KScores len CollectionSuffix.Completed in
  let* delayed := count_of KScores len CollectionSuffix.Delayed in
  let* waiting := count_of KIds len CollectionSuffix.Wait in
  let* meta := gets (fun s =>
    (read (rk_main_tree (sy_store s)) CollectionSuffix.Meta (rk_db (sy_store s)))) in
  let* meta :=
    match meta with
    | Some bytes => match kv_from KMeta bytes with Some m => m_ret m | None => throw json_failed end
    | None => m_ret Meta_default
    end in
  let* prioritized := count_of KScores len CollectionSuffix.Prioritized in
  let* failed := count_of KScores len CollectionSuffix.Failed in
  let* paused := count_of KIds len CollectionSuffix.Paused in
  m_ret (QueueMetrics_new last_id (me_processing meta) active stalled completed delayed prioritized
           paused failed waiting (me_paused meta) QueueEventMode_default).

(** ** Events and insertion *)

Definition rocks_listen_to_events : RM unit := m_ret tt.
Definition rocks_create_stream_listener : RM unit := upd_store (set_rk_listening true).

Definition rocks_publish_event (event : QueueStreamEvent R P) : RM unit :=
  let* st := gets sy_store in
  if rk_listening st then
    process_each_event rocks_get_metrics event ;;;
    let* stored := gets sy_metrics in
    let* is_inital := pause_or_resume_workers stored (rk_is_inital st) in
    upd_store (set_rk_is_inital is_inital)
  else m_ret tt.

(** What the loop of [add_bulk] collects for the three collections. *)
Record Pending : Type := mkPending {
  pd_list : list Z;
  pd_priorized : list (Z * Z);
  pd_delayed : list (Z * Z);
}.

Definition no_pending : Pending := mkPending [] [] [].

(** [RocksDbStore::prepare_for_insert]: the record goes to the batch of writes. *)
Definition rocks_prepare_for_insert (id pc : Z) (is_paused : bool) (job : Job D R P)
    (opts : JobOptions) (pending : Pending) (name : string) : RM (Job D R P * Pending) :=
  let priority := jo_priority opts in
  let* dt := utc_now in
  let* ts := utc_now in
  let* expected_dt_ts := expect (next_occurrance_timestamp_ms ts (jo_delay opts)) in
  let* diff := expect (as_diff_ms (jo_delay opts) dt) in
  let delay := cast_unsigned diff in
  let* job := expect (add_opts opts job) in
  if (0 <? delay) && (delay <? MIN_DELAY_MS_LIMIT) then
    throw (KQueueError (DelayBelowAllowedLimit MIN_DELAY_MS_LIMIT delay))
  else
    let event := if is_paused then JobState.Paused else JobState.Wait in
    let to_delay := 0 <? delay in
    let to_priorize := (0 <? priority) && negb to_delay in
    let '(job, event, pending) :=
      if to_delay then
        match expected_dt_ts with
        | Some expected_active_time =>
            (set_j_state JobState.Delayed job, JobState.Delayed,
             mkPending (pd_list pending) (pd_priorized pending)
               (alist_insert (cast_unsigned expected_active_time) id (pd_delayed pending)))
        | None => (job, event, pending)
        end
      else if to_priorize then
        (set_j_state JobState.Prioritized job, JobState.Prioritized,
         mkPending (pd_list pending)
           (alist_insert (calculate_next_priority_score priority pc) id (pd_priorized pending))
           (pd_delayed pending))
      else (job, event, mkPending (id :: pd_list pending) (pd_priorized pending) (pd_delayed pending)) in
    let job := set_j_id (Some id) job in
    handle_or_fail rk_jobs (KJobError JobNotFound) ;;;
    let* v := to_vec KJob job in
    upd_store (fun st => set_rk_job_batch
      (rk_job_batch st ++ [(rk_jobs st, to_bytes (CollectionSuffix.Job id), v)])%list st) ;;;
    let* now := utc_now in
    let ev := set_qe_name (Some name) (set_qe_event event (set_qe_job_id id (event_default now))) in
    let ev := if to_delay then set_qe_delay (Some delay) ev else ev in
    let ev := if to_priorize then set_qe_priority (Some priority) ev else ev in
    rocks_publish_event ev ;;;
    m_ret (job, pending).

(** The batch is taken before it is written. *)
Definition commit : RM unit :=
  let* st := gets sy_store in
  upd_store (set_rk_job_batch []) ;;;
  on_db (cf_write (rk_job_batch st)).

Definition extend (old new : list (Z * Z)) : list (Z * Z) :=
  foldl (fun m p => alist_insert p.1 p.2 m) old new.

Definition submit_changes (is_paused : bool) (pending : Pending) : RM unit :=
  let next_list := if is_paused then CollectionSuffix.Paused else CollectionSuffix.Wait in
  let* queue := fetch_list next_list in
  let* current_delayed := fetch_map CollectionSuffix.Delayed in
  let* current_priorized := fetch_map CollectionSuffix.Prioritized in
  handle_or_fail rk_main_tree submit_error ;;;
  let* list := to_vec KIds (pd_list pending ++ queue)%list in
  let* delayed := to_vec KScores (extend current_delayed (pd_delayed pending)) in
  let* priorized := to_vec KScores (extend current_priorized (pd_priorized pending)) in
  let* st := gets sy_store in
  commit ;;;
  on_db (cf_write [(rk_main_tree st, to_bytes next_list, list);
                   (rk_main_tree st, to_bytes CollectionSuffix.Delayed, delayed);
                   (rk_main_tree st, to_bytes CollectionSuffix.Prioritized, priorized)]).

(** One round of the loop of [add_bulk]. *)
Definition rocks_add_one (queue_opts : QueueOpts) (is_paused : bool) (acc : Pending * list (Job D R P))
    (item : string * option JobOptions * D) : RM (Pending * list (Job D R P)) :=
  let '(name, opts, d) := item in
  let opts := update_job_opts queue_opts (unwrap_or JobOptions_default opts) in
  let* pc := (if 0 <? jo_priority opts
              then rocks_incr CollectionSuffix.PriorityCounter 1 None else m_ret 0) in
  let* st := gets sy_store in
  let queue_name := rk_prefix st ++ ":" ++ rk_name st in
  let* id := rocks_incr CollectionSuffix.Id 1 None in
  let* now := utc_now in
  let job := job_new now name (Some d) (jo_id opts) (Some queue_name) in
  let* placed := rocks_prepare_for_insert id pc is_paused job opts acc.1 name in
  m_ret (placed.2, acc.2 ++ [placed.1])%list.

Definition rocks_add_bulk (iter : list (string * option JobOptions * D)) (queue_opts : QueueOpts)
    (is_paused : bool) : RM (list (Job D R P)) :=
  let* acc := for_fold iter (no_pending, []) (rocks_add_one queue_opts is_paused) in
  submit_changes is_paused acc.1 ;;;
  let* updated := rocks_get_metrics in
  let* st := gets sy_store in
  (if rk_listening st
   then modify (fun s => set_sy_metrics (metrics_update updated (sy_metrics s)) s) else m_ret tt) ;;;
  m_ret acc.2.

(** The same loop; the jobs are not kept. *)
Definition rocks_add_bulk_only (iter : list (string * option JobOptions * D)) (queue_opts : QueueOpts)
    (is_paused : bool) : RM unit :=
  rocks_add_bulk iter queue_opts is_paused ;;; m_ret tt.
End Monadic.

(** ** Construction *)

Definition setup_type (t : KvTy) (x : kvty (D := D) (R := R) (P := P) t) (tree : string)
    (key : CollectionSuffix.t) (d : RDB) : option KioError * RDB :=
  match kv_to t x with
  | Some v => cf_put tree (to_bytes key) v d
  | None => (Some json_failed, d)
  end.

(** Runs the steps until one fails. *)
Fixpoint steps_db (l : list (RDB -> option KioError * RDB)) (d : RDB) : option KioError * RDB :=
  match l with
  | [] => (None, d)
  | f :: l' => match f d with (Some e, d) => (Some e, d) | (None, d) => steps_db l' d end
  end.

Definition initial_collections (main_tree jobs : string) : RDB -> option KioError * RDB :=
  let ids := setup_type KIds [] main_tree in
  let scores := setup_type KScores [] main_tree in
  let number := setup_type KNumber 0 main_tree in
  steps_db [cf_create main_tree; cf_create jobs;
            ids CollectionSuffix.Wait; ids CollectionSuffix.Active; ids CollectionSuffix.Stalled;
            scores CollectionSuffix.Completed; scores CollectionSuffix.Prioritized;
            scores CollectionSuffix.Failed; scores CollectionSuffix.Delayed;
            number CollectionSuffix.Id; number CollectionSuffix.PriorityCounter].

Definition rocks_new (prefix : option string) (name : string) (db : RDB) : KioError + RocksStore :=
  let prefix := to_lowercase (unwrap_or "kio" prefix) in
  let queue_name := prefix ++ ":" ++ name in
  let jobs := queue_name ++ ":jobs" in
  match initial_collections queue_name jobs db with
  | (Some e, _) => inl e
  | (None, db) =>
      inr (mkRocks db queue_name jobs timed_new false false [] prefix (to_lowercase name))
  end.
End Rocks.

Arguments RocksStore SM {DBI}.
