(* ===== verification/RocksSample.v ===== *)
(** * A database and a JSON package for the witnesses

    [sample_rocks] keeps its families in a map and never fails; [sample_kv]
    writes a value as the number that encodes it, and refuses the records whose
    optional parts are set, which the laws allow. *)

From S2P Require Import Prelude SkipMap TimedMap Extern Schedule Job Options Events Shared Metrics InMemoryStore Names RedisServer RedisCodec RedisSample RocksDb RocksStore.

Open Scope string_scope.
Open Scope Z_scope.

Abbreviation Families := (gmap string (gmap string string)).

Definition no_family : KioError := IoError "no such family".

Definition sample_rocks : RocksDb := {|
  RDB := Families;
  cf_handle f d := bool_decide (is_Some (d !! f));
  cf_create f d := (None, <[f := unwrap_or ∅ (d !! f)]> d);
  cf_get f k d := match d !! f with Some m => inr (m !! k) | None => inl no_family end;
  cf_put f k v d := (None, put_in d (f, k, v));
  cf_delete f k d := (None, alter (delete k) f d);
  cf_write ws d := (None, foldl put_in d ws);
  cf_may_exist f k d := bool_decide (is_Some (d !! f ≫= (!!) k));
  cf_compact f d := d;
|}.

Definition sample_rocks_laws : RocksLaws (DB := sample_rocks).
Proof.
  refine {| families := fun d : RDB (RocksDb := sample_rocks) => (d : Families); sound := fun _ => True |}.
  - done.
  - intros f k d m _ E. cbn. by rewrite E.
  - intros f k v d m _ E. eexists. split; [done|]. split; [done|]. cbn.
    apply map_eq. intros g. destruct (decide (f = g)) as [->|Hne].
    + by rewrite lookup_alter_eq, lookup_insert_eq, E.
    + by rewrite lookup_alter_ne, lookup_insert_ne.
  - intros f k d m _ E. eexists. split; [done|]. split; [done|]. cbn.
    apply map_eq. intros g. destruct (decide (f = g)) as [->|Hne].
    + by rewrite lookup_alter_eq, lookup_insert_eq, E.
    + by rewrite lookup_alter_ne, lookup_insert_ne.
  - intros ws d _. by eexists.
  - intros f k d m E Hk. cbn. apply bool_decide_eq_true_2. by rewrite E.
  - done.
Defined.

(** A value is the number that encodes it. *)
Definition text_of {A} `{Countable A} (x : A) : string := show (Z.pos (encode x)).
Definition of_text {A} `{Countable A} (s : string) : option A :=
  match span 0 s with (Z.pos p, "") => decode p | _ => None end.

Lemma of_text_of {A} `{Countable A} (x : A) : of_text (text_of x) = Some x.
Proof. unfold of_text, text_of. rewrite span_show_end by lia. apply decode_encode. Qed.

#[local] Existing Instance sample_extern.
#[local] Existing Instance sample_rocks.

Abbreviation kt := (kvty (EXT := sample_extern) (D := Z) (R := Z) (P := Z)).

Definition sample_kv_to (t : KvTy) : kt t -> option string :=
  match t return kt t -> option string with
  | KIds => fun l => Some (text_of l)
  | KScores => fun l => Some (text_of l)
  | KNumber => fun n => Some (text_of n)
  | KMeta => fun m => Some (text_of (me_processing m, me_paused m))
  | KJob => fun j =>
      match j with
      | mkJob id ts name st None 0 (mkJobOptions 0 (TimeMilis 0) None n None None None None) 0 d None []
          None None None queue None 0 [] 0 => Some (text_of (id, ts, name, state_json st, n, d, queue))
      | _ => None
      end
  | KToken => fun tok => Some (text_of (tok_worker tok, tok_id tok, tok_prefix tok))
  end.

Definition sample_kv_from (t : KvTy) (s : string) : option (kt t) :=
  match t return option (kt t) with
  | KIds => of_text s
  | KScores => of_text s
  | KNumber => of_text s
  | KMeta => (fun p : Z * bool => mkMeta p.1 p.2) <$> of_text s
  | KJob =>
      match of_text (A := option Z * Z * string * string * Z * option Z * option string) s with
      | Some (id, ts, name, st, n, d, queue) =>
          (fun st => mkJob id ts name st None 0
             (mkJobOptions 0 (TimeMilis 0) None n None None None None) 0 d None [] None None None queue None 0 [] 0) <$>
          find (fun x => bool_decide (state_json x = st)) all_states
      | None => None
      end
  | KToken => (fun p : Z * Z * Z => mkToken p.1.1 p.1.2 p.2) <$> of_text s
  end.

Definition sample_kv : KvJson (EXT := sample_extern) Z Z Z := {|
  kv_to := sample_kv_to;
  kv_from := sample_kv_from;
|}.

Definition sample_kv_laws : KvLaws (EXT := sample_extern) Z Z Z (KJ := sample_kv).
Proof.
  split; intros; eexists; (split; [done|]).
  - apply of_text_of.
  - apply of_text_of.
  - change (sample_kv_from KMeta (text_of (me_processing m, me_paused m)) = Some m).
    cbn [sample_kv_from]. rewrite of_text_of. by destruct m.
Defined.

#[local] Existing Instance sample_kv.

(** The store that [rocks_new] makes on an empty database. *)
Definition sample_rocks_store (prefix name : string) : RocksStore ZMap :=
  match rocks_new (D := Z) (R := Z) (P := Z) (Some prefix) name (∅ : Families) with
  | inr st => st
  | inl _ => mkRocks (∅ : Families) "" "" timed_new false false [] "" ""
  end.

Definition sample_rocks_sys (prefix name : string) : SysOf (RocksStore ZMap) Z Z unit :=
  mkSys (sample_rocks_store prefix name) QueueMetrics_default false 0 [] 0 tt.
