(* ===== verification/Backend.v ===== *)
(** * What the collections of a store promise ([Store] of [src/stores/mod.rs])

    The lists and the scored collections of a queue as plain lists, the
    operations of the [Store] trait that move identifiers between them, and the
    interface a backend has to implement: started on collections that represent
    the lists, every operation returns what the specification returns and leaves
    collections that represent the new lists.  [op_ok] is where the backends
    agree: outside of it the same call differs from one backend to the other. *)

From S2P Require Import Prelude SkipMap TimedMap Extern Schedule Job Options.

(** ** Collections *)

Inductive LCol : Type := LActive | LWait | LPaused.
Inductive SCol : Type := SCompleted | SFailed | SDelayed | SPrioritized.

#[export] Instance LCol_eq_dec : EqDecision LCol.
Proof. solve_decision. Defined.
#[export] Instance SCol_eq_dec : EqDecision SCol.
Proof. solve_decision. Defined.

Definition lsuffix (c : LCol) : CollectionSuffix.t :=
  match c with
  | LActive => CollectionSuffix.Active
  | LWait => CollectionSuffix.Wait
  | LPaused => CollectionSuffix.Paused
  end.

Definition ssuffix (c : SCol) : CollectionSuffix.t :=
  match c with
  | SCompleted => CollectionSuffix.Completed
  | SFailed => CollectionSuffix.Failed
  | SDelayed => CollectionSuffix.Delayed
  | SPrioritized => CollectionSuffix.Prioritized
  end.

(** The lists, head first, and the (score, identifier) pairs in order of score. *)
Record Abs : Type := mkAbs {
  ab_list : LCol -> list Z;
  ab_scored : SCol -> list (Z * Z);
}.

Definition upd {A B} `{EqDecision A} (a : A) (b : B) (f : A -> B) : A -> B :=
  fun x => if decide (a = x) then b else f x.

Definition with_list (c : LCol) (l : list Z) (a : Abs) : Abs :=
  mkAbs (upd c l (ab_list a)) (ab_scored a).
Definition with_scored (c : SCol) (l : list (Z * Z)) (a : Abs) : Abs :=
  mkAbs (ab_list a) (upd c l (ab_scored a)).

(** ** Operations *)

Inductive op : Type :=
| OPush (c : LCol) (item : Z) (append : bool)
| OMove
| OScore (c : SCol) (item score : Z)
| OPop (c : SCol) (min : bool)
| ORemoveL (c : LCol) (item : Z)
| ORemoveS (c : SCol) (item : Z)
| OExistsL (c : LCol) (item : Z)
| OExistsS (c : SCol) (item : Z)
| ODelayed (start stop : Z).

Inductive result : Type :=
| RUnit
| RFound (b : bool)
| RMoved (id : option Z)
| RPopped (pairs : list (Z * Z))
| RDue (jobs missed : list Z).

Definition swap_pair (p : Z * Z) : Z * Z := (p.2, p.1).

(** The specification. *)
Definition spec_step (o : op) (a : Abs) : result * Abs :=
  match o with
  | OPush c item append =>
      let l := ab_list a c in
      (RUnit, with_list c (if append then item :: l else l ++ [item]) a)
  | OMove =>
      match last (ab_list a LWait) with
      | None => (RMoved None, a)
      | Some x =>
          let a := with_list LWait (removelast (ab_list a LWait)) a in
          (RMoved (Some x), with_list LActive (x :: ab_list a LActive) a)
      end
  | OScore c item score => (RUnit, with_scored c (alist_insert score item (ab_scored a c)) a)
  | OPop c min =>
      let l := ab_scored a c in
      if min then
        match l with
        | p :: l' => (RPopped [swap_pair p], with_scored c l' a)
        | [] => (RPopped [], a)
        end
      else
        match last l with
        | Some p => (RPopped [swap_pair p], with_scored c (removelast l) a)
        | None => (RPopped [], a)
        end
  | ORemoveL c item => (RUnit, with_list c (filter (fun x => x <> item) (ab_list a c)) a)
  | ORemoveS c item => (RUnit, with_scored c (filter (fun p => p.2 <> item) (ab_scored a c)) a)
  | OExistsL c item => (RFound (bool_decide (item ∈ ab_list a c)), a)
  | OExistsS c item => (RFound (bool_decide (item ∈ (ab_scored a c).*2)), a)
  | ODelayed start stop =>
      let l := ab_scored a SDelayed in
      (RDue (filter (fun p => start <= p.1 <= stop) l).*2 (filter (fun p => p.1 < start) l).*2,
       with_scored SDelayed (filter (fun p => stop < p.1) l) a)
  end.

(** Scores that a double-precision number represents exactly. *)
Definition score_ok (s : Z) : Prop := 0 <= s <= 2 ^ 53.

(** Where the backends agree: a new score and a new identifier in a scored
    collection; no repeated identifier in a list something is removed from; no
    score that is the number of the identifier removed; no job due exactly at the
    end of a window or just before its beginning; membership of the paused list
    not asked for. *)
Definition op_ok (o : op) (a : Abs) : Prop :=
  match o with
  | OPush _ item _ => u64_ok item
  | OMove => True
  | OScore c item score =>
      u64_ok item /\ score_ok score /\ (score ∉ (ab_scored a c).*1) /\ (item ∉ (ab_scored a c).*2)
  | OPop _ _ => True
  | ORemoveL c item => u64_ok item /\ NoDup (ab_list a c)
  | ORemoveS c item => u64_ok item /\ (item ∉ (ab_scored a c).*1)
  | OExistsL c item => u64_ok item /\ c <> LPaused
  | OExistsS c item => u64_ok item
  | ODelayed start stop =>
      0 < start <= stop /\ stop < two63 /\
      (start - 1 ∉ (ab_scored a SDelayed).*1) /\ (stop ∉ (ab_scored a SDelayed).*1)
  end.

(** Identifiers and scores in range, scores in order. *)
Definition abs_ok (a : Abs) : Prop :=
  (forall c, Forall u64_ok (ab_list a c)) /\
  (forall c, Forall (fun p => score_ok p.1 /\ u64_ok p.2) (ab_scored a c) /\
             alist_sorted (ab_scored a c) /\ NoDup (ab_scored a c).*2).

Fixpoint spec_run (ops : list op) (a : Abs) : list result * Abs :=
  match ops with
  | [] => ([], a)
  | o :: ops' =>
      let '(r, a1) := spec_step o a in
      let '(rs, a2) := spec_run ops' a1 in (r :: rs, a2)
  end.

(** Every operation is within the agreement when its turn comes. *)
Fixpoint ops_ok (ops : list op) (a : Abs) : Prop :=
  match ops with
  | [] => True
  | o :: ops' => op_ok o a /\ ops_ok ops' (spec_step o a).2
  end.

(** ** Well-formedness is kept *)

Definition scored_ok (l : list (Z * Z)) : Prop :=
  Forall (fun p => score_ok p.1 /\ u64_ok p.2) l /\ alist_sorted l /\ NoDup l.*2.

Lemma with_list_ok c l a : abs_ok a -> Forall u64_ok l -> abs_ok (with_list c l a).
Proof. intros [H1 H2] Hl. split; [|done]. intros c'. cbn. unfold upd. case_decide; [by subst|done]. Qed.

Lemma with_scored_ok c l a : abs_ok a -> scored_ok l -> abs_ok (with_scored c l a).
Proof. intros [H1 H2] Hl. split; [done|]. intros c'. cbn. unfold upd. case_decide; [by subst|done]. Qed.

Lemma Forall_sublist {A} (P : A -> Prop) (l l' : list A) :
  l' `sublist_of` l -> Forall P l -> Forall P l'.
Proof. intros Hs. rewrite !Forall_forall. intros H x Hx. apply H. by eapply elem_of_sublist. Qed.

Lemma filter_agree {A} (P Q : A -> Prop) `{!forall x, Decision (P x)} `{!forall x, Decision (Q x)} (l : list A) :
  (forall x, x ∈ l -> P x <-> Q x) -> filter P l = filter Q l.
Proof.
  induction l as [|x l IH]; intros Hag; [done|]. rewrite !filter_cons.
  rewrite IH by (intros y Hy; apply Hag; by right). specialize (Hag x ltac:(by left)).
  destruct (decide (P x)), (decide (Q x)); tauto.
Qed.

Lemma sorted_sublist {A} (Rel : relation A) (l l' : list A) :
  l' `sublist_of` l -> StronglySorted Rel l -> StronglySorted Rel l'.
Proof.
  induction 1 as [|x l1 l2 Hs IH|x l1 l2 Hs IH]; intros H; [constructor|..];
    inversion H as [|? ? H1 H2]; subst.
  - constructor; [by apply IH|]. by eapply Forall_sublist.
  - by apply IH.
Qed.

Lemma scored_ok_sublist (l l' : list (Z * Z)) : l' `sublist_of` l -> scored_ok l -> scored_ok l'.
Proof.
  intros Hs (H1 & H2 & H3). split_and!.
  - by eapply Forall_sublist.
  - unfold alist_sorted in *. eapply sorted_sublist; [|done]. by apply fmap_sublist.
  - eapply sublist_NoDup; [done|]. by apply fmap_sublist.
Qed.

Lemma insert_fresh_perm score item (l : list (Z * Z)) :
  alist_sorted l -> score ∉ l.*1 -> alist_insert score item l ≡ₚ (score, item) :: l.
Proof.
  intros Hs Hf. induction l as [|[k v] l IH]; [done|]. cbn [alist_insert].
  apply alist_sorted_cons in Hs as [Hs _].
  rewrite fmap_cons, not_elem_of_cons in Hf. destruct Hf as [Hne Hf]. cbn in Hne.
  repeat case_decide; [done|by subst|]. rewrite IH by done. apply perm_swap.
Qed.

Lemma scored_ok_insert score item l :
  score_ok score -> u64_ok item -> score ∉ l.*1 -> item ∉ l.*2 -> scored_ok l ->
  scored_ok (alist_insert score item l).
Proof.
  intros Hs Hi Hf Hg (H1 & H2 & H3). pose proof (insert_fresh_perm score item l H2 Hf) as Hp.
  split_and!.
  - rewrite Hp. by constructor.
  - by apply alist_insert_sorted.
  - rewrite Hp. by constructor.
Qed.

Lemma removelast_sublist {A} (l : list A) : removelast l `sublist_of` l.
Proof.
  induction l as [|x l IH]; [done|]. cbn. destruct l; [apply sublist_nil_l|by apply sublist_skip].
Qed.

Lemma spec_step_ok o a : abs_ok a -> op_ok o a -> abs_ok (spec_step o a).2.
Proof.
  intros Ha Ho. pose proof Ha as [H1 H2]. destruct o; cbn [spec_step op_ok snd] in *; try done.
  - apply with_list_ok; [done|]. destruct append; [by constructor|].
    apply Forall_app. split; [done|]. by constructor.
  - destruct (last (ab_list a LWait)) as [x|] eqn:E; [|done]. cbn [snd].
    apply last_snoc_inv in E as [l E]. pose proof (H1 LWait) as Hw. rewrite E in Hw |- *.
    apply Forall_app in Hw as [Hl Hx]. apply with_list_ok.
    + apply with_list_ok; [done|]. by rewrite removelast_last.
    + constructor; [by inversion Hx|]. apply (H1 LActive).
  - destruct Ho as (? & ? & ? & ?). apply with_scored_ok; [done|]. apply scored_ok_insert; try done; apply (H2 c).
  - destruct min.
    + destruct (ab_scored a c) as [|p l] eqn:E; [done|]. cbn [snd]. apply with_scored_ok; [done|].
      eapply scored_ok_sublist; [|apply (H2 c)]. rewrite E. by apply sublist_cons.
    + destruct (last (ab_scored a c)); [|done]. cbn [snd]. apply with_scored_ok; [done|].
      eapply scored_ok_sublist; [apply removelast_sublist|apply (H2 c)].
  - apply with_list_ok; [done|]. eapply Forall_sublist; [apply sublist_filter|done].
  - apply with_scored_ok; [done|]. eapply scored_ok_sublist; [apply sublist_filter|apply (H2 c)].
  - apply with_scored_ok; [done|]. eapply scored_ok_sublist; [apply sublist_filter|apply (H2 SDelayed)].
Qed.

(** ** The interface *)

(** [repr n st a]: [st] represents [a] and has room for [n] more operations. *)
Class Backend (St : Type) := {
  run_op : op -> St -> outcome KioError result * St;
  repr : nat -> St -> Abs -> Prop;
}.

Class BackendLaws (St : Type) `{!Backend St} : Prop := {
  repr_ok n st a : repr n st a -> abs_ok a;
  run_op_spec n o st a : repr (S n) st a -> op_ok o a ->
    exists st', run_op o st = (Ok (spec_step o a).1, st') /\ repr n st' (spec_step o a).2;
}.

Section Run.
Context {St : Type} `{!Backend St} `{!BackendLaws St}.

Fixpoint run_list (ops : list op) (st : St) : list (outcome KioError result) * St :=
  match ops with
  | [] => ([], st)
  | o :: ops' =>
      let '(r, st1) := run_op o st in
      let '(rs, st2) := run_list ops' st1 in (r :: rs, st2)
  end.

Lemma run_list_spec ops n st a :
  repr (length ops + n) st a -> ops_ok ops a ->
  (run_list ops st).1 = map Ok (spec_run ops a).1 /\
  repr n (run_list ops st).2 (spec_run ops a).2.
Proof.
  revert st a. induction ops as [|o ops IH]; intros st a Hr Hok; [done|].
  cbn [length Nat.add ops_ok] in *. destruct Hok as [Ho Hok].
  destruct (run_op_spec _ o st a Hr Ho) as (st' & E & Hr').
  cbn [run_list spec_run]. rewrite E. destruct (spec_step o a) as [r a1]. cbn [fst snd] in *.
  destruct (IH st' a1 Hr' Hok) as [H1 H2].
  destruct (run_list ops st'), (spec_run ops a1). cbn in *. by rewrite H1.
Qed.
End Run.
