(* ===== verification/BackendMemory.v ===== *)
(** * The in-memory store is a backend

    The operations of [InMemoryStore] implement the interface of [Backend]: a
    list is a concurrent deque, a scored collection a skip map keyed by score.
    The room a state has left is that of the indexes of its deques. *)

From S2P Require Import Prelude SkipMap Deque TimedMap Extern Schedule Job Options Events Shared Metrics InMemoryStore StoreProps StoreScored Backend.

Section Memory.
Context {SM : Type -> Type} `{OPS : !SkipMap Z SM} `{LAWS : !SkipMapLaws Z SM}
  {EXT : Extern} {D R P : Type}.
Implicit Types st : InMemoryStore SM D R P.

Definition deque_of (c : LCol) st : ConcurrentDeque SM Z :=
  match c with LActive => st_active st | LWait => st_waiting st | LPaused => st_paused st end.

Definition map_of (c : SCol) st : SM Z :=
  match c with
  | SCompleted => st_completed st
  | SFailed => st_failed st
  | SDelayed => st_delayed st
  | SPrioritized => st_prioritized st
  end.

(** Which method an operation calls. *)
Definition memory_run (o : op) st : outcome KioError result * InMemoryStore SM D R P :=
  match o with
  | OPush c item append => (Ok RUnit, add_item (lsuffix c) item None append st)
  | OMove =>
      let '(r, st) := pop_back_push_front CollectionSuffix.Wait CollectionSuffix.Active st in
      (Ok (RMoved r), st)
  | OScore c item score => (Ok RUnit, add_item (ssuffix c) item (Some score) false st)
  | OPop c min => let '(r, st) := pop_set (ssuffix c) min st in (Ok (RPopped r), st)
  | ORemoveL c item => (Ok RUnit, remove_item (lsuffix c) item st)
  | ORemoveS c item => (Ok RUnit, remove_item (ssuffix c) item st)
  | OExistsL c item => let '(r, st) := exists_in 0 (lsuffix c) item st in (Ok (RFound r), st)
  | OExistsS c item => let '(r, st) := exists_in 0 (ssuffix c) item st in (Ok (RFound r), st)
  | ODelayed start stop =>
      let '(jobs, missed, st) := get_delayed_at start stop st in (Ok (RDue jobs missed), st)
  end.

(** What is left of the index space of a deque. *)
Definition spare (n : nat) : Z := two63 - 3 - Z.of_nat n.

Definition deque_repr (n : nat) (d : ConcurrentDeque SM Z) (l : list Z) : Prop :=
  deque_list d = l /\ deque_wf d /\ deque_within (spare n) d.

Definition memory_repr (n : nat) st (a : Abs) : Prop :=
  abs_ok a /\ 0 <= spare n /\
  (forall c, deque_repr n (deque_of c st) (ab_list a c)) /\
  (forall c, sm_iter (map_of c st) = ab_scored a c).

Instance memory_backend : Backend (InMemoryStore SM D R P) := {|
  run_op := memory_run;
  repr := memory_repr;
|}.

(** ** Deques *)

Lemma deque_repr_weaken n d l : deque_repr (S n) d l -> deque_repr n d l.
Proof. intros (H1 & H2 & H3). split_and!; [done|done|]. unfold deque_within, spare in *. lia. Qed.

Lemma deque_repr_exec n d l (o : deque_op Z) :
  0 <= spare (S n) -> deque_repr (S n) d l ->
  (deque_exec o d).1 = (list_exec o l).1 /\ deque_repr n (deque_exec o d).2 (list_exec o l).2.
Proof.
  intros Hn (<- & Hwf & Hin).
  destruct (deque_exec_refines o (spare (S n)) d) as (H1 & H2 & H3 & H4); [|done|done|].
  { unfold spare in *. lia. }
  split; [done|]. split_and!; [done|done|]. unfold spare in *.
  by replace (two63 - 3 - Z.of_nat n) with (two63 - 3 - Z.of_nat (S n) + 1) by lia.
Qed.

(** ** Frames *)

(** Two states with the same deques but one, and the same maps. *)
Definition same_but_list (c : LCol) (st st' : InMemoryStore SM D R P) : Prop :=
  (forall c', c <> c' -> deque_of c' st' = deque_of c' st) /\
  (forall c', map_of c' st' = map_of c' st).

Definition same_but_map (c : SCol) (st st' : InMemoryStore SM D R P) : Prop :=
  (forall c', deque_of c' st' = deque_of c' st) /\
  (forall c', c <> c' -> map_of c' st' = map_of c' st).

Lemma repr_with_list n c l st st' a :
  memory_repr (S n) st a -> abs_ok (with_list c l a) -> same_but_list c st st' ->
  deque_repr n (deque_of c st') l -> memory_repr n st' (with_list c l a).
Proof.
  intros (_ & Hn & Hl & Hm) Ha [Hd Hs] Hc. split_and!; [done|unfold spare in *; lia|..].
  - intros c'. cbn. unfold upd. case_decide as E; [by subst|]. rewrite Hd by done.
    by apply deque_repr_weaken.
  - intros c'. by rewrite Hs.
Qed.

Lemma repr_with_scored n c l st st' a :
  memory_repr (S n) st a -> abs_ok (with_scored c l a) -> same_but_map c st st' ->
  sm_iter (map_of c st') = l -> memory_repr n st' (with_scored c l a).
Proof.
  intros (_ & Hn & Hl & Hm) Ha [Hd Hs] Hc. split_and!; [done|unfold spare in *; lia|..].
  - intros c'. rewrite Hd. by apply deque_repr_weaken.
  - intros c'. cbn. unfold upd. case_decide as E; [by subst|]. by rewrite Hs.
Qed.

Lemma repr_same n st a : memory_repr (S n) st a -> memory_repr n st a.
Proof.
  intros (Ha & Hn & Hl & Hm). split_and!; [done|unfold spare in *; lia| |done].
  intros c. by apply deque_repr_weaken.
Qed.

(** ** The operations *)

Lemma memory_push n c item append st a :
  memory_repr (S n) st a -> u64_ok item ->
  memory_repr n (add_item (lsuffix c) item None append st)
    (with_list c (if append then item :: ab_list a c else ab_list a c ++ [item]) a).
Proof.
  intros Hr Hi. pose proof Hr as (Ha & Hn & Hl & _).
  pose proof (spec_step_ok (OPush c item append) a Ha Hi) as Ha'.
  apply (repr_with_list n c _ st); [done|exact Ha'|by destruct c; split; intros []|].
  destruct (deque_repr_exec n (deque_of c st) (ab_list a c)
    (if append then PushFront item else PushBack item) Hn (Hl c)) as [_ H].
  by destruct c, append.
Qed.

Lemma memory_remove_list n c item st a :
  memory_repr (S n) st a -> op_ok (ORemoveL c item) a ->
  memory_repr n (remove_item (lsuffix c) item st) (spec_step (ORemoveL c item) a).2.
Proof.
  intros Hr Ho. pose proof Hr as (Ha & Hn & Hl & _). pose proof (spec_step_ok _ a Ha Ho) as Ha'.
  apply (repr_with_list n c _ st); [done|exact Ha'|by destruct c; split; intros []|].
  destruct (deque_repr_exec n (deque_of c st) (ab_list a c) (RemoveValue item) Hn (Hl c)) as [_ H].
  by destruct c.
Qed.

Lemma memory_remove_scored n c item st a :
  memory_repr (S n) st a -> op_ok (ORemoveS c item) a ->
  memory_repr n (remove_item (ssuffix c) item st) (spec_step (ORemoveS c item) a).2.
Proof.
  intros Hr Ho. pose proof Hr as (Ha & _ & _ & Hm). pose proof (spec_step_ok _ a Ha Ho) as Ha'.
  apply (repr_with_scored n c _ st); [done|exact Ha'|by destruct c; split; intros []|].
  destruct Ho as [_ Ho]. specialize (Hm c). rewrite <- Hm in *.
  replace (map_of c (remove_item (ssuffix c) item st)) with (remove_scored item (map_of c st))
    by (by destruct c).
  by rewrite remove_scored_iter, decide_False.
Qed.

Lemma memory_score n c item score st a :
  memory_repr (S n) st a -> op_ok (OScore c item score) a ->
  memory_repr n (add_item (ssuffix c) item (Some score) false st) (spec_step (OScore c item score) a).2.
Proof.
  intros Hr Ho. pose proof Hr as (Ha & _ & _ & Hm). pose proof (spec_step_ok _ a Ha Ho) as Ha'.
  apply (repr_with_scored n c _ st); [done|exact Ha'|by destruct c; split; intros []|].
  destruct Ho as (_ & Hs & _). specialize (Hm c). rewrite <- Hm.
  replace (map_of c (add_item (ssuffix c) item (Some score) false st)) with
    (sm_insert (cast_unsigned score) item (map_of c st)) by (by destruct c).
  rewrite cast_unsigned_small by (unfold u64_ok, score_ok, two64 in *; lia). apply iter_insert.
Qed.

Lemma memory_move n st a :
  memory_repr (S n) st a ->
  exists st', memory_run OMove st = (Ok (spec_step OMove a).1, st') /\
    memory_repr n st' (spec_step OMove a).2.
Proof.
  intros Hr. pose proof Hr as (Ha & Hn & Hl & Hm). pose proof (spec_step_ok OMove a Ha I) as Ha'.
  destruct (deque_repr_exec n _ _ PopBack Hn (Hl LWait)) as [H1 H2].
  cbn [memory_run pop_back_push_front spec_step deque_exec list_exec fst snd deque_of] in *.
  destruct (pop_back (st_waiting st)) as [[x|] w]; cbn [fst snd] in *; rewrite <- H1 in *.
  - cbn [fst snd] in *. eexists. split; [done|].
    destruct (deque_repr_exec n _ _ (PushFront x) Hn (Hl LActive)) as [_ H3].
    split_and!; [done|unfold spare in *; lia|..].
    + intros []; [exact H3|exact H2|apply deque_repr_weaken, (Hl LPaused)].
    + intros c. specialize (Hm c). by destruct c.
  - eexists. split; [done|]. cbn [snd].
    assert (Hnil : ab_list a LWait = []) by (by apply last_None).
    rewrite Hnil in H2. split_and!; [done|unfold spare in *; lia|..].
    + intros []; [apply deque_repr_weaken, (Hl LActive)|rewrite Hnil; exact H2|
        apply deque_repr_weaken, (Hl LPaused)].
    + intros c. specialize (Hm c). by destruct c.
Qed.

(** [pop_set] on the map of a collection. *)
Lemma memory_pop_set c min st :
  exists m', pop_set (ssuffix c) min st =
    (match (pop_sorted min (map_of c st)).1 with Some p => [swap_pair p] | None => [] end, m') /\
    same_but_map c st m' /\ map_of c m' = (pop_sorted min (map_of c st)).2.
Proof.
  unfold pop_set. destruct c; cbn [ssuffix map_of];
    match goal with |- context [pop_sorted min ?x] => destruct (pop_sorted min x) as [[[k v]|] m] end;
    eexists; (split; [reflexivity|]); split; done || (split; by intros []).
Qed.

Lemma pop_sorted_spec (min : bool) (m : SM Z) :
  (pop_sorted min m).1 = (if min then head (sm_iter m) else last (sm_iter m)) /\
  sm_iter (pop_sorted min m).2 = (if min then tail (sm_iter m) else removelast (sm_iter m)).
Proof.
  unfold pop_sorted. destruct min.
  - destruct (sm_iter m) as [|[k v] l] eqn:E.
    + rewrite pop_front_nil by done. cbn [fst snd]. by rewrite E.
    + destruct (pop_front_cons m k v l E) as (m' & -> & Hl). done.
  - destruct (last (sm_iter m)) as [[k v]|] eqn:E.
    + apply last_snoc_inv in E as [l E]. destruct (pop_back_snoc m k v l E) as (m' & -> & Hl).
      cbn [fst snd]. by rewrite E, removelast_last.
    + apply last_None in E. rewrite pop_back_nil by done. cbn [fst snd]. by rewrite E.
Qed.

Lemma memory_pop n c min st a :
  memory_repr (S n) st a ->
  exists st', memory_run (OPop c min) st = (Ok (spec_step (OPop c min) a).1, st') /\
    memory_repr n st' (spec_step (OPop c min) a).2.
Proof.
  intros Hr. pose proof Hr as (Ha & _ & _ & Hm). pose proof (spec_step_ok (OPop c min) a Ha I) as Ha'.
  destruct (memory_pop_set c min st) as (st' & E & Hs & Hc).
  destruct (pop_sorted_spec min (map_of c st)) as [H1 H2]. rewrite Hm in H1, H2. rewrite <- Hc in H2.
  exists st'. cbn [memory_run]. rewrite E, H1. cbn [spec_step] in *.
  destruct min, (ab_scored a c) as [|p l] eqn:El; cbn [head last tail removelast fst snd] in *.
  - split; [done|]. apply repr_same. destruct Hr as (? & ? & ? & ?). destruct Hs as [Hd Ho].
    split_and!; [done|done|intros c'; by rewrite Hd|].
    intros c'. destruct (decide (c = c')) as [<-|Hne]; [by rewrite H2, El|by rewrite Ho].
  - split; [done|]. by eapply repr_with_scored.
  - split; [done|]. apply repr_same. destruct Hr as (? & ? & ? & ?). destruct Hs as [Hd Ho].
    split_and!; [done|done|intros c'; by rewrite Hd|].
    intros c'. destruct (decide (c = c')) as [<-|Hne]; [by rewrite H2, El|by rewrite Ho].
  - destruct (last (p :: l)) as [q|] eqn:Eq; [|by apply last_None in Eq].
    split; [done|]. by eapply repr_with_scored.
Qed.

Lemma memory_exists_list n c item st a :
  memory_repr (S n) st a ->
  memory_run (OExistsL c item) st = (Ok (spec_step (OExistsL c item) a).1, st).
Proof.
  intros (_ & _ & Hl & _). cbn [spec_step fst]. destruct (Hl c) as [<- _].
  destruct c; cbn [memory_run exists_in lsuffix deque_of];
    by rewrite contains_value_list.
Qed.

Lemma memory_exists_scored n c item st a :
  memory_repr (S n) st a ->
  memory_run (OExistsS c item) st = (Ok (spec_step (OExistsS c item) a).1, st).
Proof.
  intros (_ & _ & _ & Hm). specialize (Hm c). cbn [spec_step fst]. rewrite <- Hm.
  destruct c; cbn [memory_run exists_in ssuffix map_of]; by rewrite has_value_spec.
Qed.

(** With no job at the two dates where the backends differ, both windows select
    the same jobs. *)
Lemma window_filters start stop (l : list (Z * Z)) :
  start <= stop -> start - 1 ∉ l.*1 -> stop ∉ l.*1 ->
  filter (fun p => start <= p.1 < stop) l = filter (fun p => start <= p.1 <= stop) l /\
  filter (fun p => p.1 < start - 1) l = filter (fun p => p.1 < start) l /\
  filter (fun p => ~ (start <= p.1 < stop) /\ ~ p.1 < start - 1) l = filter (fun p => stop < p.1) l.
Proof.
  intros Hle. induction l as [|[k v] l IH]; [done|].
  rewrite !fmap_cons, !not_elem_of_cons. cbn [fst]. intros [Hk1 H1] [Hk2 H2].
  destruct (IH H1 H2) as (E1 & E2 & E3). rewrite !filter_cons, E1, E2, E3. cbn [fst].
  split_and!; repeat case_decide; done || lia.
Qed.

Lemma memory_delayed n start stop st a :
  memory_repr (S n) st a -> op_ok (ODelayed start stop) a ->
  exists st', memory_run (ODelayed start stop) st = (Ok (spec_step (ODelayed start stop) a).1, st') /\
    memory_repr n st' (spec_step (ODelayed start stop) a).2.
Proof.
  intros Hr Ho. pose proof Hr as (Ha & _ & _ & Hm). pose proof (spec_step_ok _ a Ha Ho) as Ha'.
  destruct Ho as (H1 & H2 & H3 & H4). pose proof (Hm SDelayed) as Hd. cbn [map_of] in Hd.
  destruct (get_delayed_at_spec start stop st) as (m & E & Hi); [lia|lia|]. rewrite Hd in E, Hi.
  destruct (window_filters start stop (ab_scored a SDelayed)) as (F1 & F2 & F3); [lia|done|done|].
  rewrite F1, F2 in E. rewrite F3 in Hi.
  exists (set_st_delayed m st). cbn [memory_run]. rewrite E. split; [done|].
  apply (repr_with_scored n SDelayed _ st); [done|exact Ha'|by split; intros []|exact Hi].
Qed.

Instance memory_laws : BackendLaws (InMemoryStore SM D R P).
Proof.
  split; [by intros n st a (? & _)|]. intros n o st a Hr Ho. destruct o.
  - eexists. split; [reflexivity|]. by apply memory_push.
  - by apply memory_move.
  - eexists. split; [reflexivity|]. by apply memory_score.
  - by apply memory_pop.
  - eexists. split; [reflexivity|]. by apply memory_remove_list.
  - eexists. split; [reflexivity|]. by apply memory_remove_scored.
  - exists st. split; [by eapply memory_exists_list|by apply repr_same].
  - exists st. split; [by eapply memory_exists_scored|by apply repr_same].
  - by apply memory_delayed.
Qed.
End Memory.

#[export] Existing Instance memory_backend.
#[export] Existing Instance memory_laws.
