(* ===== verification/BackendRedis.v ===== *)
(** * The Redis store is a backend

    The operations of [RedisStore] implement the interface of [Backend] on a
    server that is reached: a list is a Redis list of decimal numbers, a scored
    collection a sorted set.  [stores_agree] then compares the two backends. *)

From S2P Require Import Prelude SkipMap Deque TimedMap Extern Schedule Job Options Events Shared Metrics InMemoryStore StoreProps Backend BackendMemory Names RedisServer RedisCodec RedisVersion RedisStore RedisFacts.

Open Scope string_scope.
Open Scope Z_scope.

(** ** Sorted sets of numbers *)

Definition zpairs (l : list (Z * Z)) : list (Z * string) := (fun p => (p.1, show p.2)) <$> l.

Lemma zpairs_filter_score (F : Z -> Prop) `{forall x, Decision (F x)} (l : list (Z * Z)) :
  filter (fun p => F p.1) (zpairs l) = zpairs (filter (fun p => F p.1) l).
Proof.
  induction l as [|[k v] l IH]; [done|]. unfold zpairs in *. rewrite fmap_cons, !filter_cons.
  cbn [fst]. case_decide; [by rewrite fmap_cons, IH|exact IH].
Qed.

Lemma zremove_pairs item (l : list (Z * Z)) :
  zremove (show item) (zpairs l) = zpairs (filter (fun p => p.2 <> item) l).
Proof.
  unfold zremove. induction l as [|[k v] l IH]; [done|]. unfold zpairs in *.
  rewrite fmap_cons, !filter_cons. cbn [fst snd].
  destruct (decide (v = item)) as [->|Hne].
  - rewrite !decide_False by (intros H; by apply H). exact IH.
  - rewrite !decide_True; [by rewrite fmap_cons, IH|done|by intros ?%show_inj].
Qed.

Lemma zinsert_pairs score item (l : list (Z * Z)) :
  score ∉ l.*1 -> zinsert (score, show item) (zpairs l) = zpairs (alist_insert score item l).
Proof.
  induction l as [|[k v] l IH]; [done|]. rewrite fmap_cons, not_elem_of_cons. cbn [fst].
  intros [Hne Hf]. unfold zpairs in *. rewrite fmap_cons. cbn [zinsert alist_insert fst snd].
  unfold zbefore. cbn [fst snd].
  destruct (Z.ltb_spec score k), (Z.eqb_spec score k); try lia; cbn [orb andb].
  - rewrite decide_True by done. done.
  - rewrite !decide_False by (cbn; lia). rewrite fmap_cons. by rewrite IH.
Qed.

Lemma zadd_pairs score item (l : list (Z * Z)) :
  score ∉ l.*1 -> item ∉ l.*2 -> zadd (show item) score (zpairs l) = zpairs (alist_insert score item l).
Proof.
  intros Hs Hi. unfold zadd. rewrite zremove_pairs, filter_all; [by apply zinsert_pairs|].
  intros [k v] Hin Hv. apply Hi, list_elem_of_fmap. by exists (k, v).
Qed.

(** The score found for an identifier is one of the collection's. *)
Lemma zscore_pairs item (l : list (Z * Z)) :
  match zscore (show item) (zpairs l) with
  | Some s => (s, item) ∈ l
  | None => item ∉ l.*2
  end.
Proof.
  unfold zscore, zpairs. induction l as [|[k v] l IH]; [cbn; set_solver|].
  rewrite fmap_cons, filter_cons. cbn [fst snd].
  destruct (decide (v = item)) as [->|Hne].
  - rewrite decide_True by done. cbn. by left.
  - rewrite decide_False by (by intros ?%show_inj).
    revert IH. case_match; intros IH; [by right|]. set_solver.
Qed.

(** ** Keys of the collections *)

Lemma lsuffix_ok c : suffix_ok (lsuffix c).
Proof. by destruct c. Qed.
Lemma ssuffix_ok c : suffix_ok (ssuffix c).
Proof. by destruct c. Qed.

Section Redis.
Context {SRV : RedisServer} {LAWS : RedisLaws} {EXT : Extern} {UID : Uuids} {D R P X : Type}
  {JS : Json D R P} {CLK : Clock}.
Abbreviation Sys := (SysOf RedisStore R P X).
Implicit Types s : Sys.

Definition lkey (c : LCol) s : string := key_of (lsuffix c) (sy_store s).
Definition skey (c : SCol) s : string := key_of (ssuffix c) (sy_store s).

Lemma lkey_ne c c' s : c <> c' -> lkey c s <> lkey c' s.
Proof.
  intros Hc He%collection_name_inj; [|apply lsuffix_ok..]. by destruct c, c'.
Qed.

Lemma skey_ne c c' s : c <> c' -> skey c s <> skey c' s.
Proof.
  intros Hc He%collection_name_inj; [|apply ssuffix_ok..]. by destruct c, c'.
Qed.

Lemma lkey_skey c c' s : lkey c s <> skey c' s.
Proof. intros He%collection_name_inj; [by destruct c, c'|apply lsuffix_ok|apply ssuffix_ok]. Qed.

(** Which method an operation calls. *)
Definition redis_run (o : op) : KM Sys result :=
  match o with
  | OPush c item append => redis_add_item (lsuffix c) item None append ;;; m_ret RUnit
  | OMove =>
      let* r := redis_pop_back_push_front CollectionSuffix.Wait CollectionSuffix.Active in
      m_ret (RMoved r)
  | OScore c item score => redis_add_item (ssuffix c) item (Some score) false ;;; m_ret RUnit
  | OPop c min => let* r := redis_pop_set (ssuffix c) min in m_ret (RPopped r)
  | ORemoveL c item => redis_remove_item (lsuffix c) item ;;; m_ret RUnit
  | ORemoveS c item => redis_remove_item (ssuffix c) item ;;; m_ret RUnit
  | OExistsL c item => let* r := redis_exists_in (lsuffix c) item in m_ret (RFound r)
  | OExistsS c item => let* r := redis_exists_in (ssuffix c) item in m_ret (RFound r)
  | ODelayed start stop =>
      let* r := redis_get_delayed_at start stop in m_ret (RDue r.1 r.2)
  end.

Definition redis_repr (n : nat) s (a : Abs) : Prop :=
  abs_ok a /\ online s /\
  (forall c, holds (keys s) (lkey c s) (VList (show <$> ab_list a c))) /\
  (forall c, holds (keys s) (skey c s) (VZset (zpairs (ab_scored a c)))).

Instance redis_backend : Backend Sys := {|
  run_op := redis_run;
  repr := redis_repr;
|}.

(** ** Frames *)

Lemma redis_with_list n c l s s' a :
  redis_repr (S n) s a -> abs_ok (with_list c l a) -> online s' -> frame s s' ->
  space s' = with_key (lkey c s) (VList (show <$> l)) (space s) ->
  redis_repr n s' (with_list c l a).
Proof.
  intros (_ & _ & Hl & Hz) Ha Hu Hf Hk. unfold redis_repr, lkey, skey, keys in *.
  split_and!; [done|done|..]; intros c'; rewrite (frame_key _ s s' Hf), Hk; cbn [ks_keys with_key].
  - cbn. unfold upd. case_decide as E; [subst; apply put_holds|].
    apply holds_put_ne; [by apply lkey_ne|apply Hl].
  - apply holds_put_ne; [apply lkey_skey|apply Hz].
Qed.

Lemma redis_with_scored n c l s s' a :
  redis_repr (S n) s a -> abs_ok (with_scored c l a) -> online s' -> frame s s' ->
  space s' = with_key (skey c s) (VZset (zpairs l)) (space s) ->
  redis_repr n s' (with_scored c l a).
Proof.
  intros (_ & _ & Hl & Hz) Ha Hu Hf Hk. unfold redis_repr, lkey, skey, keys in *.
  split_and!; [done|done|..]; intros c'; rewrite (frame_key _ s s' Hf), Hk; cbn [ks_keys with_key].
  - apply holds_put_ne; [|apply Hl]. intros He. by apply (lkey_skey c' c s).
  - cbn. unfold upd. case_decide as E; [subst; apply put_holds|].
    apply holds_put_ne; [by apply skey_ne|apply Hz].
Qed.

Lemma redis_same n s s' a :
  redis_repr (S n) s a -> online s' -> frame s s' -> space s' = space s -> redis_repr n s' a.
Proof.
  intros (Ha & _ & Hl & Hz) Hu Hf Hk. unfold redis_repr, lkey, skey, keys in *.
  split_and!; [done|done|..]; intros c'; rewrite (frame_key _ s s' Hf), Hk; done.
Qed.

(** ** Operations that are one command *)

(** Steps over a connection and the lookup of a key. *)
Ltac connect Hu :=
  rewrite ?(run_bind _ _ _ _ _ (get_connection_up _ Hu)), ?(run_bind _ _ _ _ _ (run_key _ _)),
    ?(run_bind _ _ _ _ _ (get_connection_up _ Hu)).

(** A pipeline of one command whose reply is dropped. *)
Lemma run_pipeline (c : Cmd) s r ks :
  online s -> (forall now, respond now c (space s) = (r, ks)) -> is_error r = None ->
  exists s', (query [c] ;;; m_ret tt) s = (Ok tt, s') /\ space s' = ks /\ online s' /\ frame s s'.
Proof.
  intros Hu Hr He. destruct (query_up [c] s [r] ks Hu) as (s' & H1 & H2).
  { econstructor; [done|done|constructor]. }
  exists s'. by rewrite (run_bind _ _ _ _ _ H1).
Qed.

Lemma redis_push n c item append s a :
  redis_repr (S n) s a -> u64_ok item ->
  exists s', redis_run (OPush c item append) s = (Ok RUnit, s') /\
    redis_repr n s' (spec_step (OPush c item append) a).2.
Proof.
  intros Hr Hi. pose proof Hr as (Ha & Hu & Hl & _).
  pose proof (spec_step_ok (OPush c item append) a Ha Hi) as Ha'.
  destruct (run_pipeline (if append then Lpush (lkey c s) (show item) else Rpush (lkey c s) (show item))
    s _ _ Hu (fun now => respond_push now _ _ _ _ append (Hl c)) eq_refl) as (s' & E & Hk & Hu' & Hf).
  exists s'. split.
  - cbn [redis_run]. unfold redis_add_item.
    rewrite (run_bind _ _ s tt s'); [done|].
    connect Hu.
    by destruct c.
  - eapply redis_with_list; [done|exact Ha'|done|done|]. rewrite Hk. f_equal. f_equal.
    destruct append; [done|]. by rewrite fmap_app.
Qed.

Lemma redis_score n c item score s a :
  redis_repr (S n) s a -> op_ok (OScore c item score) a ->
  exists s', redis_run (OScore c item score) s = (Ok RUnit, s') /\
    redis_repr n s' (spec_step (OScore c item score) a).2.
Proof.
  intros Hr Ho. pose proof Hr as (Ha & Hu & _ & Hz). pose proof (spec_step_ok _ a Ha Ho) as Ha'.
  destruct Ho as (Hi & Hs & Hf1 & Hf2).
  destruct (run_pipeline (Zadd (skey c s) (show item) score) s _ _ Hu
    (fun now => respond_zadd now _ _ _ _ _ (Hz c))) as (s' & E & Hk & Hu' & Hf); [done|].
  exists s'. split.
  - cbn [redis_run]. unfold redis_add_item. rewrite (run_bind _ _ s tt s'); [done|].
    connect Hu.
    by destruct c.
  - eapply redis_with_scored; [done|exact Ha'|done|done|]. rewrite Hk. f_equal. f_equal.
    rewrite double_exact by (unfold score_ok in Hs; lia). by apply zadd_pairs.
Qed.

Lemma remove_first_once item (l : list Z) :
  NoDup l -> remove_first 1 (show item) (show <$> l) = show <$> filter (fun x => x <> item) l.
Proof.
  induction l as [|x l IH]; [done|]. intros [Hx Hn]%NoDup_cons.
  rewrite fmap_cons, filter_cons. cbn [remove_first].
  destruct (decide (x = item)) as [->|Hne].
  - rewrite decide_True, decide_False by (done || (intros H; by apply H)).
    rewrite filter_all; [by destruct (show <$> l)|]. by intros y Hy ->.
  - rewrite decide_False, decide_True; [|done|by intros ?%show_inj]. rewrite fmap_cons. f_equal. by apply IH.
Qed.

Lemma redis_remove_list n c item s a :
  redis_repr (S n) s a -> op_ok (ORemoveL c item) a ->
  exists s', redis_run (ORemoveL c item) s = (Ok RUnit, s') /\
    redis_repr n s' (spec_step (ORemoveL c item) a).2.
Proof.
  intros Hr Ho. pose proof Hr as (Ha & Hu & Hl & _). pose proof (spec_step_ok _ a Ha Ho) as Ha'.
  destruct (run_pipeline (Lrem (lkey c s) 1 (show item)) s _ _ Hu
    (fun now => respond_lrem now _ _ _ _ _ (Hl c)) eq_refl) as (s' & E & Hk & Hu' & Hf).
  exists s'. split.
  - cbn [redis_run]. unfold redis_remove_item. rewrite (run_bind _ _ s tt s'); [done|].
    connect Hu.
    by destruct c.
  - eapply redis_with_list; [done|exact Ha'|done|done|]. rewrite Hk. f_equal. f_equal.
    apply remove_first_once, Ho.
Qed.

Lemma redis_remove_scored n c item s a :
  redis_repr (S n) s a -> op_ok (ORemoveS c item) a ->
  exists s', redis_run (ORemoveS c item) s = (Ok RUnit, s') /\
    redis_repr n s' (spec_step (ORemoveS c item) a).2.
Proof.
  intros Hr Ho. pose proof Hr as (Ha & Hu & _ & Hz). pose proof (spec_step_ok _ a Ha Ho) as Ha'.
  destruct (run_pipeline (Zrem (skey c s) (show item)) s _ _ Hu
    (fun now => respond_zrem now _ _ _ _ (Hz c)) eq_refl) as (s' & E & Hk & Hu' & Hf).
  exists s'. split.
  - cbn [redis_run]. unfold redis_remove_item. rewrite (run_bind _ _ s tt s'); [done|].
    connect Hu.
    by destruct c.
  - eapply redis_with_scored; [done|exact Ha'|done|done|]. rewrite Hk. by rewrite zremove_pairs.
Qed.

Lemma position_show item (l : list Z) :
  match position (show item) (show <$> l) with Some _ => item ∈ l | None => item ∉ l end.
Proof.
  induction l as [|x l IH]; [cbn; set_solver|]. rewrite fmap_cons. cbn [position].
  destruct (decide (x = item)) as [->|Hne].
  - rewrite decide_True by done. by left.
  - rewrite decide_False by (by intros ?%show_inj).
    destruct (position _ _); cbn; [by right|set_solver].
Qed.

Lemma redis_exists_list n c item s a :
  redis_repr (S n) s a -> op_ok (OExistsL c item) a ->
  exists s', redis_run (OExistsL c item) s = (Ok (spec_step (OExistsL c item) a).1, s') /\
    redis_repr n s' a.
Proof.
  intros Hr [_ Hc]. pose proof Hr as (Ha & Hu & Hl & _).
  destruct (command_up (Lpos (lkey c s) (show item)) s _ _ Hu
    (fun now => respond_lpos now _ _ _ _ (Hl c))) as (s' & E & Hk & Hu' & Hf).
  { by destruct (position _ _). }
  exists s'. split; [|by eapply redis_same].
  cbn [redis_run]. unfold redis_exists_in. rewrite (run_bind _ _ s (bool_decide (item ∈ ab_list a c)) s'); [done|].
  connect Hu. pose proof (position_show item (ab_list a c)) as Hp.
  destruct c; [|..|done]; cbn [lsuffix]; rewrite (run_bind _ _ _ _ _ E); cbv [m_ret];
    (destruct (position _ _); [by rewrite bool_decide_true|by rewrite bool_decide_false]).
Qed.

(** What the reply to [ZSCORE] says about membership. *)
Lemma found_score item (l : list (Z * Z)) s :
  scored_ok l ->
  (let* score := parsed (as_opt_u64 (bulk_or_nil (show <$> zscore (show item) (zpairs l)))) in
   m_ret (match score with Some _ => true | None => false end)) s =
  (Ok (bool_decide (item ∈ l.*2)), s).
Proof.
  intros [Hall _]. pose proof (zscore_pairs item l) as Hp.
  destruct (zscore _ _) as [x|]; cbn [bulk_or_nil fmap option_fmap option_map as_opt_u64 as_u64].
  - rewrite Forall_forall in Hall. destruct (Hall _ Hp) as [Hs _]. cbn in Hs.
    rewrite parse_show_u64 by (unfold score_ok, u64_ok, two64 in *; lia).
    rewrite bool_decide_true; [done|]. apply list_elem_of_fmap. by exists (x, item).
  - by rewrite bool_decide_false.
Qed.

Lemma redis_exists_scored n c item s a :
  redis_repr (S n) s a ->
  exists s', redis_run (OExistsS c item) s = (Ok (spec_step (OExistsS c item) a).1, s') /\
    redis_repr n s' a.
Proof.
  intros Hr. pose proof Hr as (Ha & Hu & _ & Hz).
  destruct (command_up (Zscore (skey c s) (show item)) s _ _ Hu
    (fun now => respond_zscore now _ _ _ _ (Hz c))) as (s' & E & Hk & Hu' & Hf).
  { by destruct (zscore _ _). }
  exists s'. split; [|by eapply redis_same].
  cbn [redis_run]. unfold redis_exists_in.
  rewrite (run_bind _ _ s (bool_decide (item ∈ (ab_scored a c).*2)) s'); [done|].
  connect Hu. assert (Hk2 : key_of (ssuffix c) (sy_store s) = skey c s) by done.
  destruct Ha as [_ Ha]. specialize (Ha c).
  destruct c; cbn [ssuffix] in *; rewrite Hk2, (run_bind _ _ _ _ _ E); by apply found_score.
Qed.

Lemma fmap_removelast {A B} (f : A -> B) (l : list A) : removelast (f <$> l) = f <$> removelast l.
Proof.
  induction l as [|x l IH]; [done|]. rewrite fmap_cons. cbn [removelast].
  destruct l; [done|]. rewrite fmap_cons in *. by rewrite IH.
Qed.

Lemma redis_move n s a :
  redis_repr (S n) s a ->
  exists s', redis_run OMove s = (Ok (spec_step OMove a).1, s') /\
    redis_repr n s' (spec_step OMove a).2.
Proof.
  intros Hr. pose proof Hr as (Ha & Hu & Hl & Hz). pose proof (spec_step_ok OMove a Ha I) as Ha'.
  pose proof (fun now => respond_rpoplpush now (lkey LWait s) (lkey LActive s) (space s) _ _
    (lkey_ne LWait LActive s ltac:(done)) (Hl LWait) (Hl LActive)) as Hresp.
  rewrite fmap_last, fmap_removelast in Hresp. cbn [redis_run spec_step] in *.
  unfold redis_pop_back_push_front. connect Hu.
  change (key_of CollectionSuffix.Wait (sy_store s)) with (lkey LWait s).
  change (key_of CollectionSuffix.Active (sy_store s)) with (lkey LActive s).
  destruct (last (ab_list a LWait)) as [x|] eqn:Ex; cbn [fmap option_fmap option_map] in Hresp.
  - destruct (command_up _ s _ _ Hu Hresp eq_refl) as (s' & E & Hk & Hu' & Hf).
    assert (Hx : u64_ok x).
    { pose proof (proj1 Ha LWait) as Hall. apply last_snoc_inv in Ex as [l0 Ex]. rewrite Ex in Hall.
      by apply Forall_app in Hall as [_ Hall]; inversion Hall. }
    exists s'. split.
    + rewrite (run_bind _ _ s (Some x) s'); [done|]. unfold attempt. connect Hu.
      rewrite (run_bind _ _ _ _ _ E). cbn [as_u64]. by rewrite parse_show_u64.
    + cbn [snd] in *. split_and!; [done|done|..]; unfold keys, lkey, skey; intros c;
        rewrite (frame_key _ s s' Hf), Hk; cbn [ks_keys with_key].
      * destruct c; [apply put_holds|..].
        -- apply holds_put_ne; [by apply (lkey_ne LActive LWait)|apply put_holds].
        -- apply holds_put_ne; [by apply (lkey_ne LActive LPaused)|].
           apply holds_put_ne; [by apply (lkey_ne LWait LPaused)|apply (Hl LPaused)].
      * do 2 (apply holds_put_ne; [apply lkey_skey|]). apply Hz.
  - destruct (command_up _ s _ _ Hu Hresp eq_refl) as (s' & E & Hk & Hu' & Hf).
    exists s'. split; [|by eapply redis_same].
    rewrite (run_bind _ _ s None s'); [done|]. unfold attempt. connect Hu.
    by rewrite (run_bind _ _ _ _ _ E).
Qed.

(** The end of a collection that a pop takes from. *)
Definition end_of {A} (min : bool) (l : list A) : option A := if min then head l else last l.
Definition without_end {A} (min : bool) (l : list A) : list A := if min then tail l else removelast l.

Lemma end_of_fmap {A B} (f : A -> B) min (l : list A) : end_of min (f <$> l) = f <$> end_of min l.
Proof. destruct min; [by destruct l|apply fmap_last]. Qed.

Lemma without_end_fmap {A B} (f : A -> B) min (l : list A) :
  without_end min (f <$> l) = f <$> without_end min l.
Proof. destruct min; [by destruct l|apply fmap_removelast]. Qed.

Lemma spec_pop c min a :
  spec_step (OPop c min) a =
  match end_of min (ab_scored a c) with
  | Some p => (RPopped [swap_pair p], with_scored c (without_end min (ab_scored a c)) a)
  | None => (RPopped [], a)
  end.
Proof. cbn [spec_step]. unfold end_of, without_end. by destruct min, (ab_scored a c). Qed.

Lemma end_of_elem {A} min (l : list A) x : end_of min l = Some x -> x ∈ l.
Proof.
  destruct min; cbn.
  - destruct l; [done|]. intros [= ->]. by left.
  - intros [l0 ->]%last_snoc_inv. set_solver.
Qed.

Lemma redis_pop n c min s a :
  redis_repr (S n) s a ->
  exists s', redis_run (OPop c min) s = (Ok (spec_step (OPop c min) a).1, s') /\
    redis_repr n s' (spec_step (OPop c min) a).2.
Proof.
  intros Hr. pose proof Hr as (Ha & Hu & _ & Hz). pose proof (spec_step_ok (OPop c min) a Ha I) as Ha'.
  pose proof (fun now => respond_zpop now _ _ _ min (Hz c)) as Hresp.
  change (if min then head ?l else last ?l) with (end_of min l) in Hresp.
  change (if min then tail ?l else removelast ?l) with (without_end min l) in Hresp.
  unfold zpairs in Hresp. rewrite end_of_fmap, without_end_fmap in Hresp. rewrite spec_pop in *.
  cbn [redis_run]. unfold redis_pop_set.
  destruct (end_of min (ab_scored a c)) as [p|] eqn:Ep; cbn [fmap option_fmap option_map] in Hresp;
    destruct (command_up _ s _ _ Hu Hresp eq_refl) as (s' & E & Hk & Hu' & Hf); exists s'.
  - apply end_of_elem in Ep.
    pose proof (proj1 (proj2 Ha c)) as Hall. rewrite Forall_forall in Hall.
    destruct (Hall p Ep) as [Hs Hi]. split; [|by eapply redis_with_scored].
    rewrite (run_bind _ _ s [swap_pair p] s'); [done|]. connect Hu. rewrite (run_bind _ _ _ _ _ E).
    cbn. rewrite (parse_show_u64 p.1), (parse_show_u64 p.2) by (done || unfold score_ok, u64_ok, two64 in *; lia).
    done.
  - split; [|by eapply redis_same]. rewrite (run_bind _ _ s [] s'); [done|].
    connect Hu. by rewrite (run_bind _ _ _ _ _ E).
Qed.

(** ** The window of delayed jobs *)

Lemma zpairs_snd (l : list (Z * Z)) : (zpairs l).*2 = show <$> l.*2.
Proof. unfold zpairs. rewrite <- !list_fmap_compose. done. Qed.

Lemma within_due start stop (l : list (Z * Z)) :
  filter (fun p => within (Incl start) (Incl stop) p = true) (zpairs l) =
  zpairs (filter (fun p => start <= p.1 <= stop) l).
Proof.
  etrans; [|exact (zpairs_filter_score (fun x => start <= x <= stop) l)]. apply list_filter_iff.
  intros p. unfold within. cbn. rewrite andb_true_iff, !Z.leb_le. done.
Qed.

Lemma within_missed start (l : list (Z * Z)) :
  filter (fun p => within NegInf (Excl start) p = true) (zpairs l) =
  zpairs (filter (fun p => p.1 < start) l).
Proof.
  etrans; [|exact (zpairs_filter_score (fun x => x < start) l)]. apply list_filter_iff.
  intros p. unfold within. cbn. by rewrite Z.ltb_lt.
Qed.

Lemma within_kept start stop (l : list (Z * Z)) :
  start <= stop ->
  filter (fun p => within NegInf (Incl start) p = false)
    (filter (fun p => within (Incl start) (Incl stop) p = false) (zpairs l)) =
  zpairs (filter (fun p => stop < p.1) l).
Proof.
  intros Hle. rewrite list_filter_filter.
  etrans; [|exact (zpairs_filter_score (fun x => stop < x) l)]. apply list_filter_iff.
  intros p. unfold within. cbn. rewrite andb_false_iff, !Z.leb_gt. lia.
Qed.

(** The replies to the four commands, and what is left. *)
Lemma delayed_answers start stop k l (ks : Keyspace) :
  start <= stop -> holds (ks_keys ks) k (VZset (zpairs l)) ->
  exists r3 r4, answers
    [Zrangebyscore k (Incl start) (Incl stop); Zrangebyscore k NegInf (Excl start);
     Zremrangebyscore k (Incl start) (Incl stop); Zremrangebyscore k NegInf (Incl start)] ks
    [RArray (show <$> (filter (fun p => start <= p.1 <= stop) l).*2);
     RArray (show <$> (filter (fun p => p.1 < start) l).*2); r3; r4]
    (with_key k (VZset (zpairs (filter (fun p => stop < p.1) l))) ks).
Proof.
  intros Hle Hd. set (z1 := filter (fun p => within (Incl start) (Incl stop) p = false) (zpairs l)).
  assert (H1 : holds (ks_keys (with_key k (VZset z1) ks)) k (VZset z1)) by apply put_holds.
  do 2 eexists.
  econstructor; [intros now; by rewrite (respond_zrangebyscore _ _ _ _ _ _ Hd), within_due, zpairs_snd|done|].
  econstructor; [intros now; by rewrite (respond_zrangebyscore _ _ _ _ _ _ Hd), within_missed, zpairs_snd|done|].
  econstructor; [intros now; by rewrite (respond_zremrangebyscore _ _ _ _ _ _ Hd)|done|].
  econstructor.
  { intros now. rewrite (respond_zremrangebyscore _ _ _ _ _ _ H1). unfold z1. rewrite within_kept by done.
    unfold with_key. cbn [ks_keys ks_published]. by rewrite put_plain_twice. }
  all: done || constructor.
Qed.

Lemma ids_of_filter (Q : Z * Z -> Prop) `{!forall p, Decision (Q p)} (l : list (Z * Z)) :
  Forall (fun p => score_ok p.1 /\ u64_ok p.2) l -> Forall u64_ok (filter Q l).*2.
Proof.
  intros Hl. apply Forall_fmap. eapply Forall_impl; [eapply Forall_sublist; [apply sublist_filter|exact Hl]|].
  by intros p [_ ?].
Qed.

Lemma redis_delayed n start stop s a :
  redis_repr (S n) s a -> op_ok (ODelayed start stop) a ->
  exists s', redis_run (ODelayed start stop) s = (Ok (spec_step (ODelayed start stop) a).1, s') /\
    redis_repr n s' (spec_step (ODelayed start stop) a).2.
Proof.
  intros Hr Ho. pose proof Hr as (Ha & Hu & _ & Hz). pose proof (spec_step_ok _ a Ha Ho) as Ha'.
  destruct Ho as ([_ Hle] & _). set (l := ab_scored a SDelayed). set (k := skey SDelayed s).
  destruct (delayed_answers start stop k l (space s) Hle (Hz SDelayed)) as (r3 & r4 & Hans).
  destruct (query_up _ s _ _ Hu Hans) as (s' & E & Hk & Hu' & Hf).
  destruct (proj2 Ha SDelayed) as [Hall _]. fold l in Hall.
  exists s'. split.
  - cbn [redis_run spec_step fst]. unfold redis_get_delayed_at. fold l.
    rewrite (run_bind _ _ s ((filter (fun p => start <= p.1 <= stop) l).*2,
      (filter (fun p => p.1 < start) l).*2) s'); [done|]. connect Hu.
    change (key_of CollectionSuffix.Delayed (sy_store s)) with k.
    rewrite (run_bind _ _ _ _ _ E). cbn [as_ids]. by rewrite !mapM_show by (by apply ids_of_filter).
  - eapply redis_with_scored; [done|exact Ha'|done|done|]. by rewrite Hk.
Qed.

Instance redis_laws : BackendLaws Sys.
Proof.
  split; [by intros n s a (? & _)|]. intros n o s a Hr Ho. destruct o.
  - by apply redis_push.
  - by apply redis_move.
  - by apply redis_score.
  - by apply redis_pop.
  - by apply redis_remove_list.
  - by apply redis_remove_scored.
  - by apply redis_exists_list.
  - by apply redis_exists_scored.
  - by apply redis_delayed.
Qed.
End Redis.

#[export] Existing Instance redis_backend.
#[export] Existing Instance redis_laws.
