(* ===== verification/BackendRocks.v ===== *)
(** * The RocksDB store is a backend

    The operations of [RocksStore] implement the interface of [Backend]: a list or
    a scored collection is the text of one value of the main tree, read, changed
    and written back as a whole. *)

From S2P Require Import Prelude SkipMap TimedMap Extern Schedule Job Options Events Shared Metrics InMemoryStore RocksDb RocksStore Backend.

Section Rocks.
Context {SM : Type -> Type} `{OPS : !SkipMap Z SM} {EXT : Extern} {D R P X : Type} {DBI : RocksDb}
  {RLAWS : RocksLaws} {KJ : KvJson D R P} {KLAWS : KvLaws D R P} {CLK : Clock}.
Abbreviation Sys := (SysOf (RocksStore SM) R P X).
Implicit Types s : Sys.
Implicit Types m : gmap string string.

(** ** Reading and writing the main tree *)

(** The database works, has both trees, and the main one holds [m]. *)
Definition serving s m : Prop :=
  let st := sy_store s in
  sound (rk_db st) /\ families (rk_db st) !! rk_main_tree st = Some m /\
  is_Some (families (rk_db st) !! rk_jobs st).

Lemma serving_handles s m :
  serving s m ->
  cf_handle (rk_main_tree (sy_store s)) (rk_db (sy_store s)) = true /\
  cf_handle (rk_jobs (sy_store s)) (rk_db (sy_store s)) = true.
Proof. intros (_ & Hm & Hj). rewrite !cf_handle_spec, Hm. split; by apply bool_decide_eq_true_2. Qed.

Definition is_job (col : CollectionSuffix.t) : bool :=
  match col with CollectionSuffix.Job _ => true | _ => false end.

Lemma tree_of_main col st : is_job col = false -> tree_of (SM := SM) col st = rk_main_tree st.
Proof. by destruct col. Qed.

Lemma fetch_serving t col s m :
  serving s m -> is_job col = false ->
  fetch (D := D) t col s = (Ok (m !! to_bytes col ≫= kv_from t), s).
Proof.
  intros Hs Hc. destruct (serving_handles s m Hs) as [H1 H2]. destruct Hs as (Hd & Hm & _).
  unfold fetch, gets, read. rewrite H1, H2, tree_of_main, (cf_get_spec _ _ _ m) by done. done.
Qed.

Lemma on_db_put key v s m :
  serving s m -> rk_main_tree (sy_store s) <> rk_jobs (sy_store s) ->
  exists d, on_db (cf_put (rk_main_tree (sy_store s)) key v) s =
      (Ok tt, set_sy_store (set_rk_db d (sy_store s)) s) /\
    serving (set_sy_store (set_rk_db d (sy_store s)) s) (<[key := v]> m).
Proof.
  intros (Hd & Hm & Hj) Hne. destruct (cf_put_spec _ key v _ m Hd Hm) as (d & E & Hs & Hf).
  exists d. unfold on_db, on_store. cbv [m_bind state]. rewrite E. split; [done|].
  unfold serving. cbn. rewrite Hf, lookup_insert_eq, lookup_insert_ne by done. done.
Qed.

Lemma put_serving col v s m :
  serving s m -> rk_main_tree (sy_store s) <> rk_jobs (sy_store s) -> is_job col = false ->
  exists d, put col v s = (Ok tt, set_sy_store (set_rk_db d (sy_store s)) s) /\
    serving (set_sy_store (set_rk_db d (sy_store s)) s) (<[to_bytes col := v]> m).
Proof.
  intros Hs Hne Hc. destruct (serving_handles s m Hs) as [H1 H2].
  destruct (on_db_put (to_bytes col) v s m Hs Hne) as (d & E & Hs'). exists d. split; [|done].
  unfold put, handle_or_panic, tree_exists. cbv [m_bind gets]. rewrite H1. cbv [m_ret]. rewrite H2.
  rewrite tree_of_main by done. exact E.
Qed.

(** ** Collections *)

Definition list_in m (col : CollectionSuffix.t) : list Z :=
  unwrap_or [] (m !! to_bytes col ≫= kv_from (D := D) (R := R) (P := P) KIds).
Definition scores_in m (col : CollectionSuffix.t) : list (Z * Z) :=
  unwrap_or [] (m !! to_bytes col ≫= kv_from (D := D) (R := R) (P := P) KScores).

Definition rocks_repr (n : nat) s (a : Abs) : Prop :=
  abs_ok a /\ rk_main_tree (sy_store s) <> rk_jobs (sy_store s) /\
  exists m, serving s m /\
    (forall c, list_in m (lsuffix c) = ab_list a c) /\
    (forall c, scores_in m (ssuffix c) = ab_scored a c).

(** Which method an operation calls. *)
Definition rocks_run (o : op) : KM Sys result :=
  match o with
  | OPush c item append => rocks_add_item (lsuffix c) item None append ;;; m_ret RUnit
  | OMove =>
      let* r := rocks_pop_back_push_front CollectionSuffix.Wait CollectionSuffix.Active in
      m_ret (RMoved r)
  | OScore c item score => rocks_add_item (ssuffix c) item (Some score) false ;;; m_ret RUnit
  | OPop c min => let* r := rocks_pop_set (ssuffix c) min in m_ret (RPopped r)
  | ORemoveL c item => rocks_remove_item (lsuffix c) item ;;; m_ret RUnit
  | ORemoveS c item => rocks_remove_item (ssuffix c) item ;;; m_ret RUnit
  | OExistsL c item => let* r := rocks_exists_in (lsuffix c) item in m_ret (RFound r)
  | OExistsS c item => let* r := rocks_exists_in (ssuffix c) item in m_ret (RFound r)
  | ODelayed start stop =>
      let* r := rocks_get_delayed_at start stop in m_ret (RDue r.1 r.2)
  end.

Instance rocks_backend : Backend Sys := {|
  run_op := rocks_run;
  repr := rocks_repr;
|}.

Lemma key_ne_bytes c c' :
  CollectionSuffix.payload_ok c -> CollectionSuffix.payload_ok c' -> c <> c' -> to_bytes c <> to_bytes c'.
Proof. intros H H' Hne E. by apply Hne, to_bytes_inj. Qed.

Lemma list_in_put m col col' l v :
  kv_from (D := D) (R := R) (P := P) KIds v = Some l ->
  CollectionSuffix.payload_ok col -> CollectionSuffix.payload_ok col' ->
  list_in (<[to_bytes col := v]> m) col' = if decide (col = col') then l else list_in m col'.
Proof.
  intros Hv Hc Hc'. unfold list_in. case_decide as E.
  - subst. rewrite lookup_insert_eq. cbn. by rewrite Hv.
  - by rewrite lookup_insert_ne by (by apply key_ne_bytes).
Qed.

Lemma scores_in_put m col col' l v :
  kv_from (D := D) (R := R) (P := P) KScores v = Some l ->
  CollectionSuffix.payload_ok col -> CollectionSuffix.payload_ok col' ->
  scores_in (<[to_bytes col := v]> m) col' = if decide (col = col') then l else scores_in m col'.
Proof.
  intros Hv Hc Hc'. unfold scores_in. case_decide as E.
  - subst. rewrite lookup_insert_eq. cbn. by rewrite Hv.
  - by rewrite lookup_insert_ne by (by apply key_ne_bytes).
Qed.

Lemma lsuffix_inj c c' : lsuffix c = lsuffix c' -> c = c'.
Proof. by destruct c, c'. Qed.
Lemma ssuffix_inj c c' : ssuffix c = ssuffix c' -> c = c'.
Proof. by destruct c, c'. Qed.
Lemma lsuffix_main c : CollectionSuffix.payload_ok (lsuffix c) /\ is_job (lsuffix c) = false.
Proof. by destruct c. Qed.
Lemma ssuffix_main c : CollectionSuffix.payload_ok (ssuffix c) /\ is_job (ssuffix c) = false.
Proof. by destruct c. Qed.
Lemma suffixes_ne c c' : to_bytes (lsuffix c) <> to_bytes (ssuffix c').
Proof. apply key_ne_bytes; by destruct c, c'. Qed.

(** Two states that differ in the text of one collection. *)
Lemma with_list_repr m c l v a :
  kv_from (D := D) (R := R) (P := P) KIds v = Some l ->
  (forall c, list_in m (lsuffix c) = ab_list a c) -> (forall c, scores_in m (ssuffix c) = ab_scored a c) ->
  (forall c', list_in (<[to_bytes (lsuffix c) := v]> m) (lsuffix c') = ab_list (with_list c l a) c') /\
  (forall c', scores_in (<[to_bytes (lsuffix c) := v]> m) (ssuffix c') = ab_scored (with_list c l a) c').
Proof.
  intros Hv Hl Hz. split; intros c'.
  - rewrite (list_in_put _ _ _ l) by (done || apply lsuffix_main). cbn. unfold upd.
    destruct (decide (c = c')) as [->|Hne]; [by rewrite decide_True|].
    rewrite decide_False by (intros ?%lsuffix_inj; done). apply Hl.
  - unfold scores_in. rewrite lookup_insert_ne by apply suffixes_ne. apply Hz.
Qed.

Lemma with_scored_repr m c l v a :
  kv_from (D := D) (R := R) (P := P) KScores v = Some l ->
  (forall c, list_in m (lsuffix c) = ab_list a c) -> (forall c, scores_in m (ssuffix c) = ab_scored a c) ->
  (forall c', list_in (<[to_bytes (ssuffix c) := v]> m) (lsuffix c') = ab_list (with_scored c l a) c') /\
  (forall c', scores_in (<[to_bytes (ssuffix c) := v]> m) (ssuffix c') = ab_scored (with_scored c l a) c').
Proof.
  intros Hv Hl Hz. split; intros c'.
  - unfold list_in. rewrite lookup_insert_ne; [apply Hl|]. intros E. by apply (suffixes_ne c' c).
  - rewrite (scores_in_put _ _ _ l) by (done || apply ssuffix_main). cbn. unfold upd.
    destruct (decide (c = c')) as [->|Hne]; [by rewrite decide_True|].
    rewrite decide_False by (intros ?%ssuffix_inj; done). apply Hz.
Qed.

Lemma put_list_repr n n' c l s a :
  rocks_repr n s a -> abs_ok (with_list c l a) ->
  exists s', put_list (lsuffix c) l s = (Ok tt, s') /\ rocks_repr n' s' (with_list c l a).
Proof.
  intros (_ & Hne & m & Hs & Hl & Hz) Ha.
  assert (Hok : ids_ok l).
  { destruct Ha as [Ha _]. specialize (Ha c). cbn in Ha. unfold upd in Ha. by rewrite decide_True in Ha. }
  destruct (kv_ids l Hok) as (v & E1 & E2).
  destruct (put_serving (lsuffix c) v s m Hs Hne (proj2 (lsuffix_main c))) as (d & E & Hs').
  eexists. split.
  - unfold put_list, to_vec. rewrite E1, run_ret_bind. exact E.
  - split; [done|]. split; [done|]. eexists. split; [exact Hs'|]. by apply with_list_repr.
Qed.

Lemma put_map_repr n n' c l s a :
  rocks_repr n s a -> abs_ok (with_scored c l a) ->
  exists s', put_map (ssuffix c) l s = (Ok tt, s') /\ rocks_repr n' s' (with_scored c l a).
Proof.
  intros (_ & Hne & m & Hs & Hl & Hz) Ha.
  assert (Hok : scores_ok l).
  { destruct Ha as [_ Ha]. specialize (Ha c). cbn in Ha. unfold upd in Ha. rewrite decide_True in Ha by done.
    destruct Ha as (H1 & H2 & _). split; [|done]. eapply Forall_impl; [exact H1|].
    intros p [H ?]. split; [|done]. unfold score_ok, u64_ok, two64 in *. lia. }
  destruct (kv_scores l Hok) as (v & E1 & E2).
  destruct (put_serving (ssuffix c) v s m Hs Hne (proj2 (ssuffix_main c))) as (d & E & Hs').
  eexists. split.
  - unfold put_map, to_vec. rewrite E1, run_ret_bind. exact E.
  - split; [done|]. split; [done|]. eexists. split; [exact Hs'|]. by apply with_scored_repr.
Qed.

(** Reading a collection. *)
Lemma fetch_ids n c s a :
  rocks_repr n s a ->
  exists o, fetch (D := D) KIds (lsuffix c) s = (Ok o, s) /\ unwrap_or [] o = ab_list a c.
Proof.
  intros (_ & _ & m & Hs & Hl & _). eexists. split; [|apply Hl].
  apply fetch_serving; [done|apply lsuffix_main].
Qed.

Lemma fetch_scores n c s a :
  rocks_repr n s a ->
  exists o, fetch (D := D) KScores (ssuffix c) s = (Ok o, s) /\ unwrap_or [] o = ab_scored a c.
Proof.
  intros (_ & _ & m & Hs & _ & Hz). eexists. split; [|apply Hz].
  apply fetch_serving; [done|apply ssuffix_main].
Qed.

Lemma fetch_list_repr n c s a :
  rocks_repr n s a -> fetch_list (D := D) (lsuffix c) s = (Ok (ab_list a c), s).
Proof.
  intros Hr. destruct (fetch_ids n c s a Hr) as (o & E & Ho). unfold fetch_list.
  rewrite (run_bind _ _ _ _ _ E). by rewrite <- Ho.
Qed.

Lemma fetch_map_repr n c s a :
  rocks_repr n s a -> fetch_map (D := D) (ssuffix c) s = (Ok (ab_scored a c), s).
Proof.
  intros Hr. destruct (fetch_scores n c s a Hr) as (o & E & Ho). unfold fetch_map.
  rewrite (run_bind _ _ _ _ _ E). by rewrite <- Ho.
Qed.

(** The room left does not matter, and a collection may be replaced by itself. *)
Lemma rocks_repr_same n n' s a a' :
  rocks_repr n s a -> abs_ok a' -> (forall c, ab_list a' c = ab_list a c) ->
  (forall c, ab_scored a' c = ab_scored a c) -> rocks_repr n' s a'.
Proof.
  intros (_ & Hne & m & Hs & Hl & Hz) Ha H1 H2. split; [done|]. split; [done|]. exists m.
  split; [done|]. split; intros c; [by rewrite H1|by rewrite H2].
Qed.

(** ** The operations *)

Definition meets (n : nat) (o : op) s (a : Abs) : Prop :=
  exists s', rocks_run o s = (Ok (spec_step o a).1, s') /\ rocks_repr n s' (spec_step o a).2.

Lemma rocks_push n c item append s a :
  rocks_repr (S n) s a -> op_ok (OPush c item append) a -> meets n (OPush c item append) s a.
Proof.
  intros Hr Ho. pose proof (spec_step_ok _ a (proj1 Hr) Ho) as Ha. cbn [spec_step snd] in Ha.
  destruct (put_list_repr _ n c _ s a Hr Ha) as (s' & E & Hr'). exists s'. split; [|done].
  cbn [rocks_run spec_step fst].
  rewrite (run_bind _ _ s tt s'); [done|].
  transitivity ((let* queue := fetch_list (lsuffix c) in
    put_list (lsuffix c) (if append then item :: queue else queue ++ [item])) s).
  - by destruct c.
  - by rewrite (run_bind _ _ _ _ _ (fetch_list_repr _ c s a Hr)).
Qed.

Lemma rocks_score n c item score s a :
  rocks_repr (S n) s a -> op_ok (OScore c item score) a -> meets n (OScore c item score) s a.
Proof.
  intros Hr Ho. pose proof (spec_step_ok _ a (proj1 Hr) Ho) as Ha. cbn [spec_step snd] in Ha.
  destruct (put_map_repr _ n c _ s a Hr Ha) as (s' & E & Hr'). exists s'. split; [|done].
  destruct Ho as (_ & Hs & _). cbn [rocks_run spec_step fst].
  rewrite (run_bind _ _ s tt s'); [done|].
  transitivity ((let* map := fetch_map (ssuffix c) in
    put_map (ssuffix c) (alist_insert (cast_unsigned score) item map)) s).
  - by destruct c.
  - rewrite (run_bind _ _ _ _ _ (fetch_map_repr _ c s a Hr)).
    by rewrite cast_unsigned_small by (unfold u64_ok, score_ok, two64 in *; lia).
Qed.

(** The branch of a scored collection. *)
Lemma rocks_pop_set_scored c min :
  rocks_pop_set (ssuffix c) min =
  (let* map := fetch KScores (ssuffix c) in
   match map with
   | Some map =>
       match (if min then head map else last map) with
       | Some (score, id) =>
           put_map (ssuffix c) (if min then tail map else removelast map) ;;; m_ret [(id, score)]
       | None => m_ret []
       end
   | None => m_ret []
   end : KM Sys (list (Z * Z))).
Proof. by destruct c. Qed.

Lemma rocks_pop n c min s a :
  rocks_repr (S n) s a -> op_ok (OPop c min) a -> meets n (OPop c min) s a.
Proof.
  intros Hr Ho. pose proof (spec_step_ok _ a (proj1 Hr) Ho) as Ha.
  destruct (fetch_scores _ c s a Hr) as (o & E & Ho').
  set (l := ab_scored a c) in *.
  assert (Hrun : rocks_run (OPop c min) s =
    (let* r := match (if min then head l else last l) with
               | Some (score, id) =>
                   put_map (ssuffix c) (if min then tail l else removelast l) ;;; m_ret [(id, score)]
               | None => m_ret []
               end in m_ret (RPopped r)) s).
  { cbn [rocks_run]. rewrite rocks_pop_set_scored. rewrite <- Ho'.
    unfold m_bind at 1. rewrite (run_bind _ _ _ _ _ E).
    by destruct o as [x|], min. }
  unfold meets. rewrite Hrun. cbn [spec_step] in *. fold l in Ha |- *.
  assert (Hput : forall l' p, abs_ok (with_scored c l' a) ->
    exists s', (let* r := put_map (ssuffix c) l' ;;; m_ret [swap_pair p] in m_ret (RPopped r)) s =
        (Ok (RPopped [swap_pair p]), s') /\ rocks_repr n s' (with_scored c l' a)).
  { intros l' p Hl. destruct (put_map_repr _ n c l' s a Hr Hl) as (s' & E' & Hr').
    exists s'. split; [|done]. by rewrite (run_bind _ _ s [swap_pair p] s') by (by rewrite (run_bind _ _ _ _ _ E')). }
  assert (Hnone : rocks_repr n s a) by (by eapply rocks_repr_same; [| |done|done]; [|apply Hr]).
  destruct min.
  - destruct l as [|[score id] l']; [by exists s|]. by apply (Hput l' (score, id)).
  - destruct (last l) as [[score id]|]; [|by exists s]. by apply (Hput (removelast l) (score, id)).
Qed.

Lemma rocks_remove_list n c item s a :
  rocks_repr (S n) s a -> op_ok (ORemoveL c item) a -> meets n (ORemoveL c item) s a.
Proof.
  intros Hr Ho. pose proof (spec_step_ok _ a (proj1 Hr) Ho) as Ha. cbn [spec_step snd] in Ha.
  destruct (fetch_ids _ c s a Hr) as (o & E & Ho'). pose proof Hr as (_ & _ & m & Hs & _).
  assert (Hrun : rocks_remove_item (lsuffix c) item s =
    match o with Some l => put_list (lsuffix c) (filter (fun x => x <> item) l) s | None => (Ok tt, s) end).
  { transitivity ((let* queue := fetch KIds (lsuffix c) in
      match queue with
      | Some l => put_list (lsuffix c) (filter (fun x => x <> item) l)
      | None => m_ret tt
      end) s); [|rewrite (run_bind _ _ _ _ _ E); by destruct o].
    unfold rocks_remove_item, handle_or_fail, tree_exists. cbv [m_bind gets].
    rewrite (proj1 (serving_handles s m Hs)). by destruct c. }
  unfold meets. cbn [rocks_run spec_step fst snd]. destruct o as [l|]; cbn [unwrap_or] in Ho'.
  - subst l. destruct (put_list_repr _ n c _ s a Hr Ha) as (s' & E' & Hr'). exists s'.
    split; [|done]. by rewrite (run_bind _ _ _ _ _ (eq_trans Hrun E')).
  - exists s. rewrite (run_bind _ _ _ _ _ Hrun). split; [done|]. eapply rocks_repr_same; [done|done| |done].
    intros c'. cbn. unfold upd. case_decide; [subst c'; by rewrite <- Ho'|done].
Qed.

Lemma rocks_remove_scored n c item s a :
  rocks_repr (S n) s a -> op_ok (ORemoveS c item) a -> meets n (ORemoveS c item) s a.
Proof.
  intros Hr Ho. pose proof (spec_step_ok _ a (proj1 Hr) Ho) as Ha. cbn [spec_step snd] in Ha.
  destruct (fetch_scores _ c s a Hr) as (o & E & Ho'). pose proof Hr as (_ & _ & m & Hs & _).
  assert (Hrun : rocks_remove_item (ssuffix c) item s =
    match o with Some l => put_map (ssuffix c) (filter (fun p => p.2 <> item) l) s | None => (Ok tt, s) end).
  { transitivity ((let* map := fetch KScores (ssuffix c) in
      match map with
      | Some l => put_map (ssuffix c) (filter (fun p => p.2 <> item) l)
      | None => m_ret tt
      end) s); [|rewrite (run_bind _ _ _ _ _ E); by destruct o].
    unfold rocks_remove_item, handle_or_fail, tree_exists. cbv [m_bind gets].
    rewrite (proj1 (serving_handles s m Hs)). by destruct c. }
  unfold meets. cbn [rocks_run spec_step fst snd]. destruct o as [l|]; cbn [unwrap_or] in Ho'.
  - subst l. destruct (put_map_repr _ n c _ s a Hr Ha) as (s' & E' & Hr'). exists s'.
    split; [|done]. by rewrite (run_bind _ _ _ _ _ (eq_trans Hrun E')).
  - exists s. rewrite (run_bind _ _ _ _ _ Hrun). split; [done|]. eapply rocks_repr_same; [done|done|done|].
    intros c'. cbn. unfold upd. case_decide; [subst c'; by rewrite <- Ho'|done].
Qed.

Lemma rocks_exists_list n c item s a :
  rocks_repr (S n) s a -> meets n (OExistsL c item) s a.
Proof.
  intros Hr. exists s. split; [|by eapply rocks_repr_same; [| |done|done]; [|apply Hr]].
  cbn [rocks_run spec_step fst].
  rewrite (run_bind _ _ s (bool_decide (item ∈ ab_list a c)) s); [done|].
  transitivity ((let* queue := fetch_list (lsuffix c) in m_ret (bool_decide (item ∈ queue))) s).
  - by destruct c.
  - by rewrite (run_bind _ _ _ _ _ (fetch_list_repr _ c s a Hr)).
Qed.

Lemma rocks_exists_scored n c item s a :
  rocks_repr (S n) s a -> meets n (OExistsS c item) s a.
Proof.
  intros Hr. exists s. split; [|by eapply rocks_repr_same; [| |done|done]; [|apply Hr]].
  cbn [rocks_run spec_step fst].
  rewrite (run_bind _ _ s (bool_decide (item ∈ (ab_scored a c).*2)) s); [done|].
  transitivity ((let* map := fetch_map (ssuffix c) in m_ret (bool_decide (item ∈ map.*2))) s).
  - by destruct c.
  - by rewrite (run_bind _ _ _ _ _ (fetch_map_repr _ c s a Hr)).
Qed.

(** The window, in the terms of the store and of the specification. *)
Lemma delayed_window start stop (l : list (Z * Z)) :
  0 < start <= stop -> (start - 1 ∉ l.*1) -> (stop ∉ l.*1) ->
  filter (fun p => (start <=? p.1) && (p.1 <? stop) = true) l = filter (fun p => start <= p.1 <= stop) l /\
  filter (fun p => (p.1 <? start - 1) = true) l = filter (fun p => p.1 < start) l /\
  filter (fun p => (start <=? p.1) && (p.1 <? stop) = false /\ (p.1 <? start - 1) = false) l =
    filter (fun p => stop < p.1) l.
Proof.
  intros Hw H1 H2.
  assert (Hne : forall p, p ∈ l -> p.1 <> start - 1 /\ p.1 <> stop).
  { intros p Hp. split; intros E; [apply H1|apply H2]; rewrite <- E; by apply list_elem_of_fmap_2. }
  split_and!; apply filter_agree; intros p [N1 N2]%Hne;
    destruct (Z.leb_spec start p.1), (Z.ltb_spec p.1 stop), (Z.ltb_spec p.1 (start - 1)); cbn;
    split; try done; try lia; intros; try (by split); lia.
Qed.

Lemma rocks_delayed n start stop s a :
  rocks_repr (S n) s a -> op_ok (ODelayed start stop) a -> meets n (ODelayed start stop) s a.
Proof.
  intros Hr Ho. pose proof (spec_step_ok _ a (proj1 Hr) Ho) as Ha. cbn [spec_step snd] in Ha.
  destruct Ho as (Hw & Hs & H1 & H2). destruct (fetch_scores _ SDelayed s a Hr) as (o & E & Ho').
  destruct (delayed_window start stop _ Hw H1 H2) as (W1 & W2 & W3).
  unfold meets. cbn [rocks_run spec_step fst snd]. unfold rocks_get_delayed_at.
  cbn [ssuffix] in E. destruct o as [l|]; cbn [unwrap_or] in Ho'.
  - subst l. rewrite <- W3 in Ha.
    destruct (put_map_repr _ n SDelayed _ s a Hr Ha) as (s' & E' & Hr'). exists s'.
    rewrite <- W1, <- W2, <- W3. split; [|done].
    rewrite (run_bind _ _ s ((filter (fun p => (start <=? p.1) && (p.1 <? stop) = true) (ab_scored a SDelayed)).*2,
      (filter (fun p => (p.1 <? start - 1) = true) (ab_scored a SDelayed)).*2) s'); [reflexivity|].
    rewrite (run_bind _ _ _ _ _ E). unfold wrapping_sub_i64.
    rewrite cast_signed_small, !cast_unsigned_small by (unfold u64_ok, two63, two64 in *; lia).
    destruct (Z.ltb_spec stop start); [lia|]. by rewrite (run_bind _ _ _ _ _ E').
  - exists s. rewrite (run_bind _ _ s ([], []) s) by (by rewrite (run_bind _ _ _ _ _ E)).
    rewrite <- Ho' in *. split; [done|]. eapply rocks_repr_same; [done|done|done|].
    intros c'. cbn. unfold upd. case_decide; [by subst c'|done].
Qed.

(** The two writes of the move. *)
Lemma put_two n a s (l1 l2 : list Z) :
  rocks_repr n s a -> abs_ok (with_list LActive l2 (with_list LWait l1 a)) ->
  exists v1 v2 s',
    kv_to (D := D) (R := R) (P := P) KIds l1 = Some v1 /\ kv_to (D := D) (R := R) (P := P) KIds l2 = Some v2 /\
    (on_db (cf_put (rk_main_tree (sy_store s)) (to_bytes (lsuffix LWait)) v1) ;;;
     on_db (cf_put (rk_main_tree (sy_store s)) (to_bytes (lsuffix LActive)) v2)) s = (Ok tt, s') /\
    rocks_repr n s' (with_list LActive l2 (with_list LWait l1 a)).
Proof.
  intros (_ & Hne & m & Hs & Hl & Hz) Ha.
  destruct (kv_ids l1 (proj1 Ha LWait)) as (v1 & E1 & F1).
  destruct (kv_ids l2 (proj1 Ha LActive)) as (v2 & E2 & F2). exists v1, v2.
  destruct (on_db_put (to_bytes (lsuffix LWait)) v1 s m Hs Hne) as (d1 & P1 & Hs1).
  destruct (on_db_put (to_bytes (lsuffix LActive)) v2 _ _ Hs1 Hne) as (d2 & P2 & Hs2).
  eexists. split; [done|]. split; [done|]. split; [by rewrite (run_bind _ _ _ _ _ P1)|].
  split; [done|]. split; [done|]. eexists. split; [exact Hs2|].
  destruct (with_list_repr m LWait l1 v1 a F1 Hl Hz) as [Hl1 Hz1].
  by apply with_list_repr.
Qed.

Lemma rocks_move n s a : rocks_repr (S n) s a -> meets n OMove s a.
Proof.
  intros Hr. pose proof (spec_step_ok OMove a (proj1 Hr) I) as Ha.
  assert (Hr0 : rocks_repr n s a) by (by eapply rocks_repr_same; [| |done|done]; [|apply Hr]).
  pose proof Hr as (_ & _ & m & Hs & _).
  pose proof (fetch_list_repr _ LWait s a Hr) as Ew. pose proof (fetch_list_repr _ LActive s a Hr) as Ea.
  cbn [lsuffix] in Ew, Ea.
  unfold meets. cbn [rocks_run spec_step] in *. unfold rocks_pop_back_push_front.
  assert (Ht : tree_exists (P := P) (X := X) (R := R) rk_main_tree s = (Ok true, s)).
  { unfold tree_exists, gets. by rewrite (proj1 (serving_handles s m Hs)). }
  destruct (last (ab_list a LWait)) as [x|] eqn:El; cbn [fst snd] in *.
  - destruct (put_two n a s _ _ Hr0 Ha) as (v1 & v2 & s' & E1 & E2 & E & Hr'). exists s'. split; [|done].
    rewrite (run_bind _ _ s (Some x) s'); [done|].
    rewrite (run_bind _ _ _ _ _ Ht). cbn [is_list andb].
    rewrite (run_bind _ _ _ _ _ Ew), (run_bind _ _ _ _ _ Ea), El. unfold attempt, to_vec.
    change (ab_list (with_list LWait _ a) LActive) with (ab_list a LActive) in E2.
    rewrite E1, run_ret_bind, E2, run_ret_bind.
    rewrite (run_bind _ _ s (sy_store s) s) by done.
    cbn [lsuffix] in E. revert E. cbv [m_bind m_ret].
    repeat case_match; simplify_eq; intros; by simplify_eq.
  - exists s. split; [|done]. rewrite (run_bind _ _ s None s); [done|].
    rewrite (run_bind _ _ _ _ _ Ht). cbn [is_list andb].
    by rewrite (run_bind _ _ _ _ _ Ew), (run_bind _ _ _ _ _ Ea), El.
Qed.

Instance rocks_laws : BackendLaws Sys.
Proof.
  split; [by intros n s a [? _]|]. intros n o s a Hr Ho.
  change (meets n o s a). change (rocks_repr (S n) s a) in Hr.
  destruct o; cbn [op_ok] in Ho.
  - by apply rocks_push.
  - by apply rocks_move.
  - by apply rocks_score.
  - by apply rocks_pop.
  - by apply rocks_remove_list.
  - by apply rocks_remove_scored.
  - by apply rocks_exists_list.
  - by apply rocks_exists_scored.
  - by apply rocks_delayed.
Qed.
End Rocks.

#[export] Existing Instance rocks_backend.
#[export] Existing Instance rocks_laws.
