(* ===== verification/StoresAgree.v ===== *)
(** * The in-memory, the Redis and the RocksDB store agree

    All three are backends in the sense of [Backend]; whatever sequence of
    operations a queue sends, they return the same results. *)

From S2P Require Import Prelude SkipMap Deque TimedMap Extern Schedule Job Options Events Shared Metrics InMemoryStore StoreProps Backend BackendMemory Names RedisServer RedisCodec RedisVersion RedisStore RedisFacts RedisSample BackendRedis RocksDb RocksStore BackendRocks RocksSample.

Section Agree.
Context {SM : Type -> Type} `{OPS : !SkipMap Z SM} `{LAWS : !SkipMapLaws Z SM}
  {SRV : RedisServer} {RLAWS : RedisLaws} {EXT : Extern} {UID : Uuids} {D R P X : Type}
  {JS : Json D R P}
  {DBI : RocksDb} {DLAWS : RocksLaws} {KJ : KvJson D R P} {KLAWS : KvLaws D R P} {CLK : Clock}.

(** C8: the in-memory, the Redis and the RocksDB store are interchangeable for
    the operations that move identifiers between lists and scored collections.
    Started on collections with the same contents, any sequence of pushes, moves
    to the active list, scored insertions, pops, removals, membership tests and
    windows of delayed jobs gets the same answers from all three, none of them an
    error; the answers are those of the specification on lists, and the
    collections have the same contents again afterwards.  The sequence stays where
    the backends are meant to agree: [ops_ok] lists what it avoids. *)
Theorem stores_agree (ops : list op) (n : nat) (st : InMemoryStore SM D R P)
    (s : SysOf RedisStore R P X) (k : SysOf (RocksStore SM) R P X) (a : Abs) :
  memory_repr (length ops + n) st a -> redis_repr (length ops + n) s a ->
  rocks_repr (D := D) (length ops + n) k a -> ops_ok ops a ->
  let answers := map Ok (spec_run ops a).1 in
  (run_list ops st).1 = answers /\ (run_list ops s).1 = answers /\ (run_list ops k).1 = answers /\
  memory_repr n (run_list ops st).2 (spec_run ops a).2 /\
  redis_repr n (run_list ops s).2 (spec_run ops a).2 /\
  rocks_repr (D := D) n (run_list ops k).2 (spec_run ops a).2.
Proof.
  intros Hm Hr Hk Hok.
  assert (repr (length ops + n) st a) as Hm' by exact Hm.
  assert (repr (length ops + n) s a) as Hr' by exact Hr.
  assert (repr (length ops + n) k a) as Hk' by exact Hk.
  destruct (run_list_spec ops n st a Hm' Hok) as [H1 H2].
  destruct (run_list_spec ops n s a Hr' Hok) as [H3 H4].
  destruct (run_list_spec ops n k a Hk' Hok) as [H5 H6].
  by split_and!.
Qed.
End Agree.

(** ** Witness *)

#[local] Existing Instance sample_extern.
#[local] Existing Instance ticking_clock.
#[local] Existing Instance sample_server.
#[local] Existing Instance sample_laws.
#[local] Existing Instance sample_json.
#[local] Existing Instance sample_uuids.
#[local] Existing Instance sample_rocks.
#[local] Existing Instance sample_rocks_laws.
#[local] Existing Instance sample_kv.
#[local] Existing Instance sample_kv_laws.

Definition empty_abs : Abs := mkAbs (fun _ => []) (fun _ => []).

Lemma empty_abs_ok : abs_ok empty_abs.
Proof. split; [by constructor|]. intros c. split_and!; constructor. Qed.

Definition fresh_store : InMemoryStore ZMap Z Z Z := store_new None "demo".

Lemma fresh_repr n : Z.of_nat n < 1000 -> memory_repr n fresh_store empty_abs.
Proof.
  intros Hn. split_and!; [apply empty_abs_ok|unfold spare, two63; lia| |by intros []].
  intros c. split_and!; destruct c; try done; try apply deque_new_wf;
    unfold deque_within, spare, two63; cbn; lia.
Qed.

Lemma fresh_redis_repr n : redis_repr n (sample_redis_sys "kio" "demo") empty_abs.
Proof. split_and!; [apply empty_abs_ok|done|by intros []|by intros []]. Qed.

Lemma fresh_rocks_repr n : rocks_repr (D := Z) n (sample_rocks_sys "kio" "demo") empty_abs.
Proof.
  split; [apply empty_abs_ok|]. split; [by vm_compute|]. eexists. split.
  - split; [exact I|]. split; [reflexivity|]. by eexists.
  - split; intros []; vm_compute; reflexivity.
Qed.

Definition sample_ops : list op :=
  [OPush LWait 1 true; OPush LWait 2 true; OMove; OScore SDelayed 3 500; OScore SDelayed 4 900;
   ODelayed 400 600; OExistsL LActive 1; OPop SDelayed false; ORemoveL LWait 2; OMove].

Lemma stores_agree_witness :
  let answers :=
    [Ok RUnit; Ok RUnit; Ok (RMoved (Some 1)); Ok RUnit; Ok RUnit; Ok (RDue [3] []);
     Ok (RFound true); Ok (RPopped [(4, 900)]); Ok RUnit; Ok (RMoved None)] in
  (run_list sample_ops fresh_store).1 = answers /\
  (run_list sample_ops (sample_redis_sys "kio" "demo")).1 = answers /\
  (run_list sample_ops (sample_rocks_sys "kio" "demo")).1 = answers.
Proof.
  destruct (stores_agree sample_ops 0 fresh_store (sample_redis_sys "kio" "demo")
    (sample_rocks_sys "kio" "demo") empty_abs) as (H1 & H2 & H3 & _).
  - apply fresh_repr. cbn. lia.
  - apply fresh_redis_repr.
  - apply fresh_rocks_repr.
  - unfold sample_ops, ops_ok, op_ok, u64_ok, score_ok, two64, two63. cbn.
    repeat split; try lia; try set_solver; try (by intros ?); repeat constructor; set_solver.
  - split; [exact H1|]. split; [exact H2|exact H3].
Defined.
