(* ===== verification/Locks.v ===== *)
(** * Locks on the three stores ([set_lock], [get_token], [extend_lock])

    The [Store] trait promises that [get_token] gives the token currently held on
    a job, or nothing when it is not locked.  The in-memory store keeps the
    promise; the Redis store falls back on the record of the job, and the RocksDB
    store looks where no lock is ever kept. *)

From S2P Require Import Prelude SkipMap Deque TimedMap Extern Schedule Job Options Events Shared Metrics InMemoryStore StoreProps StoreInsert Collector Queue QueueProps Names RedisServer RedisCodec RedisVersion RedisStore RedisFacts RedisSample RocksDb RocksStore BackendRocks RocksSample.

Open Scope string_scope.
Open Scope Z_scope.

Lemma run_attempt_ok {E S A} (c : M E S A) s a s' : c s = (Ok a, s') -> attempt c s = (Ok (Some a), s').
Proof. unfold attempt. by intros ->. Qed.

Lemma run_attempt_err {E S A} (c : M E S A) s e s' : c s = (Err e, s') -> attempt c s = (Ok None, s').
Proof. unfold attempt. by intros ->. Qed.

(** ** The in-memory store *)

Section Memory.
Context {SM : Type -> Type} `{OPS : !SkipMap Z SM} `{LAWS : !SkipMapLaws Z SM} {EXT : Extern} {D R P : Type}.
Implicit Types st : InMemoryStore SM D R P.

Lemma memory_lock (now t id ms : Z) (token : JobToken) st :
  disable_expiration (st_locks st) = false ->
  (get_token t id (set_lock now (CollectionSuffix.Lock id) (Some token) ms st)).1 =
  if t <? now + from_millis ms then Some token else None.
Proof.
  intros Hd. unfold get_token, set_lock. cbn [st_locks set_st_locks]. fold (lock_tag id).
  match goal with |- context [timed_get t (lock_tag id) ?m] =>
    pose proof (timed_get_visible t (lock_tag id) m) as Hv; destruct (timed_get t (lock_tag id) m) as [v tm] end.
  cbn [fst] in *. subst v. unfold visible. rewrite entry_insert_expirable, decide_True, Hd by done. cbn.
  by destruct (Z.leb_spec (now + from_millis ms) t), (Z.ltb_spec t (now + from_millis ms)); try lia.
Qed.
End Memory.

(** ** The Redis store *)

Section Redis.
Context {SRV : RedisServer} {LAWS : RedisLaws} {EXT : Extern} {UID : Uuids} {D R P X : Type}
  {JS : Json D R P} {JLAWS : JsonLaws D R P} {CLK : Clock}.
Abbreviation Sys := (SysOf RedisStore R P X).
Implicit Types s : Sys.

(** [Queue::extend_lock] on this store. *)
Definition redis_extend_lock (job_id lock_duration : Z) (token : JobToken) : KM Sys bool :=
  let* previous := redis_get_token (D := D) job_id in
  match previous with
  | Some prev_token =>
      if decide (prev_token = token) then
        redis_set_lock (D := D) (CollectionSuffix.Lock job_id) (Some token) lock_duration ;;;
        redis_remove_item CollectionSuffix.Stalled job_id ;;;
        m_ret true
      else m_ret false
  | None => m_ret false
  end.

(** Time passes: the next reading of the clock is the [n]-th. *)
Definition at_reading (n : nat) s : Sys := set_sy_reads n s.

(** The token in the record of a job, if it has one. *)
Definition record_token (h : Hash) : option JobToken := h !! "token" ≫= fun p => as_token (RBulk p.1).

Lemma timed_command c s :
  online s -> is_error (respond (server_time s) c (space s)).1 = None ->
  exists s', command c s = (Ok (respond (server_time s) c (space s)).1, s') /\
    space s' = (respond (server_time s) c (space s)).2 /\ online s' /\ frame s s'.
Proof.
  intros Hu He. destruct (send_up c s Hu) as (s' & E & Hs). exists s'. split; [|exact Hs].
  unfold command. rewrite (run_bind _ _ _ _ _ E). by rewrite He.
Qed.

Lemma redis_lock_set s id token text ms :
  online s -> to_json JToken token = Some text -> 0 < ms ->
  exists s1, redis_set_lock (D := D) (CollectionSuffix.Lock id) (Some token) ms s = (Ok tt, s1) /\
    keys s1 = <[key_of (CollectionSuffix.Lock id) (sy_store s) :=
                  mkEntry (VString text) (Some (server_time s + ms))]> (keys s) /\
    online s1 /\ frame s s1.
Proof.
  intros Hu Ht Hms. unfold redis_set_lock. rewrite (run_bind _ _ _ _ _ (get_connection_up s Hu)).
  rewrite (run_bind _ _ _ _ _ (run_key _ s)). set (k := key_of _ _). unfold token_arg. rewrite Ht. cbn [unwrap_or].
  assert (Hr : respond (server_time s) (Psetex k text ms) (space s) =
    (RStatus, mkKeyspace (<[k := mkEntry (VString text) (Some (server_time s + ms))]> (keys s)) (ks_published (space s)))).
  { unfold respond. cbn [or_else respond_keys]. by rewrite (proj2 (Z.ltb_lt 0 ms) Hms). }
  destruct (timed_command (Psetex k text ms) s Hu) as (s1 & E & Hs & Ho & Hf); rewrite Hr in *; [done|].
  rewrite (run_bind _ _ _ _ _ E). exists s1. split_and!; [done| |done|done]. unfold keys at 1. by rewrite Hs.
Qed.

(** An empty text is not a value, so a missing key gives no token. *)
Hypothesis empty_text : from_json JToken "" = None.

Lemma no_token : as_token RNil = None.
Proof. unfold as_token. cbn. by rewrite empty_text. Qed.

Lemma hget_token now k h ks :
  lasting h -> holds (ks_keys ks) k (VHash h) ->
  exists r, respond now (Hget k "token") ks = (r, ks) /\ is_error r = None /\ as_token r = record_token h.
Proof.
  intros Hl Hh. exists (bulk_or_nil (field_text <$> h !! "token")). split; [|split].
  - unfold respond. cbn [or_else respond_keys respond_lists respond_sets]. unfold respond_hashes.
    rewrite (hash_at_holds now _ _ _ Hl Hh). by destruct ks.
  - by destruct (h !! "token").
  - unfold record_token. destruct (h !! "token") as [p|]; [done|]. apply no_token.
Qed.

Lemma redis_token_read s id token text deadline h :
  online s -> keys s !! key_of (CollectionSuffix.Lock id) (sy_store s) = Some (mkEntry (VString text) (Some deadline)) ->
  to_json JToken token = Some text -> lasting h ->
  holds (keys s) (key_of (CollectionSuffix.Job id) (sy_store s)) (VHash h) ->
  exists s', redis_get_token (D := D) id s =
      (Ok (if server_time s <? deadline then Some token else record_token h), s') /\
    space s' = space s /\ online s' /\ frame s s'.
Proof.
  intros Hu Hk Ht Hl Hh. unfold redis_get_token.
  set (k := key_of (CollectionSuffix.Lock id) (sy_store s)) in *.
  assert (Hr : respond (server_time s) (Get k) (space s) =
    ((if server_time s <? deadline then RBulk text else RNil), space s)).
  { unfold respond. cbn [or_else respond_keys]. unfold string_at, lookup_live. change (ks_keys (space s)) with (keys s).
    rewrite Hk. cbn [en_deadline passed]. destruct (Z.leb_spec deadline (server_time s)), (Z.ltb_spec (server_time s) deadline);
      try lia; cbn; unfold keys; by destruct (space s). }
  destruct (timed_command (Get k) s Hu) as (s1 & E1 & Hs1 & Ho1 & Hf1); rewrite Hr in *.
  { by destruct (server_time s <? deadline). }
  cbn [fst snd] in *. set (body := m_bind _ _).
  assert (Hbody : body s = (let* held := attempt (let* r := command (Get k) in parsed (as_token r)) in
    match held with
    | Some token => m_ret token
    | None => let* k' := key (CollectionSuffix.Job id) in
              let* r := command (Hget k' "token") in parsed (as_token r)
    end) s).
  { unfold body. by rewrite (run_bind _ _ _ _ _ (get_connection_up s Hu)), (run_bind _ _ _ _ _ (run_key _ s)). }
  destruct (server_time s <? deadline).
  - exists s1. split; [|done]. apply run_attempt_ok. rewrite Hbody.
    rewrite (run_bind _ _ s (Some token) s1); [done|]. apply run_attempt_ok. rewrite (run_bind _ _ _ _ _ E1).
    unfold as_token. cbn [as_bytes mbind option_bind]. rewrite decide_False by (by eapply (json_not_null JToken token)).
    by rewrite (json_read JToken token text) by done.
  - assert (Ha : attempt (let* r := command (Get k) in parsed (as_token r)) s = (Ok None, s1)).
    { eapply run_attempt_err. rewrite (run_bind _ _ _ _ _ E1), no_token. done. }
    rewrite (run_bind _ _ _ _ _ Ha), (run_bind _ _ _ _ _ (run_key _ s1)), (frame_key _ s s1 Hf1) in Hbody.
    destruct (hget_token (server_time s1) (key_of (CollectionSuffix.Job id) (sy_store s)) h (space s1)) as (r & Er & Ee & Et);
      [done|by rewrite Hs1|].
    destruct (timed_command (Hget (key_of (CollectionSuffix.Job id) (sy_store s)) "token") s1 Ho1)
      as (s2 & E2 & Hs2 & Ho2 & Hf2); rewrite Er in *; [done|].
    cbn [fst snd] in *. rewrite (run_bind _ _ _ _ _ E2), Et in Hbody. exists s2.
    split; [|split_and!; [congruence|done|by eapply frame_trans]].
    destruct (record_token h); [by apply run_attempt_ok|by eapply run_attempt_err].
Qed.

Lemma remove_stalled s id l :
  online s -> holds (keys s) (key_of CollectionSuffix.Stalled (sy_store s)) (VSet l) ->
  exists s', redis_remove_item CollectionSuffix.Stalled id s = (Ok tt, s').
Proof.
  intros Hu Hl. unfold redis_remove_item.
  rewrite (run_bind _ _ _ _ _ (get_connection_up s Hu)), (run_bind _ _ _ _ _ (run_key _ s)).
  set (k := key_of _ _) in *.
  destruct (query_ok (fun ks => holds (ks_keys ks) k (VSet l)) [Srem k (show id)] (fun _ => True) s)
    as (rs & s' & E & _); [|done|done|rewrite (run_bind _ _ _ _ _ E); by exists s'].
  apply pipeline_cons with (fun _ => True); [|apply pipeline_nil]. intros now ks Hks. split; [|done].
  unfold respond. cbn [or_else respond_keys respond_lists]. unfold respond_sets, set_at.
  rewrite (lookup_live_holds now _ _ _ Hks). by destruct (is_empty_value (VSet l)).
Qed.

(** A lock whose time is over is renewed for the holder that the record names. *)
Lemma revived s id token text deadline h l ms :
  online s -> keys s !! key_of (CollectionSuffix.Lock id) (sy_store s) = Some (mkEntry (VString text) (Some deadline)) ->
  to_json JToken token = Some text -> lasting h ->
  holds (keys s) (key_of (CollectionSuffix.Job id) (sy_store s)) (VHash h) ->
  holds (keys s) (key_of CollectionSuffix.Stalled (sy_store s)) (VSet l) ->
  record_token h = Some token -> 0 < ms -> 0 <= id ->
  exists s', redis_extend_lock id ms token s = (Ok true, s').
Proof.
  intros Hu Hk Ht Hl Hh Hst Hrec Hms Hid. unfold redis_extend_lock.
  destruct (redis_token_read s id token text deadline h Hu Hk Ht Hl Hh) as (s1 & E1 & Hs1 & Ho1 & Hf1).
  rewrite (run_bind _ _ _ _ _ E1).
  assert ((if server_time s <? deadline then Some token else record_token h) = Some token) as ->
    by (rewrite Hrec; by destruct (server_time s <? deadline)).
  rewrite decide_True by done.
  destruct (redis_lock_set s1 id token text ms Ho1 Ht Hms) as (s2 & E2 & Hk2 & Ho2 & Hf2).
  rewrite (run_bind _ _ _ _ _ E2).
  destruct (remove_stalled s2 id l Ho2) as (s3 & E3).
  { rewrite (frame_key _ s1 s2 Hf2). unfold holds. rewrite Hk2, lookup_insert_ne by (by apply key_ne).
    rewrite (frame_key _ s s1 Hf1). unfold keys. rewrite Hs1. exact Hst. }
  rewrite (run_bind _ _ _ _ _ E3). by exists s3.
Qed.
End Redis.

(** ** The three stores *)

Section Compared.
Context {SM : Type -> Type} `{OPS : !SkipMap Z SM} `{LAWS : !SkipMapLaws Z SM}
  {SRV : RedisServer} {RLAWS : RedisLaws} {EXT : Extern} {UID : Uuids} {D R P X : Type}
  {JS : Json D R P} {JLAWS : JsonLaws D R P}
  {DBI : RocksDb} {DLAWS : RocksLaws} {KJ : KvJson D R P} {KLAWS : KvLaws D R P} {CLK : Clock}.

(** C33: what becomes of a lock.  In the in-memory store the token is found until
    the lock's time is over, and not afterwards.  In the Redis store, a token is
    found afterwards as well when the record of the job names one, whatever time
    has passed, so that the holder can still extend the lock.  In the RocksDB store
    no token is found at any time. *)
Theorem locks_compared (id ms now : Z) (token : JobToken) (text : string) (h : Hash) (l : gset string)
    (st : InMemoryStore SM D R P) (s : SysOf RedisStore R P X) (k : SysOf (RocksStore SM) R P X)
    (m : gmap string string) :
  0 < ms -> 0 <= id -> to_json JToken token = Some text -> from_json JToken "" = None ->
  disable_expiration (st_locks st) = false ->
  online s -> lasting h ->
  holds (keys s) (key_of (CollectionSuffix.Job id) (sy_store s)) (VHash h) ->
  holds (keys s) (key_of CollectionSuffix.Stalled (sy_store s)) (VSet l) ->
  serving k m -> m !! to_bytes (CollectionSuffix.Lock id) = None ->
  (forall t, (get_token t id (set_lock now (CollectionSuffix.Lock id) (Some token) ms st)).1 =
     if t <? now + from_millis ms then Some token else None) /\
  (exists s1, redis_set_lock (D := D) (CollectionSuffix.Lock id) (Some token) ms s = (Ok tt, s1) /\
     forall n, let s2 := at_reading n s1 in
       (exists s3, redis_get_token (D := D) id s2 =
          (Ok (if server_time s2 <? server_time s + ms then Some token else record_token h), s3)) /\
       (record_token h = Some token ->
        exists s4, redis_extend_lock (D := D) id ms token s2 = (Ok true, s4))) /\
  (exists k1, rocks_set_lock (CollectionSuffix.Lock id) (Some token) ms k = (Ok tt, k1) /\
     rocks_get_token (D := D) id k1 = (Ok None, k1)).
Proof.
  intros Hms Hid Ht He Hd Hu Hl Hh Hst Hk Hm. split_and!.
  - intros t. by apply memory_lock.
  - destruct (redis_lock_set (D := D) s id token text ms Hu Ht Hms) as (s1 & E & Hk1 & Ho & Hf).
    exists s1. split; [done|]. intros n s2. pose proof (frame_key (CollectionSuffix.Job id) s s1 Hf) as Kj.
    pose proof (frame_key (CollectionSuffix.Lock id) s s1 Hf) as Kl.
    pose proof (frame_key CollectionSuffix.Stalled s s1 Hf) as Ks.
    assert (Hlock : keys s2 !! key_of (CollectionSuffix.Lock id) (sy_store s2) =
      Some (mkEntry (VString text) (Some (server_time s + ms)))).
    { change (keys s2) with (keys s1). change (sy_store s2) with (sy_store s1). by rewrite Kl, Hk1, lookup_insert_eq. }
    assert (Hkeep : forall c v, c <> CollectionSuffix.Lock id -> suffix_ok c ->
      holds (keys s) (key_of c (sy_store s)) v -> holds (keys s2) (key_of c (sy_store s2)) v).
    { intros c v Hne Hc Hv. change (keys s2) with (keys s1). change (sy_store s2) with (sy_store s1).
      rewrite (frame_key c s s1 Hf). unfold holds. rewrite Hk1, lookup_insert_ne; [done|].
      apply key_ne; [done|done|congruence]. }
    split.
    + destruct (redis_token_read (D := D) He s2 id token text (server_time s + ms) h) as (s3 & E3 & _); [done..| |by exists s3].
      by apply Hkeep.
    + intros Hrec. eapply (revived (D := D) He s2 id); [done..| | |done|done|done]; by apply Hkeep.
  - eexists. split; [reflexivity|]. unfold rocks_get_token.
    rewrite (fetch_serving KToken (CollectionSuffix.Lock id) _ m); [by rewrite Hm|done|done].
Qed.
End Compared.

(** ** Witness *)

#[local] Existing Instance sample_extern.
#[local] Existing Instance ticking_clock.
#[local] Existing Instance sample_server.
#[local] Existing Instance sample_laws.
#[local] Existing Instance sample_json.
#[local] Existing Instance sample_json_laws.
#[local] Existing Instance sample_uuids.
#[local] Existing Instance sample_rocks.
#[local] Existing Instance sample_rocks_laws.
#[local] Existing Instance sample_kv.
#[local] Existing Instance sample_kv_laws.

Definition held : JobToken := mkToken 3 4 0.
Definition held_text : string := unwrap_or "" (to_json (D := Z) (R := Z) (P := Z) JToken held).

(** A queue whose first job has been taken under the token. *)
Definition locked_record : Keyspace :=
  mkKeyspace {[ key_of (CollectionSuffix.Job 1) (sample_redis "kio" "demo") :=
                  mkEntry (VHash {[ "token" := (held_text, None) ]}) None ]} [].
Definition locked_sys : SysOf RedisStore Z Z unit :=
  set_sy_store (set_rd_db (true, locked_record) (sample_redis "kio" "demo")) (sample_redis_sys "kio" "demo").

Lemma locked_token :
  record_token (D := Z) (R := Z) (P := Z) {[ "token" := (held_text, None) ]} = Some held.
Proof. vm_compute. reflexivity. Qed.

(** The main tree of a new database. *)
Definition sample_tree : gmap string string :=
  let st := sample_rocks_store "kio" "demo" in unwrap_or ∅ ((rk_db st : Families) !! rk_main_tree st).

Lemma locks_compared_witness :
  (get_token 5 1 (set_lock 0 (CollectionSuffix.Lock 1) (Some held) 500 (store_new None "demo" : InMemoryStore ZMap Z Z Z))).1 =
    Some held /\
  (exists s1, redis_set_lock (D := Z) (CollectionSuffix.Lock 1) (Some held) 500 locked_sys = (Ok tt, s1) /\
    exists s3, redis_get_token (D := Z) 1 (at_reading 1000 s1) = (Ok (Some held), s3)) /\
  exists k1, rocks_set_lock (CollectionSuffix.Lock 1) (Some held) 500 (sample_rocks_sys "kio" "demo") = (Ok tt, k1) /\
    rocks_get_token (D := Z) 1 k1 = (Ok None, k1).
Proof.
  destruct (locks_compared (D := Z) (R := Z) (P := Z) 1 500 0 held held_text {[ "token" := (held_text, None) ]} ∅
    (store_new None "demo" : InMemoryStore ZMap Z Z Z) locked_sys (sample_rocks_sys "kio" "demo") sample_tree)
    as (H1 & (s1 & E & H2) & H3); [lia|lia|reflexivity|reflexivity|reflexivity|reflexivity| | | | |vm_compute; reflexivity|].
  - intros f p Hp. apply lookup_singleton_Some in Hp as [_ <-]. reflexivity.
  - vm_compute. reflexivity.
  - vm_compute. reflexivity.
  - split; [exact I|]. split; [vm_compute; reflexivity|]. by eexists.
  - split; [rewrite H1; reflexivity|]. split; [|exact H3]. exists s1. split; [exact E|].
    destruct (H2 1000%nat) as [(s3 & E3) _]. exists s3. rewrite E3, locked_token.
    by destruct (server_time (at_reading 1000 s1) <? server_time locked_sys + 500).
Defined.
