(* ===== verification/RocksInsert.v ===== *)
(** * Adding jobs to a RocksDB queue ([add_bulk] of [src/stores/rocksdb_store.rs])

    The loop of [add_bulk] moves the counter and collects records and
    identifiers; [submit_changes] writes them once the loop is through.  What a
    batch of jobs that are to run at once leaves in the two trees, and what is
    left when an item is refused half way. *)

From S2P Require Import Prelude SkipMap TimedMap Extern Schedule Job Options Events Shared Metrics InMemoryStore StoreInsert RedisCodec RedisInsert RedisSample RocksDb RocksStore RocksSample Backend BackendRocks.

Open Scope string_scope.
Open Scope Z_scope.

Section Insert.
Context {SM : Type -> Type} `{OPS : !SkipMap Z SM} {EXT : Extern} {D R P X : Type} {DBI : RocksDb}
  {RLAWS : RocksLaws} {KJ : KvJson D R P} {KLAWS : KvLaws D R P} {CLK : Clock}.
Abbreviation Sys := (SysOf (RocksStore SM) R P X).
Abbreviation Item := (string * option JobOptions * D)%type.
Implicit Types s : Sys.
Implicit Types m mj : gmap string string.
Abbreviation ids_at := (list_in (D := D) (R := R) (P := P)).
Abbreviation scores_at := (scores_in (D := D) (R := R) (P := P)).

(** ** The two trees *)

(** The database works, and the trees hold [m] and [mj]. *)
Definition trees s m mj : Prop :=
  let st := sy_store s in
  sound (rk_db st) /\ rk_main_tree st <> rk_jobs st /\
  families (rk_db st) !! rk_main_tree st = Some m /\ families (rk_db st) !! rk_jobs st = Some mj.

Lemma trees_serving s m mj : trees s m mj -> serving s m.
Proof. intros (H1 & _ & H2 & H3). split; [done|]. split; [done|]. by eexists. Qed.

(** A store with the same names and, up to the batch, the same contents. *)
Definition same_names (st st' : RocksStore SM) : Prop :=
  rk_main_tree st' = rk_main_tree st /\ rk_jobs st' = rk_jobs st /\ rk_prefix st' = rk_prefix st /\
  rk_name st' = rk_name st.

Definition counter_in m (c : Z) : Prop :=
  exists b, m !! to_bytes CollectionSuffix.Id = Some b /\ ivec_to_number b = c.

Lemma ivec_be_bytes c : 0 <= c < two63 -> ivec_to_number (be_bytes c) = c.
Proof.
  intros Hc. unfold ivec_to_number. rewrite be_length. cbn [Nat.eqb].
  rewrite be_bytes_read by (unfold u64_ok, two63, two64 in *; lia).
  apply cast_signed_small. unfold two63 in *. lia.
Qed.

Lemma counter_put m c : 0 <= c < two63 -> counter_in (<[to_bytes CollectionSuffix.Id := be_bytes c]> m) c.
Proof. intros Hc. eexists. rewrite lookup_insert_eq. split; [done|]. by apply ivec_be_bytes. Qed.

Lemma put_trees col v s m mj :
  trees s m mj -> is_job col = false ->
  exists d, put col v s = (Ok tt, set_sy_store (set_rk_db d (sy_store s)) s) /\
    trees (set_sy_store (set_rk_db d (sy_store s)) s) (<[to_bytes col := v]> m) mj.
Proof.
  intros Ht Hc. destruct (serving_handles s m (trees_serving _ _ _ Ht)) as [Hh1 Hh2].
  destruct Ht as (Hd & Hne & Hm & Hj).
  destruct (cf_put_spec _ (to_bytes col) v _ m Hd Hm) as (d & E & Hs' & Hf). exists d. split.
  - unfold put, handle_or_panic, tree_exists, on_db, on_store. cbv [m_bind gets]. rewrite Hh1.
    cbv [m_ret]. rewrite Hh2, tree_of_main by done. cbv [state]. by rewrite E.
  - split; [done|]. split; [done|]. cbn. rewrite Hf. by rewrite lookup_insert_eq, lookup_insert_ne.
Qed.

(** The counter of identifiers. *)
Lemma rocks_incr_id s m mj c :
  trees s m mj -> counter_in m c -> 0 <= c -> c + 1 < two63 ->
  exists d, rocks_incr (D := D) CollectionSuffix.Id 1 None s =
      (Ok (c + 1), set_sy_store (set_rk_db d (sy_store s)) s) /\
    trees (set_sy_store (set_rk_db d (sy_store s)) s)
      (<[to_bytes CollectionSuffix.Id := be_bytes (c + 1)]> m) mj.
Proof.
  intros Ht (b & Hb & Hc) H0 H1. destruct (serving_handles s m (trees_serving _ _ _ Ht)) as [Hh1 _].
  destruct (put_trees CollectionSuffix.Id (be_bytes (c + 1)) s m mj Ht eq_refl) as (d & E & Ht').
  exists d. split; [|done]. destruct Ht as (Hd & _ & Hm & _). unfold rocks_incr, incr_key.
  rewrite (run_bind _ _ s (Some c) s).
  - cbn [unwrap_or Z.ltb Z.compare Z.abs]. rewrite wrapping_succ by (unfold two63, two64 in *; lia).
    rewrite (run_bind _ _ _ _ _ E). by destruct (Z.eqb_spec c 0) as [->|].
  - unfold rocks_get_counter, handle_or_panic, tree_exists, read. cbv [m_bind gets m_ret].
    rewrite Hh1. rewrite (cf_get_spec _ _ _ m) by done. rewrite Hb. cbn. rewrite Hc.
    by rewrite cast_unsigned_small by (unfold u64_ok, two63, two64 in *; lia).
Qed.

(** ** Events *)

(** The command reads, and does not panic. *)
Definition quiet {A} (c : KM Sys A) s : Prop := exists r, c s = (r, s) /\ r <> Panic.

Lemma quiet_gets {A} (f : Sys -> A) s : quiet (gets f) s.
Proof. by eexists. Qed.
Lemma quiet_ret {A} (a : A) s : quiet (m_ret a) s.
Proof. by eexists. Qed.
Lemma quiet_throw {A} e s : quiet (throw (A := A) e) s.
Proof. by eexists. Qed.
Lemma quiet_bind {A B} (c : KM Sys A) (f : A -> KM Sys B) s :
  quiet c s -> (forall a, quiet (f a) s) -> quiet (m_bind c f) s.
Proof.
  intros (r & E & Hr) Hf. unfold quiet, m_bind. rewrite E. destruct r as [a|e|]; [apply Hf|by eexists|done].
Qed.

Lemma quiet_count_of t len col s : quiet (count_of (D := D) t len col) s.
Proof.
  apply quiet_bind; [apply quiet_gets|]. intros [v|]; [|apply quiet_ret].
  destruct (kv_from t v); [apply quiet_ret|apply quiet_throw].
Qed.

Lemma quiet_get_metrics s m : serving s m -> quiet (rocks_get_metrics (D := D)) s.
Proof.
  intros Hs. unfold rocks_get_metrics. apply quiet_bind.
  - unfold quiet, handle_or_panic, tree_exists. cbv [m_bind gets].
    rewrite (proj1 (serving_handles s m Hs)). by eexists.
  - intros _. repeat (apply quiet_bind; [first [apply quiet_gets|apply quiet_count_of|idtac]|intros ?]).
    + repeat case_match; [apply quiet_ret|apply quiet_throw|apply quiet_ret].
    + apply quiet_ret.
Qed.

(** Publishing an event changes nothing of the store but the flag [is_inital]. *)
Lemma rocks_publish_frame (ev : QueueStreamEvent R P) p s m :
  serving s m -> from_queue_event ev = Some p ->
  exists b s', rocks_publish_event (D := D) ev s = (Ok tt, s') /\
    sy_store s' = set_rk_is_inital b (sy_store s).
Proof.
  intros Hs Hp. unfold rocks_publish_event. rewrite (run_bind _ _ s (sy_store s) s) by done.
  destruct (rk_listening (sy_store s)) eqn:El.
  2: { exists (rk_is_inital (sy_store s)), s. split; [done|]. by destruct (sy_store s). }
  set (s1 := set_sy_emitted ((qe_event ev, p) :: sy_emitted s) s).
  destruct (quiet_get_metrics s1 m Hs) as (r & E & Hr).
  unfold process_each_event. rewrite Hp. cbv [expect m_bind m_ret modify attempt gets]. fold s1. rewrite E.
  unfold pause_or_resume_workers, resume_helper, upd_store. cbv [m_bind m_ret modify].
  destruct r as [q|e|]; [..|done]; destruct (rk_is_inital (sy_store s)); cbn;
    repeat case_match; simplify_eq; by eexists _, _.
Qed.

(** ** One item *)

(** The record that is added to the batch. *)
Definition record_of (st : RocksStore SM) (job : Job D R P) (w : string * string * string) : Prop :=
  exists id v, j_id job = Some id /\ kv_to KJob job = Some v /\
    w = (rk_jobs st, to_bytes (CollectionSuffix.Job id), v).

(** The database and the names are the same; [ws] has been added to the batch. *)
Definition batched s s' (ws : list (string * string * string)) : Prop :=
  rk_db (sy_store s') = rk_db (sy_store s) /\ same_names (sy_store s) (sy_store s') /\
  rk_job_batch (sy_store s') = (rk_job_batch (sy_store s) ++ ws)%list.

Lemma batched_trees s s' ws m mj : batched s s' ws -> trees s m mj -> trees s' m mj.
Proof. intros (E1 & (E2 & E3 & _) & _). unfold trees. by rewrite E1, E2, E3. Qed.

Lemma prepare_ready id pc is_paused (job : Job D R P) opts pending name s m v :
  serving s m -> jo_delay opts = TimeMilis 0 -> jo_priority opts = 0 ->
  let job' := set_j_id (Some id) (set_j_opts opts (set_j_delay 0 (set_j_priority 0 job))) in
  kv_to KJob job' = Some v ->
  exists s', rocks_prepare_for_insert id pc is_paused job opts pending name s =
      (Ok (job', mkPending (id :: pd_list pending) (pd_priorized pending) (pd_delayed pending)), s') /\
    batched s s' [(rk_jobs (sy_store s), to_bytes (CollectionSuffix.Job id), v)].
Proof.
  intros Hs Hd Hp job' Hv. unfold rocks_prepare_for_insert, utc_now, add_opts. rewrite Hd, Hp.
  cbv [m_bind state]. cbn [fst snd sy_reads set_sy_reads next_occurrance_timestamp_ms Z.leb Z.compare].
  cbv [expect m_ret as_diff_ms].
  change (cast_unsigned 0) with 0. cbn [Z.ltb Z.compare andb negb].
  unfold handle_or_fail, tree_exists. cbv [m_bind gets]. cbn [sy_store set_sy_reads].
  rewrite (proj2 (serving_handles s m Hs)). cbv [m_ret]. unfold to_vec. fold job'. rewrite Hv.
  cbv [m_ret upd_store modify]. cbn [sy_store set_sy_store set_sy_reads].
  match goal with |- context [rocks_publish_event ?ev ?t] =>
    destruct (rocks_publish_frame ev (unwrap_or EvVoid (from_queue_event ev)) t m) as (b & s' & E & Hs') end;
    [exact Hs|by destruct is_paused|].
  rewrite E. exists s'. split; [done|]. unfold batched, same_names. by rewrite Hs'.
Qed.

Lemma prepare_too_soon id pc is_paused (job : Job D R P) opts pending name s ms :
  jo_delay opts = TimeMilis ms -> 0 < ms < MIN_DELAY_MS_LIMIT -> (forall n, dated (utc n) ms) ->
  exists s', rocks_prepare_for_insert id pc is_paused job opts pending name s =
      (Err (refusal ms), s') /\ sy_store s' = sy_store s /\ sy_emitted s' = sy_emitted s.
Proof.
  intros Hd Hms Hdt. unfold rocks_prepare_for_insert, utc_now, add_opts. rewrite Hd.
  cbv [m_bind state]. cbn [fst snd sy_reads set_sy_reads]. rewrite (next_occurrance_dated _ ms) by done.
  cbv [expect m_ret as_diff_ms].
  rewrite cast_unsigned_small by (unfold u64_ok, two64, MIN_DELAY_MS_LIMIT in *; lia).
  destruct (Z.ltb_spec 0 ms), (Z.ltb_spec ms MIN_DELAY_MS_LIMIT); try lia. cbn [andb].
  by eexists.
Qed.

(** The item is to run at once, without priority, and its record can be written. *)
Definition plain (qo : QueueOpts) (item : Item) : Prop :=
  jo_delay (opts_of qo item) = TimeMilis 0 /\ jo_priority (opts_of qo item) = 0 /\
  forall queue_name now id, is_Some (kv_to KJob (ready_job qo queue_name now id item : Job D R P)).

(** Where the loop is after [n] items: the counter, the batch and the names. *)
Definition advanced s s' m mj (c : Z) (n : nat) (ws : list (string * string * string)) : Prop :=
  let m' := match n with
            | O => m
            | _ => <[to_bytes CollectionSuffix.Id := be_bytes (c + Z.of_nat n)]> m
            end in
  trees s' m' mj /\ same_names (sy_store s) (sy_store s') /\
  rk_job_batch (sy_store s') = (rk_job_batch (sy_store s) ++ ws)%list.

(** The part of a round before [prepare_for_insert]. *)
Lemma round_starts qo is_paused acc (item : Item) s m mj c :
  trees s m mj -> counter_in m c -> 0 <= c -> c + 1 < two63 -> jo_priority (opts_of qo item) = 0 ->
  exists now t, rocks_add_one qo is_paused acc item s =
      (let* placed := rocks_prepare_for_insert (c + 1) 0 is_paused
         (job_new now item.1.1 (Some item.2) (jo_id (opts_of qo item))
            (Some (rk_prefix (sy_store s) ++ ":" ++ rk_name (sy_store s)))) (opts_of qo item) acc.1 item.1.1 in
       m_ret (placed.2, acc.2 ++ [placed.1])%list) t /\
    advanced s t m mj c 1 [] /\ sy_emitted t = sy_emitted s.
Proof.
  intros Ht Hc H0 H1 Hp. destruct item as [[name opts] d]. unfold rocks_add_one.
  change (update_job_opts qo (unwrap_or JobOptions_default opts)) with (opts_of qo (name, opts, d)).
  rewrite Hp. cbn [Z.ltb Z.compare]. rewrite run_ret_bind, (run_bind _ _ s (sy_store s) s) by done.
  destruct (rocks_incr_id s m mj c Ht Hc H0 H1) as (db & E & Ht').
  rewrite (run_bind _ _ _ _ _ E). unfold utc_now at 1, state, m_bind at 1. cbn [fst snd].
  eexists _, _. split; [reflexivity|]. split; [|done]. split; [exact Ht'|]. split; [done|].
  cbn. by rewrite List.app_nil_r.
Qed.

Lemma round_ready qo is_paused acc item s m mj c :
  trees s m mj -> counter_in m c -> 0 <= c -> c + 1 < two63 -> plain qo item ->
  exists job w s', rocks_add_one qo is_paused acc item s =
      (Ok (mkPending (c + 1 :: pd_list acc.1) (pd_priorized acc.1) (pd_delayed acc.1), acc.2 ++ [job])%list, s') /\
    j_id job = Some (c + 1) /\ record_of (sy_store s) job w /\ advanced s s' m mj c 1 [w].
Proof.
  intros Ht Hc H0 H1 (Hd & Hp & Hv).
  destruct (round_starts qo is_paused acc item s m mj c Ht Hc H0 H1 Hp) as (now & t & -> & (Ht' & Hn & Hb) & _).
  specialize (Hv (rk_prefix (sy_store s) ++ ":" ++ rk_name (sy_store s)) now (c + 1)) as [v Hv].
  destruct (prepare_ready (c + 1) 0 is_paused (job_new now item.1.1 (Some item.2) (jo_id (opts_of qo item))
      (Some (rk_prefix (sy_store s) ++ ":" ++ rk_name (sy_store s)))) (opts_of qo item) acc.1 item.1.1 t _ v
      (trees_serving _ _ _ Ht') Hd Hp Hv) as (s' & E & Hbt).
  eexists _, (rk_jobs (sy_store s), to_bytes (CollectionSuffix.Job (c + 1)), v), s'.
  rewrite (run_bind _ _ _ _ _ E). split; [reflexivity|]. split; [done|].
  split; [by exists (c + 1), v|]. split; [by eapply batched_trees|].
  destruct Hbt as (_ & Hn' & Hb'). destruct Hn as (N1 & N2 & N3 & N4), Hn' as (N5 & N6 & N7 & N8).
  split; [unfold same_names; by rewrite N5, N6, N7, N8|]. by rewrite Hb', Hb, N2, List.app_nil_r.
Qed.

Lemma round_refused qo is_paused acc item s m mj c ms :
  trees s m mj -> counter_in m c -> 0 <= c -> c + 1 < two63 ->
  item_refused ms item -> jo_priority (opts_of qo item) = 0 ->
  exists s', rocks_add_one qo is_paused acc item s = (Err (refusal ms), s') /\
    advanced s s' m mj c 1 [] /\ sy_emitted s' = sy_emitted s.
Proof.
  intros Ht Hc H0 H1 (Hd & Hms & Hdt) Hp.
  destruct (round_starts qo is_paused acc item s m mj c Ht Hc H0 H1 Hp) as (now & t & -> & Ha & He).
  match goal with |- context [rocks_prepare_for_insert ?i ?pc ?b ?j ?o ?pe ?n] =>
    destruct (prepare_too_soon i pc b j o pe n t ms) as (s' & E & Hs & Hem) end; [exact Hd|done|done|].
  exists s'. rewrite (run_bind_err _ _ _ _ _ E). unfold advanced, trees in *. rewrite Hs, Hem. done.
Qed.

(** ** The loop *)

Lemma advanced_nil s m mj c : trees s m mj -> advanced s s m mj c 0 [].
Proof. intros Ht. split; [done|]. split; [done|]. by rewrite List.app_nil_r. Qed.

Lemma advanced_counter s s' m mj c n ws :
  advanced s s' m mj c n ws -> counter_in m c -> 0 <= c -> c + Z.of_nat n < two63 ->
  exists m', trees s' m' mj /\ counter_in m' (c + Z.of_nat n) /\
    m' = match n with
         | O => m
         | _ => <[to_bytes CollectionSuffix.Id := be_bytes (c + Z.of_nat n)]> m
         end.
Proof.
  intros (Ht & _) Hc H0 H1. eexists. split; [exact Ht|]. split; [|done].
  destruct n; [by rewrite Z.add_0_r|]. apply counter_put. lia.
Qed.

Lemma advanced_trans s t s' m m1 mj c n k ws ws' :
  advanced s t m mj c n ws ->
  m1 = match n with
       | O => m
       | _ => <[to_bytes CollectionSuffix.Id := be_bytes (c + Z.of_nat n)]> m
       end ->
  advanced t s' m1 mj (c + Z.of_nat n) k ws' -> advanced s s' m mj c (n + k) (ws ++ ws')%list.
Proof.
  intros (_ & (N1 & N2 & N3 & N4) & Hb) -> (Ht & (N5 & N6 & N7 & N8) & Hb'). split_and!.
  - replace (c + Z.of_nat (n + k)) with (c + Z.of_nat n + Z.of_nat k) by lia.
    destruct n as [|n], k as [|k]; cbn [Nat.add] in *.
    + done.
    + done.
    + by rewrite Z.add_0_r.
    + by rewrite insert_insert_eq in Ht.
  - unfold same_names. by rewrite N5, N6, N7, N8.
  - by rewrite Hb', Hb, app_assoc.
Qed.

Lemma fold_ready qo is_paused items acc s m mj c :
  trees s m mj -> counter_in m c -> 0 <= c -> c + Z.of_nat (length items) < two63 ->
  Forall (plain qo) items ->
  let ids := seqZ (c + 1) (Z.of_nat (length items)) in
  exists jobs ws s', for_fold items acc (rocks_add_one qo is_paused) s =
      (Ok (mkPending (reverse ids ++ pd_list acc.1) (pd_priorized acc.1) (pd_delayed acc.1),
           acc.2 ++ jobs)%list, s') /\
    j_id <$> jobs = Some <$> ids /\ Forall2 (record_of (sy_store s)) jobs ws /\
    advanced s s' m mj c (length items) ws.
Proof.
  intros Ht Hc H0 H1 Hp. revert acc s m c Ht Hc H0 H1.
  induction Hp as [|item items Hi Hp IH]; intros acc s m c Ht Hc H0 H1; cbn [length] in *.
  { exists [], [], s. destruct acc as [[? ? ?] ?]. cbn. rewrite List.app_nil_r.
    split_and!; [done..|by apply advanced_nil]. }
  destruct (round_ready qo is_paused acc item s m mj c Ht Hc H0 ltac:(lia) Hi)
    as (job & w & t & E & Hj & Hw & Ha).
  destruct (advanced_counter _ _ _ _ _ _ _ Ha Hc H0 ltac:(lia)) as (m1 & Ht1 & Hc1 & Em1).
  change (Z.of_nat 1) with 1 in *.
  match type of E with _ = (Ok ?acc1, _) => destruct (IH acc1 t m1 (c + 1) Ht1 Hc1 ltac:(lia) ltac:(lia))
    as (jobs & ws & s' & E' & Hj' & Hw' & Ha') end.
  exists (job :: jobs), (w :: ws), s'. cbn [for_fold].
  rewrite (run_bind _ _ _ _ _ E), E'. cbn [fst snd pd_list pd_priorized pd_delayed].
  rewrite (seqZ_cons (c + 1)) by lia.
  replace (Z.pred (Z.of_nat (S (length items)))) with (Z.of_nat (length items)) by lia.
  change (Z.succ (c + 1)) with (c + 1 + 1). split_and!.
  - by rewrite reverse_cons, <- !app_assoc.
  - cbn. by rewrite Hj, Hj'.
  - constructor; [done|]. destruct Ha as (_ & (_ & N & _) & _).
    eapply Forall2_impl; [exact Hw'|]. intros j x (i & v & ? & ? & ->). exists i, v. by rewrite N.
  - exact (advanced_trans s t s' m m1 mj c 1 _ [w] ws Ha Em1 Ha').
Qed.

(** ** The end of a batch *)

(** The tree of the jobs once the records [ws] are written. *)
Definition write_all (ws : list (string * string * string)) mj : gmap string string :=
  foldl (fun mj w => <[w.1.2 := w.2]> mj) mj ws.

Definition in_tree (f : string) (ws : list (string * string * string)) : Prop :=
  Forall (fun w => w.1.1 = f) ws.

Lemma put_in_all f ws fs mj :
  in_tree f ws -> fs !! f = Some mj ->
  foldl put_in fs ws !! f = Some (write_all ws mj) /\
  forall g, g <> f -> foldl put_in fs ws !! g = fs !! g.
Proof.
  intros Hw. revert fs mj. induction Hw as [|[[f' k] v] ws Hf Hw IH]; intros fs mj Hm; [done|].
  cbn in Hf. subst f'. cbn [foldl write_all put_in].
  destruct (IH (alter (fun x => <[k := v]> x) f fs) (<[k := v]> mj)) as [H1 H2].
  { by rewrite lookup_alter_eq, Hm. }
  split; [exact H1|]. intros g Hg. rewrite H2 by done. by rewrite lookup_alter_ne.
Qed.

Lemma commit_trees s m mj :
  trees s m mj -> in_tree (rk_jobs (sy_store s)) (rk_job_batch (sy_store s)) ->
  exists d, commit (P := P) s = (Ok tt, set_sy_store (set_rk_db d (set_rk_job_batch [] (sy_store s))) s) /\
    trees (set_sy_store (set_rk_db d (set_rk_job_batch [] (sy_store s))) s) m
      (write_all (rk_job_batch (sy_store s)) mj).
Proof.
  intros (Hd & Hne & Hm & Hj) Hb.
  destruct (cf_write_spec (rk_job_batch (sy_store s)) _ Hd) as (d & E & Hs & Hf). exists d.
  destruct (put_in_all _ _ _ _ Hb Hj) as [H1 H2]. split.
  - unfold commit, on_db, upd_store, on_store. cbv [m_bind gets modify state]. cbn. by rewrite E.
  - split; [done|]. split; [done|]. cbn. rewrite Hf, H1, H2 by done. done.
Qed.

(** What the writes of [submit_changes] put in the main tree. *)
Definition submitted (col : CollectionSuffix.t) (l : list Z) (d p : list (Z * Z)) m m' : Prop :=
  exists vl vd vp,
    kv_from (D := D) (R := R) (P := P) KIds vl = Some l /\
    kv_from (D := D) (R := R) (P := P) KScores vd = Some d /\
    kv_from (D := D) (R := R) (P := P) KScores vp = Some p /\
    m' = <[to_bytes CollectionSuffix.Prioritized := vp]>
         (<[to_bytes CollectionSuffix.Delayed := vd]> (<[to_bytes col := vl]> m)).

Definition next_list (is_paused : bool) : CollectionSuffix.t :=
  if is_paused then CollectionSuffix.Paused else CollectionSuffix.Wait.

Lemma fetch_list_in col s m :
  serving s m -> is_job col = false -> fetch_list (D := D) col s = (Ok (ids_at m col), s).
Proof. intros Hs Hc. unfold fetch_list. by rewrite (run_bind _ _ _ _ _ (fetch_serving _ _ s m Hs Hc)). Qed.

Lemma fetch_map_in col s m :
  serving s m -> is_job col = false -> fetch_map (D := D) col s = (Ok (scores_at m col), s).
Proof. intros Hs Hc. unfold fetch_map. by rewrite (run_bind _ _ _ _ _ (fetch_serving _ _ s m Hs Hc)). Qed.

Lemma submit_ids is_paused ids s m mj :
  trees s m mj -> in_tree (rk_jobs (sy_store s)) (rk_job_batch (sy_store s)) ->
  ids_ok (ids ++ list_in m (next_list is_paused)) ->
  scores_ok (scores_in m CollectionSuffix.Delayed) -> scores_ok (scores_in m CollectionSuffix.Prioritized) ->
  exists s' m', submit_changes is_paused (mkPending ids [] []) s = (Ok tt, s') /\
    trees s' m' (write_all (rk_job_batch (sy_store s)) mj) /\
    submitted (next_list is_paused) (ids ++ list_in m (next_list is_paused))
      (scores_in m CollectionSuffix.Delayed) (scores_in m CollectionSuffix.Prioritized) m m' /\
    rk_job_batch (sy_store s') = [] /\ same_names (sy_store s) (sy_store s').
Proof.
  intros Ht Hb Hl Hd Hp. pose proof (trees_serving _ _ _ Ht) as Hs.
  destruct (kv_ids _ Hl) as (vl & L1 & L2), (kv_scores _ Hd) as (vd & D1 & D2), (kv_scores _ Hp) as (vp & P1 & P2).
  destruct (commit_trees s m mj Ht Hb) as (db & E & Hc & Hne & Hm & Hj). cbn in Hm, Hj.
  set (t := set_sy_store _ s) in *.
  set (ws := [(rk_main_tree (sy_store s), to_bytes (next_list is_paused), vl);
    (rk_main_tree (sy_store s), to_bytes CollectionSuffix.Delayed, vd);
    (rk_main_tree (sy_store s), to_bytes CollectionSuffix.Prioritized, vp)]).
  destruct (cf_write_spec ws _ Hc) as (db' & E' & Hc' & Hf). cbn [rk_db sy_store t set_sy_store set_rk_db] in E', Hf.
  destruct (put_in_all (rk_main_tree (sy_store s)) ws (families db) m) as [H1 H2]; [by repeat constructor|done|].
  exists (set_sy_store (set_rk_db db' (sy_store t)) t), (write_all ws m). split_and!.
  - unfold submit_changes. fold (next_list is_paused).
    rewrite (run_bind _ _ _ _ _ (fetch_list_in (next_list is_paused) s m Hs ltac:(by destruct is_paused))).
    rewrite (run_bind _ _ _ _ _ (fetch_map_in CollectionSuffix.Delayed s m Hs eq_refl)).
    rewrite (run_bind _ _ _ _ _ (fetch_map_in CollectionSuffix.Prioritized s m Hs eq_refl)).
    rewrite (run_bind _ _ s tt s) by (unfold handle_or_fail, tree_exists; cbv [m_bind gets];
      by rewrite (proj1 (serving_handles s m Hs))).
    cbn [pd_list pd_delayed pd_priorized extend foldl]. unfold to_vec.
    rewrite L1, run_ret_bind, D1, run_ret_bind, P1, run_ret_bind, (run_bind _ _ s (sy_store s) s) by done.
    rewrite (run_bind _ _ _ _ _ E). fold ws. unfold on_db, on_store. cbv [m_bind state].
    cbn [rk_db sy_store t set_sy_store set_rk_db]. by rewrite E'.
  - split; [done|]. split; [done|]. cbn. rewrite Hf, H1, H2 by done. done.
  - by exists vl, vd, vp.
  - done.
  - done.
Qed.

(** The collections that [get_metrics] counts, with their types. *)
Definition counted : list (CollectionSuffix.t * KvTy) :=
  [(CollectionSuffix.Stalled, KIds); (CollectionSuffix.Active, KIds); (CollectionSuffix.Completed, KScores);
   (CollectionSuffix.Delayed, KScores); (CollectionSuffix.Wait, KIds); (CollectionSuffix.Meta, KMeta);
   (CollectionSuffix.Prioritized, KScores); (CollectionSuffix.Failed, KScores); (CollectionSuffix.Paused, KIds)].

Definition readable m : Prop :=
  forall col t v, (col, t) ∈ counted -> m !! to_bytes col = Some v ->
    is_Some (kv_from (D := D) (R := R) (P := P) t v).

Lemma counted_ok col t : (col, t) ∈ counted -> CollectionSuffix.payload_ok col.
Proof. intros H. repeat (apply elem_of_cons in H as [[= -> ->]|H]; [done|]). by apply elem_of_nil in H. Qed.

Lemma readable_put m col v :
  readable m -> CollectionSuffix.payload_ok col ->
  (forall t, (col, t) ∈ counted -> is_Some (kv_from (D := D) (R := R) (P := P) t v)) ->
  readable (<[to_bytes col := v]> m).
Proof.
  intros Hm Hc Hv col' t v' Hin. destruct (decide (col = col')) as [->|Hne].
  - rewrite lookup_insert_eq. intros [= <-]. by apply Hv.
  - rewrite lookup_insert_ne; [by apply Hm|]. by apply key_ne_bytes; [|eapply counted_ok|].
Qed.

(** Decides which type a collection is counted with. *)
Local Ltac counted_type :=
  let H := fresh in
  intros t H; unfold counted, next_list in H;
  repeat (apply elem_of_cons in H; destruct H as [H|H]; [by (simplify_eq; eexists)|]);
  by apply elem_of_nil in H.

Lemma readable_submitted is_paused l d p m m' :
  readable m -> submitted (next_list is_paused) l d p m m' -> readable m'.
Proof.
  intros Hm (vl & vd & vp & Hl & Hd & Hp & ->).
  repeat apply readable_put; try done; try (by destruct is_paused); [destruct is_paused|..]; counted_type.
Qed.

Lemma count_of_ok t len col s m :
  serving s m -> (forall v, m !! to_bytes col = Some v -> is_Some (kv_from (D := D) (R := R) (P := P) t v)) ->
  exists n, count_of (D := D) t len col s = (Ok n, s).
Proof.
  intros (Hd & Hm & _) Hv. unfold count_of, read. cbv [m_bind gets]. rewrite (cf_get_spec _ _ _ m) by done.
  destruct (m !! to_bytes col) as [v|]; [|by eexists].
  destruct (Hv v eq_refl) as [x E]. rewrite E. by eexists.
Qed.

Lemma get_metrics_ok s m : serving s m -> readable m -> exists q, rocks_get_metrics (D := D) s = (Ok q, s).
Proof.
  intros Hs Hr. unfold rocks_get_metrics.
  rewrite (run_bind _ _ s tt s) by (unfold handle_or_panic, tree_exists; cbv [m_bind gets];
    by rewrite (proj1 (serving_handles s m Hs))).
  assert (Hc : forall t (len : kvty (D := D) (R := R) (P := P) t -> Z) col, (col, t) ∈ counted ->
    exists n, count_of (D := D) t len col s = (Ok n, s)).
  { intros t len col Hin. eapply count_of_ok; [exact Hs|]. intros v. by apply Hr. }
  erewrite (run_bind (gets _) _ s) by reflexivity.
  do 5 (match goal with |- context [count_of ?t ?len ?col] =>
    destruct (Hc t len col ltac:(unfold counted; set_solver)) as (? & E); rewrite (run_bind _ _ _ _ _ E); clear E end).
  destruct Hs as (Hd & Hm & Hj).
  erewrite (run_bind (gets _) _ s) by reflexivity. unfold read at 1. rewrite (cf_get_spec _ _ _ m) by done.
  assert (exists meta : Meta, match m !! to_bytes CollectionSuffix.Meta with
    | Some bytes => match kv_from (D := D) (R := R) (P := P) KMeta bytes with Some y => m_ret y | None => throw json_failed end
    | None => m_ret Meta_default end s = (Ok meta, s)) as (meta & E).
  { destruct (m !! to_bytes CollectionSuffix.Meta) as [v|] eqn:Ev; [|by eexists].
    destruct (Hr CollectionSuffix.Meta KMeta v ltac:(unfold counted; set_solver) Ev) as [y ->]. by eexists. }
  rewrite (run_bind _ _ _ _ _ E); clear E.
  do 3 (match goal with |- context [count_of ?t ?len ?col] =>
    destruct (Hc t len col ltac:(unfold counted; set_solver)) as (? & E); rewrite (run_bind _ _ _ _ _ E); clear E end).
  by eexists.
Qed.

(** ** The theorems *)

(** The store when a batch starts: trees, counter, and collections that parse. *)
Definition startable (is_paused : bool) s m mj (c : Z) : Prop :=
  trees s m mj /\ counter_in m c /\ readable m /\
  in_tree (rk_jobs (sy_store s)) (rk_job_batch (sy_store s)) /\
  ids_ok (ids_at m (next_list is_paused)) /\
  scores_ok (scores_at m CollectionSuffix.Delayed) /\
  scores_ok (scores_at m CollectionSuffix.Prioritized).

Lemma readable_advanced m n v :
  readable m -> readable (match n with O => m | S _ => <[to_bytes CollectionSuffix.Id := v]> m end).
Proof. intros Hm. destruct n; [done|]. apply readable_put; [done|done|]. counted_type. Qed.

(** A key other than the counter. *)
Lemma lookup_advanced m (n : nat) v col :
  CollectionSuffix.payload_ok col -> col <> CollectionSuffix.Id ->
  match n with O => m | S _ => <[to_bytes CollectionSuffix.Id := v]> m end !! to_bytes col = m !! to_bytes col.
Proof. intros Hc Hne. destruct n; [done|]. rewrite lookup_insert_ne; [done|]. by apply key_ne_bytes. Qed.

Lemma record_trees st jobs ws : Forall2 (record_of st) jobs ws -> in_tree (rk_jobs st) ws.
Proof. induction 1 as [|j w jobs ws (i & v & _ & _ & ->) H IH]; [constructor|]. by constructor. Qed.

Lemma advanced_reads is_paused m m1 (n : nat) v :
  m1 = match n with O => m | S _ => <[to_bytes CollectionSuffix.Id := v]> m end ->
  ids_at m1 (next_list is_paused) = ids_at m (next_list is_paused) /\
  scores_at m1 CollectionSuffix.Delayed = scores_at m CollectionSuffix.Delayed /\
  scores_at m1 CollectionSuffix.Prioritized = scores_at m CollectionSuffix.Prioritized /\
  forall k, CollectionSuffix.payload_ok k -> k <> CollectionSuffix.Id -> m1 !! to_bytes k = m !! to_bytes k.
Proof.
  intros ->. unfold list_in, scores_in.
  split_and!; try (by rewrite lookup_advanced by (by destruct is_paused)). intros. by apply lookup_advanced.
Qed.

(** Reading the main tree after a batch. *)
Lemma submitted_reads is_paused l d p m m' :
  submitted (next_list is_paused) l d p m m' ->
  ids_at m' (next_list is_paused) = l /\ scores_at m' CollectionSuffix.Delayed = d /\
  scores_at m' CollectionSuffix.Prioritized = p /\
  forall k, CollectionSuffix.payload_ok k ->
    k ∉ [next_list is_paused; CollectionSuffix.Delayed; CollectionSuffix.Prioritized] ->
    m' !! to_bytes k = m !! to_bytes k.
Proof.
  intros (vl & vd & vp & Hl & Hd & Hp & ->).
  assert (Hok : CollectionSuffix.payload_ok (next_list is_paused)) by (by destruct is_paused).
  split_and!.
  - unfold list_in. rewrite !lookup_insert_ne, lookup_insert_eq by (apply key_ne_bytes; by destruct is_paused).
    cbn. by rewrite Hl.
  - unfold scores_in. rewrite lookup_insert_ne, lookup_insert_eq by (by apply key_ne_bytes). cbn. by rewrite Hd.
  - unfold scores_in. rewrite lookup_insert_eq. cbn. by rewrite Hp.
  - intros k Hk Hin. rewrite !not_elem_of_cons in Hin. destruct Hin as (N1 & N2 & N3 & _).
    by rewrite !lookup_insert_ne by (apply key_ne_bytes; congruence || done).
Qed.

(** The last part of [add_bulk]. *)
Lemma refresh_counters s m (jobs : list (Job D R P)) :
  serving s m -> readable m ->
  exists s', (let* updated := rocks_get_metrics (D := D) in
     let* st := gets sy_store in
     (if rk_listening st
      then modify (fun s => set_sy_metrics (metrics_update updated (sy_metrics s)) s) else m_ret tt) ;;;
     m_ret jobs) s = (Ok jobs, s') /\ sy_store s' = sy_store s.
Proof.
  intros Hs Hr. destruct (get_metrics_ok s m Hs Hr) as [q E]. rewrite (run_bind _ _ _ _ _ E).
  cbv [m_bind gets modify m_ret]. destruct (rk_listening (sy_store s)); by eexists.
Qed.

(** C21: adding jobs that are to run at once to a RocksDB queue.  The call returns
    the jobs with consecutive identifiers from the counter on, and the counter has
    moved by their number; the identifiers are at the head of the waiting list (of
    the paused list when the queue is paused) in reverse order; the tree of the
    jobs holds their records, and with them every record that an earlier call had
    left in the batch of writes, which is empty now.  The scored collections have
    the same contents and no other key of the main tree has changed. *)
Theorem rocks_add (qo : QueueOpts) (is_paused : bool) (items : list Item) s m mj (c : Z) :
  let n := Z.of_nat (length items) in
  let col := next_list is_paused in
  startable is_paused s m mj c -> 0 <= c -> c + n < two63 -> Forall (plain qo) items ->
  exists jobs ws s' m', rocks_add_bulk items qo is_paused s = (Ok jobs, s') /\
    j_id <$> jobs = Some <$> seqZ (c + 1) n /\ Forall2 (record_of (sy_store s)) jobs ws /\
    trees s' m' (write_all (rk_job_batch (sy_store s) ++ ws) mj) /\ rk_job_batch (sy_store s') = [] /\
    counter_in m' (c + n) /\
    ids_at m' col = (reverse (seqZ (c + 1) n) ++ ids_at m col)%list /\
    scores_at m' CollectionSuffix.Delayed = scores_at m CollectionSuffix.Delayed /\
    scores_at m' CollectionSuffix.Prioritized = scores_at m CollectionSuffix.Prioritized /\
    forall k, CollectionSuffix.payload_ok k ->
      k ∉ [CollectionSuffix.Id; col; CollectionSuffix.Delayed; CollectionSuffix.Prioritized] ->
      m' !! to_bytes k = m !! to_bytes k.
Proof.
  intros n col (Ht & Hc & Hr & Hb & Hl & Hd & Hp) H0 H1 Hplain.
  destruct (fold_ready qo is_paused items (no_pending, []) s m mj c Ht Hc H0 H1 Hplain)
    as (jobs & ws & t & E & Hj & Hw & Ha).
  destruct (advanced_counter _ _ _ _ _ _ _ Ha Hc H0 H1) as (m1 & Ht1 & Hc1 & Em1).
  destruct Ha as (_ & (_ & N & _) & Hbt). fold n in Hc1, E, Hj |- *.
  destruct (advanced_reads is_paused m m1 _ _ Em1) as (E1 & E2 & E3 & Hsame). fold col in E1.
  destruct (submit_ids is_paused (reverse (seqZ (c + 1) n) ++ []) t m1 mj Ht1)
    as (t' & m' & Es & Ht' & Hsub & Hbe & _).
  { rewrite Hbt, N. apply Forall_app. split; [done|]. by eapply record_trees. }
  { fold col. rewrite E1, List.app_nil_r. apply Forall_app. split; [|done].
    apply Forall_reverse, Forall_forall. intros x Hx%elem_of_seqZ. unfold u64_ok, two63, two64 in *. lia. }
  { by rewrite E2. } { by rewrite E3. }
  fold col in Hsub. pose proof (submitted_reads _ _ _ _ _ _ Hsub) as (R1 & R2 & R3 & R4). fold col in R1, R4.
  destruct (refresh_counters t' m' jobs (trees_serving _ _ _ Ht')) as (s' & Er & Hs').
  { eapply readable_submitted; [|exact Hsub]. subst m1. by apply readable_advanced. }
  exists jobs, ws, s', m'. unfold trees in *. rewrite Hs'. split_and!; try done; try apply Ht'.
  - unfold rocks_add_bulk. rewrite (run_bind _ _ _ _ _ E). cbn [fst snd no_pending pd_list pd_priorized pd_delayed app].
    by rewrite (run_bind _ _ _ _ _ Es).
  - destruct Ht' as (_ & _ & _ & Ht'). by rewrite <- Hbt.
  - destruct Hc1 as (b & Hb1 & Hb2). exists b. rewrite R4; [done|done|]. by destruct is_paused; set_solver.
  - by rewrite R1, List.app_nil_r, E1.
  - by rewrite R2.
  - by rewrite R3.
  - intros k Hk Hin. rewrite !not_elem_of_cons in Hin. destruct Hin as (? & ? & ? & ? & ?).
    rewrite R4, Hsame; [done|done|done|done|]. by rewrite !not_elem_of_cons.
Qed.

(** C22: a RocksDB batch with an item whose delay is below the limit queues
    nothing: the caller gets the refusal, the tree of the jobs is as it was, and so
    is the main tree except for the counter, which has moved by the number of
    items tried.  The records of the earlier items stay in the batch of writes in
    memory, where the next call that succeeds writes them with its own. *)
Theorem rocks_add_refused (qo : QueueOpts) (is_paused : bool) (good rest : list Item) bad ms s m mj (c : Z) :
  let n := Z.of_nat (length good) in
  trees s m mj -> counter_in m c -> 0 <= c -> c + n + 1 < two63 ->
  Forall (plain qo) good -> item_refused ms bad -> jo_priority (opts_of qo bad) = 0 ->
  exists jobs ws s', rocks_add_bulk (good ++ bad :: rest) qo is_paused s = (Err (refusal ms), s') /\
    j_id <$> jobs = Some <$> seqZ (c + 1) n /\ Forall2 (record_of (sy_store s)) jobs ws /\
    rk_job_batch (sy_store s') = (rk_job_batch (sy_store s) ++ ws)%list /\
    trees s' (<[to_bytes CollectionSuffix.Id := be_bytes (c + n + 1)]> m) mj.
Proof.
  intros n Ht Hc H0 H1 Hplain Hbad Hp.
  destruct (fold_ready qo is_paused good (no_pending, []) s m mj c Ht Hc H0 ltac:(lia) Hplain)
    as (jobs & ws & t & E & Hj & Hw & Ha).
  destruct (advanced_counter _ _ _ _ _ _ _ Ha Hc H0 ltac:(lia)) as (m1 & Ht1 & Hc1 & Em1).
  match type of E with _ = (Ok ?acc, _) =>
    destruct (round_refused qo is_paused acc bad t m1 mj (c + n) ms Ht1 Hc1 ltac:(lia) ltac:(lia) Hbad Hp)
      as (s' & E' & Ha' & _) end.
  destruct (advanced_trans s t s' m m1 mj c _ 1 ws [] Ha Em1 Ha') as (Ht' & _ & Hb').
  exists jobs, ws, s'. split_and!; [|done|done|by rewrite List.app_nil_r in Hb'|].
  - unfold rocks_add_bulk. eapply run_bind_err. rewrite for_fold_app, (run_bind _ _ _ _ _ E). cbn [for_fold].
    by rewrite (run_bind_err _ _ _ _ _ E').
  - rewrite Nat.add_1_r in Ht'.
    replace (c + n + 1) with (c + Z.of_nat (S (length good))) by lia. exact Ht'.
Qed.
End Insert.

(** ** Witnesses *)

#[local] Existing Instance sample_extern.
#[local] Existing Instance ticking_clock.
#[local] Existing Instance sample_rocks.
#[local] Existing Instance sample_rocks_laws.
#[local] Existing Instance sample_kv.
#[local] Existing Instance sample_kv_laws.

Abbreviation ids_at := (list_in (D := Z) (R := Z) (P := Z)).
Abbreviation scores_at := (scores_in (D := Z) (R := Z) (P := Z)).

Definition demo : SysOf (RocksStore ZMap) Z Z unit := sample_rocks_sys "kio" "demo".
Definition demo_tree (name : string) : gmap string string :=
  unwrap_or ∅ ((rk_db (sy_store demo) : Families) !! name).

Definition demo_items : list (string * option JobOptions * Z) := [("a", None, 10); ("b", None, 20)].
Definition demo_bad : string * option JobOptions * Z :=
  ("c", Some (mkJobOptions 0 (TimeMilis 20) None 0 None None None None), 30).

Lemma demo_trees : trees demo (demo_tree "kio:demo") (demo_tree "kio:demo:jobs").
Proof.
  split; [exact I|]. split; [by vm_compute|]. split; vm_compute; reflexivity.
Qed.

Lemma demo_counter : counter_in (demo_tree "kio:demo") 0.
Proof. exists (text_of 0). split; by vm_compute. Qed.

Lemma demo_startable is_paused :
  startable (D := Z) is_paused demo (demo_tree "kio:demo") (demo_tree "kio:demo:jobs") 0.
Proof.
  split; [apply demo_trees|]. split; [apply demo_counter|]. split.
  - intros col t v Hin. unfold counted in Hin.
    repeat (apply elem_of_cons in Hin; destruct Hin as [Hin|Hin];
      [injection Hin as -> ->; vm_compute; intros [= <-] || done; by eexists|]).
    by apply elem_of_nil in Hin.
  - split; [constructor|].
    assert (E1 : ids_at (demo_tree "kio:demo") (next_list is_paused) = []) by (destruct is_paused; by vm_compute).
    assert (E2 : scores_at (demo_tree "kio:demo") CollectionSuffix.Delayed = []) by (by vm_compute).
    assert (E3 : scores_at (demo_tree "kio:demo") CollectionSuffix.Prioritized = []) by (by vm_compute).
    rewrite E1, E2, E3. split; [constructor|]. repeat constructor.
Qed.

Lemma demo_plain : Forall (plain (R := Z) (P := Z) QueueOpts_default) demo_items.
Proof.
  apply Forall_cons. split; [|apply Forall_singleton];
    (split; [reflexivity|split; [reflexivity|]]; intros queue_name now id; cbn; by eexists).
Qed.

Lemma rocks_add_witness :
  exists jobs s' m' mj', rocks_add_bulk (P := Z) demo_items QueueOpts_default false demo = (Ok jobs, s') /\
    j_id <$> jobs = [Some 1; Some 2] /\ trees s' m' mj' /\ ids_at m' CollectionSuffix.Wait = [2; 1].
Proof.
  destruct (rocks_add QueueOpts_default false demo_items demo (demo_tree "kio:demo") (demo_tree "kio:demo:jobs") 0
    (demo_startable false)) as (jobs & ws & s' & m' & E & Hj & _ & Ht & _ & _ & Hl & _);
    [lia|unfold two63; cbn; lia|apply demo_plain|].
  exists jobs, s', m'. eexists. split; [exact E|]. split; [exact Hj|]. split; [exact Ht|].
  transitivity (reverse (seqZ 1 2) ++ ids_at (demo_tree "kio:demo") CollectionSuffix.Wait)%list; [exact Hl|].
  vm_compute. reflexivity.
Defined.

Lemma rocks_add_refused_witness :
  exists s' m', rocks_add_bulk (P := Z) (demo_items ++ [demo_bad]) QueueOpts_default false demo =
      (Err (refusal 20), s') /\
    length (rk_job_batch (sy_store s')) = 2%nat /\ trees s' m' (demo_tree "kio:demo:jobs") /\
    counter_in m' 3 /\ ids_at m' CollectionSuffix.Wait = [].
Proof.
  destruct (rocks_add_refused QueueOpts_default false demo_items [] demo_bad 20 demo (demo_tree "kio:demo")
    (demo_tree "kio:demo:jobs") 0 demo_trees demo_counter) as (jobs & ws & s' & E & Hj & Hw & Hb & Ht);
    [lia|unfold two63; cbn; lia|apply demo_plain| |done|].
  { split; [done|]. split; [unfold MIN_DELAY_MS_LIMIT; lia|]. intros n. unfold dated, milliseconds. cbn. lia. }
  eexists s', _. split; [exact E|]. split; [|split; [exact Ht|]].
  - rewrite Hb. cbn. rewrite <- (Forall2_length _ _ _ Hw), <- (length_fmap j_id jobs), Hj. done.
  - split; [apply counter_put; unfold two63; cbn; lia|]. vm_compute. reflexivity.
Defined.
